(** * Parse analysis of AntDB (src/backend/parser/analyze.c)

    A shallow embedding of the semantic-analysis stage: the raw parse tree
    is turned into a [Query].  The functions of analyze.c are embedded as
    Rocq functions over records that follow the C structs they read and
    write.  Functions of other files of the backend (the expression
    transformer, the range-table manager, the catalog, ...) are the
    analyzer's collaborators: they are fields of the class [Collaborators]
    and every call that hands one of them the parse state is recorded in a
    trace of [Event]s.

    Conventions of the embedding:
    - a [Node *] that may be NULL is an [option];
    - a [List *] is a [list] (NIL is the empty list);
    - a pointer to a range-table entry that lives in [p_rtable] is its
      1-based range-table index;
    - source locations (error cursor positions) are not part of the records;
    - fields that analyze.c neither reads nor writes are left out. *)

From Stdlib Require Import ZArith Ascii String.
From stdpp Require Import base list strings pretty gmap.

Set Warnings "-register-all,-postfix-notation-not-level-1".
#[local] Open Scope Z_scope.

(** ** Scalars *)

Definition Oid := Z.
Definition InvalidOid : Oid := 0.
Definition OidIsValid (o : Oid) : bool := negb (o =? InvalidOid).

(** [Index] is an unsigned int, used for range-table indexes (0: none). *)
Definition Index := nat.
(** [AttrNumber] is an int16. *)
Definition AttrNumber := Z.
Definition InvalidAttrNumber : AttrNumber := 0.
Definition Datum := Z.

(** The cast [(AttrNumber) i] of an int to the 16-bit attribute number. *)
Definition to_AttrNumber (i : Z) : AttrNumber := (i + 32768) mod 65536 - 32768.

(** Reading a 64-bit datum as a signed integer of [w] bits. *)
Definition signed_of (w : Z) (d : Datum) : Z :=
  let m := d mod 2 ^ w in
  if m <? 2 ^ (w - 1) then m else m - 2 ^ w.
Definition DatumGetInt64 (d : Datum) : Z := signed_of 64 d.
Definition DatumGetInt32 (d : Datum) : Z := signed_of 32 d.
Definition DatumGetInt16 (d : Datum) : Z := signed_of 16 d.
Definition Int64GetDatum (v : Z) : Datum := v mod 2 ^ 64.

(** Type oids of catalog/pg_type.h that analyze.c names. *)
Definition INT8OID : Oid := 20.
Definition INT2OID : Oid := 21.
Definition INT4OID : Oid := 23.
Definition UNKNOWNOID : Oid := 705.
Definition RECORDOID : Oid := 2249.

(** Access-mode bits of nodes/parsenodes.h. *)
Definition AclMode := Z.
Definition ACL_INSERT : AclMode := 1.
Definition ACL_SELECT : AclMode := 2.
Definition ACL_UPDATE : AclMode := 4.
Definition ACL_DELETE : AclMode := 8.
Definition ACL_SELECT_FOR_UPDATE : AclMode := ACL_UPDATE.

(** A [Bitmapset] is a finite set of non-negative integers. *)
Definition Bitmapset := gset Z.
Definition bms_add_member (a : Bitmapset) (x : Z) : Bitmapset := {[ x ]} ∪ a.
Definition bms_is_member (x : Z) (a : Bitmapset) : bool := bool_decide (x ∈ a).

(** ** Errors *)

Inductive ErrCode : Type :=
| ERRCODE_SYNTAX_ERROR
| ERRCODE_FEATURE_NOT_SUPPORTED
| ERRCODE_UNDEFINED_COLUMN
| ERRCODE_UNDEFINED_TABLE
| ERRCODE_UNDEFINED_OBJECT
| ERRCODE_INVALID_CURSOR_DEFINITION
| ERRCODE_INVALID_COLUMN_REFERENCE
| ERRCODE_STATEMENT_TOO_COMPLEX
| ERRCODE_INTERNAL_ERROR          (* elog(ERROR, ...) and ereport without errcode *)
| ERRCODE_OTHER (sqlstate : string).  (* raised by a collaborator *)

Record ErrorData : Type := mkError {
  sqlerrcode : ErrCode;
  message : string;
  detail : option string;
  hint : option string }.

(** ereport(ERROR, (errcode(c), errmsg(m))) and elog(ERROR, m). *)
Definition ereport (c : ErrCode) (m : string) : ErrorData := mkError c m None None.
Definition elog (m : string) : ErrorData := mkError ERRCODE_INTERNAL_ERROR m None None.

(** The result of a computation that may raise an error. *)
Inductive Outcome (A : Type) : Type :=
| Done (a : A)
| Raised (e : ErrorData).
Arguments Done {A} a.
Arguments Raised {A} e.

#[global] Instance Outcome_ret : MRet Outcome := fun A a => Done a.
#[global] Instance Outcome_bind : MBind Outcome := fun A B k o =>
  match o with
  | Done a => k a
  | Raised e => Raised e
  end.
#[global] Instance Outcome_throw : MThrow ErrorData Outcome := fun A e => Raised e.

Definition is_Done {A : Type} (o : Outcome A) : bool :=
  match o with Done _ => true | Raised _ => false end.

(** A foreach loop that threads an accumulator and may raise. *)
Fixpoint foldO {A B : Type} (f : B -> A -> Outcome B) (acc : B) (l : list A)
    : Outcome B :=
  match l with
  | [] => Done acc
  | x :: l' =>
      match f acc x with
      | Done acc' => foldO f acc' l'
      | Raised e => Raised e
      end
  end.

Definition dquote : string := String (ascii_of_nat 34) EmptyString.

(** ** Expression nodes *)

Inductive NodeTag : Type :=
| T_Var | T_Const | T_Param | T_RownumExpr | T_ColumnRefJoin
| T_OpExpr | T_FuncExpr | T_BoolExpr | T_SetToDefault | T_RowExpr
| T_InsertStmt | T_DeleteStmt | T_UpdateStmt | T_SelectStmt
| T_DeclareCursorStmt | T_ExplainStmt | T_ExecDirectStmt | T_CreateTableAsStmt
| T_Query | T_RangeTblRef | T_JoinExpr | T_FromExpr | T_SetOperationStmt
| T_RemoteQuery | T_CreateTableSpaceStmt | T_DropTableSpaceStmt
| T_Invalid (n : nat).            (* every other tag of nodes/nodes.h *)

Record Var : Type := mkVar {
  varno : Index;
  varattno : AttrNumber;
  vartype : Oid;
  vartypmod : Z;
  varcollid : Oid;
  varlevelsup : Index }.

Record Const : Type := mkConst {
  consttype : Oid;
  consttypmod : Z;
  constcollid : Oid;
  constlen : Z;
  constvalue : Datum;
  constisnull : bool;
  constbyval : bool }.

Record Param : Type := mkParam {
  paramid : Z;
  paramtype : Oid;
  paramtypmod : Z;
  paramcollid : Oid }.

Record SetToDefault : Type := mkSetToDefault {
  typeId : Oid;
  typeMod : Z;
  collation : Oid }.

Inductive BoolExprType : Type := AND_EXPR | OR_EXPR | NOT_EXPR.

(** Expressions, raw or transformed.  [NOpaque] stands for every node kind
    that analyze.c only hands on to its collaborators; it keeps the tag and
    the sub-expressions that expression_tree_walker would visit. *)
Inductive Node : Type :=
| NVar (v : Var)
| NConst (c : Const)
| NParam (p : Param)
| NRownumExpr
| NColumnRefJoin (var : Var)
| NOpExpr (opno opfuncid : Oid) (args : list Node)
| NFuncExpr (funcid : Oid) (args : list Node)
| NBoolExpr (boolop : BoolExprType) (args : list Node)
| NSetToDefault (d : SetToDefault)
| NRowExpr (args : list Node)
| NOpaque (tag : NodeTag) (args : list Node).

Definition nodeTag (n : Node) : NodeTag :=
  match n with
  | NVar _ => T_Var
  | NConst _ => T_Const
  | NParam _ => T_Param
  | NRownumExpr => T_RownumExpr
  | NColumnRefJoin _ => T_ColumnRefJoin
  | NOpExpr _ _ _ => T_OpExpr
  | NFuncExpr _ _ => T_FuncExpr
  | NBoolExpr _ _ => T_BoolExpr
  | NSetToDefault _ => T_SetToDefault
  | NRowExpr _ => T_RowExpr
  | NOpaque tag _ => tag
  end.

Definition is_Const (n : Node) : bool := match n with NConst _ => true | _ => false end.
Definition is_Param (n : Node) : bool := match n with NParam _ => true | _ => false end.
Definition is_RownumExpr (n : Node) : bool :=
  match n with NRownumExpr => true | _ => false end.
Definition is_SetToDefault (n : Node) : bool :=
  match n with NSetToDefault _ => true | _ => false end.

(** makeBoolExpr of nodes/makefuncs.c and and_clause of optimizer/clauses.c. *)
Definition makeBoolExpr (boolop : BoolExprType) (args : list Node) : Node :=
  NBoolExpr boolop args.
Definition and_clause (clause : Node) : bool :=
  match clause with NBoolExpr AND_EXPR _ => true | _ => false end.

(** [have_ora_column_join]: does an outer-join marker occur in the tree?
    The walk over the sub-expressions is expression_tree_walker's. *)
Fixpoint have_ora_column_join (node : Node) : bool :=
  match node with
  | NColumnRefJoin _ => true
  | NOpExpr _ _ args | NFuncExpr _ args | NBoolExpr _ args
  | NRowExpr args | NOpaque _ args => existsb have_ora_column_join args
  | NVar _ | NConst _ | NParam _ | NRownumExpr | NSetToDefault _ => false
  end.

(** [remove_column_join_expr]: replace every marker by the Var it wraps.
    The rebuild of the other nodes is expression_tree_mutator's. *)
Fixpoint remove_column_join_expr (node : Node) : Node :=
  match node with
  | NColumnRefJoin var => NVar var
  | NOpExpr opno opfuncid args => NOpExpr opno opfuncid (map remove_column_join_expr args)
  | NFuncExpr funcid args => NFuncExpr funcid (map remove_column_join_expr args)
  | NBoolExpr boolop args => NBoolExpr boolop (map remove_column_join_expr args)
  | NRowExpr args => NRowExpr (map remove_column_join_expr args)
  | NOpaque tag args => NOpaque tag (map remove_column_join_expr args)
  | NVar _ | NConst _ | NParam _ | NRownumExpr | NSetToDefault _ => node
  end.

(** The two functions on a [Node *] that may be NULL. *)
Definition have_ora_column_join_opt (node : option Node) : bool :=
  match node with None => false | Some n => have_ora_column_join n end.
Definition remove_column_join_expr_opt (node : option Node) : option Node :=
  match node with None => None | Some n => Some (remove_column_join_expr n) end.

(** Modelled from the spec: contain_rownum (optimizer/clauses.c, not in
    src/) is the type-system collaborator [contain_rownum(node) -> bool];
    it tells whether a ROWNUM reference occurs in the expression. *)
Fixpoint contain_rownum (node : Node) : bool :=
  match node with
  | NRownumExpr => true
  | NOpExpr _ _ args | NFuncExpr _ args | NBoolExpr _ args
  | NRowExpr args | NOpaque _ args => existsb contain_rownum args
  | NVar _ | NConst _ | NParam _ | NColumnRefJoin _ | NSetToDefault _ => false
  end.
Definition contain_rownum_opt (node : option Node) : bool :=
  match node with None => false | Some n => contain_rownum n end.

(** ** Field assignment

    [r <| f := v |>] is the record [r] after the assignment [r->f = v]. *)
Class Setter {R T : Type} (proj : R -> T) : Type := setf : T -> R -> R.
Arguments setf {R T} proj {Setter} v r.
Notation "r <| f := v |>" := (setf f v r)
  (at level 12, f at level 8, v at level 200, left associativity).

(** ** The raw parse tree *)

Inductive InhOption : Type := INH_NO | INH_YES | INH_DEFAULT.

(** Lock strengths, in the order of the enum of nodes/parsenodes.h (the
    order LCS_asString lists them in): a later one is the stronger. *)
Inductive LockClauseStrength : Type :=
| LCS_FORKEYSHARE
| LCS_FORSHARE
| LCS_FORNOKEYUPDATE
| LCS_FORUPDATE.

(** The integer value of the enumerator. *)
Definition LCS_value (s : LockClauseStrength) : Z :=
  match s with
  | LCS_FORKEYSHARE => 0
  | LCS_FORSHARE => 1
  | LCS_FORNOKEYUPDATE => 2
  | LCS_FORUPDATE => 3
  end.

(** The macro [Max(x, y)] of c.h on two strengths. *)
Definition Max_strength (x y : LockClauseStrength) : LockClauseStrength :=
  if LCS_value x >? LCS_value y then x else y.

Definition LCS_asString (strength : LockClauseStrength) : string :=
  match strength with
  | LCS_FORKEYSHARE => "FOR KEY SHARE"
  | LCS_FORSHARE => "FOR SHARE"
  | LCS_FORNOKEYUPDATE => "FOR NO KEY UPDATE"
  | LCS_FORUPDATE => "FOR UPDATE"
  end.

Inductive SetOperation : Type := SETOP_NONE | SETOP_UNION | SETOP_INTERSECT | SETOP_EXCEPT.

Inductive ObjectType : Type := OBJECT_TABLE | OBJECT_MATVIEW | OBJECT_OTHER.

Inductive ParseGrammar : Type := PARSE_GRAM_POSTGRES | PARSE_GRAM_ORACLE.

Inductive ParseExprKind : Type :=
| EXPR_KIND_WHERE | EXPR_KIND_HAVING | EXPR_KIND_SELECT_TARGET
| EXPR_KIND_INSERT_TARGET | EXPR_KIND_UPDATE_SOURCE | EXPR_KIND_UPDATE_TARGET
| EXPR_KIND_GROUP_BY | EXPR_KIND_ORDER_BY | EXPR_KIND_LIMIT | EXPR_KIND_OFFSET
| EXPR_KIND_RETURNING | EXPR_KIND_VALUES.

Module RangeVar.
Record t : Type := mk {
  catalogname : option string;
  schemaname : option string;
  relname : string;
  inhOpt : InhOption;
  relpersistence : ascii }.
End RangeVar.

Module ResTarget.
Record t : Type := mk {
  name : option string;
  indirection : list Node;
  val : option Node }.
End ResTarget.

Module LockingClause.
Record t : Type := mk {
  lockedRels : list RangeVar.t;
  strength : LockClauseStrength;
  noWait : bool }.
End LockingClause.

(** A common table expression; its query stays an opaque node, it is
    analyzed by transformWithClause. *)
Module CommonTableExpr.
Record t : Type := mk {
  ctename : string;
  ctequery : Node;
  cterecursive : bool;
  ctecolnames : list string;
  ctecoltypes : list Oid }.
End CommonTableExpr.

Module WithClause.
Record t : Type := mk {
  ctes : list CommonTableExpr.t;
  recursive : bool }.
End WithClause.

Module IntoClause.
Record t : Type := mk { rel : RangeVar.t }.
End IntoClause.

Module SelectStmt.
Inductive t : Type := mk {
  distinctClause : list (option Node);
  intoClause : option IntoClause.t;
  targetList : list ResTarget.t;
  fromClause : list Node;
  whereClause : option Node;
  groupClause : list Node;
  havingClause : option Node;
  windowClause : list Node;
  withClause : option WithClause.t;
  valuesLists : list (list Node);
  sortClause : list Node;
  limitOffset : option Node;
  limitCount : option Node;
  lockingClause : list LockingClause.t;
  op : SetOperation;
  all : bool;
  larg : option t;
  rarg : option t }.

Definition set_intoClause (v : option IntoClause.t) (s : t) : t :=
  mk (distinctClause s) v (targetList s) (fromClause s) (whereClause s)
     (groupClause s) (havingClause s) (windowClause s) (withClause s)
     (valuesLists s) (sortClause s) (limitOffset s) (limitCount s)
     (lockingClause s) (op s) (all s) (larg s) (rarg s).
Definition set_larg (v : option t) (s : t) : t :=
  mk (distinctClause s) (intoClause s) (targetList s) (fromClause s) (whereClause s)
     (groupClause s) (havingClause s) (windowClause s) (withClause s)
     (valuesLists s) (sortClause s) (limitOffset s) (limitCount s)
     (lockingClause s) (op s) (all s) v (rarg s).
(** The five assignments by which transformSetOperationStmt detaches
    the top-level clauses of a set-operation statement. *)
Definition clear_top_clauses (s : t) : t :=
  mk (distinctClause s) (intoClause s) (targetList s) (fromClause s) (whereClause s)
     (groupClause s) (havingClause s) (windowClause s) None
     (valuesLists s) [] None None
     [] (op s) (all s) (larg s) (rarg s).
End SelectStmt.

Module InsertStmt.
Record t : Type := mk {
  relation : RangeVar.t;
  cols : list ResTarget.t;
  selectStmt : option SelectStmt.t;
  returningList : list ResTarget.t;
  withClause : option WithClause.t }.
End InsertStmt.

Module DeleteStmt.
Record t : Type := mk {
  relation : RangeVar.t;
  usingClause : list Node;
  whereClause : option Node;
  returningList : list ResTarget.t;
  withClause : option WithClause.t }.
End DeleteStmt.

Module UpdateStmt.
Record t : Type := mk {
  relation : RangeVar.t;
  targetList : list ResTarget.t;
  whereClause : option Node;
  fromClause : list Node;
  returningList : list ResTarget.t;
  withClause : option WithClause.t }.
End UpdateStmt.

(** Cursor option bits of nodes/parsenodes.h. *)
Definition CURSOR_OPT_SCROLL : Z := 2.
Definition CURSOR_OPT_NO_SCROLL : Z := 4.
Definition CURSOR_OPT_INSENSITIVE : Z := 8.
Definition CURSOR_OPT_HOLD : Z := 16.

(** The RemoteQuery node that EXECUTE DIRECT builds. *)
Inductive RemoteQueryExecType : Type := EXEC_ON_DATANODES | EXEC_ON_COORDS.
Inductive ExecDirectType : Type :=
| EXEC_DIRECT_NONE | EXEC_DIRECT_LOCAL | EXEC_DIRECT_LOCAL_UTILITY | EXEC_DIRECT_UTILITY
| EXEC_DIRECT_SELECT | EXEC_DIRECT_INSERT | EXEC_DIRECT_UPDATE | EXEC_DIRECT_DELETE.
Inductive CombineType : Type := COMBINE_TYPE_NONE | COMBINE_TYPE_SAME.

Module RemoteQuery.
Record t : Type := mk {
  sql_statement : option string;
  exec_nodes_nodeList : list Z;
  combine_type : CombineType;
  read_only : bool;
  force_autocommit : bool;
  exec_type : RemoteQueryExecType;
  exec_direct_type : ExecDirectType }.
End RemoteQuery.

(** A statement node.  The [query] of the three wrapping statements is
    [None] once the analyzer has detached or replaced it. *)
Inductive RawStmt : Type :=
| InsertStmtNode (s : InsertStmt.t)
| DeleteStmtNode (s : DeleteStmt.t)
| UpdateStmtNode (s : UpdateStmt.t)
| SelectStmtNode (s : SelectStmt.t)
| DeclareCursorStmtNode (portalname : string) (options : Z) (query : option RawStmt)
| ExplainStmtNode (query : option RawStmt) (options : list Node)
| CreateTableAsStmtNode (query : option RawStmt) (into : IntoClause.t)
    (relkind : ObjectType) (is_select_into : bool)
| ExecDirectStmtNode (node_names : list string) (query : string)
| RemoteQueryNode (step : RemoteQuery.t)
| UtilityStmtNode (tag : NodeTag).

Definition stmtTag (parseTree : RawStmt) : NodeTag :=
  match parseTree with
  | InsertStmtNode _ => T_InsertStmt
  | DeleteStmtNode _ => T_DeleteStmt
  | UpdateStmtNode _ => T_UpdateStmt
  | SelectStmtNode _ => T_SelectStmt
  | DeclareCursorStmtNode _ _ _ => T_DeclareCursorStmt
  | ExplainStmtNode _ _ => T_ExplainStmt
  | CreateTableAsStmtNode _ _ _ _ => T_CreateTableAsStmt
  | ExecDirectStmtNode _ _ => T_ExecDirectStmt
  | RemoteQueryNode _ => T_RemoteQuery
  | UtilityStmtNode tag => tag
  end.

(** ** The query tree *)

Inductive CmdType : Type :=
| CMD_UNKNOWN | CMD_SELECT | CMD_UPDATE | CMD_INSERT | CMD_DELETE | CMD_UTILITY | CMD_NOTHING.

Inductive QuerySource : Type := QSRC_ORIGINAL | QSRC_PARSER | QSRC_OTHER.

Inductive RTEKind : Type :=
| RTE_RELATION | RTE_SUBQUERY | RTE_JOIN | RTE_FUNCTION | RTE_VALUES | RTE_CTE
| RTE_REMOTE_DUMMY.

Inductive JoinType : Type := JOIN_INNER | JOIN_LEFT | JOIN_FULL | JOIN_RIGHT.

Record Alias : Type := mkAlias { aliasname : string; colnames : list string }.
Definition makeAlias (aliasname : string) (colnames : list string) : Alias :=
  mkAlias aliasname colnames.

(** A target entry; [expr] is never NULL in the lists analyze.c builds. *)
Record TargetEntry : Type := mkTargetEntry {
  expr : Node;
  resno : AttrNumber;
  resname : option string;
  ressortgroupref : Index;
  resjunk : bool }.

Definition makeTargetEntry (expr : Node) (resno : AttrNumber)
    (resname : option string) (resjunk : bool) : TargetEntry :=
  mkTargetEntry expr resno resname 0%nat resjunk.

Module RowMarkClause.
Record t : Type := mk {
  rti : Index;
  strength : LockClauseStrength;
  noWait : bool;
  pushedDown : bool }.
End RowMarkClause.

Record SortGroupClause : Type := mkSortGroupClause {
  tleSortGroupRef : Index;
  eqop : Oid;
  sortop : Oid;
  nulls_first : bool;
  hashable : bool }.

(** The join tree: RangeTblRef, JoinExpr and FromExpr nodes.  Any other
    node met in a join tree is [OtherJoinNode]. *)
Inductive JoinTree : Type :=
| RangeTblRef (rtindex : Index)
| JoinExpr (jointype : JoinType) (larg rarg : JoinTree) (quals : option Node)
    (alias : option Alias) (rtindex : Index)
| FromExpr (fromlist : list JoinTree) (quals : option Node)
| OtherJoinNode (tag : NodeTag).

Definition makeFromExpr (fromlist : list JoinTree) (quals : option Node) : JoinTree :=
  FromExpr fromlist quals.

(** [jointree->quals] and its assignment, for the FromExpr of a Query. *)
Definition jointree_quals (jointree : JoinTree) : option Node :=
  match jointree with
  | FromExpr _ quals => quals
  | _ => None
  end.
Definition set_jointree_quals (v : option Node) (jointree : JoinTree) : JoinTree :=
  match jointree with
  | FromExpr fromlist _ => FromExpr fromlist v
  | _ => jointree
  end.

(** The set-operation tree hung on a Query: leaves are RangeTblRefs. *)
Inductive SetOpTree : Type :=
| SetOpRangeTblRef (rtindex : Index)
| SetOperationStmt (op : SetOperation) (all : bool) (larg rarg : SetOpTree)
    (colTypes : list Oid) (colTypmods : list Z) (colCollations : list Oid)
    (groupClauses : list SortGroupClause).

Inductive Query : Type := mkQuery {
  commandType : CmdType;
  querySource : QuerySource;
  canSetTag : bool;
  utilityStmt : option UtilityStmt;
  resultRelation : Index;
  hasAggs : bool;
  hasWindowFuncs : bool;
  hasSubLinks : bool;
  hasDistinctOn : bool;
  hasRecursive : bool;
  hasModifyingCTE : bool;
  hasForUpdate : bool;
  cteList : list CommonTableExpr.t;
  rtable : list RangeTblEntry;
  jointree : option JoinTree;
  targetList : list TargetEntry;
  returningList : list TargetEntry;
  groupClause : list SortGroupClause;
  havingQual : option Node;
  windowClause : list Node;
  distinctClause : list SortGroupClause;
  sortClause : list SortGroupClause;
  limitOffset : option Node;
  limitCount : option Node;
  rowMarks : list RowMarkClause.t;
  setOperations : option SetOpTree;
  sql_statement : option string;
  is_local : bool;
  has_to_save_cmd_id : bool }
with RangeTblEntry : Type := mkRangeTblEntry {
  rtekind : RTEKind;
  relid : Oid;
  subquery : option Query;
  rte_jointype : JoinType;
  joinaliasvars : list Node;
  values_lists : list (list Node);
  values_collations : list Oid;
  rte_alias : option Alias;
  eref : Alias;
  lateral : bool;
  inh : bool;
  inFromCl : bool;
  requiredPerms : AclMode;
  modifiedCols : Bitmapset }
with UtilityStmt : Type := mkUtilityStmt {
  (* the statement node itself *)
  utility_stmt : RawStmt;
  (* the analyzed query that EXPLAIN and CREATE TABLE AS store in stmt->query *)
  utility_query : option Query;
  (* the copy that CREATE MATERIALIZED VIEW stores in stmt->into->viewQuery *)
  utility_viewQuery : option Query }.

#[global] Instance set_commandType : Setter commandType := fun v r =>
  mkQuery v (querySource r) (canSetTag r) (utilityStmt r) (resultRelation r)
    (hasAggs r) (hasWindowFuncs r) (hasSubLinks r) (hasDistinctOn r)
    (hasRecursive r) (hasModifyingCTE r) (hasForUpdate r) (cteList r) (rtable r)
    (jointree r) (targetList r) (returningList r) (groupClause r) (havingQual r)
    (windowClause r) (distinctClause r) (sortClause r) (limitOffset r)
    (limitCount r) (rowMarks r) (setOperations r) (sql_statement r) (is_local r)
    (has_to_save_cmd_id r).
#[global] Instance set_querySource : Setter querySource := fun v r =>
  mkQuery (commandType r) v (canSetTag r) (utilityStmt r) (resultRelation r)
    (hasAggs r) (hasWindowFuncs r) (hasSubLinks r) (hasDistinctOn r)
    (hasRecursive r) (hasModifyingCTE r) (hasForUpdate r) (cteList r) (rtable r)
    (jointree r) (targetList r) (returningList r) (groupClause r) (havingQual r)
    (windowClause r) (distinctClause r) (sortClause r) (limitOffset r)
    (limitCount r) (rowMarks r) (setOperations r) (sql_statement r) (is_local r)
    (has_to_save_cmd_id r).
#[global] Instance set_canSetTag : Setter canSetTag := fun v r =>
  mkQuery (commandType r) (querySource r) v (utilityStmt r) (resultRelation r)
    (hasAggs r) (hasWindowFuncs r) (hasSubLinks r) (hasDistinctOn r)
    (hasRecursive r) (hasModifyingCTE r) (hasForUpdate r) (cteList r) (rtable r)
    (jointree r) (targetList r) (returningList r) (groupClause r) (havingQual r)
    (windowClause r) (distinctClause r) (sortClause r) (limitOffset r)
    (limitCount r) (rowMarks r) (setOperations r) (sql_statement r) (is_local r)
    (has_to_save_cmd_id r).
#[global] Instance set_utilityStmt : Setter utilityStmt := fun v r =>
  mkQuery (commandType r) (querySource r) (canSetTag r) v (resultRelation r)
    (hasAggs r) (hasWindowFuncs r) (hasSubLinks r) (hasDistinctOn r)
    (hasRecursive r) (hasModifyingCTE r) (hasForUpdate r) (cteList r) (rtable r)
    (jointree r) (targetList r) (returningList r) (groupClause r) (havingQual r)
    (windowClause r) (distinctClause r) (sortClause r) (limitOffset r)
    (limitCount r) (rowMarks r) (setOperations r) (sql_statement r) (is_local r)
    (has_to_save_cmd_id r).
#[global] Instance set_resultRelation : Setter resultRelation := fun v r =>
  mkQuery (commandType r) (querySource r) (canSetTag r) (utilityStmt r) v
    (hasAggs r) (hasWindowFuncs r) (hasSubLinks r) (hasDistinctOn r)
    (hasRecursive r) (hasModifyingCTE r) (hasForUpdate r) (cteList r) (rtable r)
    (jointree r) (targetList r) (returningList r) (groupClause r) (havingQual r)
    (windowClause r) (distinctClause r) (sortClause r) (limitOffset r)
    (limitCount r) (rowMarks r) (setOperations r) (sql_statement r) (is_local r)
    (has_to_save_cmd_id r).
#[global] Instance set_hasAggs : Setter hasAggs := fun v r =>
  mkQuery (commandType r) (querySource r) (canSetTag r) (utilityStmt r)
    (resultRelation r) v (hasWindowFuncs r) (hasSubLinks r) (hasDistinctOn r)
    (hasRecursive r) (hasModifyingCTE r) (hasForUpdate r) (cteList r) (rtable r)
    (jointree r) (targetList r) (returningList r) (groupClause r) (havingQual r)
    (windowClause r) (distinctClause r) (sortClause r) (limitOffset r)
    (limitCount r) (rowMarks r) (setOperations r) (sql_statement r) (is_local r)
    (has_to_save_cmd_id r).
#[global] Instance set_hasWindowFuncs : Setter hasWindowFuncs := fun v r =>
  mkQuery (commandType r) (querySource r) (canSetTag r) (utilityStmt r)
    (resultRelation r) (hasAggs r) v (hasSubLinks r) (hasDistinctOn r)
    (hasRecursive r) (hasModifyingCTE r) (hasForUpdate r) (cteList r) (rtable r)
    (jointree r) (targetList r) (returningList r) (groupClause r) (havingQual r)
    (windowClause r) (distinctClause r) (sortClause r) (limitOffset r)
    (limitCount r) (rowMarks r) (setOperations r) (sql_statement r) (is_local r)
    (has_to_save_cmd_id r).
#[global] Instance set_hasSubLinks : Setter hasSubLinks := fun v r =>
  mkQuery (commandType r) (querySource r) (canSetTag r) (utilityStmt r)
    (resultRelation r) (hasAggs r) (hasWindowFuncs r) v (hasDistinctOn r)
    (hasRecursive r) (hasModifyingCTE r) (hasForUpdate r) (cteList r) (rtable r)
    (jointree r) (targetList r) (returningList r) (groupClause r) (havingQual r)
    (windowClause r) (distinctClause r) (sortClause r) (limitOffset r)
    (limitCount r) (rowMarks r) (setOperations r) (sql_statement r) (is_local r)
    (has_to_save_cmd_id r).
#[global] Instance set_hasDistinctOn : Setter hasDistinctOn := fun v r =>
  mkQuery (commandType r) (querySource r) (canSetTag r) (utilityStmt r)
    (resultRelation r) (hasAggs r) (hasWindowFuncs r) (hasSubLinks r) v
    (hasRecursive r) (hasModifyingCTE r) (hasForUpdate r) (cteList r) (rtable r)
    (jointree r) (targetList r) (returningList r) (groupClause r) (havingQual r)
    (windowClause r) (distinctClause r) (sortClause r) (limitOffset r)
    (limitCount r) (rowMarks r) (setOperations r) (sql_statement r) (is_local r)
    (has_to_save_cmd_id r).
#[global] Instance set_hasRecursive : Setter hasRecursive := fun v r =>
  mkQuery (commandType r) (querySource r) (canSetTag r) (utilityStmt r)
    (resultRelation r) (hasAggs r) (hasWindowFuncs r) (hasSubLinks r)
    (hasDistinctOn r) v (hasModifyingCTE r) (hasForUpdate r) (cteList r) (rtable r)
    (jointree r) (targetList r) (returningList r) (groupClause r) (havingQual r)
    (windowClause r) (distinctClause r) (sortClause r) (limitOffset r)
    (limitCount r) (rowMarks r) (setOperations r) (sql_statement r) (is_local r)
    (has_to_save_cmd_id r).
#[global] Instance set_hasModifyingCTE : Setter hasModifyingCTE := fun v r =>
  mkQuery (commandType r) (querySource r) (canSetTag r) (utilityStmt r)
    (resultRelation r) (hasAggs r) (hasWindowFuncs r) (hasSubLinks r)
    (hasDistinctOn r) (hasRecursive r) v (hasForUpdate r) (cteList r) (rtable r)
    (jointree r) (targetList r) (returningList r) (groupClause r) (havingQual r)
    (windowClause r) (distinctClause r) (sortClause r) (limitOffset r)
    (limitCount r) (rowMarks r) (setOperations r) (sql_statement r) (is_local r)
    (has_to_save_cmd_id r).
#[global] Instance set_hasForUpdate : Setter hasForUpdate := fun v r =>
  mkQuery (commandType r) (querySource r) (canSetTag r) (utilityStmt r)
    (resultRelation r) (hasAggs r) (hasWindowFuncs r) (hasSubLinks r)
    (hasDistinctOn r) (hasRecursive r) (hasModifyingCTE r) v (cteList r) (rtable r)
    (jointree r) (targetList r) (returningList r) (groupClause r) (havingQual r)
    (windowClause r) (distinctClause r) (sortClause r) (limitOffset r)
    (limitCount r) (rowMarks r) (setOperations r) (sql_statement r) (is_local r)
    (has_to_save_cmd_id r).
#[global] Instance set_cteList : Setter cteList := fun v r =>
  mkQuery (commandType r) (querySource r) (canSetTag r) (utilityStmt r)
    (resultRelation r) (hasAggs r) (hasWindowFuncs r) (hasSubLinks r)
    (hasDistinctOn r) (hasRecursive r) (hasModifyingCTE r) (hasForUpdate r) v
    (rtable r) (jointree r) (targetList r) (returningList r) (groupClause r)
    (havingQual r) (windowClause r) (distinctClause r) (sortClause r)
    (limitOffset r) (limitCount r) (rowMarks r) (setOperations r) (sql_statement r)
    (is_local r) (has_to_save_cmd_id r).
#[global] Instance set_rtable : Setter rtable := fun v r =>
  mkQuery (commandType r) (querySource r) (canSetTag r) (utilityStmt r)
    (resultRelation r) (hasAggs r) (hasWindowFuncs r) (hasSubLinks r)
    (hasDistinctOn r) (hasRecursive r) (hasModifyingCTE r) (hasForUpdate r)
    (cteList r) v (jointree r) (targetList r) (returningList r) (groupClause r)
    (havingQual r) (windowClause r) (distinctClause r) (sortClause r)
    (limitOffset r) (limitCount r) (rowMarks r) (setOperations r) (sql_statement r)
    (is_local r) (has_to_save_cmd_id r).
#[global] Instance set_jointree : Setter jointree := fun v r =>
  mkQuery (commandType r) (querySource r) (canSetTag r) (utilityStmt r)
    (resultRelation r) (hasAggs r) (hasWindowFuncs r) (hasSubLinks r)
    (hasDistinctOn r) (hasRecursive r) (hasModifyingCTE r) (hasForUpdate r)
    (cteList r) (rtable r) v (targetList r) (returningList r) (groupClause r)
    (havingQual r) (windowClause r) (distinctClause r) (sortClause r)
    (limitOffset r) (limitCount r) (rowMarks r) (setOperations r) (sql_statement r)
    (is_local r) (has_to_save_cmd_id r).
#[global] Instance set_targetList : Setter targetList := fun v r =>
  mkQuery (commandType r) (querySource r) (canSetTag r) (utilityStmt r)
    (resultRelation r) (hasAggs r) (hasWindowFuncs r) (hasSubLinks r)
    (hasDistinctOn r) (hasRecursive r) (hasModifyingCTE r) (hasForUpdate r)
    (cteList r) (rtable r) (jointree r) v (returningList r) (groupClause r)
    (havingQual r) (windowClause r) (distinctClause r) (sortClause r)
    (limitOffset r) (limitCount r) (rowMarks r) (setOperations r) (sql_statement r)
    (is_local r) (has_to_save_cmd_id r).
#[global] Instance set_returningList : Setter returningList := fun v r =>
  mkQuery (commandType r) (querySource r) (canSetTag r) (utilityStmt r)
    (resultRelation r) (hasAggs r) (hasWindowFuncs r) (hasSubLinks r)
    (hasDistinctOn r) (hasRecursive r) (hasModifyingCTE r) (hasForUpdate r)
    (cteList r) (rtable r) (jointree r) (targetList r) v (groupClause r)
    (havingQual r) (windowClause r) (distinctClause r) (sortClause r)
    (limitOffset r) (limitCount r) (rowMarks r) (setOperations r) (sql_statement r)
    (is_local r) (has_to_save_cmd_id r).
#[global] Instance set_groupClause : Setter groupClause := fun v r =>
  mkQuery (commandType r) (querySource r) (canSetTag r) (utilityStmt r)
    (resultRelation r) (hasAggs r) (hasWindowFuncs r) (hasSubLinks r)
    (hasDistinctOn r) (hasRecursive r) (hasModifyingCTE r) (hasForUpdate r)
    (cteList r) (rtable r) (jointree r) (targetList r) (returningList r) v
    (havingQual r) (windowClause r) (distinctClause r) (sortClause r)
    (limitOffset r) (limitCount r) (rowMarks r) (setOperations r) (sql_statement r)
    (is_local r) (has_to_save_cmd_id r).
#[global] Instance set_havingQual : Setter havingQual := fun v r =>
  mkQuery (commandType r) (querySource r) (canSetTag r) (utilityStmt r)
    (resultRelation r) (hasAggs r) (hasWindowFuncs r) (hasSubLinks r)
    (hasDistinctOn r) (hasRecursive r) (hasModifyingCTE r) (hasForUpdate r)
    (cteList r) (rtable r) (jointree r) (targetList r) (returningList r)
    (groupClause r) v (windowClause r) (distinctClause r) (sortClause r)
    (limitOffset r) (limitCount r) (rowMarks r) (setOperations r) (sql_statement r)
    (is_local r) (has_to_save_cmd_id r).
#[global] Instance set_windowClause : Setter windowClause := fun v r =>
  mkQuery (commandType r) (querySource r) (canSetTag r) (utilityStmt r)
    (resultRelation r) (hasAggs r) (hasWindowFuncs r) (hasSubLinks r)
    (hasDistinctOn r) (hasRecursive r) (hasModifyingCTE r) (hasForUpdate r)
    (cteList r) (rtable r) (jointree r) (targetList r) (returningList r)
    (groupClause r) (havingQual r) v (distinctClause r) (sortClause r)
    (limitOffset r) (limitCount r) (rowMarks r) (setOperations r) (sql_statement r)
    (is_local r) (has_to_save_cmd_id r).
#[global] Instance set_distinctClause : Setter distinctClause := fun v r =>
  mkQuery (commandType r) (querySource r) (canSetTag r) (utilityStmt r)
    (resultRelation r) (hasAggs r) (hasWindowFuncs r) (hasSubLinks r)
    (hasDistinctOn r) (hasRecursive r) (hasModifyingCTE r) (hasForUpdate r)
    (cteList r) (rtable r) (jointree r) (targetList r) (returningList r)
    (groupClause r) (havingQual r) (windowClause r) v (sortClause r) (limitOffset r)
    (limitCount r) (rowMarks r) (setOperations r) (sql_statement r) (is_local r)
    (has_to_save_cmd_id r).
#[global] Instance set_sortClause : Setter sortClause := fun v r =>
  mkQuery (commandType r) (querySource r) (canSetTag r) (utilityStmt r)
    (resultRelation r) (hasAggs r) (hasWindowFuncs r) (hasSubLinks r)
    (hasDistinctOn r) (hasRecursive r) (hasModifyingCTE r) (hasForUpdate r)
    (cteList r) (rtable r) (jointree r) (targetList r) (returningList r)
    (groupClause r) (havingQual r) (windowClause r) (distinctClause r) v
    (limitOffset r) (limitCount r) (rowMarks r) (setOperations r) (sql_statement r)
    (is_local r) (has_to_save_cmd_id r).
#[global] Instance set_limitOffset : Setter limitOffset := fun v r =>
  mkQuery (commandType r) (querySource r) (canSetTag r) (utilityStmt r)
    (resultRelation r) (hasAggs r) (hasWindowFuncs r) (hasSubLinks r)
    (hasDistinctOn r) (hasRecursive r) (hasModifyingCTE r) (hasForUpdate r)
    (cteList r) (rtable r) (jointree r) (targetList r) (returningList r)
    (groupClause r) (havingQual r) (windowClause r) (distinctClause r)
    (sortClause r) v (limitCount r) (rowMarks r) (setOperations r) (sql_statement r)
    (is_local r) (has_to_save_cmd_id r).
#[global] Instance set_limitCount : Setter limitCount := fun v r =>
  mkQuery (commandType r) (querySource r) (canSetTag r) (utilityStmt r)
    (resultRelation r) (hasAggs r) (hasWindowFuncs r) (hasSubLinks r)
    (hasDistinctOn r) (hasRecursive r) (hasModifyingCTE r) (hasForUpdate r)
    (cteList r) (rtable r) (jointree r) (targetList r) (returningList r)
    (groupClause r) (havingQual r) (windowClause r) (distinctClause r)
    (sortClause r) (limitOffset r) v (rowMarks r) (setOperations r)
    (sql_statement r) (is_local r) (has_to_save_cmd_id r).
#[global] Instance set_rowMarks : Setter rowMarks := fun v r =>
  mkQuery (commandType r) (querySource r) (canSetTag r) (utilityStmt r)
    (resultRelation r) (hasAggs r) (hasWindowFuncs r) (hasSubLinks r)
    (hasDistinctOn r) (hasRecursive r) (hasModifyingCTE r) (hasForUpdate r)
    (cteList r) (rtable r) (jointree r) (targetList r) (returningList r)
    (groupClause r) (havingQual r) (windowClause r) (distinctClause r)
    (sortClause r) (limitOffset r) (limitCount r) v (setOperations r)
    (sql_statement r) (is_local r) (has_to_save_cmd_id r).
#[global] Instance set_setOperations : Setter setOperations := fun v r =>
  mkQuery (commandType r) (querySource r) (canSetTag r) (utilityStmt r)
    (resultRelation r) (hasAggs r) (hasWindowFuncs r) (hasSubLinks r)
    (hasDistinctOn r) (hasRecursive r) (hasModifyingCTE r) (hasForUpdate r)
    (cteList r) (rtable r) (jointree r) (targetList r) (returningList r)
    (groupClause r) (havingQual r) (windowClause r) (distinctClause r)
    (sortClause r) (limitOffset r) (limitCount r) (rowMarks r) v (sql_statement r)
    (is_local r) (has_to_save_cmd_id r).
#[global] Instance set_sql_statement : Setter sql_statement := fun v r =>
  mkQuery (commandType r) (querySource r) (canSetTag r) (utilityStmt r)
    (resultRelation r) (hasAggs r) (hasWindowFuncs r) (hasSubLinks r)
    (hasDistinctOn r) (hasRecursive r) (hasModifyingCTE r) (hasForUpdate r)
    (cteList r) (rtable r) (jointree r) (targetList r) (returningList r)
    (groupClause r) (havingQual r) (windowClause r) (distinctClause r)
    (sortClause r) (limitOffset r) (limitCount r) (rowMarks r) (setOperations r) v
    (is_local r) (has_to_save_cmd_id r).
#[global] Instance set_is_local : Setter is_local := fun v r =>
  mkQuery (commandType r) (querySource r) (canSetTag r) (utilityStmt r)
    (resultRelation r) (hasAggs r) (hasWindowFuncs r) (hasSubLinks r)
    (hasDistinctOn r) (hasRecursive r) (hasModifyingCTE r) (hasForUpdate r)
    (cteList r) (rtable r) (jointree r) (targetList r) (returningList r)
    (groupClause r) (havingQual r) (windowClause r) (distinctClause r)
    (sortClause r) (limitOffset r) (limitCount r) (rowMarks r) (setOperations r)
    (sql_statement r) v (has_to_save_cmd_id r).
#[global] Instance set_has_to_save_cmd_id : Setter has_to_save_cmd_id := fun v r =>
  mkQuery (commandType r) (querySource r) (canSetTag r) (utilityStmt r)
    (resultRelation r) (hasAggs r) (hasWindowFuncs r) (hasSubLinks r)
    (hasDistinctOn r) (hasRecursive r) (hasModifyingCTE r) (hasForUpdate r)
    (cteList r) (rtable r) (jointree r) (targetList r) (returningList r)
    (groupClause r) (havingQual r) (windowClause r) (distinctClause r)
    (sortClause r) (limitOffset r) (limitCount r) (rowMarks r) (setOperations r)
    (sql_statement r) (is_local r) v.
#[global] Instance set_subquery : Setter subquery := fun v r =>
  mkRangeTblEntry (rtekind r) (relid r) v (rte_jointype r) (joinaliasvars r)
    (values_lists r) (values_collations r) (rte_alias r) (eref r) (lateral r)
    (inh r) (inFromCl r) (requiredPerms r) (modifiedCols r).
#[global] Instance set_requiredPerms : Setter requiredPerms := fun v r =>
  mkRangeTblEntry (rtekind r) (relid r) (subquery r) (rte_jointype r)
    (joinaliasvars r) (values_lists r) (values_collations r) (rte_alias r) (eref r)
    (lateral r) (inh r) (inFromCl r) v (modifiedCols r).
#[global] Instance set_modifiedCols : Setter modifiedCols := fun v r =>
  mkRangeTblEntry (rtekind r) (relid r) (subquery r) (rte_jointype r)
    (joinaliasvars r) (values_lists r) (values_collations r) (rte_alias r) (eref r)
    (lateral r) (inh r) (inFromCl r) (requiredPerms r) v.
#[global] Instance set_rmc_strength : Setter RowMarkClause.strength := fun v r =>
  RowMarkClause.mk (RowMarkClause.rti r) v (RowMarkClause.noWait r)
    (RowMarkClause.pushedDown r).
#[global] Instance set_rmc_noWait : Setter RowMarkClause.noWait := fun v r =>
  RowMarkClause.mk (RowMarkClause.rti r) (RowMarkClause.strength r) v
    (RowMarkClause.pushedDown r).
#[global] Instance set_rmc_pushedDown : Setter RowMarkClause.pushedDown := fun v r =>
  RowMarkClause.mk (RowMarkClause.rti r) (RowMarkClause.strength r)
    (RowMarkClause.noWait r) v.
#[global] Instance set_expr : Setter expr := fun v r =>
  mkTargetEntry v (resno r) (resname r) (ressortgroupref r) (resjunk r).
#[global] Instance set_resno : Setter resno := fun v r =>
  mkTargetEntry (expr r) v (resname r) (ressortgroupref r) (resjunk r).
#[global] Instance set_resname : Setter resname := fun v r =>
  mkTargetEntry (expr r) (resno r) v (ressortgroupref r) (resjunk r).

(** makeNode(Query): every field zero. *)
Definition makeNode_Query : Query :=
  mkQuery CMD_UNKNOWN QSRC_ORIGINAL false None 0%nat false false false false false
    false false [] [] None [] [] [] None [] [] [] None None [] None None false false.

(** rt_fetch(rangetable_index, rangetable) of parser/parsetree.h. *)
Definition rt_fetch (rangetable_index : Index) (rangetable : list RangeTblEntry)
    : option RangeTblEntry :=
  match rangetable_index with
  | O => None
  | S i => rangetable !! i
  end.

(** The assignment through a pointer to the entry at a range-table index. *)
Definition rt_update (rangetable_index : Index) (f : RangeTblEntry -> RangeTblEntry)
    (rangetable : list RangeTblEntry) : list RangeTblEntry :=
  match rangetable_index with
  | O => rangetable
  | S i => alter f i rangetable
  end.

(** list_truncate(list, new_size) of nodes/list.c. *)
Definition list_truncate {A : Type} (l : list A) (new_size : nat) : list A :=
  take new_size l.

(** ** The parse state *)

(** The relation descriptor of the target table, as far as analyze.c
    looks into it. *)
Record Relation : Type := mkRelation {
  rd_id : Oid;
  RelationGetRelationName : string;
  relnatts : Z }.

Record ParseNamespaceItem : Type := mkParseNamespaceItem {
  p_rte : Index;
  p_rel_visible : bool;
  p_cols_visible : bool;
  p_lateral_only : bool;
  p_lateral_ok : bool }.

Inductive ParseState : Type := mkParseState {
  parentParseState : option ParseState;
  p_sourcetext : string;
  p_rtable : list RangeTblEntry;
  p_joinexprs : list (option JoinTree);
  p_joinlist : list JoinTree;
  p_namespace : list ParseNamespaceItem;
  p_ctenamespace : list CommonTableExpr.t;
  p_parent_cte : option CommonTableExpr.t;
  p_windowdefs : list Node;
  p_next_resno : Z;
  p_locking_clause : list LockingClause.t;
  p_hasAggs : bool;
  p_hasWindowFuncs : bool;
  p_hasSubLinks : bool;
  p_hasModifyingCTE : bool;
  p_is_insert : bool;
  p_is_update : bool;
  p_locked_from_parent : bool;
  p_target_relation : option Relation;
  p_target_rangetblentry : Index;
  (* what the parameter hooks keep: the types of the $n parameters *)
  p_ref_hook_state : list Oid;
  p_grammar : ParseGrammar;
  p_save_namespace : list ParseNamespaceItem }.

#[global] Instance set_p_sourcetext : Setter p_sourcetext := fun v r =>
  mkParseState (parentParseState r) v (p_rtable r) (p_joinexprs r) (p_joinlist r)
    (p_namespace r) (p_ctenamespace r) (p_parent_cte r) (p_windowdefs r)
    (p_next_resno r) (p_locking_clause r) (p_hasAggs r) (p_hasWindowFuncs r)
    (p_hasSubLinks r) (p_hasModifyingCTE r) (p_is_insert r) (p_is_update r)
    (p_locked_from_parent r) (p_target_relation r) (p_target_rangetblentry r)
    (p_ref_hook_state r) (p_grammar r) (p_save_namespace r).
#[global] Instance set_p_rtable : Setter p_rtable := fun v r =>
  mkParseState (parentParseState r) (p_sourcetext r) v (p_joinexprs r)
    (p_joinlist r) (p_namespace r) (p_ctenamespace r) (p_parent_cte r)
    (p_windowdefs r) (p_next_resno r) (p_locking_clause r) (p_hasAggs r)
    (p_hasWindowFuncs r) (p_hasSubLinks r) (p_hasModifyingCTE r) (p_is_insert r)
    (p_is_update r) (p_locked_from_parent r) (p_target_relation r)
    (p_target_rangetblentry r) (p_ref_hook_state r) (p_grammar r)
    (p_save_namespace r).
#[global] Instance set_p_joinexprs : Setter p_joinexprs := fun v r =>
  mkParseState (parentParseState r) (p_sourcetext r) (p_rtable r) v (p_joinlist r)
    (p_namespace r) (p_ctenamespace r) (p_parent_cte r) (p_windowdefs r)
    (p_next_resno r) (p_locking_clause r) (p_hasAggs r) (p_hasWindowFuncs r)
    (p_hasSubLinks r) (p_hasModifyingCTE r) (p_is_insert r) (p_is_update r)
    (p_locked_from_parent r) (p_target_relation r) (p_target_rangetblentry r)
    (p_ref_hook_state r) (p_grammar r) (p_save_namespace r).
#[global] Instance set_p_joinlist : Setter p_joinlist := fun v r =>
  mkParseState (parentParseState r) (p_sourcetext r) (p_rtable r) (p_joinexprs r) v
    (p_namespace r) (p_ctenamespace r) (p_parent_cte r) (p_windowdefs r)
    (p_next_resno r) (p_locking_clause r) (p_hasAggs r) (p_hasWindowFuncs r)
    (p_hasSubLinks r) (p_hasModifyingCTE r) (p_is_insert r) (p_is_update r)
    (p_locked_from_parent r) (p_target_relation r) (p_target_rangetblentry r)
    (p_ref_hook_state r) (p_grammar r) (p_save_namespace r).
#[global] Instance set_p_namespace : Setter p_namespace := fun v r =>
  mkParseState (parentParseState r) (p_sourcetext r) (p_rtable r) (p_joinexprs r)
    (p_joinlist r) v (p_ctenamespace r) (p_parent_cte r) (p_windowdefs r)
    (p_next_resno r) (p_locking_clause r) (p_hasAggs r) (p_hasWindowFuncs r)
    (p_hasSubLinks r) (p_hasModifyingCTE r) (p_is_insert r) (p_is_update r)
    (p_locked_from_parent r) (p_target_relation r) (p_target_rangetblentry r)
    (p_ref_hook_state r) (p_grammar r) (p_save_namespace r).
#[global] Instance set_p_parent_cte : Setter p_parent_cte := fun v r =>
  mkParseState (parentParseState r) (p_sourcetext r) (p_rtable r) (p_joinexprs r)
    (p_joinlist r) (p_namespace r) (p_ctenamespace r) v (p_windowdefs r)
    (p_next_resno r) (p_locking_clause r) (p_hasAggs r) (p_hasWindowFuncs r)
    (p_hasSubLinks r) (p_hasModifyingCTE r) (p_is_insert r) (p_is_update r)
    (p_locked_from_parent r) (p_target_relation r) (p_target_rangetblentry r)
    (p_ref_hook_state r) (p_grammar r) (p_save_namespace r).
#[global] Instance set_p_windowdefs : Setter p_windowdefs := fun v r =>
  mkParseState (parentParseState r) (p_sourcetext r) (p_rtable r) (p_joinexprs r)
    (p_joinlist r) (p_namespace r) (p_ctenamespace r) (p_parent_cte r) v
    (p_next_resno r) (p_locking_clause r) (p_hasAggs r) (p_hasWindowFuncs r)
    (p_hasSubLinks r) (p_hasModifyingCTE r) (p_is_insert r) (p_is_update r)
    (p_locked_from_parent r) (p_target_relation r) (p_target_rangetblentry r)
    (p_ref_hook_state r) (p_grammar r) (p_save_namespace r).
#[global] Instance set_p_next_resno : Setter p_next_resno := fun v r =>
  mkParseState (parentParseState r) (p_sourcetext r) (p_rtable r) (p_joinexprs r)
    (p_joinlist r) (p_namespace r) (p_ctenamespace r) (p_parent_cte r)
    (p_windowdefs r) v (p_locking_clause r) (p_hasAggs r) (p_hasWindowFuncs r)
    (p_hasSubLinks r) (p_hasModifyingCTE r) (p_is_insert r) (p_is_update r)
    (p_locked_from_parent r) (p_target_relation r) (p_target_rangetblentry r)
    (p_ref_hook_state r) (p_grammar r) (p_save_namespace r).
#[global] Instance set_p_locking_clause : Setter p_locking_clause := fun v r =>
  mkParseState (parentParseState r) (p_sourcetext r) (p_rtable r) (p_joinexprs r)
    (p_joinlist r) (p_namespace r) (p_ctenamespace r) (p_parent_cte r)
    (p_windowdefs r) (p_next_resno r) v (p_hasAggs r) (p_hasWindowFuncs r)
    (p_hasSubLinks r) (p_hasModifyingCTE r) (p_is_insert r) (p_is_update r)
    (p_locked_from_parent r) (p_target_relation r) (p_target_rangetblentry r)
    (p_ref_hook_state r) (p_grammar r) (p_save_namespace r).
#[global] Instance set_p_is_insert : Setter p_is_insert := fun v r =>
  mkParseState (parentParseState r) (p_sourcetext r) (p_rtable r) (p_joinexprs r)
    (p_joinlist r) (p_namespace r) (p_ctenamespace r) (p_parent_cte r)
    (p_windowdefs r) (p_next_resno r) (p_locking_clause r) (p_hasAggs r)
    (p_hasWindowFuncs r) (p_hasSubLinks r) (p_hasModifyingCTE r) v (p_is_update r)
    (p_locked_from_parent r) (p_target_relation r) (p_target_rangetblentry r)
    (p_ref_hook_state r) (p_grammar r) (p_save_namespace r).
#[global] Instance set_p_is_update : Setter p_is_update := fun v r =>
  mkParseState (parentParseState r) (p_sourcetext r) (p_rtable r) (p_joinexprs r)
    (p_joinlist r) (p_namespace r) (p_ctenamespace r) (p_parent_cte r)
    (p_windowdefs r) (p_next_resno r) (p_locking_clause r) (p_hasAggs r)
    (p_hasWindowFuncs r) (p_hasSubLinks r) (p_hasModifyingCTE r) (p_is_insert r) v
    (p_locked_from_parent r) (p_target_relation r) (p_target_rangetblentry r)
    (p_ref_hook_state r) (p_grammar r) (p_save_namespace r).
#[global] Instance set_p_locked_from_parent : Setter p_locked_from_parent := fun v r =>
  mkParseState (parentParseState r) (p_sourcetext r) (p_rtable r) (p_joinexprs r)
    (p_joinlist r) (p_namespace r) (p_ctenamespace r) (p_parent_cte r)
    (p_windowdefs r) (p_next_resno r) (p_locking_clause r) (p_hasAggs r)
    (p_hasWindowFuncs r) (p_hasSubLinks r) (p_hasModifyingCTE r) (p_is_insert r)
    (p_is_update r) v (p_target_relation r) (p_target_rangetblentry r)
    (p_ref_hook_state r) (p_grammar r) (p_save_namespace r).
#[global] Instance set_p_grammar : Setter p_grammar := fun v r =>
  mkParseState (parentParseState r) (p_sourcetext r) (p_rtable r) (p_joinexprs r)
    (p_joinlist r) (p_namespace r) (p_ctenamespace r) (p_parent_cte r)
    (p_windowdefs r) (p_next_resno r) (p_locking_clause r) (p_hasAggs r)
    (p_hasWindowFuncs r) (p_hasSubLinks r) (p_hasModifyingCTE r) (p_is_insert r)
    (p_is_update r) (p_locked_from_parent r) (p_target_relation r)
    (p_target_rangetblentry r) (p_ref_hook_state r) v (p_save_namespace r).
#[global] Instance set_p_save_namespace : Setter p_save_namespace := fun v r =>
  mkParseState (parentParseState r) (p_sourcetext r) (p_rtable r) (p_joinexprs r)
    (p_joinlist r) (p_namespace r) (p_ctenamespace r) (p_parent_cte r)
    (p_windowdefs r) (p_next_resno r) (p_locking_clause r) (p_hasAggs r)
    (p_hasWindowFuncs r) (p_hasSubLinks r) (p_hasModifyingCTE r) (p_is_insert r)
    (p_is_update r) (p_locked_from_parent r) (p_target_relation r)
    (p_target_rangetblentry r) (p_ref_hook_state r) (p_grammar r) v.
#[global] Instance set_p_ref_hook_state : Setter p_ref_hook_state := fun v r =>
  mkParseState (parentParseState r) (p_sourcetext r) (p_rtable r) (p_joinexprs r)
    (p_joinlist r) (p_namespace r) (p_ctenamespace r) (p_parent_cte r)
    (p_windowdefs r) (p_next_resno r) (p_locking_clause r) (p_hasAggs r)
    (p_hasWindowFuncs r) (p_hasSubLinks r) (p_hasModifyingCTE r) (p_is_insert r)
    (p_is_update r) (p_locked_from_parent r) (p_target_relation r)
    (p_target_rangetblentry r) v (p_grammar r) (p_save_namespace r).
#[global] Instance set_p_target_relation : Setter p_target_relation := fun v r =>
  mkParseState (parentParseState r) (p_sourcetext r) (p_rtable r) (p_joinexprs r)
    (p_joinlist r) (p_namespace r) (p_ctenamespace r) (p_parent_cte r)
    (p_windowdefs r) (p_next_resno r) (p_locking_clause r) (p_hasAggs r)
    (p_hasWindowFuncs r) (p_hasSubLinks r) (p_hasModifyingCTE r) (p_is_insert r)
    (p_is_update r) (p_locked_from_parent r) v (p_target_rangetblentry r)
    (p_ref_hook_state r) (p_grammar r) (p_save_namespace r).
#[global] Instance set_p_target_rangetblentry : Setter p_target_rangetblentry := fun v r =>
  mkParseState (parentParseState r) (p_sourcetext r) (p_rtable r) (p_joinexprs r)
    (p_joinlist r) (p_namespace r) (p_ctenamespace r) (p_parent_cte r)
    (p_windowdefs r) (p_next_resno r) (p_locking_clause r) (p_hasAggs r)
    (p_hasWindowFuncs r) (p_hasSubLinks r) (p_hasModifyingCTE r) (p_is_insert r)
    (p_is_update r) (p_locked_from_parent r) (p_target_relation r) v
    (p_ref_hook_state r) (p_grammar r) (p_save_namespace r).
#[global] Instance set_p_cols_visible : Setter p_cols_visible := fun v r =>
  mkParseNamespaceItem (p_rte r) (p_rel_visible r) v (p_lateral_only r)
    (p_lateral_ok r).
#[global] Instance set_p_lateral_only : Setter p_lateral_only := fun v r =>
  mkParseNamespaceItem (p_rte r) (p_rel_visible r) (p_cols_visible r) v
    (p_lateral_ok r).
#[global] Instance set_p_lateral_ok : Setter p_lateral_ok := fun v r =>
  mkParseNamespaceItem (p_rte r) (p_rel_visible r) (p_cols_visible r)
    (p_lateral_only r) v.

(** ** Calls to collaborators and the analysis monad *)

(** One event per call that leaves analyze.c, with the arguments of the
    call; the entries into transformStmt and transformFromAndWhere are
    recorded too. *)
Inductive Event : Type :=
| Ev_PushOverrideSearchPathForGrammar (grammar : ParseGrammar)
| Ev_PopOverrideSearchPath
| Ev_parse_fixed_parameters (paramTypes : list Oid)
| Ev_parse_variable_parameters (paramTypes : list Oid)
| Ev_check_variable_parameters (query : Query)
| Ev_post_parse_analyze_hook (query : Query)
| Ev_free_parsestate
| Ev_transformStmt (parseTree : RawStmt)
| Ev_transformFromAndWhere (quals : option Node)
| Ev_transformWithClause (withClause : WithClause.t)
| Ev_setTargetTable (relation : RangeVar.t) (inh alsoSource : bool)
    (requiredPerms : AclMode)
| Ev_addRTEtoQuery (rte : Index)
    (addToJoinList addToRelNameSpace addToVarNameSpace : bool)
| Ev_checkInsertTargets (cols : list ResTarget.t)
| Ev_transformFromClause (frmList : list Node)
| Ev_transformWhereClause (clause : option Node) (exprKind : ParseExprKind)
    (constructName : string)
| Ev_transformTargetList (targetlist : list ResTarget.t) (exprKind : ParseExprKind)
| Ev_markTargetListOrigins (targetlist : list TargetEntry)
| Ev_transformSortClause (orderlist : list Node) (targetlist : list TargetEntry)
    (exprKind : ParseExprKind) (resolveUnknown useSQL99 : bool)
| Ev_transformGroupClause (grouplist : list Node) (targetlist : list TargetEntry)
    (sortClause : list SortGroupClause) (exprKind : ParseExprKind) (useSQL99 : bool)
| Ev_transformDistinctClause (targetlist : list TargetEntry)
    (sortClause : list SortGroupClause) (is_agg : bool)
| Ev_transformDistinctOnClause (distinctlist : list (option Node))
    (targetlist : list TargetEntry) (sortClause : list SortGroupClause)
| Ev_transformLimitClause (clause : option Node) (exprKind : ParseExprKind)
    (constructName : string)
| Ev_transformWindowDefinitions (windowdefs : list Node) (targetlist : list TargetEntry)
| Ev_parseCheckAggregates (qry : Query)
| Ev_assign_query_collations (query : Query)
| Ev_assign_list_collations (exprs : list Node)
| Ev_transformExpressionList (exprlist : list Node) (exprKind : ParseExprKind)
| Ev_transformAssignedExpr (expr : Node) (exprKind : ParseExprKind)
    (colname : option string) (attrno : Z) (indirection : list Node)
| Ev_addRangeTableEntryForSubquery (subquery : Query) (alias : Alias)
    (lateral inFromCl : bool)
| Ev_addRangeTableEntryForValues (exprs : list (list Node)) (collations : list Oid)
    (alias : option Alias) (lateral inFromCl : bool)
| Ev_addRangeTableEntryForJoin (colnames : list string) (jointype : JoinType)
    (aliasvars : list Node) (alias : option Alias) (inFromCl : bool)
| Ev_expandRelAttrs (rte : Index) (rtindex : Index) (sublevels_up : Index)
| Ev_select_common_type (exprs : list Node) (context : string)
| Ev_coerce_to_common_type (node : Node) (targetTypeId : Oid) (context : string)
| Ev_select_common_collation (exprs : list Node) (none_ok : bool)
| Ev_analyzeCTETargetList (cte : CommonTableExpr.t) (tlist : list TargetEntry)
| Ev_SetSendCommandId (status : bool).

(** A run of the analyzer: how it ended, the parse state it left, and the
    calls it made, oldest first. *)
Record Run (A : Type) : Type := mkRun {
  result : Outcome A;
  pstate_of : ParseState;
  trace : list Event }.
Arguments mkRun {A} result pstate_of trace.
Arguments result {A} r.
Arguments pstate_of {A} r.
Arguments trace {A} r.

(** A computation on the current parse state, [ParseState *pstate]. *)
Definition M (A : Type) : Type := ParseState -> Run A.

(** What a collaborator does with the parse state it is handed. *)
Definition Ext (A : Type) : Type := ParseState -> Outcome (A * ParseState).

#[global] Instance M_ret : MRet M := fun A a pstate => mkRun (Done a) pstate [].

(** Sequencing [m; k]: when [m] raises, [k] does not run. *)
#[global] Instance M_bind : MBind M := fun A B k m pstate =>
  let r := m pstate in
  match result r with
  | Done a =>
      let r' := k a (pstate_of r) in
      mkRun (result r') (pstate_of r') (trace r ++ trace r')
  | Raised e => mkRun (Raised e) (pstate_of r) (trace r)
  end.

(** ereport(ERROR, ...): control leaves the analyzer. *)
#[global] Instance M_throw : MThrow ErrorData M := fun A e pstate =>
  mkRun (Raised e) pstate [].

Definition get_pstate : M ParseState := fun pstate => mkRun (Done pstate) pstate [].
Definition put_pstate (pstate' : ParseState) : M unit := fun _ => mkRun (Done tt) pstate' [].
Definition modify_pstate (f : ParseState -> ParseState) : M unit :=
  fun pstate => mkRun (Done tt) (f pstate) [].
Definition log (ev : Event) : M unit := fun pstate => mkRun (Done tt) pstate [ev].

(** A call to a collaborator: the call is recorded, then it runs. *)
Definition call {A : Type} (ev : Event) (f : Ext A) : M A := fun pstate =>
  match f pstate with
  | Done (a, pstate') => mkRun (Done a) pstate' [ev]
  | Raised e => mkRun (Raised e) pstate [ev]
  end.

(** A pure function that may raise. *)
Definition lift {A : Type} (o : Outcome A) : M A := fun pstate => mkRun o pstate [].

(** Running [m] on another parse state (a child state): the current
    state is left alone and the state [m] ends in is returned. *)
Definition on_pstate {A : Type} (other : ParseState) (m : M A) : M (A * ParseState) :=
  fun pstate =>
    let r := m other in
    match result r with
    | Done a => mkRun (Done (a, pstate_of r)) pstate (trace r)
    | Raised e => mkRun (Raised e) pstate (trace r)
    end.

(** Running [m] on a child parse state.  The child holds the pointer
    [parentParseState] to the state of the caller: what [m] does to the
    parent through the pointer is done to the caller's state, which is read
    back from the child when [m] ends. *)
Definition on_child {A : Type} (child : ParseState) (m : M A) : M (A * ParseState) :=
  fun pstate =>
    let r := m child in
    let parent := default pstate (parentParseState (pstate_of r)) in
    match result r with
    | Done a => mkRun (Done (a, pstate_of r)) parent (trace r)
    | Raised e => mkRun (Raised e) parent (trace r)
    end.

(** PG_TRY(); { m } PG_CATCH(); { handler; PG_RE_THROW(); } PG_END_TRY(); *)
Definition try_rethrow {A : Type} (m : M A) (handler : M unit) : M A := fun pstate =>
  let r := m pstate in
  match result r with
  | Done a => r
  | Raised e =>
      let r' := handler (pstate_of r) in
      match result r' with
      | Done _ => mkRun (Raised e) (pstate_of r') (trace r ++ trace r')
      | Raised e' => mkRun (Raised e') (pstate_of r') (trace r ++ trace r')
      end
  end.

Definition when (cond : bool) (m : M unit) : M unit := if cond then m else mret tt.

(** foreach loops that build a list or thread an accumulator. *)
Fixpoint mapM {A B : Type} (f : A -> M B) (l : list A) : M (list B) :=
  match l with
  | [] => mret []
  | x :: l' => y ← f x; ys ← mapM f l'; mret (y :: ys)
  end.

Fixpoint foldM {A B : Type} (f : B -> A -> M B) (acc : B) (l : list A) : M B :=
  match l with
  | [] => mret acc
  | x :: l' => acc' ← f acc x; foldM f acc' l'
  end.

(** ** The collaborators of the analyzer *)

(** A row of the catalog pg_operator, as far as it is looked at. *)
Record Form_pg_operator : Type := mkOperator {
  opr_oid : Oid;
  oprname : string;
  oprcom : Oid;
  oprcode : Oid }.

(** A row of the catalog pg_inherits. *)
Record Form_pg_inherits : Type := mkInherits {
  inhrelid : Oid;
  inhparent : Oid }.

(** Everything analyze.c calls that is defined in another file, and the
    build and catalog constants it depends on.  A collaborator that takes
    the parse state is an [Ext]: it may change the state and may raise. *)
Class Collaborators : Type := {
  (* the preprocessor symbols the file is compiled under *)
  ADB : bool;
  PGXC : bool;
  (* constants of other headers *)
  FirstLowInvalidHeapAttributeNumber : Z;
  FLOAT8PASSBYVAL : bool;
  (* parser/parse_node.c, parser/parse_param.c *)
  make_parsestate : option ParseState -> ParseState;
  ext_free_parsestate : ParseState -> Outcome unit;
  ext_parse_fixed_parameters : list Oid -> Ext unit;
  ext_parse_variable_parameters : list Oid -> Ext unit;
  ext_check_variable_parameters : Query -> Ext unit;
  post_parse_analyze_hook : option (Query -> Ext Query);
  (* parser/parse_cte.c *)
  ext_transformWithClause : WithClause.t -> Ext (list CommonTableExpr.t);
  ext_analyzeCTETargetList :
    CommonTableExpr.t -> list TargetEntry -> Ext CommonTableExpr.t;
  (* parser/parse_clause.c *)
  ext_setTargetTable : RangeVar.t -> bool -> bool -> AclMode -> Ext Index;
  interpretInhOption : InhOption -> bool;
  ext_transformFromClause : list Node -> Ext unit;
  ext_transformWhereClause : option Node -> ParseExprKind -> string -> Ext (option Node);
  ext_transformSortClause :
    list Node -> list TargetEntry -> ParseExprKind -> bool -> bool ->
    Ext (list SortGroupClause * list TargetEntry);
  ext_transformGroupClause :
    list Node -> list TargetEntry -> list SortGroupClause -> ParseExprKind -> bool ->
    Ext (list SortGroupClause * list TargetEntry);
  ext_transformDistinctClause :
    list TargetEntry -> list SortGroupClause -> bool ->
    Ext (list SortGroupClause * list TargetEntry);
  ext_transformDistinctOnClause :
    list (option Node) -> list TargetEntry -> list SortGroupClause ->
    Ext (list SortGroupClause * list TargetEntry);
  ext_transformLimitClause : option Node -> ParseExprKind -> string -> Ext (option Node);
  ext_transformWindowDefinitions :
    list Node -> list TargetEntry -> Ext (list Node * list TargetEntry);
  (* parser/parse_target.c *)
  ext_transformTargetList : list ResTarget.t -> ParseExprKind -> Ext (list TargetEntry);
  ext_markTargetListOrigins : list TargetEntry -> Ext unit;
  ext_transformExpressionList : list Node -> ParseExprKind -> Ext (list Node);
  ext_transformAssignedExpr :
    Node -> ParseExprKind -> option string -> Z -> list Node -> Ext Node;
  ext_checkInsertTargets : list ResTarget.t -> Ext (list ResTarget.t * list Z);
  (* parser/parse_relation.c *)
  ext_addRTEtoQuery : Index -> bool -> bool -> bool -> Ext unit;
  ext_addRangeTableEntryForSubquery :
    Query -> Alias -> bool -> bool -> Ext RangeTblEntry;
  ext_addRangeTableEntryForValues :
    list (list Node) -> list Oid -> option Alias -> bool -> bool -> Ext RangeTblEntry;
  ext_addRangeTableEntryForJoin :
    list string -> JoinType -> list Node -> option Alias -> bool -> Ext RangeTblEntry;
  expandRTE :
    RangeTblEntry -> Index -> Index -> bool -> Outcome (list string * list Node);
  ext_expandRelAttrs : Index -> Index -> Index -> Ext (list TargetEntry);
  GetRTEByRangeTablePosn : ParseState -> Index -> Index -> option RangeTblEntry;
  attnameAttNum : Relation -> option string -> bool -> AttrNumber;
  (* parser/parse_agg.c, parser/parse_collate.c *)
  ext_parseCheckAggregates : Query -> Ext unit;
  ext_assign_query_collations : Query -> Ext unit;
  ext_assign_list_collations : list Node -> Ext unit;
  (* parser/parse_coerce.c, parser/parse_oper.c *)
  ext_select_common_type : list Node -> string -> Ext (Oid * Node);
  ext_coerce_to_common_type : Node -> Oid -> string -> Ext Node;
  ext_select_common_collation : list Node -> bool -> Ext Oid;
  get_sort_group_operators :
    Oid -> bool -> bool -> bool -> Outcome (Oid * Oid * bool);
  make_op2 : string -> Node -> Node -> option Node;
  (* nodes/nodeFuncs.c, optimizer *)
  exprType : Node -> Oid;
  exprTypmod : Node -> Z;
  exprCollation : Node -> Oid;
  expression_returns_set : list TargetEntry -> bool;
  contain_vars_of_level_lists : list (list Node) -> nat -> bool;
  contain_vars_of_level_query : Query -> nat -> bool;
  contain_mutable_functions : Node -> bool;
  canonicalize_qual : Node -> Node;
  isQueryUsingTempRelation : Query -> bool;
  query_contains_extern_params : Query -> bool;
  (* tcop/postgres.c *)
  check_stack_depth : Outcome unit;
  pg_parse_query : string -> Outcome (list RawStmt);
  (* the catalog: utils/lsyscache.c and the tables scanned directly *)
  pg_operator : list Form_pg_operator;
  get_commutator : Oid -> Oid;
  get_opname : Oid -> option string;
  pg_inherits : list Form_pg_inherits;
  has_subclass : Oid -> bool;
  (* the cluster: pgxc *)
  IS_PGXC_COORDINATOR : bool;
  IS_PGXC_DATANODE : bool;
  IsConnFromCoord : bool;
  xc_maintenance_mode : bool;
  PGXCNodeId : Z;
  get_pgxc_nodeoid : string -> Oid;
  get_pgxc_nodetype : Oid -> ascii;
  PGXCNodeGetNodeId : Oid -> ascii -> Z
}.

(** Equality on the enumerations is decidable. *)
#[global] Instance NodeTag_eq_dec : EqDecision NodeTag.
Proof. solve_decision. Defined.
#[global] Instance JoinType_eq_dec : EqDecision JoinType.
Proof. solve_decision. Defined.
#[global] Instance RTEKind_eq_dec : EqDecision RTEKind.
Proof. solve_decision. Defined.
#[global] Instance CmdType_eq_dec : EqDecision CmdType.
Proof. solve_decision. Defined.
#[global] Instance SetOperation_eq_dec : EqDecision SetOperation.
Proof. solve_decision. Defined.
#[global] Instance ParseGrammar_eq_dec : EqDecision ParseGrammar.
Proof. solve_decision. Defined.
#[global] Instance ObjectType_eq_dec : EqDecision ObjectType.
Proof. solve_decision. Defined.

(** What get_ora_column_join finds out about a predicate. *)
Module JoinExprInfo.
Record t : Type := mk {
  expr : Node;              (* join clause *)
  type : JoinType;
  lrtindex : Index;
  rrtindex : Index }.
End JoinExprInfo.
#[global] Instance set_jinfo_expr : Setter JoinExprInfo.expr := fun v r =>
  JoinExprInfo.mk v (JoinExprInfo.type r) (JoinExprInfo.lrtindex r)
    (JoinExprInfo.rrtindex r).
#[global] Instance set_jinfo_type : Setter JoinExprInfo.type := fun v r =>
  JoinExprInfo.mk (JoinExprInfo.expr r) v (JoinExprInfo.lrtindex r)
    (JoinExprInfo.rrtindex r).
#[global] Instance set_jinfo_lrtindex : Setter JoinExprInfo.lrtindex := fun v r =>
  JoinExprInfo.mk (JoinExprInfo.expr r) (JoinExprInfo.type r) v
    (JoinExprInfo.rrtindex r).
#[global] Instance set_jinfo_rrtindex : Setter JoinExprInfo.rrtindex := fun v r =>
  JoinExprInfo.mk (JoinExprInfo.expr r) (JoinExprInfo.type r)
    (JoinExprInfo.lrtindex r) v.



(** The two relations pullup_rel_for_join is looking for, once found. *)
Module PullupRelForJoinContext.
Record t : Type := mk {
  larg : option JoinTree;
  rarg : option JoinTree }.
Definition empty : t := mk None None.
End PullupRelForJoinContext.

(** A pointer to a namespace item: either to the item at a position of
    [p_namespace], or to an item that analyze_new_join has just allocated. *)
Inductive NamespaceItemRef : Type :=
| InNamespace (pos : nat)
| Allocated (item : ParseNamespaceItem).

(** A foreach loop that rebuilds a list and may raise. *)
Fixpoint mapO {A B : Type} (f : A -> Outcome B) (l : list A) : Outcome (list B) :=
  match l with
  | [] => Done []
  | x :: l' =>
      match f x with
      | Done y =>
          match mapO f l' with
          | Done ys => Done (y :: ys)
          | Raised e => Raised e
          end
      | Raised e => Raised e
      end
  end.


(** What one round of the loop of rewrite_rownum_query does with a
    predicate of the WHERE clause. *)
Inductive RownumStep : Type :=
| Step_skip                               (* continue: no ROWNUM in the predicate *)
| Step_hint (limitCount : option Node)    (* the predicate is consumed *)
| Step_break                              (* no row can pass: limit 0, leave the loop *)
| Step_return.                            (* return: the rewrite is given up *)

(** How the loop of rewrite_rownum_query ends. *)
Inductive RownumScan : Type :=
| Scan_done (limitCount : option Node) (hints : Bitmapset)
| Scan_break
| Scan_return.

(** strncpy(opname, tmp, lengthof(opname)) into char opname[4], and opname[k]. *)
Definition strncpy4 (tmp : string) : list ascii :=
  take 4 (list_ascii_of_string tmp ++ replicate 4 Ascii.zero).
Definition char_at (opname : list ascii) (k : nat) : ascii :=
  default Ascii.zero (opname !! k).


(** A target entry that transformSetOperationTree hands up, with the place
    where the entry lives when it is an entry of a leaf query: the
    range-table index of the sub-query and the position in its target
    list.  An assignment to [tle->expr] goes through to that place. *)
Definition TleRef : Type := TargetEntry * option (Index * nat).

(** The leftmost leaf of a set-operation tree: of the raw statement and of
    the transformed tree. *)
Fixpoint leftmost_select (stmt : SelectStmt.t) : SelectStmt.t :=
  match SelectStmt.op stmt, SelectStmt.larg stmt with
  | SETOP_NONE, _ => stmt
  | _, Some larg => leftmost_select larg
  | _, None => stmt
  end.

Fixpoint leftmost_rtindex (node : SetOpTree) : Index :=
  match node with
  | SetOpRangeTblRef rtindex => rtindex
  | SetOperationStmt _ _ larg _ _ _ _ _ => leftmost_rtindex larg
  end.

Section Analyzer.
Context {collab : Collaborators}.

(** *** Calls to the collaborators *)

Definition free_parsestate (pstate : ParseState) : M unit := fun cur =>
  mkRun (ext_free_parsestate pstate) cur [Ev_free_parsestate].
Definition PushOverrideSearchPathForGrammar (grammar : ParseGrammar) : M unit :=
  log (Ev_PushOverrideSearchPathForGrammar grammar).
Definition PopOverrideSearchPath : M unit := log Ev_PopOverrideSearchPath.
Definition parse_fixed_parameters (paramTypes : list Oid) : M unit :=
  call (Ev_parse_fixed_parameters paramTypes) (ext_parse_fixed_parameters paramTypes).
Definition parse_variable_parameters (paramTypes : list Oid) : M unit :=
  call (Ev_parse_variable_parameters paramTypes) (ext_parse_variable_parameters paramTypes).
Definition check_variable_parameters (query : Query) : M unit :=
  call (Ev_check_variable_parameters query) (ext_check_variable_parameters query).
Definition transformWithClause (withClause : WithClause.t) : M (list CommonTableExpr.t) :=
  call (Ev_transformWithClause withClause) (ext_transformWithClause withClause).
Definition analyzeCTETargetList (cte : CommonTableExpr.t) (tlist : list TargetEntry)
    : M CommonTableExpr.t :=
  call (Ev_analyzeCTETargetList cte tlist) (ext_analyzeCTETargetList cte tlist).
Definition setTargetTable (relation : RangeVar.t) (inh alsoSource : bool)
    (requiredPerms : AclMode) : M Index :=
  call (Ev_setTargetTable relation inh alsoSource requiredPerms)
       (ext_setTargetTable relation inh alsoSource requiredPerms).
Definition transformFromClause (frmList : list Node) : M unit :=
  call (Ev_transformFromClause frmList) (ext_transformFromClause frmList).
Definition transformWhereClause (clause : option Node) (exprKind : ParseExprKind)
    (constructName : string) : M (option Node) :=
  call (Ev_transformWhereClause clause exprKind constructName)
       (ext_transformWhereClause clause exprKind constructName).
Definition transformSortClause (orderlist : list Node) (targetlist : list TargetEntry)
    (exprKind : ParseExprKind) (resolveUnknown useSQL99 : bool)
    : M (list SortGroupClause * list TargetEntry) :=
  call (Ev_transformSortClause orderlist targetlist exprKind resolveUnknown useSQL99)
       (ext_transformSortClause orderlist targetlist exprKind resolveUnknown useSQL99).
Definition transformGroupClause (grouplist : list Node) (targetlist : list TargetEntry)
    (sortClause : list SortGroupClause) (exprKind : ParseExprKind) (useSQL99 : bool)
    : M (list SortGroupClause * list TargetEntry) :=
  call (Ev_transformGroupClause grouplist targetlist sortClause exprKind useSQL99)
       (ext_transformGroupClause grouplist targetlist sortClause exprKind useSQL99).
Definition transformDistinctClause (targetlist : list TargetEntry)
    (sortClause : list SortGroupClause) (is_agg : bool)
    : M (list SortGroupClause * list TargetEntry) :=
  call (Ev_transformDistinctClause targetlist sortClause is_agg)
       (ext_transformDistinctClause targetlist sortClause is_agg).
Definition transformDistinctOnClause (distinctlist : list (option Node))
    (targetlist : list TargetEntry) (sortClause : list SortGroupClause)
    : M (list SortGroupClause * list TargetEntry) :=
  call (Ev_transformDistinctOnClause distinctlist targetlist sortClause)
       (ext_transformDistinctOnClause distinctlist targetlist sortClause).
Definition transformLimitClause (clause : option Node) (exprKind : ParseExprKind)
    (constructName : string) : M (option Node) :=
  call (Ev_transformLimitClause clause exprKind constructName)
       (ext_transformLimitClause clause exprKind constructName).
Definition transformWindowDefinitions (windowdefs : list Node)
    (targetlist : list TargetEntry) : M (list Node * list TargetEntry) :=
  call (Ev_transformWindowDefinitions windowdefs targetlist)
       (ext_transformWindowDefinitions windowdefs targetlist).
Definition transformTargetList (targetlist : list ResTarget.t) (exprKind : ParseExprKind)
    : M (list TargetEntry) :=
  call (Ev_transformTargetList targetlist exprKind)
       (ext_transformTargetList targetlist exprKind).
Definition markTargetListOrigins (targetlist : list TargetEntry) : M unit :=
  call (Ev_markTargetListOrigins targetlist) (ext_markTargetListOrigins targetlist).
Definition transformExpressionList (exprlist : list Node) (exprKind : ParseExprKind)
    : M (list Node) :=
  call (Ev_transformExpressionList exprlist exprKind)
       (ext_transformExpressionList exprlist exprKind).
Definition transformAssignedExpr (expr : Node) (exprKind : ParseExprKind)
    (colname : option string) (attrno : Z) (indirection : list Node) : M Node :=
  call (Ev_transformAssignedExpr expr exprKind colname attrno indirection)
       (ext_transformAssignedExpr expr exprKind colname attrno indirection).
Definition checkInsertTargets (cols : list ResTarget.t) : M (list ResTarget.t * list Z) :=
  call (Ev_checkInsertTargets cols) (ext_checkInsertTargets cols).
Definition addRTEtoQuery (rte : Index)
    (addToJoinList addToRelNameSpace addToVarNameSpace : bool) : M unit :=
  call (Ev_addRTEtoQuery rte addToJoinList addToRelNameSpace addToVarNameSpace)
       (ext_addRTEtoQuery rte addToJoinList addToRelNameSpace addToVarNameSpace).
Definition addRangeTableEntryForSubquery (subquery : Query) (alias : Alias)
    (lateral inFromCl : bool) : M RangeTblEntry :=
  call (Ev_addRangeTableEntryForSubquery subquery alias lateral inFromCl)
       (ext_addRangeTableEntryForSubquery subquery alias lateral inFromCl).
Definition addRangeTableEntryForValues (exprs : list (list Node))
    (collations : list Oid) (alias : option Alias) (lateral inFromCl : bool)
    : M RangeTblEntry :=
  call (Ev_addRangeTableEntryForValues exprs collations alias lateral inFromCl)
       (ext_addRangeTableEntryForValues exprs collations alias lateral inFromCl).
Definition addRangeTableEntryForJoin (colnames : list string) (jointype : JoinType)
    (aliasvars : list Node) (alias : option Alias) (inFromCl : bool) : M RangeTblEntry :=
  call (Ev_addRangeTableEntryForJoin colnames jointype aliasvars alias inFromCl)
       (ext_addRangeTableEntryForJoin colnames jointype aliasvars alias inFromCl).
Definition expandRelAttrs (rte : Index) (rtindex : Index) (sublevels_up : Index)
    : M (list TargetEntry) :=
  call (Ev_expandRelAttrs rte rtindex sublevels_up)
       (ext_expandRelAttrs rte rtindex sublevels_up).
Definition parseCheckAggregates (qry : Query) : M unit :=
  call (Ev_parseCheckAggregates qry) (ext_parseCheckAggregates qry).
Definition assign_query_collations (query : Query) : M unit :=
  call (Ev_assign_query_collations query) (ext_assign_query_collations query).
Definition assign_list_collations (exprs : list Node) : M unit :=
  call (Ev_assign_list_collations exprs) (ext_assign_list_collations exprs).
Definition select_common_type (exprs : list Node) (context : string) : M (Oid * Node) :=
  call (Ev_select_common_type exprs context) (ext_select_common_type exprs context).
Definition coerce_to_common_type (node : Node) (targetTypeId : Oid) (context : string)
    : M Node :=
  call (Ev_coerce_to_common_type node targetTypeId context)
       (ext_coerce_to_common_type node targetTypeId context).
Definition select_common_collation (exprs : list Node) (none_ok : bool) : M Oid :=
  call (Ev_select_common_collation exprs none_ok)
       (ext_select_common_collation exprs none_ok).
Definition SetSendCommandId (status : bool) : M unit := log (Ev_SetSendCommandId status).

(** makeVarFromTargetEntry of nodes/makefuncs.c. *)
Definition makeVarFromTargetEntry (varno : Index) (tle : TargetEntry) : Var :=
  mkVar varno (resno tle) (exprType (expr tle)) (exprTypmod (expr tle))
        (exprCollation (expr tle)) 0%nat.

(** get_tle_by_resno of parser/parse_relation.c. *)
Definition get_tle_by_resno (tlist : list TargetEntry) (resno_ : AttrNumber)
    : option TargetEntry :=
  snd <$> list_find (fun tle => resno tle = resno_) tlist.

(** *** Row locking: FOR [KEY] UPDATE/SHARE *)

(** Modelled from the spec: get_parse_rowmark (parser/parse_relation.c, not
    in src/) finds the row-mark that already exists for this rtindex, if
    any.  The position of the mark in [rowMarks] comes with it: it stands
    for the pointer through which applyLockingClause updates the mark. *)
Definition get_parse_rowmark (qry : Query) (rtindex : Index)
    : option (nat * RowMarkClause.t) :=
  list_find (fun rc => RowMarkClause.rti rc = rtindex) (rowMarks qry).

(** Record locking info for a single rangetable item. *)
Definition applyLockingClause (qry : Query) (rtindex : Index)
    (strength : LockClauseStrength) (noWait pushedDown : bool) : Query :=
  (* If it's an explicit clause, make sure hasForUpdate gets set *)
  let qry := if negb pushedDown then qry <| hasForUpdate := true |> else qry in
  (* Check for pre-existing entry for same rtindex *)
  match get_parse_rowmark qry rtindex with
  | Some (i, rc) =>
      let rc := rc <| RowMarkClause.strength :=
                        Max_strength (RowMarkClause.strength rc) strength |> in
      let rc := rc <| RowMarkClause.noWait := RowMarkClause.noWait rc || noWait |> in
      let rc := rc <| RowMarkClause.pushedDown :=
                        RowMarkClause.pushedDown rc && pushedDown |> in
      qry <| rowMarks := <[i := rc]> (rowMarks qry) |>
  | None =>
      (* Make a new RowMarkClause *)
      let rc := RowMarkClause.mk rtindex strength noWait pushedDown in
      qry <| rowMarks := rowMarks qry ++ [rc] |>
  end.

(** Check for features that are not supported with FOR [KEY] UPDATE/SHARE. *)
Definition CheckSelectLocking (qry : Query) (strength : LockClauseStrength)
    : Outcome unit :=
  if bool_decide (setOperations qry <> None) then
    mthrow (ereport ERRCODE_FEATURE_NOT_SUPPORTED
      (LCS_asString strength +:+ " is not allowed with UNION/INTERSECT/EXCEPT"))
  else if bool_decide (distinctClause qry <> []) then
    mthrow (ereport ERRCODE_FEATURE_NOT_SUPPORTED
      (LCS_asString strength +:+ " is not allowed with DISTINCT clause"))
  else if bool_decide (groupClause qry <> []) then
    mthrow (ereport ERRCODE_FEATURE_NOT_SUPPORTED
      (LCS_asString strength +:+ " is not allowed with GROUP BY clause"))
  else if bool_decide (havingQual qry <> None) then
    mthrow (ereport ERRCODE_FEATURE_NOT_SUPPORTED
      (LCS_asString strength +:+ " is not allowed with HAVING clause"))
  else if hasAggs qry then
    mthrow (ereport ERRCODE_FEATURE_NOT_SUPPORTED
      (LCS_asString strength +:+ " is not allowed with aggregate functions"))
  else if hasWindowFuncs qry then
    mthrow (ereport ERRCODE_FEATURE_NOT_SUPPORTED
      (LCS_asString strength +:+ " is not allowed with window functions"))
  else if expression_returns_set (targetList qry) then
    mthrow (ereport ERRCODE_FEATURE_NOT_SUPPORTED
      (LCS_asString strength
         +:+ " is not allowed with set-returning functions in the target list"))
  else mret tt.

Definition RTEKind_value (k : RTEKind) : Z :=
  match k with
  | RTE_RELATION => 0 | RTE_SUBQUERY => 1 | RTE_JOIN => 2 | RTE_FUNCTION => 3
  | RTE_VALUES => 4 | RTE_CTE => 5 | RTE_REMOTE_DUMMY => 6
  end.

(** transformLockingClause for a clause that names no relation: all the
    relations and sub-queries of the range table are locked.  The
    recursive call of transformLockingClause on a sub-query passes
    [allrels], whose lockedRels is NIL, so it is a call of this function. *)
Fixpoint transformLockingClause_allrels (qry : Query) (strength : LockClauseStrength)
    (noWait pushedDown : bool) {struct qry} : Outcome Query :=
  match CheckSelectLocking qry strength with
  | Raised e => Raised e
  | Done _ =>
    (* all regular tables used in query *)
    (fix loop (rt : list RangeTblEntry) (i : Index) (qry' : Query) {struct rt}
        : Outcome Query :=
       match rt with
       | [] => Done qry'
       | rte :: rt' =>
           let i := S i in
           match rtekind rte with
           | RTE_RELATION =>
               let qry' := applyLockingClause qry' i strength noWait pushedDown in
               let qry' := qry' <| rtable :=
                 rt_update i (fun rte => rte <| requiredPerms :=
                                Z.lor (requiredPerms rte) ACL_SELECT_FOR_UPDATE |>)
                           (rtable qry') |> in
               loop rt' i qry'
           | RTE_SUBQUERY =>
               let qry' := applyLockingClause qry' i strength noWait pushedDown in
               match subquery rte with
               | Some sub =>
                   match transformLockingClause_allrels sub strength noWait true with
                   | Done sub' =>
                       loop rt' i
                         (qry' <| rtable :=
                            rt_update i (fun rte => rte <| subquery := Some sub' |>)
                                      (rtable qry') |>)
                   | Raised e => Raised e
                   end
               | None => Raised (elog "subquery range-table entry without a subquery")
               end
           | _ =>
               (* ignore JOIN, SPECIAL, FUNCTION, VALUES, CTE RTEs *)
               loop rt' i qry'
           end
       end) (rtable qry) 0%nat qry
  end.

(** The lock of one named relation [thisrel]. *)
Definition transformLockingClause_named (lc : LockingClause.t) (pushedDown : bool)
    (qry : Query) (thisrel : RangeVar.t) : Outcome Query :=
  let strength := LockingClause.strength lc in
  let noWait := LockingClause.noWait lc in
  (* For simplicity we insist on unqualified alias names here *)
  if bool_decide (RangeVar.catalogname thisrel <> None)
     || bool_decide (RangeVar.schemaname thisrel <> None) then
    mthrow (ereport ERRCODE_SYNTAX_ERROR
      (LCS_asString strength +:+ " must specify unqualified relation names"))
  else
    match list_find (fun rte => aliasname (eref rte) = RangeVar.relname thisrel)
                    (rtable qry) with
    | Some (i0, rte) =>
        let i := S i0 in
        match rtekind rte with
        | RTE_RELATION =>
            let qry := applyLockingClause qry i strength noWait pushedDown in
            mret (qry <| rtable :=
                    rt_update i (fun rte => rte <| requiredPerms :=
                                   Z.lor (requiredPerms rte) ACL_SELECT_FOR_UPDATE |>)
                              (rtable qry) |>)
        | RTE_SUBQUERY =>
            let qry := applyLockingClause qry i strength noWait pushedDown in
            match subquery rte with
            | Some sub =>
                sub' ← transformLockingClause_allrels sub strength noWait true;
                mret (qry <| rtable :=
                        rt_update i (fun rte => rte <| subquery := Some sub' |>)
                                  (rtable qry) |>)
            | None => mthrow (elog "subquery range-table entry without a subquery")
            end
        | RTE_JOIN =>
            mthrow (ereport ERRCODE_FEATURE_NOT_SUPPORTED
              (LCS_asString strength +:+ " cannot be applied to a join"))
        | RTE_FUNCTION =>
            mthrow (ereport ERRCODE_FEATURE_NOT_SUPPORTED
              (LCS_asString strength +:+ " cannot be applied to a function"))
        | RTE_VALUES =>
            mthrow (ereport ERRCODE_FEATURE_NOT_SUPPORTED
              (LCS_asString strength +:+ " cannot be applied to VALUES"))
        | RTE_CTE =>
            mthrow (ereport ERRCODE_FEATURE_NOT_SUPPORTED
              (LCS_asString strength +:+ " cannot be applied to a WITH query"))
        | RTE_REMOTE_DUMMY =>
            mthrow (elog ("unrecognized RTE type: "
                          +:+ pretty (RTEKind_value (rtekind rte))))
        end
    | None =>
        mthrow (ereport ERRCODE_UNDEFINED_TABLE
          ("relation " +:+ dquote +:+ RangeVar.relname thisrel +:+ dquote +:+ " in "
           +:+ LCS_asString strength +:+ " clause not found in FROM clause"))
    end.

(** Transform a FOR [KEY] UPDATE/SHARE clause. *)
Definition transformLockingClause (qry : Query) (lc : LockingClause.t)
    (pushedDown : bool) : Outcome Query :=
  match LockingClause.lockedRels lc with
  | [] =>
      transformLockingClause_allrels qry (LockingClause.strength lc)
        (LockingClause.noWait lc) pushedDown
  | lockedRels =>
      _ ← CheckSelectLocking qry (LockingClause.strength lc);
      (* just the named tables *)
      foldO (transformLockingClause_named lc pushedDown) qry lockedRels
  end.

(** *** The outer-join markers of the Oracle grammar *)

Definition one_outer_joined_table : ErrorData :=
  ereport ERRCODE_SYNTAX_ERROR "a predicate may reference only one outer-joined table".

(** The walker never stops the walk (it returns false at every node); it
    fills [info] or raises. *)
Fixpoint get_ora_column_join_walker (node : Node) (info : JoinExprInfo.t)
    {struct node} : Outcome JoinExprInfo.t :=
  match node with
  | NColumnRefJoin var =>
      if bool_decide (JoinExprInfo.rrtindex info = 0%nat) then
        Done (info <| JoinExprInfo.type := JOIN_LEFT |>
                   <| JoinExprInfo.rrtindex := varno var |>)
      else if bool_decide (JoinExprInfo.rrtindex info <> varno var) then
        Raised one_outer_joined_table
      else Done info
  | NVar var =>
      if bool_decide (JoinExprInfo.lrtindex info = varno var)
         || bool_decide (JoinExprInfo.rrtindex info = varno var) then Done info
      else if bool_decide (JoinExprInfo.lrtindex info = 0%nat) then
        Done (info <| JoinExprInfo.lrtindex := varno var |>)
      else if bool_decide (JoinExprInfo.rrtindex info = 0%nat)
              && bool_decide (JoinExprInfo.type info = JOIN_INNER) then
        Done (info <| JoinExprInfo.rrtindex := varno var |>)
      else if bool_decide (JoinExprInfo.rrtindex info <> varno var)
              && bool_decide (JoinExprInfo.lrtindex info <> varno var) then
        Raised one_outer_joined_table
      else Done info
  | NOpExpr _ _ args | NFuncExpr _ args | NBoolExpr _ args
  | NRowExpr args | NOpaque _ args =>
      foldO (fun info child => get_ora_column_join_walker child info) info args
  | NConst _ | NParam _ | NRownumExpr | NSetToDefault _ => Done info
  end.

Definition get_ora_column_join (expr : Node) : Outcome JoinExprInfo.t :=
  let jinfo := JoinExprInfo.mk expr JOIN_INNER 0%nat 0%nat in
  get_ora_column_join_walker expr jinfo.

Definition combin_pullup_context (dest src : PullupRelForJoinContext.t)
    : bool * PullupRelForJoinContext.t :=
  let '(res, dest) :=
    match PullupRelForJoinContext.larg src with
    | Some l => (true, PullupRelForJoinContext.mk (Some l) (PullupRelForJoinContext.rarg dest))
    | None => (false, dest)
    end in
  match PullupRelForJoinContext.rarg src with
  | Some r => (true, PullupRelForJoinContext.mk (PullupRelForJoinContext.larg dest) (Some r))
  | None => (res, dest)
  end.

Definition pullup_found_all (context : PullupRelForJoinContext.t) : bool :=
  match PullupRelForJoinContext.larg context, PullupRelForJoinContext.rarg context with
  | Some _, Some _ => true
  | _, _ => false
  end.

(** The end of the FromExpr case of pullup_rel_for_join: [fromlist] is what
    is left of from->fromlist. *)
Definition pullup_make_join (jinfo : JoinExprInfo.t) (fromlist : list JoinTree)
    (quals : option Node) (context : PullupRelForJoinContext.t)
    : bool * JoinTree * PullupRelForJoinContext.t :=
  match PullupRelForJoinContext.larg context, PullupRelForJoinContext.rarg context with
  | Some larg, Some rarg =>
      (* now meke JoinExpr *)
      let join := JoinExpr (JoinExprInfo.type jinfo) larg rarg
                    (Some (JoinExprInfo.expr jinfo)) None 0%nat in
      (true, FromExpr (fromlist ++ [join]) quals, context)
  | _, _ =>
      (* return false when not found all *)
      (false, FromExpr fromlist quals, context)
  end.

(** [pullup_rel_for_join node jinfo context] gives the value the C function
    returns, the node as the call leaves it, and the context as it leaves it. *)
Fixpoint pullup_rel_for_join (node : JoinTree) (jinfo : JoinExprInfo.t)
    (context : PullupRelForJoinContext.t) {struct node}
    : Outcome (bool * JoinTree * PullupRelForJoinContext.t) :=
  match node with
  | FromExpr fromlist quals =>
      (fix loop (items kept : list JoinTree) (context : PullupRelForJoinContext.t)
           {struct items} : Outcome (bool * JoinTree * PullupRelForJoinContext.t) :=
         match items with
         | [] => Done (pullup_make_join jinfo kept quals context)
         | item :: rest =>
             match pullup_rel_for_join item jinfo PullupRelForJoinContext.empty with
             | Raised e => Raised e
             | Done (true, item', _) =>
                 Done (true, FromExpr (kept ++ item' :: rest) quals, context)
             | Done (false, item', my_context) =>
                 let '(res, context) := combin_pullup_context context my_context in
                 if res then
                   (* from->fromlist = list_delete_ptr(from->fromlist, item) *)
                   if pullup_found_all context
                   then Done (pullup_make_join jinfo (kept ++ rest) quals context)
                   else loop rest kept context
                 else loop rest (kept ++ [item']) context
             end
         end) fromlist [] context
  | JoinExpr jointype larg rarg quals alias rtindex =>
      match pullup_rel_for_join larg jinfo PullupRelForJoinContext.empty with
      | Raised e => Raised e
      | Done (true, larg', _) =>
          Done (true, JoinExpr jointype larg' rarg quals alias rtindex, context)
      | Done (false, larg', my_context) =>
          let context := snd (combin_pullup_context context my_context) in
          let right :=
            if negb (pullup_found_all context) then
              match pullup_rel_for_join rarg jinfo PullupRelForJoinContext.empty with
              | Raised e => Raised e
              | Done (found, rarg', my_context) =>
                  Done (found, rarg',
                        if found then context
                        else snd (combin_pullup_context context my_context))
              end
            else Done (false, rarg, context) in
          match right with
          | Raised e => Raised e
          | Done (true, rarg', _) =>
              Done (true, JoinExpr jointype larg' rarg' quals alias rtindex, context)
          | Done (false, rarg', context) =>
              if pullup_found_all context then
                (* all table found: combin clause *)
                if bool_decide (JoinExprInfo.type jinfo = JOIN_LEFT)
                   && bool_decide (jointype <> JOIN_LEFT)
                   && bool_decide (jointype <> JOIN_RIGHT)
                then Raised one_outer_joined_table
                else
                  let args :=
                    match quals with
                    | None => []
                    | Some (NBoolExpr AND_EXPR args) => args
                    | Some q => [q]
                    end in
                  let bexpr := NBoolExpr AND_EXPR (args ++ [JoinExprInfo.expr jinfo]) in
                  Done (true, JoinExpr jointype larg' rarg' (Some bexpr) alias rtindex,
                        context)
              else
                let node' := JoinExpr jointype larg' rarg' quals alias rtindex in
                (* release [lr]arg to this join node *)
                let context :=
                  match PullupRelForJoinContext.larg context,
                        PullupRelForJoinContext.rarg context with
                  | Some _, r => PullupRelForJoinContext.mk (Some node') r
                  | None, Some _ => PullupRelForJoinContext.mk None (Some node')
                  | None, None => context
                  end in
                Done (false, node', context)
          end
      end
  | RangeTblRef rtindex =>
      if bool_decide (rtindex = JoinExprInfo.lrtindex jinfo) then
        Done (false, node,
              PullupRelForJoinContext.mk (Some node) (PullupRelForJoinContext.rarg context))
      else if bool_decide (rtindex = JoinExprInfo.rrtindex jinfo) then
        Done (false, node,
              PullupRelForJoinContext.mk (PullupRelForJoinContext.larg context) (Some node))
      else Done (false, node, context)
  | OtherJoinNode _ => Raised (elog "unrecognized node type")
  end.

(** The markers of the ON clauses of explicit joins and of the top WHERE:
    they are checked against the join type and removed. *)
Fixpoint check_joinon_column_join (node : JoinTree) {struct node} : Outcome JoinTree :=
  match node with
  | JoinExpr jointype larg rarg quals alias rtindex =>
      match check_joinon_column_join larg with
      | Raised e => Raised e
      | Done larg' =>
      match check_joinon_column_join rarg with
      | Raised e => Raised e
      | Done rarg' =>
      match quals with
      | Some q =>
          if negb (have_ora_column_join q) then
            Done (JoinExpr jointype larg' rarg' quals alias rtindex)
          else
            match get_ora_column_join q with
            | Raised e => Raised e
            | Done jinfo =>
                let failed_at (arg : JoinTree) (for_l for_r : JoinType) : bool :=
                  match arg with
                  | RangeTblRef rtindex =>
                      (bool_decide (rtindex = JoinExprInfo.lrtindex jinfo)
                       && bool_decide (jointype <> for_l))
                      || (bool_decide (rtindex = JoinExprInfo.rrtindex jinfo)
                          && bool_decide (jointype <> for_r))
                  | _ => false
                  end in
                let failed :=
                  bool_decide (JoinExprInfo.type jinfo <> JOIN_INNER)
                  && (failed_at larg' JOIN_LEFT JOIN_RIGHT
                      || failed_at rarg' JOIN_RIGHT JOIN_LEFT) in
                if failed then
                  Raised (ereport ERRCODE_SYNTAX_ERROR
                            "a predicate may reference only on outer-joined table")
                else
                  Done (JoinExpr jointype larg' rarg'
                          (Some (remove_column_join_expr q)) alias rtindex)
            end
      | None => Done (JoinExpr jointype larg' rarg' quals alias rtindex)
      end
      end
      end
  | FromExpr fromlist quals =>
      match mapO check_joinon_column_join fromlist with
      | Raised e => Raised e
      | Done fromlist' =>
          if have_ora_column_join_opt quals
          then Done (FromExpr fromlist' (remove_column_join_expr_opt quals))
          else Done (FromExpr fromlist' quals)
      end
  | RangeTblRef _ => Done node
  | OtherJoinNode _ => Raised (elog "unrecognized node type")
  end.

(** check_joinon_column_join on a [Node *] that may be NULL. *)
Definition check_joinon_column_join_opt (node : option JoinTree)
    : Outcome (option JoinTree) :=
  match node with
  | None => Done None
  | Some n => n' ← check_joinon_column_join n; mret (Some n')
  end.

(** find_namespace_item_for_rte: the item of [namespace] for the range-table
    entry [rte]; the loop leaves the last item when there is none. *)
Definition find_namespace_item_for_rte (namespace : list ParseNamespaceItem)
    (rte : Index) : option NamespaceItemRef :=
  match list_find (fun pni => p_rte pni = rte) namespace with
  | Some (pos, _) => Some (InNamespace pos)
  | None =>
      match namespace with
      | [] => None
      | _ => Some (InNamespace (length namespace - 1))
      end
  end.

(** [pni->p_cols_visible = false] through each pointer of [namelist]. *)
Definition hide_columns (namelist : list NamespaceItemRef)
    : M (list NamespaceItemRef) :=
  foldM (fun acc ref =>
           match ref with
           | InNamespace pos =>
               modify_pstate (fun pstate =>
                 pstate <| p_namespace :=
                   alter (fun pni => pni <| p_cols_visible := false |>) pos
                         (p_namespace pstate) |>);;
               mret (acc ++ [ref])
           | Allocated item =>
               mret (acc ++ [Allocated (item <| p_cols_visible := false |>)])
           end) [] namelist.

(** The items a list of pointers points to. *)
Definition namespace_items (pstate : ParseState) (namelist : list NamespaceItemRef)
    : list ParseNamespaceItem :=
  omap (fun ref =>
          match ref with
          | InNamespace pos => p_namespace pstate !! pos
          | Allocated item => Some item
          end) namelist.

Definition rt_fetch_pstate (rtindex : Index) : M RangeTblEntry :=
  pstate ← get_pstate;
  match rt_fetch rtindex (p_rtable pstate) with
  | Some rte => mret rte
  | None => mthrow (elog "range-table index out of range")
  end.

(** analyze_new_join gives the node with the rtindex of the new joins
    filled in, the range-table index it stores in [*rtindex] (none for a
    FromExpr) and the list it leaves in [*namelist]. *)
Fixpoint analyze_new_join (node : JoinTree) (namelist : list NamespaceItemRef)
    {struct node} : M (JoinTree * option Index * list NamespaceItemRef) :=
  match node with
  | JoinExpr jointype larg rarg quals alias rtindex =>
      if bool_decide (rtindex = 0%nat) then
        (* new join expr *)
        '(larg', l_rtindex, res_namelist) ← analyze_new_join larg [];
        l_rtindex ← match l_rtindex with
                    | Some i => mret i
                    | None => mthrow (elog "join argument without range-table entry")
                    end;
        l_rte ← rt_fetch_pstate l_rtindex;
        '(res_colnames, res_colvars) ← lift (expandRTE l_rte l_rtindex 0%nat false);
        '(rarg', r_rtindex, arg_namelist) ← analyze_new_join rarg [];
        r_rtindex ← match r_rtindex with
                    | Some i => mret i
                    | None => mthrow (elog "join argument without range-table entry")
                    end;
        r_rte ← rt_fetch_pstate r_rtindex;
        '(colnames, colvars) ← lift (expandRTE r_rte r_rtindex 0%nat false);
        let res_colnames := res_colnames ++ colnames in
        let res_colvars := res_colvars ++ colvars in
        let res_namelist := res_namelist ++ arg_namelist in
        _ ← addRangeTableEntryForJoin res_colnames jointype res_colvars alias true;
        pstate ← get_pstate;
        let rtindex := length (p_rtable pstate) in
        let j := JoinExpr jointype larg' rarg' quals alias rtindex in
        (* make a matching link to the JoinExpr for later use *)
        modify_pstate (fun pstate =>
          pstate <| p_joinexprs :=
            p_joinexprs pstate
              ++ replicate (rtindex - 1 - length (p_joinexprs pstate)) None
              ++ [Some j] |>);;
        res_namelist ← hide_columns res_namelist;
        let pni := mkParseNamespaceItem rtindex false true false true in
        mret (j, Some rtindex, res_namelist ++ [Allocated pni])
      else
        pstate ← get_pstate;
        match find_namespace_item_for_rte (p_namespace pstate) rtindex with
        | Some ref => mret (node, Some rtindex, [ref])
        | None => mthrow (elog "no namespace item for the range-table entry")
        end
  | FromExpr fromlist quals =>
      '(fromlist', namelist) ←
        (fix loop (items : list JoinTree) (acc : list JoinTree)
             (namelist : list NamespaceItemRef) {struct items}
             : M (list JoinTree * list NamespaceItemRef) :=
           match items with
           | [] => mret (acc, namelist)
           | item :: rest =>
               '(item', _, my_namelist) ← analyze_new_join item [];
               loop rest (acc ++ [item']) (namelist ++ my_namelist)
           end) fromlist [] namelist;
      mret (FromExpr fromlist' quals, None, namelist)
  | RangeTblRef rtindex =>
      pstate ← get_pstate;
      match find_namespace_item_for_rte (p_namespace pstate) rtindex with
      | Some ref => mret (node, Some rtindex, [ref])
      | None => mthrow (elog "no namespace item for the range-table entry")
      end
  | OtherJoinNode _ => mthrow (elog "unknown node type")
  end.

(** The AND of a predicate with one more: the BoolExpr the merge loop of
    get_join_qual_exprs keeps in [jinfo->expr]. *)
Definition append_to_and_clause (e e2 : Node) : Node :=
  match e with
  | NBoolExpr AND_EXPR args => NBoolExpr AND_EXPR (args ++ [e2])
  | _ => NBoolExpr AND_EXPR ([e] ++ [e2])
  end.

Definition same_tables (jinfo jinfo2 : JoinExprInfo.t) : bool :=
  bool_decide (JoinExprInfo.type jinfo = JoinExprInfo.type jinfo2)
  && bool_decide (JoinExprInfo.lrtindex jinfo = JoinExprInfo.lrtindex jinfo2)
  && bool_decide (JoinExprInfo.rrtindex jinfo = JoinExprInfo.rrtindex jinfo2).

(** One round of the merge loop: [jinfo2] joins the first entry of
    [result] on the same table(s), or is appended. *)
Fixpoint combine_join_qual (result : list JoinExprInfo.t) (jinfo2 : JoinExprInfo.t)
    : list JoinExprInfo.t :=
  match result with
  | [] => [jinfo2]
  | jinfo :: result' =>
      if same_tables jinfo jinfo2 then
        (* same table(s) clause, combin it *)
        (jinfo <| JoinExprInfo.expr :=
           append_to_and_clause (JoinExprInfo.expr jinfo) (JoinExprInfo.expr jinfo2) |>)
          :: result'
      else jinfo :: combine_join_qual result' jinfo2
  end.

(** The list of JoinExprInfo of a WHERE clause. *)
Definition get_join_qual_exprs (quals : option Node) : Outcome (list JoinExprInfo.t) :=
  match quals with
  | None => mret []
  | Some quals =>
      let quals := canonicalize_qual quals in
      let qual_list :=
        match quals with
        | NBoolExpr AND_EXPR args => args
        | _ => [quals]
        end in
      (* this loop, we get all column join expr clause and delete from qual_list *)
      result ← mapO get_ora_column_join (filter (fun e => have_ora_column_join e) qual_list);
      let qual_list := filter (fun e => negb (have_ora_column_join e)) qual_list in
      (* now, we combin exprs *)
      foldO (fun result expr =>
               jinfo2 ← get_ora_column_join expr;
               mret (combine_join_qual result jinfo2)) result qual_list
  end.

(** The rewrite of a FROM list and a WHERE clause with outer-join markers
    into explicit joins; the WHERE clause that is left is returned. *)
Definition transformFromAndWhere (quals : option Node) : M (option Node) :=
  log (Ev_transformFromAndWhere quals);;
  pstate ← get_pstate;
  if bool_decide (p_joinlist pstate = []) || negb (have_ora_column_join_opt quals) then
    mret quals
  else if bool_decide (length (p_joinlist pstate) = 1%nat) then
    (* fast process *)
    mret (remove_column_join_expr_opt quals)
  else
    qual_list ← lift (get_join_qual_exprs quals);
    let from := FromExpr (p_joinlist pstate) None in
    '(from, qual_list) ←
      foldM (fun '(from, kept) jinfo =>
               if bool_decide (JoinExprInfo.lrtindex jinfo = 0%nat)
                  || bool_decide (JoinExprInfo.rrtindex jinfo = 0%nat) then
                 (* keep single table's clause and remove jinfo *)
                 mret (from, kept ++ [remove_column_join_expr (JoinExprInfo.expr jinfo)])
               else
                 let jinfo := jinfo <| JoinExprInfo.expr :=
                                remove_column_join_expr (JoinExprInfo.expr jinfo) |> in
                 '(found, from', _) ←
                   lift (pullup_rel_for_join from jinfo PullupRelForJoinContext.empty);
                 if negb found
                 then mthrow (elog "move filter qual to join filter failed!")
                 else mret (from', kept))
            (from, []) qual_list;
    (* save namespace *)
    modify_pstate (fun pstate =>
      pstate <| p_save_namespace := p_save_namespace pstate ++ p_namespace pstate |>);;
    '(from, _, new_namelist) ← analyze_new_join from [];
    modify_pstate (fun pstate =>
      pstate <| p_namespace := namespace_items pstate new_namelist |>);;
    modify_pstate (fun pstate =>
      pstate <| p_joinlist :=
        match from with FromExpr fromlist _ => fromlist | _ => [] end |>);;
    match qual_list with
    | [] => mret None
    | [qual] => mret (Some qual)
    | _ => mret (Some (makeBoolExpr AND_EXPR qual_list))
    end.

(** *** ROWNUM predicates become LIMIT *)

Definition make_int8_const (value : Datum) : Node :=
  NConst (mkConst INT8OID (-1) InvalidOid 8 value false FLOAT8PASSBYVAL).

Definition const_get_int64 (expr : Node) : option Z :=
  match expr with
  | NConst c =>
      if constisnull c then None
      else if consttype c =? INT8OID then Some (DatumGetInt64 (constvalue c))
      else if consttype c =? INT4OID then Some (DatumGetInt32 (constvalue c))
      else if consttype c =? INT2OID then Some (DatumGetInt16 (constvalue c))
      else None
  | _ => None
  end.

(** The scan of pg_operator for the operator whose code is [funcid]. *)
Definition get_operator_for_function (funcid : Oid) : Oid :=
  if funcid =? InvalidOid then InvalidOid
  else
    match list_find (fun htup => oprcode htup = funcid) pg_operator with
    | Some (_, htup) => opr_oid htup
    | None => InvalidOid
    end.

(** The body of the loop of rewrite_rownum_query for the predicate [expr]. *)
Definition rewrite_rownum_expr (expr : Node) (limitCount : option Node) : RownumStep :=
  if negb (contain_rownum expr) then Step_skip
  else
    match
      match expr with
      | NOpExpr opno opfuncid args => Some (args, opno, opfuncid)
      | NFuncExpr funcid args => Some (args, InvalidOid, funcid)
      | _ => None
      end
    with
    | Some ([l; r], opno, funcid) =>
        if negb (is_RownumExpr l) && negb (is_RownumExpr r) then Step_return
        else
          (* get operator *)
          let opno := if opno =? InvalidOid then get_operator_for_function funcid
                      else opno in
          if opno =? InvalidOid then Step_return
          else
            (* exchange operator, like "10>rownum" to "rownum<10" *)
            let '(opno, l, r) :=
              if is_RownumExpr r then (get_commutator opno, r, l) else (opno, l, r) in
            if opno =? InvalidOid then Step_return
            else if negb (is_RownumExpr l) then Step_return
            else
              (* get operator name *)
              match get_opname opno with
              | None => Step_return
              | Some tmp =>
                  let opname := strncpy4 tmp in
                  if Ascii.eqb (char_at opname 0) "<" then
                    if contain_mutable_functions r then Step_return
                    else
                      match const_get_int64 r with
                      | None => Step_return
                      | Some v64 =>
                          if Ascii.eqb (char_at opname 1) "="
                             && Ascii.eqb (char_at opname 2) Ascii.zero then
                            (* rownum <= expr *)
                            if v64 <=? 0 then Step_break
                            else if bool_decide (limitCount <> None) then Step_return
                            else Step_hint (Some r)
                          else if Ascii.eqb (char_at opname 1) Ascii.zero then
                            (* rownum < n *)
                            if v64 <=? 1 then Step_break
                            else if bool_decide (limitCount <> None) then Step_return
                            else
                              match make_op2 "-" r (make_int8_const (Int64GetDatum 1)) with
                              | Some limitCount => Step_hint (Some limitCount)
                              | None => Step_return
                              end
                          else if Ascii.eqb (char_at opname 1) ">"
                                  && Ascii.eqb (char_at opname 2) Ascii.zero then
                            (* rownum <> expr *)
                            if v64 <=? 0 then Step_hint limitCount
                            else if bool_decide (limitCount <> None) then Step_return
                            else
                              (* for now, rownum <> n equal limit n-1 *)
                              match make_op2 "-" r (make_int8_const (Int64GetDatum 1)) with
                              | Some limitCount => Step_hint (Some limitCount)
                              | None => Step_return
                              end
                          else Step_return (* unknown operator *)
                      end
                  else if Ascii.eqb (char_at opname 0) ">" then
                    match const_get_int64 r with
                    | None => Step_return
                    | Some v64 =>
                        if Ascii.eqb (char_at opname 1) "="
                           && Ascii.eqb (char_at opname 2) Ascii.zero then
                          (* only support rownum >= 1 *)
                          if negb (v64 =? 1) then Step_return else Step_hint limitCount
                        else if Ascii.eqb (char_at opname 1) Ascii.zero then
                          (* only support rownum > 0 *)
                          if negb (v64 =? 0) then Step_return else Step_hint limitCount
                        else Step_return
                    end
                  else if Ascii.eqb (char_at opname 0) "="
                          && Ascii.eqb (char_at opname 1) Ascii.zero then
                    (* rownum = rownum ignore *)
                    if negb (is_RownumExpr r) then Step_return else Step_hint limitCount
                  else Step_return
              end
    | _ => Step_return
    end.

(** The loop over the predicates: [i] counts them, [hints] collects the
    positions of the consumed ones. *)
Fixpoint rewrite_rownum_scan (qual_list : list Node) (i : Z)
    (limitCount : option Node) (hints : Bitmapset) : RownumScan :=
  match qual_list with
  | [] => Scan_done limitCount hints
  | expr :: rest =>
      match rewrite_rownum_expr expr limitCount with
      | Step_skip => rewrite_rownum_scan rest (i + 1) limitCount hints
      | Step_hint limitCount =>
          rewrite_rownum_scan rest (i + 1) limitCount (bms_add_member hints i)
      | Step_break => Scan_break
      | Step_return => Scan_return
      end
  end.

(** The predicates of [qual_list] whose position, counted from [i], is not
    in [hints]. *)
Fixpoint quals_not_hinted (qual_list : list Node) (i : Z) (hints : Bitmapset)
    : list Node :=
  match qual_list with
  | [] => []
  | expr :: rest =>
      if bms_is_member i hints then quals_not_hinted rest (i + 1) hints
      else expr :: quals_not_hinted rest (i + 1) hints
  end.

(** let "rownum <[=] CONST" or "CONST >[=] rownum" to "limit N" *)
Definition rewrite_rownum_query (query : Query) : Query :=
  match jointree query with
  | None => query
  | Some jt =>
      if bool_decide (limitOffset query <> None)
         || bool_decide (limitCount query <> None)
         || negb (contain_rownum_opt (jointree_quals jt))
      then query
      else
        match jointree_quals jt with
        | None => query
        | Some quals =>
            let expr := canonicalize_qual quals in
            let jt := set_jointree_quals (Some expr) jt in
            let query := query <| jointree := Some jt |> in
            let qual_list :=
              match expr with
              | NBoolExpr AND_EXPR args => args
              | _ => [expr]
              end in
            (* find expr *)
            match rewrite_rownum_scan qual_list 0 None ∅ with
            | Scan_return => query
            | Scan_break =>
                (* limitCount = 0; qual_list = NIL; break: the quals stay *)
                query <| limitCount := Some (make_int8_const (Int64GetDatum 0)) |>
            | Scan_done limitCount_ hints =>
                let query := query <| limitCount := limitCount_ |> in
                match qual_list with
                | [] => query
                | _ =>
                    (* whe use args for get new quals *)
                    let args := quals_not_hinted qual_list 0 hints in
                    let new_quals :=
                      match args with
                      | [] => None
                      | [arg] => Some arg
                      | _ => Some (makeBoolExpr AND_EXPR args)
                      end in
                    query <| jointree := Some (set_jointree_quals new_quals jt) |>
                end
            end
        end
  end.

(** The walk of rewrite_rownum_query_enum over a query tree: the
    sub-queries of the range table first, then the query itself.
    Sub-queries inside opaque nodes are out of the reach of the embedding. *)
Fixpoint rewrite_rownum_query_enum (query : Query) {struct query} : Query :=
  let rtable' :=
    (fix walk (rt : list RangeTblEntry) : list RangeTblEntry :=
       match rt with
       | [] => []
       | rte :: rt' =>
           match subquery rte with
           | Some sub =>
               (rte <| subquery := Some (rewrite_rownum_query_enum sub) |>) :: walk rt'
           | None => rte :: walk rt'
           end
       end) (rtable query) in
  rewrite_rownum_query (query <| rtable := rtable' |>).

(** *** Helpers of the statement transformers *)

(** Returns whether the passed RTEs have a parent child relationship. *)
Definition is_rel_child_of_rel (child_rte parent_rte : RangeTblEntry) : bool :=
  (* Does parent RT entry allow inheritance? *)
  if negb (inh parent_rte) then false
  (* Ignore any already-expanded UNION ALL nodes *)
  else if bool_decide (rtekind parent_rte <> RTE_RELATION) then false
  (* Fast path for common case of childless table *)
  else if negb (has_subclass (relid parent_rte)) then false
  else
    (* Scan pg_inherits and get all the subclass OIDs one by one. *)
    existsb (fun inheritsTuple => relid child_rte =? inhrelid inheritsTuple)
            (filter (fun inheritsTuple => inhparent inheritsTuple = relid parent_rte)
                    pg_inherits).

(** [is_relation_child child_rte query] is the call
    is_relation_child(child_rte, query->rtable). *)
Fixpoint is_relation_child_rtable (child_rte : RangeTblEntry) (query : Query)
    {struct query} : bool :=
  (fix loop (rt : list RangeTblEntry) : bool :=
     match rt with
     | [] => false
     | rte :: rt' =>
         match rtekind rte with
         | RTE_RELATION =>
             if is_rel_child_of_rel child_rte rte then true else loop rt'
         | RTE_SUBQUERY =>
             match subquery rte with
             | Some sub =>
                 if bool_decide (rtable sub = []) then false
                 else is_relation_child_rtable child_rte sub
             | None => false
             end
         | _ => loop rt'
         end
     end) (rtable query).

Definition is_relation_child (child_rte : option RangeTblEntry) (query : Query) : bool :=
  match child_rte with
  | None => false
  | Some child_rte =>
      if bool_decide (rtable query = []) then false
      else if bool_decide (rtekind child_rte <> RTE_RELATION) then false
      else is_relation_child_rtable child_rte query
  end.

(** The WITH clause of DELETE and UPDATE on a coordinator: an INSERT in a
    CTE asks for the command id to be sent to the remote nodes. *)
Definition with_clause_save_cmd_id (withClause : WithClause.t) (qry : Query) : M Query :=
  if PGXC && IS_PGXC_COORDINATOR && negb IsConnFromCoord
     && existsb (fun cte =>
                   bool_decide (nodeTag (CommonTableExpr.ctequery cte) = T_InsertStmt))
                (WithClause.ctes withClause)
  then SetSendCommandId true;; mret (qry <| has_to_save_cmd_id := true |>)
  else mret qry.

(** The three assignments that process a WITH clause. *)
Definition process_with_clause (withClause : option WithClause.t) (qry : Query)
    : M Query :=
  match withClause with
  | Some withClause =>
      let qry := qry <| hasRecursive := WithClause.recursive withClause |> in
      cteList_ ← transformWithClause withClause;
      pstate ← get_pstate;
      mret (qry <| cteList := cteList_ |>
                <| hasModifyingCTE := p_hasModifyingCTE pstate |>)
  | None => mret qry
  end.

(** transformReturningList - handle a RETURNING clause in INSERT/UPDATE/DELETE *)
Definition transformReturningList (returningList : list ResTarget.t)
    : M (list TargetEntry) :=
  match returningList with
  | [] => mret []               (* nothing to do *)
  | _ =>
      (* Save and restore the main tlist's value of p_next_resno *)
      pstate ← get_pstate;
      let save_next_resno := p_next_resno pstate in
      modify_pstate (fun pstate => pstate <| p_next_resno := 1 |>);;
      (* transform RETURNING identically to a SELECT targetlist *)
      rlist ← transformTargetList returningList EXPR_KIND_RETURNING;
      (* mark column origins *)
      markTargetListOrigins rlist;;
      (* restore state *)
      modify_pstate (fun pstate => pstate <| p_next_resno := save_next_resno |>);;
      mret rlist
  end.

(** count_rowexpr_columns - get number of columns contained in a ROW()
    expression; return -1 if expression isn't a RowExpr or a Var
    referencing one. *)
Definition count_rowexpr_columns (pstate : ParseState) (node : option Node) : Z :=
  match node with
  | None => -1
  | Some (NRowExpr args) => Z.of_nat (length args)
  | Some (NVar var) =>
      let attnum := varattno var in
      if (attnum >? 0) && (vartype var =? RECORDOID) then
        match GetRTEByRangeTablePosn pstate (varno var) (varlevelsup var) with
        | Some rte =>
            if bool_decide (rtekind rte = RTE_SUBQUERY) then
              (* Subselect-in-FROM: examine sub-select's output expr *)
              match subquery rte with
              | Some sub =>
                  match get_tle_by_resno (targetList sub) attnum with
                  | Some ste =>
                      if resjunk ste then -1
                      else
                        match expr ste with
                        | NRowExpr args => Z.of_nat (length args)
                        | _ => -1
                        end
                  | None => -1
                  end
              | None => -1
              end
            else -1
        | None => -1
        end
      else -1
  | Some _ => -1
  end.

(** The loop that walks a list of expressions along [icolumns] and
    [attrnos]; running off the end of either is a NULL dereference in C. *)
Fixpoint insert_row_columns (exprlist : list Node) (icols : list ResTarget.t)
    (attnos : list Z) : M (list Node) :=
  match exprlist with
  | [] => mret []
  | expr :: exprlist' =>
      match icols, attnos with
      | col :: icols', attno :: attnos' =>
          expr' ← transformAssignedExpr expr EXPR_KIND_INSERT_TARGET
                    (ResTarget.name col) attno (ResTarget.indirection col);
          result ← insert_row_columns exprlist' icols' attnos';
          mret (expr' :: result)
      | _, _ => mthrow (elog "ran off the end of the target column list")
      end
  end.

(** Prepare an INSERT row for assignment to the target table. *)
Definition transformInsertRow (exprlist : list Node) (stmtcols : list ResTarget.t)
    (icolumns : list ResTarget.t) (attrnos : list Z) : M (list Node) :=
  (* Check length of expr list.  It must not have more expressions than
     there are target columns. *)
  if bool_decide (length icolumns < length exprlist)%nat then
    mthrow (ereport ERRCODE_SYNTAX_ERROR
              "INSERT has more expressions than target columns")
  else if bool_decide (stmtcols <> [])
          && bool_decide (length exprlist < length icolumns)%nat then
    pstate ← get_pstate;
    mthrow (mkError ERRCODE_SYNTAX_ERROR
              "INSERT has more target columns than expressions" None
              (if bool_decide (length exprlist = 1%nat)
                  && (count_rowexpr_columns pstate (head exprlist)
                      =? Z.of_nat (length icolumns))
               then Some "The insertion source is a row expression containing the same number of columns expected by the INSERT. Did you accidentally use extra parentheses?"
               else None))
  else
    (* Prepare columns for assignment to target table. *)
    insert_row_columns exprlist icolumns attrnos.

(** Modelled from the spec: updateTargetListEntry (parser/parse_target.c,
    not in src/) binds attnum, indirection and position: the expression
    is prepared for the assignment by transformAssignedExpr, and the entry
    gets the attribute number and the name of the column. *)
Definition updateTargetListEntry (tle : TargetEntry) (colname : option string)
    (attrno : Z) (indirection : list Node) : M TargetEntry :=
  expr' ← transformAssignedExpr (expr tle) EXPR_KIND_UPDATE_TARGET colname attrno
            indirection;
  mret (tle <| expr := expr' |> <| resno := to_AttrNumber attrno |>
            <| resname := colname |>).

(** ResTarget names in messages. *)
Definition name_str (name : option string) : string := default EmptyString name.

(** *** The statement transformers

    transformStmt and the transformers it dispatches to call each other.
    Inside this section [transformStmt] stands for the recursive calls;
    the dispatcher itself is [transformStmt_dispatch] and the knot is tied
    after the section. *)
Section Statements.
Variable transformStmt : RawStmt -> M Query.

(** parse_sub_analyze - entry point for recursively analyzing a
    sub-statement: a child parse state is made, used and freed.  The child
    points to the parse state of the caller. *)
Definition parse_sub_analyze (parseTree : RawStmt)
    (parentCTE : option CommonTableExpr.t) (locked_from_parent : bool) : M Query :=
  parentParseState ← get_pstate;
  let pstate := make_parsestate (Some parentParseState) in
  let pstate := pstate <| p_parent_cte := parentCTE |> in
  let pstate := pstate <| p_locked_from_parent := locked_from_parent |> in
  '(query, pstate) ← on_child pstate (transformStmt parseTree);
  free_parsestate pstate;;
  mret query.

(** [nsitem->p_lateral_only = a; nsitem->p_lateral_ok = b] through the
    pointer to the namespace item at position [pos]. *)
Definition set_nsitem_lateral (pos : nat) (lateral_only lateral_ok : bool) : M unit :=
  modify_pstate (fun pstate =>
    pstate <| p_namespace :=
      alter (fun nsitem => nsitem <| p_lateral_only := lateral_only |>
                                  <| p_lateral_ok := lateral_ok |>)
            pos (p_namespace pstate) |>).

(** The position of llast(pstate->p_namespace). *)
Definition llast_pos (pstate : ParseState) : nat := (length (p_namespace pstate) - 1)%nat.

(** [rte->modifiedCols = bms_add_member(rte->modifiedCols, attr_num -
    FirstLowInvalidHeapAttributeNumber)] through a pointer to an entry. *)
Definition add_modified_col (rte : Index) (attr_num : Z) : M unit :=
  modify_pstate (fun pstate =>
    pstate <| p_rtable :=
      rt_update rte
        (fun rte => rte <| modifiedCols :=
           bms_add_member (modifiedCols rte)
                          (attr_num - FirstLowInvalidHeapAttributeNumber) |>)
        (p_rtable pstate) |>).

(** transformDeleteStmt - transforms a Delete Statement *)
Definition transformDeleteStmt (stmt : DeleteStmt.t) : M Query :=
  let qry := makeNode_Query in
  let qry := qry <| commandType := CMD_DELETE |> in
  (* process the WITH clause independently of all else *)
  qry ← match DeleteStmt.withClause stmt with
        | Some withClause =>
            qry ← with_clause_save_cmd_id withClause qry;
            process_with_clause (Some withClause) qry
        | None => mret qry
        end;
  (* set up range table with just the result rel *)
  resultRelation_ ← setTargetTable (DeleteStmt.relation stmt)
                      (interpretInhOption (RangeVar.inhOpt (DeleteStmt.relation stmt)))
                      true ACL_DELETE;
  let qry := qry <| resultRelation := resultRelation_ |> in
  (* grab the namespace item made by setTargetTable *)
  pstate ← get_pstate;
  let nsitem := llast_pos pstate in
  (* there's no DISTINCT in DELETE *)
  let qry := qry <| distinctClause := [] |> in
  (* subqueries in USING cannot access the result relation *)
  set_nsitem_lateral nsitem true false;;
  transformFromClause (DeleteStmt.usingClause stmt);;
  (* remaining clauses can reference the result relation normally *)
  set_nsitem_lateral nsitem false true;;
  qual ← transformWhereClause (DeleteStmt.whereClause stmt) EXPR_KIND_WHERE "WHERE";
  returningList_ ← transformReturningList (DeleteStmt.returningList stmt);
  let qry := qry <| returningList := returningList_ |> in
  (* done building the range table and jointree *)
  pstate ← get_pstate;
  let qry := qry <| rtable := p_rtable pstate |> in
  let qry := qry <| jointree := Some (makeFromExpr (p_joinlist pstate) qual) |> in
  let qry := qry <| hasSubLinks := p_hasSubLinks pstate |> in
  let qry := qry <| hasWindowFuncs := p_hasWindowFuncs pstate |> in
  let qry := qry <| hasAggs := p_hasAggs pstate |> in
  when (p_hasAggs pstate) (parseCheckAggregates qry);;
  assign_query_collations qry;;
  mret qry.

(** The expression list of INSERT ... SELECT: the non-resjunk columns of
    the sub-query, as Vars, or as they are for unknown-type constants and
    parameters. *)
Definition insert_select_exprs (rtindex : Index) (tlist : list TargetEntry) : list Node :=
  omap (fun tle =>
          if resjunk tle then None
          else if (is_Const (expr tle) || is_Param (expr tle))
                  && (exprType (expr tle) =? UNKNOWNOID)
          then Some (expr tle)
          else Some (NVar (makeVarFromTargetEntry rtindex tle)))
       tlist.

(** The loop that builds the target list of an INSERT from the
    expressions, along [icolumns] and [attrnos]. *)
Fixpoint insert_target_list (rte : Index) (exprList : list Node)
    (icols : list ResTarget.t) (attnos : list Z) : M (list TargetEntry) :=
  match exprList with
  | [] => mret []
  | e :: exprList' =>
      match icols, attnos with
      | col :: icols', attno :: attnos' =>
          let attr_num := to_AttrNumber attno in
          let tle := makeTargetEntry e attr_num (ResTarget.name col) false in
          add_modified_col rte attr_num;;
          rest ← insert_target_list rte exprList' icols' attnos';
          mret (tle :: rest)
      | _, _ => mthrow (elog "ran off the end of the target column list")
      end
  end.

(** The loop over the sublists of a multi-row VALUES of INSERT.
    [sublist_length] is -1 until the first sublist has been transformed. *)
Fixpoint insert_values_lists (stmtcols icolumns : list ResTarget.t) (attrnos : list Z)
    (valuesLists : list (list Node)) (sublist_length : Z)
    : M (list (list Node) * Z) :=
  match valuesLists with
  | [] => mret ([], sublist_length)
  | sublist :: rest =>
      (* Do basic expression transformation (same as a ROW() expr) *)
      sublist ← transformExpressionList sublist EXPR_KIND_VALUES;
      (* All the sublists must be the same length, *after* transformation *)
      sublist_length ←
        (if sublist_length <? 0 then
           (* Remember post-transformation length of first sublist *)
           mret (Z.of_nat (length sublist))
         else if negb (sublist_length =? Z.of_nat (length sublist)) then
           mthrow (ereport ERRCODE_SYNTAX_ERROR
                     "VALUES lists must all be the same length")
         else mret sublist_length);
      (* Prepare row for assignment to target table *)
      sublist ← transformInsertRow sublist stmtcols icolumns attrnos;
      (* We must assign collations now *)
      assign_list_collations sublist;;
      '(exprsLists, sublist_length) ←
        insert_values_lists stmtcols icolumns attrnos rest sublist_length;
      mret (sublist :: exprsLists, sublist_length)
  end.

(** transformInsertStmt - transform an Insert Statement *)
Definition transformInsertStmt (stmt : InsertStmt.t) : M Query :=
  let qry := makeNode_Query in
  let selectStmt := InsertStmt.selectStmt stmt in
  let qry := qry <| commandType := CMD_INSERT |> in
  modify_pstate (fun pstate => pstate <| p_is_insert := true |>);;
  (* process the WITH clause independently of all else *)
  qry ← process_with_clause (InsertStmt.withClause stmt) qry;
  (* We have three cases to deal with: DEFAULT VALUES (selectStmt == NULL),
     VALUES list, or general SELECT input. *)
  let isGeneralSelect :=
    match selectStmt with
    | Some selectStmt =>
        bool_decide (SelectStmt.valuesLists selectStmt = [])
        || bool_decide (SelectStmt.sortClause selectStmt <> [])
        || bool_decide (SelectStmt.limitOffset selectStmt <> None)
        || bool_decide (SelectStmt.limitCount selectStmt <> None)
        || bool_decide (SelectStmt.lockingClause selectStmt <> [])
        || bool_decide (SelectStmt.withClause selectStmt <> None)
    | None => false
    end in
  (* If a non-nil rangetable/namespace was passed in, and we are doing
     INSERT/SELECT, arrange to pass the rangetable/namespace down to the
     SELECT. *)
  pstate ← get_pstate;
  let sub_rtable := if isGeneralSelect then p_rtable pstate else [] in
  let sub_namespace := if isGeneralSelect then p_namespace pstate else [] in
  when isGeneralSelect
    (modify_pstate (fun pstate => pstate <| p_rtable := [] |> <| p_namespace := [] |>));;
  (* Must get write lock on INSERT target table before scanning SELECT, else
     we will grab the wrong kind of initial lock if the target table is also
     mentioned in the SELECT part. *)
  resultRelation_ ← setTargetTable (InsertStmt.relation stmt) false false ACL_INSERT;
  let qry := qry <| resultRelation := resultRelation_ |> in
  pstate ← get_pstate;
  when (ADB && bool_decide (p_grammar pstate = PARSE_GRAM_ORACLE))
    (addRTEtoQuery resultRelation_ false true true);;
  (* Validate stmt->cols list, or build default list if no list given *)
  '(icolumns, attrnos) ← checkInsertTargets (InsertStmt.cols stmt);
  (* Determine which variant of INSERT we have. *)
  '(qry, exprList) ←
    match selectStmt with
    | None =>
        (* We have INSERT ... DEFAULT VALUES. *)
        mret (qry, [])
    | Some selectStmt =>
        if isGeneralSelect then
          (* We make the sub-pstate a child of the outer pstate so that it
             can see any Param definitions supplied from above. *)
          pstate ← get_pstate;
          let sub_pstate := make_parsestate (Some pstate) in
          (* Process the source SELECT. *)
          let sub_pstate := sub_pstate <| p_rtable := sub_rtable |> in
          let sub_pstate := sub_pstate <| p_joinexprs := [] |> in
          let sub_pstate := sub_pstate <| p_namespace := sub_namespace |> in
          '(selectQuery, sub_pstate) ←
            on_child sub_pstate (transformStmt (SelectStmtNode selectStmt));
          free_parsestate sub_pstate;;
          (* The grammar should have produced a SELECT *)
          when (bool_decide (commandType selectQuery <> CMD_SELECT)
                || bool_decide (utilityStmt selectQuery <> None))
            (mthrow (elog "unexpected non-SELECT command in INSERT ... SELECT"));;
          (* Make the source be a subquery in the INSERT's rangetable, and
             add it to the INSERT's joinlist. *)
          _ ← addRangeTableEntryForSubquery selectQuery (makeAlias "*SELECT*" [])
                false false;
          (* For an INSERT SELECT involving INSERT on a child after scanning
             the parent, set flag to send command ID communication *)
          pstate ← get_pstate;
          qry ← (if PGXC && IS_PGXC_COORDINATOR && negb IsConnFromCoord
                    && is_relation_child
                         (rt_fetch (resultRelation qry) (p_rtable pstate)) selectQuery
                 then SetSendCommandId true;;
                      mret (qry <| has_to_save_cmd_id := true |>)
                 else mret qry);
          (* assume new rte is at end *)
          let rtr_rtindex := length (p_rtable pstate) in
          modify_pstate (fun pstate =>
            pstate <| p_joinlist := p_joinlist pstate ++ [RangeTblRef rtr_rtindex] |>);;
          (* Generate an expression list for the INSERT that selects all the
             non-resjunk columns from the subquery. *)
          let exprList := insert_select_exprs rtr_rtindex (targetList selectQuery) in
          (* Prepare row for assignment to target table *)
          exprList ← transformInsertRow exprList (InsertStmt.cols stmt) icolumns attrnos;
          mret (qry, exprList)
        else if bool_decide (1 < length (SelectStmt.valuesLists selectStmt))%nat then
          (* Process INSERT ... VALUES with multiple VALUES sublists. *)
          '(exprsLists, sublist_length) ←
            insert_values_lists (InsertStmt.cols stmt) icolumns attrnos
              (SelectStmt.valuesLists selectStmt) (-1);
          (* Although we don't really need collation info, let's just make
             sure we provide a correctly-sized list in the VALUES RTE. *)
          let collations := replicate (Z.to_nat sublist_length) InvalidOid in
          (* if we're inside CREATE RULE, then NEW/OLD references might
             appear.  In that case we have to mark the VALUES RTE as LATERAL. *)
          pstate ← get_pstate;
          let lateral_ :=
            bool_decide (length (p_rtable pstate) <> 1%nat)
            && contain_vars_of_level_lists exprsLists 0 in
          (* Generate the VALUES RTE *)
          rte ← addRangeTableEntryForValues exprsLists collations None lateral_ true;
          pstate ← get_pstate;
          (* assume new rte is at end *)
          let rtr_rtindex := length (p_rtable pstate) in
          modify_pstate (fun pstate =>
            pstate <| p_joinlist := p_joinlist pstate ++ [RangeTblRef rtr_rtindex] |>);;
          (* Generate list of Vars referencing the RTE *)
          '(_, exprList) ← lift (expandRTE rte rtr_rtindex 0%nat false);
          mret (qry, exprList)
        else
          (* Process INSERT ... VALUES with a single VALUES sublist. *)
          (* Do basic expression transformation (same as a ROW() expr) *)
          exprList ← transformExpressionList
                       (default [] (head (SelectStmt.valuesLists selectStmt)))
                       EXPR_KIND_VALUES;
          (* Prepare row for assignment to target table *)
          exprList ← transformInsertRow exprList (InsertStmt.cols stmt) icolumns attrnos;
          mret (qry, exprList)
    end;
  (* Generate query's target list using the computed list of expressions.
     Also, mark all the target columns as needing insert permissions. *)
  pstate ← get_pstate;
  let rte := p_target_rangetblentry pstate in
  targetList_ ← insert_target_list rte exprList icolumns attrnos;
  let qry := qry <| targetList := targetList_ |> in
  (* If we have a RETURNING clause, we need to add the target relation to
     the query namespace before processing it *)
  qry ← match InsertStmt.returningList stmt with
        | [] => mret qry
        | returningList_ =>
            modify_pstate (fun pstate => pstate <| p_namespace := [] |>);;
            pstate ← get_pstate;
            addRTEtoQuery (p_target_rangetblentry pstate) false true true;;
            rl ← transformReturningList returningList_;
            mret (qry <| returningList := rl |>)
        end;
  (* done building the range table and jointree *)
  pstate ← get_pstate;
  let qry := qry <| rtable := p_rtable pstate |> in
  let qry := qry <| jointree := Some (makeFromExpr (p_joinlist pstate) None) |> in
  let qry := qry <| hasSubLinks := p_hasSubLinks pstate |> in
  assign_query_collations qry;;
  mret qry.

(** transformSelectStmt - transforms a Select Statement.  This covers only
    cases with no set operations and no VALUES lists. *)
Definition transformSelectStmt (stmt : SelectStmt.t) : M Query :=
  let qry := makeNode_Query in
  let qry := qry <| commandType := CMD_SELECT |> in
  (* process the WITH clause independently of all else *)
  qry ← process_with_clause (SelectStmt.withClause stmt) qry;
  (* Complain if we get called from someplace where INTO is not allowed *)
  when (bool_decide (SelectStmt.intoClause stmt <> None))
    (mthrow (ereport ERRCODE_SYNTAX_ERROR "SELECT ... INTO is not allowed here"));;
  (* make FOR UPDATE/FOR SHARE info available to addRangeTableEntry *)
  modify_pstate (fun pstate =>
    pstate <| p_locking_clause := SelectStmt.lockingClause stmt |>);;
  (* make WINDOW info available for window functions, too *)
  modify_pstate (fun pstate => pstate <| p_windowdefs := SelectStmt.windowClause stmt |>);;
  (* process the FROM clause *)
  transformFromClause (SelectStmt.fromClause stmt);;
  (* #ifdef ADB: transform WHERE *)
  qual ← (if ADB then
            qual ← transformWhereClause (SelectStmt.whereClause stmt)
                     EXPR_KIND_WHERE "WHERE";
            transformFromAndWhere qual
          else mret None);
  (* transform targetlist *)
  targetList_ ← transformTargetList (SelectStmt.targetList stmt) EXPR_KIND_SELECT_TARGET;
  (* mark column origins *)
  markTargetListOrigins targetList_;;
  (* #ifndef ADB: transform WHERE *)
  qual ← (if ADB then mret qual
          else transformWhereClause (SelectStmt.whereClause stmt)
                 EXPR_KIND_WHERE "WHERE");
  (* initial processing of HAVING clause is much like WHERE clause *)
  havingQual_ ← transformWhereClause (SelectStmt.havingClause stmt)
                  EXPR_KIND_HAVING "HAVING";
  let qry := qry <| havingQual := havingQual_ |> in
  (* Transform sorting/grouping stuff.  Do ORDER BY first because both
     transformGroupClause and transformDistinctClause need the results. *)
  '(sortClause_, targetList_) ←
    transformSortClause (SelectStmt.sortClause stmt) targetList_
      EXPR_KIND_ORDER_BY true false;
  '(groupClause_, targetList_) ←
    transformGroupClause (SelectStmt.groupClause stmt) targetList_ sortClause_
      EXPR_KIND_GROUP_BY false;
  '(distinctClause_, hasDistinctOn_, targetList_) ←
    match SelectStmt.distinctClause stmt with
    | [] => mret ([], false, targetList_)
    | None :: _ =>
        (* We had SELECT DISTINCT *)
        '(dc, tl) ← transformDistinctClause targetList_ sortClause_ false;
        mret (dc, false, tl)
    | distinctlist =>
        (* We had SELECT DISTINCT ON *)
        '(dc, tl) ← transformDistinctOnClause distinctlist targetList_ sortClause_;
        mret (dc, true, tl)
    end;
  (* transform LIMIT *)
  limitOffset_ ← transformLimitClause (SelectStmt.limitOffset stmt)
                   EXPR_KIND_OFFSET "OFFSET";
  limitCount_ ← transformLimitClause (SelectStmt.limitCount stmt)
                  EXPR_KIND_LIMIT "LIMIT";
  (* transform window clauses after we have seen all window functions *)
  pstate ← get_pstate;
  '(windowClause_, targetList_) ←
    transformWindowDefinitions (p_windowdefs pstate) targetList_;
  let qry := qry <| targetList := targetList_ |> <| sortClause := sortClause_ |>
                 <| groupClause := groupClause_ |>
                 <| distinctClause := distinctClause_ |>
                 <| hasDistinctOn := hasDistinctOn_ |>
                 <| limitOffset := limitOffset_ |> <| limitCount := limitCount_ |>
                 <| windowClause := windowClause_ |> in
  pstate ← get_pstate;
  let qry := qry <| rtable := p_rtable pstate |> in
  let qry := qry <| jointree := Some (makeFromExpr (p_joinlist pstate) qual) |> in
  let qry := qry <| hasSubLinks := p_hasSubLinks pstate |> in
  let qry := qry <| hasWindowFuncs := p_hasWindowFuncs pstate |> in
  let qry := qry <| hasAggs := p_hasAggs pstate |> in
  when (p_hasAggs pstate || bool_decide (groupClause qry <> [])
        || bool_decide (havingQual qry <> None))
    (parseCheckAggregates qry);;
  qry ← foldM (fun qry l => lift (transformLockingClause qry l false)) qry
          (SelectStmt.lockingClause stmt);
  (* the entries of qry->rtable are those of pstate->p_rtable *)
  modify_pstate (fun pstate => pstate <| p_rtable := rtable qry |>);;
  assign_query_collations qry;;
  mret qry.

(** The scan of a transformed VALUES sublist: a DEFAULT item is refused,
    every other item goes to the end of the list of its column. *)
Fixpoint values_check_default (sublist : list Node) (colexprs : list (list Node))
    (i : nat) : M (list (list Node)) :=
  match sublist with
  | [] => mret colexprs
  | col :: sublist' =>
      if is_SetToDefault col then
        mthrow (ereport ERRCODE_SYNTAX_ERROR
                  "DEFAULT can only appear in a VALUES list within INSERT")
      else
        values_check_default sublist'
          (alter (fun colexpr => colexpr ++ [col]) i colexprs) (S i)
  end.

(** The loop of transformValuesClause over the rows.  [sublist_length] is
    -1 and [colexprs] is unallocated until the first row has been
    transformed. *)
Fixpoint values_rows (valuesLists : list (list Node)) (sublist_length : Z)
    (colexprs : list (list Node)) : M (Z * list (list Node)) :=
  match valuesLists with
  | [] => mret (sublist_length, colexprs)
  | sublist :: rest =>
      (* Do basic expression transformation (same as a ROW() expr) *)
      sublist ← transformExpressionList sublist EXPR_KIND_VALUES;
      '(sublist_length, colexprs) ←
        (if sublist_length <? 0 then
           (* Remember post-transformation length of first sublist
              and allocate array for per-column lists *)
           mret (Z.of_nat (length sublist), replicate (length sublist) [])
         else if negb (sublist_length =? Z.of_nat (length sublist)) then
           mthrow (ereport ERRCODE_SYNTAX_ERROR
                     "VALUES lists must all be the same length")
         else mret (sublist_length, colexprs));
      (* Check for DEFAULT and build per-column expression lists *)
      colexprs ← values_check_default sublist colexprs 0;
      values_rows rest sublist_length colexprs
  end.

(** The loop over the columns: the common type is resolved, every
    expression of the column is coerced to it in place, and the common
    collation, if any, is identified. *)
Fixpoint values_columns (colexprs : list (list Node))
    : M (list (list Node) * list Oid) :=
  match colexprs with
  | [] => mret ([], [])
  | colexpr :: rest =>
      '(coltype, _) ← select_common_type colexpr "VALUES";
      colexpr ← mapM (fun col => coerce_to_common_type col coltype "VALUES") colexpr;
      colcoll ← select_common_collation colexpr true;
      '(rest, collations) ← values_columns rest;
      mret (colexpr :: rest, colcoll :: collations)
  end.

(** The coerced expressions rearranged into row-organized lists: one row
    per item of the first column, the other columns appended item by item. *)
Definition values_rearrange (colexprs : list (list Node)) : list (list Node) :=
  match colexprs with
  | [] => []
  | colexpr0 :: rest =>
      foldl (fun exprsLists colexpr =>
               zip_with (fun sublist col => sublist ++ [col]) exprsLists colexpr)
            (map (fun col => [col]) colexpr0) rest
  end.

(** transformValuesClause - transforms a VALUES clause that's being used as
    a standalone SELECT *)
Definition transformValuesClause (stmt : SelectStmt.t) : M Query :=
  let qry := makeNode_Query in
  let qry := qry <| commandType := CMD_SELECT |> in
  (* process the WITH clause independently of all else *)
  qry ← process_with_clause (SelectStmt.withClause stmt) qry;
  (* For each row of VALUES, transform the raw expressions.  This is also a
     handy place to reject DEFAULT nodes, which the grammar allows for
     simplicity. *)
  '(sublist_length, colexprs) ← values_rows (SelectStmt.valuesLists stmt) (-1) [];
  (* Now resolve the common types of the columns, and coerce everything to
     those types.  Then identify the common collation, if any, of each
     column. *)
  '(colexprs, collations) ← values_columns colexprs;
  (* Finally, rearrange the coerced expressions into row-organized lists. *)
  let exprsLists := values_rearrange colexprs in
  (* if we're inside CREATE RULE, then NEW/OLD references might appear.  In
     that case we have to mark the VALUES RTE as LATERAL. *)
  pstate ← get_pstate;
  let lateral_ :=
    bool_decide (p_rtable pstate <> []) && contain_vars_of_level_lists exprsLists 0 in
  (* Generate the VALUES RTE *)
  _ ← addRangeTableEntryForValues exprsLists collations None lateral_ true;
  pstate ← get_pstate;
  (* assume new rte is at end *)
  let rtindex := length (p_rtable pstate) in
  addRTEtoQuery rtindex true true true;;
  (* Generate a targetlist as though expanding "*" *)
  targetList_ ← expandRelAttrs rtindex rtindex 0%nat;
  (* The grammar allows attaching ORDER BY, LIMIT, and FOR UPDATE to a
     VALUES, so cope. *)
  '(sortClause_, targetList_) ←
    transformSortClause (SelectStmt.sortClause stmt) targetList_
      EXPR_KIND_ORDER_BY true false;
  limitOffset_ ← transformLimitClause (SelectStmt.limitOffset stmt)
                   EXPR_KIND_OFFSET "OFFSET";
  limitCount_ ← transformLimitClause (SelectStmt.limitCount stmt)
                  EXPR_KIND_LIMIT "LIMIT";
  let qry := qry <| targetList := targetList_ |> <| sortClause := sortClause_ |>
                 <| limitOffset := limitOffset_ |> <| limitCount := limitCount_ |> in
  match SelectStmt.lockingClause stmt with
  | lc :: _ =>
      mthrow (ereport ERRCODE_FEATURE_NOT_SUPPORTED
                (LCS_asString (LockingClause.strength lc)
                 +:+ " cannot be applied to VALUES"))
  | [] =>
      pstate ← get_pstate;
      let qry := qry <| rtable := p_rtable pstate |> in
      let qry := qry <| jointree := Some (makeFromExpr (p_joinlist pstate) None) |> in
      let qry := qry <| hasSubLinks := p_hasSubLinks pstate |> in
      assign_query_collations qry;;
      mret qry
  end.

(** [tle->expr = e] for an entry handed up by transformSetOperationTree. *)
Definition assign_tle_expr (ref : option (Index * nat)) (e : Node) : M unit :=
  match ref with
  | Some (rtindex, pos) =>
      modify_pstate (fun pstate =>
        pstate <| p_rtable :=
          rt_update rtindex
            (fun rte =>
               rte <| subquery :=
                 (fun q => q <| targetList :=
                             alter (fun tle => tle <| expr := e |>) pos (targetList q) |>)
                   <$> subquery rte |>)
            (p_rtable pstate) |>)
  | None => mret tt
  end.

(** The sub-query of the leftmost leaf, found again in the range table. *)
Definition leftmost_query (node : SetOpTree) : M (Index * Query) :=
  let leftmostRTI := leftmost_rtindex node in
  rte ← rt_fetch_pstate leftmostRTI;
  match subquery rte with
  | Some leftmostQuery => mret (leftmostRTI, leftmostQuery)
  | None => mthrow (elog "leftmost query is not a subquery")
  end.

(** Process the outputs of the non-recursive term of a recursive union to
    set up the parent CTE's columns. *)
Definition determineRecursiveColTypes (larg : SetOpTree) (nrtargetlist : list TleRef)
    : M unit :=
  (* Find leftmost leaf SELECT *)
  '(_, leftmostQuery) ← leftmost_query larg;
  (* Generate dummy targetlist using column names of leftmost select and
     dummy result expressions of the non-recursive term. *)
  targetList_ ←
    (fix loop (nrtl : list TleRef) (left_tlist : list TargetEntry) (next_resno : Z)
         : M (list TargetEntry) :=
       match nrtl with
       | [] => mret []
       | (nrtle, _) :: nrtl' =>
           match left_tlist with
           | lefttle :: left_tlist' =>
               let tle := makeTargetEntry (expr nrtle) (to_AttrNumber next_resno)
                            (resname lefttle) false in
               rest ← loop nrtl' left_tlist' (next_resno + 1);
               mret (tle :: rest)
           | [] => mthrow (elog "ran off the end of the leftmost target list")
           end
       end) nrtargetlist (targetList leftmostQuery) 1;
  (* Now build CTE's output column info using dummy targetlist *)
  pstate ← get_pstate;
  match p_parent_cte pstate with
  | Some cte =>
      cte ← analyzeCTETargetList cte targetList_;
      modify_pstate (fun pstate => pstate <| p_parent_cte := Some cte |>)
  | None => mthrow (elog "no parent CTE")
  end.

(** What the loop of an internal set-operation node has built so far. *)
Record SetOpColumns : Type := mkSetOpColumns {
  soc_colTypes : list Oid;
  soc_colTypmods : list Z;
  soc_colCollations : list Oid;
  soc_groupClauses : list SortGroupClause;
  soc_targetlist : list TleRef }.

(** The typmod of an output column of a set operation: if same type and
    same typmod, use typmod; else default. *)
Definition setop_rescoltypmod (lcoltype rcoltype : Oid) (lcoltypmod rcoltypmod : Z) : Z :=
  if (lcoltype =? rcoltype) && (lcoltypmod =? rcoltypmod) then lcoltypmod else -1.

(** One side of a column: the coercion to the common type is verified;
    an UNKNOWN-type Const or Param is replaced by the coerced expression. *)
Definition setop_coerce_side (tle : TleRef) (colnode : Node) (coltype rescoltype : Oid)
    (context : string) : M Node :=
  if negb (coltype =? UNKNOWNOID) then
    coerce_to_common_type colnode rescoltype context
  else if is_Const colnode || is_Param colnode then
    colnode ← coerce_to_common_type colnode rescoltype context;
    assign_tle_expr (snd tle) colnode;;
    mret colnode
  else mret colnode.

(** The body of the forboth loop of an internal set-operation node. *)
Definition setop_column (op : SetOperation) (all : bool) (context : string)
    (want_targetlist : bool) (acc : SetOpColumns) (ltle rtle : TleRef)
    : M SetOpColumns :=
  let lcolnode := expr (fst ltle) in
  let rcolnode := expr (fst rtle) in
  let lcoltype := exprType lcolnode in
  let rcoltype := exprType rcolnode in
  let lcoltypmod := exprTypmod lcolnode in
  let rcoltypmod := exprTypmod rcolnode in
  (* select common type, same as CASE et al *)
  '(rescoltype, bestexpr) ← select_common_type [lcolnode; rcolnode] context;
  (* if same type and same typmod, use typmod; else default *)
  let rescoltypmod := setop_rescoltypmod lcoltype rcoltype lcoltypmod rcoltypmod in
  (* Verify the coercions are actually possible. *)
  lcolnode ← setop_coerce_side ltle lcolnode lcoltype rescoltype context;
  rcolnode ← setop_coerce_side rtle rcolnode rcoltype rescoltype context;
  (* Select common collation.  A common collation is required for all set
     operators except UNION ALL *)
  rescolcoll ← select_common_collation [lcolnode; rcolnode]
                 (bool_decide (op = SETOP_UNION) && all);
  (* For all cases except UNION ALL, identify the grouping operators *)
  groupClauses ←
    (if bool_decide (op <> SETOP_UNION) || negb all then
       '(sortop_, eqop_, hashable_) ←
         lift (get_sort_group_operators rescoltype false true false);
       (* we don't have a tlist yet, so can't assign sortgrouprefs *)
       mret (soc_groupClauses acc
               ++ [mkSortGroupClause 0%nat eqop_ sortop_ false hashable_])
     else mret (soc_groupClauses acc));
  (* Construct a dummy tlist entry to return. *)
  let restle := makeTargetEntry
                  (NSetToDefault (mkSetToDefault rescoltype rescoltypmod rescolcoll))
                  0 None false in
  mret (mkSetOpColumns
          (soc_colTypes acc ++ [rescoltype])
          (soc_colTypmods acc ++ [rescoltypmod])
          (soc_colCollations acc ++ [rescolcoll])
          groupClauses
          (if want_targetlist then soc_targetlist acc ++ [(restle, None)]
           else soc_targetlist acc)).

(** forboth(ltl, ltargetlist, rtl, rtargetlist) *)
Fixpoint setop_columns (op : SetOperation) (all : bool) (context : string)
    (want_targetlist : bool) (acc : SetOpColumns)
    (ltargetlist rtargetlist : list TleRef) : M SetOpColumns :=
  match ltargetlist, rtargetlist with
  | ltle :: ltl, rtle :: rtl =>
      acc ← setop_column op all context want_targetlist acc ltle rtle;
      setop_columns op all context want_targetlist acc ltl rtl
  | _, _ => mret acc
  end.

(** The non-resjunk entries of a leaf query, each with its place. *)
Definition leaf_targetlist (rtindex : Index) (tlist : list TargetEntry) : list TleRef :=
  omap (fun '(pos, tle) => if resjunk tle then None else Some (tle, Some (rtindex, pos)))
       (imap (fun pos tle => (pos, tle)) tlist).

(** transformSetOperationTree - recursively transform leaves and internal
    nodes of a set-op tree.  [want_targetlist] tells whether the caller
    passed a [targetlist] to fill. *)
Fixpoint transformSetOperationTree (stmt : SelectStmt.t) (isTopLevel : bool)
    (want_targetlist : bool) {struct stmt} : M (SetOpTree * list TleRef) :=
  (* Guard against stack overflow due to overly complex set-expressions *)
  lift check_stack_depth;;
  (* Validity-check both leaf and internal SELECTs for disallowed ops. *)
  when (bool_decide (SelectStmt.intoClause stmt <> None))
    (mthrow (ereport ERRCODE_SYNTAX_ERROR
               "INTO is only allowed on first SELECT of UNION/INTERSECT/EXCEPT"));;
  (* We don't support FOR UPDATE/SHARE with set ops at the moment. *)
  match SelectStmt.lockingClause stmt with
  | lc :: _ =>
      mthrow (ereport ERRCODE_FEATURE_NOT_SUPPORTED
                (LCS_asString (LockingClause.strength lc)
                 +:+ " is not allowed with UNION/INTERSECT/EXCEPT"))
  | [] =>
    (* If an internal node of a set-op tree has ORDER BY, LIMIT, FOR UPDATE,
       or WITH clauses attached, we need to treat it like a leaf node *)
    let isLeaf :=
      if bool_decide (SelectStmt.op stmt = SETOP_NONE) then true
      else bool_decide (SelectStmt.sortClause stmt <> [])
           || bool_decide (SelectStmt.limitOffset stmt <> None)
           || bool_decide (SelectStmt.limitCount stmt <> None)
           || bool_decide (SelectStmt.lockingClause stmt <> [])
           || bool_decide (SelectStmt.withClause stmt <> None) in
    match isLeaf, SelectStmt.larg stmt, SelectStmt.rarg stmt with
    | false, Some larg, Some rarg =>
        (* Process an internal node (set operation node) *)
        let op := SelectStmt.op stmt in
        let all := SelectStmt.all stmt in
        let context :=
          if bool_decide (op = SETOP_UNION) then "UNION"
          else if bool_decide (op = SETOP_INTERSECT) then "INTERSECT"
          else "EXCEPT" in
        (* Recursively transform the left child node. *)
        '(larg', ltargetlist) ← transformSetOperationTree larg false true;
        (* If we are processing a recursive union query, now is the time to
           examine the non-recursive term's output columns *)
        pstate ← get_pstate;
        when (isTopLevel
              && match p_parent_cte pstate with
                 | Some cte => CommonTableExpr.cterecursive cte
                 | None => false
                 end)
          (determineRecursiveColTypes larg' ltargetlist);;
        (* Recursively transform the right child node. *)
        '(rarg', rtargetlist) ← transformSetOperationTree rarg false true;
        (* Verify that the two children have the same number of non-junk
           columns, and determine the types of the merged output columns. *)
        when (bool_decide (length ltargetlist <> length rtargetlist))
          (mthrow (ereport ERRCODE_SYNTAX_ERROR
                     ("each " +:+ context
                      +:+ " query must have the same number of columns")));;
        cols ← setop_columns op all context want_targetlist
                 (mkSetOpColumns [] [] [] [] []) ltargetlist rtargetlist;
        mret (SetOperationStmt op all larg' rarg' (soc_colTypes cols)
                (soc_colTypmods cols) (soc_colCollations cols) (soc_groupClauses cols),
              soc_targetlist cols)
    | false, _, _ => mthrow (elog "set operation without both arguments")
    | true, _, _ =>
        (* Process leaf SELECT *)
        (* Transform SelectStmt into a Query. *)
        selectQuery ← parse_sub_analyze (SelectStmtNode stmt) None false;
        (* Check for bogus references to Vars on the current query level *)
        pstate ← get_pstate;
        when (bool_decide (p_namespace pstate <> [])
              && contain_vars_of_level_query selectQuery 1)
          (mthrow (ereport ERRCODE_INVALID_COLUMN_REFERENCE
                     "UNION/INTERSECT/EXCEPT member statement cannot refer to other relations of same query level"));;
        (* Make the leaf query be a subquery in the top-level rangetable. *)
        let selectName := "*SELECT* " +:+ pretty (Z.of_nat (length (p_rtable pstate)) + 1) in
        _ ← addRangeTableEntryForSubquery selectQuery (makeAlias selectName [])
              false false;
        (* Return a RangeTblRef to replace the SelectStmt in the set-op tree. *)
        pstate ← get_pstate;
        (* assume new rte is at end *)
        let rtindex := length (p_rtable pstate) in
        (* Extract a list of the non-junk TLEs for upper-level processing. *)
        mret (SetOpRangeTblRef rtindex,
              if want_targetlist then leaf_targetlist rtindex (targetList selectQuery)
              else [])
    end
  end.

(** The dummy target list of the outer query of a set operation: column
    names of the leftmost select, common datatypes and collations of the
    topmost set operation.  The dummy vars and their names come with it. *)
Fixpoint setop_target_list (leftmostRTI : Index) (colTypes : list Oid)
    (colTypmods : list Z) (colCollations : list Oid) (left_tlist : list TargetEntry)
    : M (list TargetEntry * list Node * list string) :=
  match colTypes, colTypmods, colCollations with
  | colType :: lct, colTypmod :: lcm, colCollation :: lcc =>
      match left_tlist with
      | lefttle :: left_tlist' =>
          let colName := resname lefttle in
          let var := mkVar leftmostRTI (resno lefttle) colType colTypmod colCollation
                       0%nat in
          pstate ← get_pstate;
          modify_pstate (fun pstate =>
            pstate <| p_next_resno := p_next_resno pstate + 1 |>);;
          let tle := makeTargetEntry (NVar var) (to_AttrNumber (p_next_resno pstate))
                       colName false in
          '(tl, targetvars, targetnames) ←
            setop_target_list leftmostRTI lct lcm lcc left_tlist';
          mret (tle :: tl, NVar var :: targetvars, name_str colName :: targetnames)
      | [] => mthrow (elog "ran off the end of the leftmost target list")
      end
  | _, _, _ => mret ([], [], [])
  end.

(** The ORDER BY of a set operation is resolved against the output
    columns: a join range-table entry that makes them visible is pushed,
    the sort clause is transformed, and the entry is removed again. *)
Definition setop_sort_clause (sortClause_ : list Node) (targetList_ : list TargetEntry)
    (targetnames : list string) (targetvars : list Node)
    : M (list SortGroupClause * list TargetEntry) :=
  pstate ← get_pstate;
  let sv_rtable_length := length (p_rtable pstate) in
  _ ← addRangeTableEntryForJoin targetnames JOIN_INNER targetvars None false;
  pstate ← get_pstate;
  let sv_namespace := p_namespace pstate in
  modify_pstate (fun pstate => pstate <| p_namespace := [] |>);;
  (* add jrte to column namespace only *)
  addRTEtoQuery (length (p_rtable pstate)) false false true;;
  (* For now, we don't support resjunk sort clauses on the output of a
     setOperation tree.  Enforce by checking that transformSortClause
     doesn't add any items to tlist. *)
  let tllen := length targetList_ in
  '(sortClause', targetList') ←
    transformSortClause sortClause_ targetList_ EXPR_KIND_ORDER_BY false false;
  (* restore namespace, remove jrte from rtable *)
  modify_pstate (fun pstate => pstate <| p_namespace := sv_namespace |>);;
  modify_pstate (fun pstate =>
    pstate <| p_rtable := list_truncate (p_rtable pstate) sv_rtable_length |>);;
  when (bool_decide (tllen <> length targetList'))
    (mthrow (mkError ERRCODE_FEATURE_NOT_SUPPORTED
               "invalid UNION/INTERSECT/EXCEPT ORDER BY clause"
               (Some "Only result column names can be used, not expressions or functions.")
               (Some "Add the expression/function to every SELECT, or move the UNION into a FROM clause.")));;
  mret (sortClause', targetList').

(** transformSetOperationStmt - transforms a set-operations tree *)
Definition transformSetOperationStmt (stmt : SelectStmt.t) : M Query :=
  let qry := makeNode_Query in
  let qry := qry <| commandType := CMD_SELECT |> in
  (* Find leftmost leaf SelectStmt. *)
  let leftmostSelect :=
    match SelectStmt.larg stmt with
    | Some larg => Some (leftmost_select larg)
    | None => None
    end in
  when (bool_decide ((leftmostSelect ≫= SelectStmt.intoClause) <> None))
    (mthrow (ereport ERRCODE_SYNTAX_ERROR "SELECT ... INTO is not allowed here"));;
  (* We need to extract ORDER BY and other top-level clauses here and not
     let transformSetOperationTree() see them *)
  let sortClause_ := SelectStmt.sortClause stmt in
  let limitOffset_ := SelectStmt.limitOffset stmt in
  let limitCount_ := SelectStmt.limitCount stmt in
  let lockingClause := SelectStmt.lockingClause stmt in
  let withClause := SelectStmt.withClause stmt in
  let stmt := SelectStmt.clear_top_clauses stmt in
  (* We don't support FOR UPDATE/SHARE with set ops at the moment. *)
  match lockingClause with
  | lc :: _ =>
      mthrow (ereport ERRCODE_FEATURE_NOT_SUPPORTED
                (LCS_asString (LockingClause.strength lc)
                 +:+ " is not allowed with UNION/INTERSECT/EXCEPT"))
  | [] =>
    (* Process the WITH clause independently of all else *)
    qry ← process_with_clause withClause qry;
    (* Recursively transform the components of the tree. *)
    '(sostmt, _) ← transformSetOperationTree stmt true false;
    match sostmt with
    | SetOpRangeTblRef _ => mthrow (elog "set operation tree is a leaf")
    | SetOperationStmt _ _ larg _ colTypes colTypmods colCollations _ =>
        let qry := qry <| setOperations := Some sostmt |> in
        (* Re-find leftmost SELECT (now it's a sub-query in rangetable) *)
        '(leftmostRTI, leftmostQuery) ← leftmost_query larg;
        (* Generate dummy targetlist for outer query *)
        '(targetList_, targetvars, targetnames) ←
          setop_target_list leftmostRTI colTypes colTypmods colCollations
            (targetList leftmostQuery);
        (* As a first step towards supporting sort clauses that are
           expressions using the output columns, generate a namespace entry
           that makes the output columns visible. *)
        '(sortClause', targetList_) ←
          setop_sort_clause sortClause_ targetList_ targetnames targetvars;
        let qry := qry <| targetList := targetList_ |> <| sortClause := sortClause' |> in
        limitOffset' ← transformLimitClause limitOffset_ EXPR_KIND_OFFSET "OFFSET";
        limitCount' ← transformLimitClause limitCount_ EXPR_KIND_LIMIT "LIMIT";
        let qry := qry <| limitOffset := limitOffset' |> <| limitCount := limitCount' |> in
        pstate ← get_pstate;
        let qry := qry <| rtable := p_rtable pstate |> in
        let qry := qry <| jointree := Some (makeFromExpr (p_joinlist pstate) None) |> in
        let qry := qry <| hasSubLinks := p_hasSubLinks pstate |> in
        let qry := qry <| hasWindowFuncs := p_hasWindowFuncs pstate |> in
        let qry := qry <| hasAggs := p_hasAggs pstate |> in
        when (p_hasAggs pstate || bool_decide (groupClause qry <> [])
              || bool_decide (havingQual qry <> None))
          (parseCheckAggregates qry);;
        qry ← foldM (fun qry l => lift (transformLockingClause qry l false)) qry
                lockingClause;
        assign_query_collations qry;;
        mret qry
    end
  end.

(** The loop of transformUpdateStmt over the transformed target list,
    along the original target list. *)
Fixpoint update_target_list (target_rte : Index) (tl : list TargetEntry)
    (origTargetList : list ResTarget.t) : M (list TargetEntry) :=
  match tl with
  | [] =>
      when (bool_decide (origTargetList <> []))
        (mthrow (elog "UPDATE target count mismatch --- internal error"));;
      mret []
  | tle :: tl' =>
      if resjunk tle then
        (* Resjunk nodes need no additional processing, but be sure they
           have resnos that do not match any target columns *)
        pstate ← get_pstate;
        modify_pstate (fun pstate =>
          pstate <| p_next_resno := p_next_resno pstate + 1 |>);;
        let tle := tle <| resno := to_AttrNumber (p_next_resno pstate) |> in
        let tle := tle <| resname := None |> in
        rest ← update_target_list target_rte tl' origTargetList;
        mret (tle :: rest)
      else
        match origTargetList with
        | [] => mthrow (elog "UPDATE target count mismatch --- internal error")
        | origTarget :: origTargetList' =>
            pstate ← get_pstate;
            match p_target_relation pstate with
            | None => mthrow (elog "no target relation")
            | Some target_relation =>
                let attrno := attnameAttNum target_relation
                                (ResTarget.name origTarget) true in
                when (bool_decide (attrno = InvalidAttrNumber))
                  (mthrow (ereport ERRCODE_UNDEFINED_COLUMN
                     ("column " +:+ dquote +:+ name_str (ResTarget.name origTarget)
                      +:+ dquote +:+ " of relation " +:+ dquote
                      +:+ RelationGetRelationName target_relation +:+ dquote
                      +:+ " does not exist")));;
                tle ← updateTargetListEntry tle (ResTarget.name origTarget) attrno
                        (ResTarget.indirection origTarget);
                (* Mark the target column as requiring update permissions *)
                add_modified_col target_rte attrno;;
                rest ← update_target_list target_rte tl' origTargetList';
                mret (tle :: rest)
            end
        end
  end.

(** transformUpdateStmt - transforms an update statement *)
Definition transformUpdateStmt (stmt : UpdateStmt.t) : M Query :=
  let qry := makeNode_Query in
  let qry := qry <| commandType := CMD_UPDATE |> in
  modify_pstate (fun pstate => pstate <| p_is_update := true |>);;
  (* process the WITH clause independently of all else *)
  qry ← match UpdateStmt.withClause stmt with
        | Some withClause =>
            qry ← with_clause_save_cmd_id withClause qry;
            process_with_clause (Some withClause) qry
        | None => mret qry
        end;
  resultRelation_ ← setTargetTable (UpdateStmt.relation stmt)
                      (interpretInhOption (RangeVar.inhOpt (UpdateStmt.relation stmt)))
                      true ACL_UPDATE;
  let qry := qry <| resultRelation := resultRelation_ |> in
  (* grab the namespace item made by setTargetTable *)
  pstate ← get_pstate;
  let nsitem := llast_pos pstate in
  (* subqueries in FROM cannot access the result relation *)
  set_nsitem_lateral nsitem true false;;
  (* the FROM clause is non-standard SQL syntax. *)
  transformFromClause (UpdateStmt.fromClause stmt);;
  (* remaining clauses can reference the result relation normally *)
  set_nsitem_lateral nsitem false true;;
  targetList_ ← transformTargetList (UpdateStmt.targetList stmt) EXPR_KIND_UPDATE_SOURCE;
  qual ← transformWhereClause (UpdateStmt.whereClause stmt) EXPR_KIND_WHERE "WHERE";
  returningList_ ← transformReturningList (UpdateStmt.returningList stmt);
  let qry := qry <| returningList := returningList_ |> in
  pstate ← get_pstate;
  let qry := qry <| rtable := p_rtable pstate |> in
  let qry := qry <| jointree := Some (makeFromExpr (p_joinlist pstate) qual) |> in
  let qry := qry <| hasSubLinks := p_hasSubLinks pstate |> in
  (* Now we are done with SELECT-like processing, and can get on with
     transforming the target list to match the UPDATE target columns. *)
  (* Prepare to assign non-conflicting resnos to resjunk attributes *)
  match p_target_relation pstate with
  | None => mthrow (elog "no target relation")
  | Some target_relation =>
      when (p_next_resno pstate <=? relnatts target_relation)
        (modify_pstate (fun pstate =>
           pstate <| p_next_resno := relnatts target_relation + 1 |>));;
      (* Prepare non-junk columns for assignment to target table *)
      let target_rte := p_target_rangetblentry pstate in
      targetList_ ← update_target_list target_rte targetList_
                      (UpdateStmt.targetList stmt);
      let qry := qry <| targetList := targetList_ |> in
      (* qry->rtable is the list pstate->p_rtable: the columns marked on the
         target entry show in it *)
      pstate ← get_pstate;
      let qry := qry <| rtable := p_rtable pstate |> in
      assign_query_collations qry;;
      mret qry
  end.

(** transformTopLevelStmt - transform a Parse tree into a Query tree.  The
    only thing we do here that we don't do in transformStmt() is to convert
    SELECT ... INTO into CREATE TABLE AS. *)
Fixpoint clear_leftmost_intoClause (stmt : SelectStmt.t) : SelectStmt.t :=
  match SelectStmt.op stmt, SelectStmt.larg stmt with
  | SETOP_NONE, _ => SelectStmt.set_intoClause None stmt
  | _, Some larg => SelectStmt.set_larg (Some (clear_leftmost_intoClause larg)) stmt
  | _, None => stmt
  end.

Definition transformTopLevelStmt (parseTree : RawStmt) : M Query :=
  match parseTree with
  | SelectStmtNode stmt =>
      (* If it's a set-operation tree, drill down to leftmost SelectStmt *)
      match SelectStmt.intoClause (leftmost_select stmt) with
      | Some intoClause =>
          (* Remove the intoClause from the SelectStmt. *)
          let parseTree := SelectStmtNode (clear_leftmost_intoClause stmt) in
          transformStmt (CreateTableAsStmtNode (Some parseTree) intoClause
                           OBJECT_TABLE true)
      | None => transformStmt parseTree
      end
  | _ => transformStmt parseTree
  end.

(** transformDeclareCursorStmt - transform a DECLARE CURSOR Statement *)
Definition transformDeclareCursorStmt (portalname : string) (options : Z)
    (query : option RawStmt) : M Query :=
  (* Don't allow both SCROLL and NO SCROLL to be specified *)
  when (negb (Z.land options CURSOR_OPT_SCROLL =? 0)
        && negb (Z.land options CURSOR_OPT_NO_SCROLL =? 0))
    (mthrow (ereport ERRCODE_INVALID_CURSOR_DEFINITION
               "cannot specify both SCROLL and NO SCROLL"));;
  result ← match query with
           | Some query => transformStmt query
           | None => mthrow (elog "DECLARE CURSOR without a query")
           end;
  (* Grammar should not have allowed anything but SELECT *)
  when (bool_decide (commandType result <> CMD_SELECT)
        || bool_decide (utilityStmt result <> None))
    (mthrow (elog "unexpected non-SELECT command in DECLARE CURSOR"));;
  (* We also disallow data-modifying WITH in a cursor. *)
  when (hasModifyingCTE result)
    (mthrow (ereport ERRCODE_FEATURE_NOT_SUPPORTED
               "DECLARE CURSOR must not contain data-modifying statements in WITH"));;
  let mark_strength :=
    match rowMarks result with
    | rc :: _ => LCS_asString (RowMarkClause.strength rc)
    | [] => EmptyString
    end in
  (* FOR UPDATE and WITH HOLD are not compatible *)
  when (bool_decide (rowMarks result <> [])
        && negb (Z.land options CURSOR_OPT_HOLD =? 0))
    (mthrow (mkError ERRCODE_FEATURE_NOT_SUPPORTED
               ("DECLARE CURSOR WITH HOLD ... " +:+ mark_strength
                +:+ " is not supported")
               (Some "Holdable cursors must be READ ONLY.") None));;
  (* FOR UPDATE and SCROLL are not compatible *)
  when (bool_decide (rowMarks result <> [])
        && negb (Z.land options CURSOR_OPT_SCROLL =? 0))
    (mthrow (mkError ERRCODE_FEATURE_NOT_SUPPORTED
               ("DECLARE SCROLL CURSOR ... " +:+ mark_strength
                +:+ " is not supported")
               (Some "Scrollable cursors must be READ ONLY.") None));;
  (* FOR UPDATE and INSENSITIVE are not compatible *)
  when (bool_decide (rowMarks result <> [])
        && negb (Z.land options CURSOR_OPT_INSENSITIVE =? 0))
    (mthrow (mkError ERRCODE_FEATURE_NOT_SUPPORTED
               ("DECLARE INSENSITIVE CURSOR ... " +:+ mark_strength
                +:+ " is not supported")
               (Some "Insensitive cursors must be READ ONLY.") None));;
  (* We won't need the raw querytree any more *)
  let stmt := DeclareCursorStmtNode portalname options None in
  mret (result <| utilityStmt := Some (mkUtilityStmt stmt None None) |>).

(** transformExplainStmt - transform an EXPLAIN Statement *)
Definition transformExplainStmt (query : option RawStmt) (options : list Node)
    : M Query :=
  (* transform contained query, allowing SELECT INTO *)
  query' ← match query with
           | Some query => transformTopLevelStmt query
           | None => mthrow (elog "EXPLAIN without a query")
           end;
  (* represent the command as a utility Query *)
  let result := makeNode_Query in
  let result := result <| commandType := CMD_UTILITY |> in
  mret (result <| utilityStmt :=
          Some (mkUtilityStmt (ExplainStmtNode None options) (Some query') None) |>).

(** transformCreateTableAsStmt - transform a CREATE TABLE AS, SELECT ...
    INTO, or CREATE MATERIALIZED VIEW Statement *)
Definition transformCreateTableAsStmt (query : option RawStmt) (into : IntoClause.t)
    (relkind : ObjectType) (is_select_into : bool) : M Query :=
  (* transform contained query *)
  query' ← match query with
           | Some query => transformStmt query
           | None => mthrow (elog "CREATE TABLE AS without a query")
           end;
  (* additional work needed for CREATE MATERIALIZED VIEW *)
  viewQuery ←
    (if bool_decide (relkind = OBJECT_MATVIEW) then
       (* Prohibit a data-modifying CTE in the query used to create a
          materialized view. *)
       when (hasModifyingCTE query')
         (mthrow (ereport ERRCODE_FEATURE_NOT_SUPPORTED
                    "materialized views must not use data-modifying statements in WITH"));;
       (* Check whether any temporary database objects are used in the
          creation query. *)
       when (isQueryUsingTempRelation query')
         (mthrow (ereport ERRCODE_FEATURE_NOT_SUPPORTED
                    "materialized views must not use temporary tables or views"));;
       (* A materialized view would either need to save parameters for use
          in maintaining/loading the data or prohibit them entirely. *)
       when (query_contains_extern_params query')
         (mthrow (ereport ERRCODE_FEATURE_NOT_SUPPORTED
                    "materialized views may not be defined using bound parameters"));;
       (* For now, we disallow unlogged materialized views *)
       when (Ascii.eqb (RangeVar.relpersistence (IntoClause.rel into)) "u")
         (mthrow (ereport ERRCODE_FEATURE_NOT_SUPPORTED
                    "materialized views cannot be UNLOGGED"));;
       (* At runtime, we'll need a copy of the parsed-but-not-rewritten
          Query for purposes of creating the view's ON SELECT rule. *)
       mret (Some query')
     else mret None);
  (* represent the command as a utility Query *)
  let result := makeNode_Query in
  let result := result <| commandType := CMD_UTILITY |> in
  mret (result <| utilityStmt :=
          Some (mkUtilityStmt (CreateTableAsStmtNode None into relkind is_select_into)
                              (Some query') viewQuery) |>).

(** The body shared by the entry points: what is done between the creation
    of the parse state and its release. *)
Definition run_post_parse_analyze_hook (query : Query) : M Query :=
  match post_parse_analyze_hook with
  | Some hook => call (Ev_post_parse_analyze_hook query) (hook query)
  | None => mret query
  end.

(** parse_analyze_for_gram - analyze a raw parse tree and transform it to
    Query form, under a grammar.  Information about $n parameter types is
    supplied in [paramTypes]. *)
Definition parse_analyze_for_gram (parseTree : RawStmt) (sourceText : string)
    (paramTypes : list Oid) (grammar : ParseGrammar) : M Query :=
  let pstate := make_parsestate None in
  let pstate := pstate <| p_grammar := grammar |> in
  PushOverrideSearchPathForGrammar grammar;;
  query ← try_rethrow
    ('(query, _) ← on_pstate pstate
       (modify_pstate (fun pstate => pstate <| p_sourcetext := sourceText |>);;
        when (bool_decide (0 < length paramTypes)%nat)
          (parse_fixed_parameters paramTypes);;
        query ← transformTopLevelStmt parseTree;
        jointree' ← lift (check_joinon_column_join_opt (jointree query));
        let query := query <| jointree := jointree' |> in
        let query := rewrite_rownum_query_enum query in
        query ← run_post_parse_analyze_hook query;
        pstate ← get_pstate;
        free_parsestate pstate;;
        mret query);
     mret query)
    PopOverrideSearchPath;
  PopOverrideSearchPath;;
  mret query.

(** parse_analyze - analyze a raw parse tree and transform it to Query form. *)
Definition parse_analyze (parseTree : RawStmt) (sourceText : string)
    (paramTypes : list Oid) : M Query :=
  if ADB then parse_analyze_for_gram parseTree sourceText paramTypes PARSE_GRAM_POSTGRES
  else
    let pstate := make_parsestate None in
    '(query, _) ← on_pstate pstate
      (modify_pstate (fun pstate => pstate <| p_sourcetext := sourceText |>);;
       when (bool_decide (0 < length paramTypes)%nat)
         (parse_fixed_parameters paramTypes);;
       query ← transformTopLevelStmt parseTree;
       query ← run_post_parse_analyze_hook query;
       pstate ← get_pstate;
       free_parsestate pstate;;
       mret query);
    mret query.

(** The body of the variable-parameters entry points. *)
Definition parse_analyze_varparams_body (parseTree : RawStmt) (sourceText : string)
    (paramTypes : list Oid) : M (Query * list Oid) :=
  modify_pstate (fun pstate => pstate <| p_sourcetext := sourceText |>);;
  parse_variable_parameters paramTypes;;
  query ← transformTopLevelStmt parseTree;
  (* make sure all is well with parameter types *)
  check_variable_parameters query;;
  query ← run_post_parse_analyze_hook query;
  pstate ← get_pstate;
  free_parsestate pstate;;
  mret (query, p_ref_hook_state pstate).

(** parse_analyze_varparams_for_gram - this variant is used when it's okay
    to deduce information about $n symbol datatypes from context.  The
    passed-in paramTypes[] array can be modified or enlarged: it is
    returned with the query. *)
Definition parse_analyze_varparams_for_gram (parseTree : RawStmt) (sourceText : string)
    (paramTypes : list Oid) (grammar : ParseGrammar) : M (Query * list Oid) :=
  let pstate := make_parsestate None in
  let pstate := pstate <| p_grammar := grammar |> in
  PushOverrideSearchPathForGrammar grammar;;
  res ← try_rethrow
    ('(res, _) ← on_pstate pstate
       (parse_analyze_varparams_body parseTree sourceText paramTypes);
     mret res)
    PopOverrideSearchPath;
  PopOverrideSearchPath;;
  mret res.

Definition parse_analyze_varparams (parseTree : RawStmt) (sourceText : string)
    (paramTypes : list Oid) : M (Query * list Oid) :=
  if ADB then
    parse_analyze_varparams_for_gram parseTree sourceText paramTypes PARSE_GRAM_POSTGRES
  else
    let pstate := make_parsestate None in
    '(res, _) ← on_pstate pstate
      (parse_analyze_varparams_body parseTree sourceText paramTypes);
    mret res.

(** Check if given node is authorized to go through EXECUTE DURECT *)
Definition IsExecDirectUtilityStmt (node : option UtilityStmt) : bool :=
  match node with
  | None => true
  | Some u =>
      (* CREATE/DROP TABLESPACE are authorized to control tablespace at
         single node level. *)
      bool_decide (stmtTag (utility_stmt u) = T_CreateTableSpaceStmt)
      || bool_decide (stmtTag (utility_stmt u) = T_DropTableSpaceStmt)
  end.

(** transformExecDirectStmt - transform an EXECUTE DIRECT Statement *)
Definition transformExecDirectStmt (nodelist : list string) (query : string) : M Query :=
  let result := makeNode_Query in
  (* Support not available on Datanodes *)
  when IS_PGXC_DATANODE
    (mthrow (ereport ERRCODE_FEATURE_NOT_SUPPORTED
               "EXECUTE DIRECT cannot be executed on a Datanode"));;
  when (bool_decide (1 < length nodelist)%nat)
    (mthrow (ereport ERRCODE_FEATURE_NOT_SUPPORTED
               "Support for EXECUTE DIRECT on multiple nodes is not available yet"));;
  (* There is a single element here *)
  nodename ← match nodelist with
             | nodename :: _ => mret nodename
             | [] => mthrow (elog "EXECUTE DIRECT without a node")
             end;
  let nodeoid := get_pgxc_nodeoid nodename in
  when (negb (OidIsValid nodeoid))
    (mthrow (ereport ERRCODE_UNDEFINED_OBJECT
               ("PGXC Node " +:+ nodename +:+ ": object not defined")));;
  (* Get node type and index *)
  let nodetype := get_pgxc_nodetype nodeoid in
  let nodeIndex := PGXCNodeGetNodeId nodeoid (get_pgxc_nodetype nodeoid) in
  (* Check if node is requested is the self-node or not *)
  let is_local_ := Ascii.eqb nodetype "C" && (nodeIndex =? PGXCNodeId - 1) in
  (* Transform the query into a raw parse list *)
  raw_parsetree_list ← lift (pg_parse_query query);
  (* EXECUTE DIRECT can just be executed with a single query *)
  when (bool_decide (1 < length raw_parsetree_list)%nat)
    (mthrow (ereport ERRCODE_FEATURE_NOT_SUPPORTED
               "EXECUTE DIRECT cannot execute multiple queries"));;
  (* Analyze the Raw parse tree *)
  result ← foldM (fun _ parsetree => parse_analyze parsetree query []) result
             raw_parsetree_list;
  (* Needed by planner *)
  let result := result <| sql_statement := Some query |> in
  (* Set up EXECUTE DIRECT flag *)
  let exec_direct_type :=
    if is_local_ then
      if bool_decide (commandType result = CMD_UTILITY) then EXEC_DIRECT_LOCAL_UTILITY
      else EXEC_DIRECT_LOCAL
    else
      match commandType result with
      | CMD_UTILITY => EXEC_DIRECT_UTILITY
      | CMD_SELECT => EXEC_DIRECT_SELECT
      | CMD_INSERT => EXEC_DIRECT_INSERT
      | CMD_UPDATE => EXEC_DIRECT_UPDATE
      | CMD_DELETE => EXEC_DIRECT_DELETE
      | _ => EXEC_DIRECT_NONE
      end in
  (* Features not yet supported: DML can be launched without errors but
     this could compromise data consistency, so block it. *)
  (if negb xc_maintenance_mode
      && match exec_direct_type with
         | EXEC_DIRECT_DELETE | EXEC_DIRECT_UPDATE | EXEC_DIRECT_INSERT => true
         | _ => false
         end
   then mthrow (ereport ERRCODE_FEATURE_NOT_SUPPORTED
                  "EXECUTE DIRECT cannot execute DML queries")
   else if match exec_direct_type with EXEC_DIRECT_UTILITY => true | _ => false end
           && negb (IsExecDirectUtilityStmt (utilityStmt result))
           && negb xc_maintenance_mode
   then
     (* In case this statement is an utility, check if it is authorized *)
     mthrow (ereport ERRCODE_FEATURE_NOT_SUPPORTED
               "EXECUTE DIRECT cannot execute this utility query")
   else if match exec_direct_type with EXEC_DIRECT_LOCAL_UTILITY => true | _ => false end
           && negb xc_maintenance_mode
   then mthrow (ereport ERRCODE_FEATURE_NOT_SUPPORTED
                  "EXECUTE DIRECT cannot execute locally this utility query")
   else mret tt);;
  (* Build Execute Node list, there is a unique node for the time being *)
  let step :=
    RemoteQuery.mk (Some query) [nodeIndex] COMBINE_TYPE_SAME true false
      (if Ascii.eqb nodetype "C" then EXEC_ON_COORDS else EXEC_ON_DATANODES)
      exec_direct_type in
  (* Associate newly-created RemoteQuery node to the returned Query result *)
  let result := result <| is_local := is_local_ |> in
  if negb is_local_ then
    mret (result <| utilityStmt := Some (mkUtilityStmt (RemoteQueryNode step) None None) |>)
  else mret result.

(** transformStmt - recursively transform a Parse tree into a Query tree. *)
Definition transformStmt_dispatch (parseTree : RawStmt) : M Query :=
  log (Ev_transformStmt parseTree);;
  result ←
    match parseTree with
    (* Optimizable statements *)
    | InsertStmtNode stmt => transformInsertStmt stmt
    | DeleteStmtNode stmt => transformDeleteStmt stmt
    | UpdateStmtNode stmt => transformUpdateStmt stmt
    | SelectStmtNode n =>
        if bool_decide (SelectStmt.valuesLists n <> []) then transformValuesClause n
        else if bool_decide (SelectStmt.op n = SETOP_NONE) then transformSelectStmt n
        else transformSetOperationStmt n
    (* Special cases *)
    | DeclareCursorStmtNode portalname options query =>
        transformDeclareCursorStmt portalname options query
    | ExplainStmtNode query options => transformExplainStmt query options
    | ExecDirectStmtNode node_names query =>
        if PGXC then transformExecDirectStmt node_names query
        else
          mret (makeNode_Query <| commandType := CMD_UTILITY |>
                  <| utilityStmt := Some (mkUtilityStmt parseTree None None) |>)
    | CreateTableAsStmtNode query into relkind is_select_into =>
        transformCreateTableAsStmt query into relkind is_select_into
    | _ =>
        (* other statements don't require any transformation; just return
           the original parsetree with a Query node plastered on top. *)
        mret (makeNode_Query <| commandType := CMD_UTILITY |>
                <| utilityStmt := Some (mkUtilityStmt parseTree None None) |>)
    end;
  (* Mark as original query until we learn differently *)
  let result := result <| querySource := QSRC_ORIGINAL |> in
  let result := result <| canSetTag := true |> in
  mret result.

End Statements.

(** The knot: [depth] is the room left on the stack for nested
    statements; when it is used up the analysis ends with the error that
    check_stack_depth raises. *)
Fixpoint transformStmt (depth : nat) (parseTree : RawStmt) : M Query :=
  match depth with
  | O => mthrow (ereport ERRCODE_STATEMENT_TOO_COMPLEX "stack depth limit exceeded")
  | S depth' => transformStmt_dispatch (transformStmt depth') parseTree
  end.

(** analyze_requires_snapshot - returns true if a snapshot must be set
    before doing parse analysis on the given raw parse tree. *)
Definition analyze_requires_snapshot (parseTree : RawStmt) : bool :=
  match parseTree with
  | InsertStmtNode _ | DeleteStmtNode _ | UpdateStmtNode _ | SelectStmtNode _ => true
  | DeclareCursorStmtNode _ _ _ => true
  | ExplainStmtNode _ _ | CreateTableAsStmtNode _ _ _ _ => true
  | ExecDirectStmtNode _ _ => PGXC
  | _ => false
  end.

End Analyzer.

(** ** A small stand-in for the collaborators

    The examples below run the analyzer.  They need collaborators that
    compute: [Demo.collaborators] is a small range-table manager and an
    expression transformer that hands expressions on as they are, over a
    catalog of six int8 operators. *)
Module Demo.
Module Impl.

Definition pg_operator : list Form_pg_operator :=
  [ mkOperator 410 "=" 410 467;
    mkOperator 411 "<>" 411 468;
    mkOperator 412 "<" 413 469;
    mkOperator 413 ">" 412 470;
    mkOperator 414 "<=" 415 471;
    mkOperator 415 ">=" 414 472 ].

Definition operator_row (opno : Oid) : option Form_pg_operator :=
  snd <$> list_find (fun row => opr_oid row = opno) pg_operator.

Definition exprType (n : Node) : Oid :=
  match n with
  | NVar v => vartype v
  | NConst c => consttype c
  | NParam p => paramtype p
  | NSetToDefault d => typeId d
  | NRownumExpr => INT8OID
  | NColumnRefJoin v => vartype v
  | NOpExpr _ _ _ | NFuncExpr _ _ | NBoolExpr _ _ => 16
  | NRowExpr _ => RECORDOID
  | NOpaque _ _ => 0
  end.

Definition exprTypmod (n : Node) : Z :=
  match n with
  | NVar v => vartypmod v
  | NConst c => consttypmod c
  | NParam p => paramtypmod p
  | NSetToDefault d => typeMod d
  | _ => -1
  end.

Definition exprCollation (n : Node) : Oid :=
  match n with
  | NVar v => varcollid v
  | NConst c => constcollid c
  | NParam p => paramcollid p
  | NSetToDefault d => collation d
  | _ => InvalidOid
  end.

Fixpoint contain_vars_of_level (levelsup : nat) (n : Node) : bool :=
  match n with
  | NVar v | NColumnRefJoin v => bool_decide (varlevelsup v = levelsup)
  | NOpExpr _ _ args | NFuncExpr _ args | NBoolExpr _ args
  | NRowExpr args | NOpaque _ args => existsb (contain_vars_of_level levelsup) args
  | _ => false
  end.

Definition make_parsestate (parent : option ParseState) : ParseState :=
  mkParseState parent EmptyString [] [] [] [] [] None [] 1 [] false false false
    false false false false None 0%nat
    (default [] (p_ref_hook_state <$> parent))
    (default PARSE_GRAM_POSTGRES (p_grammar <$> parent)) [].

(** A relation entry for a name: every table has the columns a and b. *)
Definition relation_rte (relname : string) (inh inFromCl : bool) (perms : AclMode)
    : RangeTblEntry :=
  mkRangeTblEntry RTE_RELATION (16384 + Z.of_nat (String.length relname)) None
    JOIN_INNER [] [] [] None (mkAlias relname ["a"; "b"]) false inh inFromCl perms ∅.

Definition add_to_query (rte : Index) (addToJoinList addToNameSpace : bool)
    (pstate : ParseState) : ParseState :=
  let pstate :=
    if addToJoinList
    then pstate <| p_joinlist := p_joinlist pstate ++ [RangeTblRef rte] |>
    else pstate in
  if addToNameSpace
  then pstate <| p_namespace :=
         p_namespace pstate ++ [mkParseNamespaceItem rte true true false true] |>
  else pstate.

Definition setTargetTable (relation : RangeVar.t) (inh alsoSource : bool)
    (requiredPerms : AclMode) : Ext Index := fun pstate =>
  let relname := RangeVar.relname relation in
  let rte := relation_rte relname inh alsoSource requiredPerms in
  let rtindex := S (length (p_rtable pstate)) in
  let pstate := pstate <| p_rtable := p_rtable pstate ++ [rte] |>
                       <| p_target_relation := Some (mkRelation (relid rte) relname 2) |>
                       <| p_target_rangetblentry := rtindex |> in
  Done (rtindex, add_to_query rtindex alsoSource alsoSource pstate).

(** A FROM item [NOpaque (T_Invalid n) []] is the table number n. *)
Definition transformFromClause (frmList : list Node) : Ext unit := fun pstate =>
  Done (tt,
        foldl (fun pstate item =>
                 match item with
                 | NOpaque (T_Invalid n) _ =>
                     let rte := relation_rte (pretty n) true true ACL_SELECT in
                     let rtindex := S (length (p_rtable pstate)) in
                     add_to_query rtindex true true
                       (pstate <| p_rtable := p_rtable pstate ++ [rte] |>)
                 | _ => pstate
                 end) pstate frmList).

Definition null_const : Node := NConst (mkConst UNKNOWNOID (-1) InvalidOid (-2) 0 true false).

Fixpoint target_entries (targetlist : list ResTarget.t) (resno_ : Z)
    : list TargetEntry :=
  match targetlist with
  | [] => []
  | res :: rest =>
      makeTargetEntry (default null_const (ResTarget.val res)) resno_
        (ResTarget.name res) false
      :: target_entries rest (resno_ + 1)
  end.

Definition transformTargetList (targetlist : list ResTarget.t) (kind : ParseExprKind)
    : Ext (list TargetEntry) := fun pstate =>
  Done (target_entries targetlist (p_next_resno pstate),
        pstate <| p_next_resno := p_next_resno pstate + Z.of_nat (length targetlist) |>).

Definition checkInsertTargets (cols : list ResTarget.t)
    : Ext (list ResTarget.t * list Z) := fun pstate =>
  let cols := match cols with
              | [] => [ResTarget.mk (Some "a") [] None; ResTarget.mk (Some "b") [] None]
              | _ => cols
              end in
  Done ((cols, Z.of_nat <$> seq 1 (length cols)), pstate).

Definition append_rte (rte : RangeTblEntry) : Ext RangeTblEntry := fun pstate =>
  Done (rte, pstate <| p_rtable := p_rtable pstate ++ [rte] |>).

Definition expandRTE (rte : RangeTblEntry) (rtindex : Index) (sublevels_up : Index)
    (include_dropped : bool) : Outcome (list string * list Node) :=
  let exprs :=
    match rtekind rte with
    | RTE_VALUES => default [] (head (values_lists rte))
    | RTE_SUBQUERY => default [] ((fun q => expr <$> targetList q) <$> subquery rte)
    | RTE_JOIN => joinaliasvars rte
    | _ => [NConst (mkConst INT4OID (-1) InvalidOid 4 0 false true);
            NConst (mkConst INT4OID (-1) InvalidOid 4 0 false true)]
    end in
  Done (imap (fun i _ => "column" +:+ pretty (S i)) exprs,
        imap (fun i e => NVar (mkVar rtindex (Z.of_nat (S i)) (exprType e)
                                 (exprTypmod e) (exprCollation e) sublevels_up))
             exprs).

Definition expandRelAttrs (rte rtindex sublevels_up : Index) : Ext (list TargetEntry) :=
  fun pstate =>
    match rt_fetch rte (p_rtable pstate) with
    | Some r =>
        match expandRTE r rtindex sublevels_up false with
        | Done (names, vars) =>
            Done (imap (fun i '(name, var) =>
                          makeTargetEntry var (p_next_resno pstate + Z.of_nat i)
                            (Some name) false)
                       (zip names vars),
                  pstate <| p_next_resno :=
                    p_next_resno pstate + Z.of_nat (length vars) |>)
        | Raised e => Raised e
        end
    | None => Raised (elog "no such range-table entry")
    end.

Definition get_commutator (opno : Oid) : Oid :=
  default InvalidOid (oprcom <$> operator_row opno).
Definition get_opname (opno : Oid) : option string := oprname <$> operator_row opno.

Definition attnameAttNum (rel : Relation) (attname : option string) (sysColOK : bool)
    : AttrNumber :=
  match attname with
  | Some name => if String.eqb name "a" then 1 else if String.eqb name "b" then 2 else 0
  | None => 0
  end.

Definition ok {A : Type} (a : A) : Ext A := fun pstate => Done (a, pstate).

End Impl.

(** The collaborators, for a build with or without ADB and for a
    target-list transformer. *)
Definition collaborators_with (adb : bool)
    (transformTargetList_ : list ResTarget.t -> ParseExprKind -> Ext (list TargetEntry))
    : Collaborators := {|
  ADB := adb;
  PGXC := true;
  FirstLowInvalidHeapAttributeNumber := -8;
  FLOAT8PASSBYVAL := true;
  make_parsestate := Impl.make_parsestate;
  ext_free_parsestate := fun _ => Done tt;
  ext_parse_fixed_parameters := fun paramTypes pstate =>
    Done (tt, pstate <| p_ref_hook_state := paramTypes |>);
  ext_parse_variable_parameters := fun paramTypes pstate =>
    Done (tt, pstate <| p_ref_hook_state := paramTypes |>);
  ext_check_variable_parameters := fun _ => Impl.ok tt;
  post_parse_analyze_hook := None;
  ext_transformWithClause := fun withClause => Impl.ok (WithClause.ctes withClause);
  ext_analyzeCTETargetList := fun cte _ => Impl.ok cte;
  ext_setTargetTable := Impl.setTargetTable;
  interpretInhOption := fun inhOpt =>
    match inhOpt with INH_NO => false | _ => true end;
  ext_transformFromClause := Impl.transformFromClause;
  ext_transformWhereClause := fun clause _ _ => Impl.ok clause;
  ext_transformSortClause := fun _ targetlist _ _ _ => Impl.ok ([], targetlist);
  ext_transformGroupClause := fun _ targetlist _ _ _ => Impl.ok ([], targetlist);
  ext_transformDistinctClause := fun targetlist _ _ => Impl.ok ([], targetlist);
  ext_transformDistinctOnClause := fun _ targetlist _ => Impl.ok ([], targetlist);
  ext_transformLimitClause := fun clause _ _ => Impl.ok clause;
  ext_transformWindowDefinitions := fun windowdefs targetlist =>
    Impl.ok (windowdefs, targetlist);
  ext_transformTargetList := transformTargetList_;
  ext_markTargetListOrigins := fun _ => Impl.ok tt;
  ext_transformExpressionList := fun exprlist _ => Impl.ok exprlist;
  ext_transformAssignedExpr := fun e _ _ _ _ => Impl.ok e;
  ext_checkInsertTargets := Impl.checkInsertTargets;
  ext_addRTEtoQuery := fun rte addToJoinList addToRelNameSpace addToVarNameSpace pstate =>
    Done (tt, Impl.add_to_query rte addToJoinList
                (addToRelNameSpace || addToVarNameSpace) pstate);
  ext_addRangeTableEntryForSubquery := fun subquery_ alias lateral_ inFromCl_ =>
    Impl.append_rte
      (mkRangeTblEntry RTE_SUBQUERY InvalidOid (Some subquery_) JOIN_INNER [] [] []
         (Some alias) alias lateral_ false inFromCl_ 0 ∅);
  ext_addRangeTableEntryForValues := fun exprs collations alias lateral_ inFromCl_ =>
    Impl.append_rte
      (mkRangeTblEntry RTE_VALUES InvalidOid None JOIN_INNER [] exprs collations
         alias (mkAlias "*VALUES*" []) lateral_ false inFromCl_ 0 ∅);
  ext_addRangeTableEntryForJoin := fun colnames_ jointype aliasvars alias inFromCl_ =>
    Impl.append_rte
      (mkRangeTblEntry RTE_JOIN InvalidOid None jointype aliasvars [] []
         alias (mkAlias "unnamed_join" colnames_) false false inFromCl_ 0 ∅);
  expandRTE := Impl.expandRTE;
  ext_expandRelAttrs := Impl.expandRelAttrs;
  GetRTEByRangeTablePosn := fun pstate varno_ _ => rt_fetch varno_ (p_rtable pstate);
  attnameAttNum := Impl.attnameAttNum;
  ext_parseCheckAggregates := fun _ => Impl.ok tt;
  ext_assign_query_collations := fun _ => Impl.ok tt;
  ext_assign_list_collations := fun _ => Impl.ok tt;
  ext_select_common_type := fun exprs _ =>
    let best := default Impl.null_const (head exprs) in
    Impl.ok (Impl.exprType best, best);
  ext_coerce_to_common_type := fun node _ _ => Impl.ok node;
  ext_select_common_collation := fun exprs _ =>
    Impl.ok (default InvalidOid (Impl.exprCollation <$> head exprs));
  get_sort_group_operators := fun argtype _ _ _ => Done (412, 410, true);
  make_op2 := fun opname l r => Some (NOpExpr 688 463 [l; r]);
  exprType := Impl.exprType;
  exprTypmod := Impl.exprTypmod;
  exprCollation := Impl.exprCollation;
  expression_returns_set := fun _ => false;
  contain_vars_of_level_lists := fun lists levelsup =>
    existsb (existsb (Impl.contain_vars_of_level levelsup)) lists;
  contain_vars_of_level_query := fun _ _ => false;
  contain_mutable_functions := fun _ => false;
  canonicalize_qual := fun qual => qual;
  isQueryUsingTempRelation := fun _ => false;
  query_contains_extern_params := fun _ => false;
  check_stack_depth := Done tt;
  pg_parse_query := fun _ => Done [];
  pg_operator := Impl.pg_operator;
  get_commutator := Impl.get_commutator;
  get_opname := Impl.get_opname;
  pg_inherits := [];
  has_subclass := fun _ => false;
  IS_PGXC_COORDINATOR := true;
  IS_PGXC_DATANODE := false;
  IsConnFromCoord := false;
  xc_maintenance_mode := false;
  PGXCNodeId := 1;
  get_pgxc_nodeoid := fun _ => InvalidOid;
  get_pgxc_nodetype := fun _ => "C"%char;
  PGXCNodeGetNodeId := fun _ _ => 0
|}.

Definition collaborators : Collaborators :=
  collaborators_with true Impl.transformTargetList.
End Demo.
(** * Definitions for the statements *)

(** What applyLockingClause does to a mark that exists. *)
Definition merge_rowmark (rc : RowMarkClause.t) (strength : LockClauseStrength)
    (noWait pushedDown : bool) : RowMarkClause.t :=
  RowMarkClause.mk (RowMarkClause.rti rc)
    (Max_strength (RowMarkClause.strength rc) strength)
    (RowMarkClause.noWait rc || noWait)
    (RowMarkClause.pushedDown rc && pushedDown).


(** In the trace [tr], every call that is a [later] one comes after a call
    that is an [earlier] one. *)
Definition precedes (earlier later : Event -> Prop) (tr : list Event) : Prop :=
  forall (l1 : list Event) (ev : Event) (l2 : list Event),
    tr = l1 ++ ev :: l2 -> later ev -> Exists earlier l1.

(** The source of an INSERT that is not a plain VALUES list: the case
    transformInsertStmt calls general SELECT input. *)
Definition is_general_select (sel : SelectStmt.t) : Prop :=
  SelectStmt.valuesLists sel = []
  \/ SelectStmt.sortClause sel <> []
  \/ SelectStmt.limitOffset sel <> None
  \/ SelectStmt.limitCount sel <> None
  \/ SelectStmt.lockingClause sel <> []
  \/ SelectStmt.withClause sel <> None.

(** The source of an INSERT that is a plain VALUES list. *)
Definition is_values_list (sel : SelectStmt.t) : Prop :=
  SelectStmt.valuesLists sel <> []
  /\ SelectStmt.sortClause sel = []
  /\ SelectStmt.limitOffset sel = None
  /\ SelectStmt.limitCount sel = None
  /\ SelectStmt.lockingClause sel = []
  /\ SelectStmt.withClause sel = None.

(** The calls that resolve a common type or a common collation. *)
Definition is_common_type_call (ev : Event) : Prop :=
  match ev with
  | Ev_select_common_type _ _
  | Ev_coerce_to_common_type _ _ _
  | Ev_select_common_collation _ _ => True
  | _ => False
  end.

(** The error of transformValuesClause for a DEFAULT item. *)
Definition DEFAULT_outside_INSERT : ErrorData :=
  ereport ERRCODE_SYNTAX_ERROR "DEFAULT can only appear in a VALUES list within INSERT".


(** The call of the outer-join rewrite, whatever WHERE clause it is given. *)
Definition is_transformFromAndWhere (ev : Event) : Prop :=
  exists quals, ev = Ev_transformFromAndWhere quals.

(** What a run returned, or the error it raised. *)
Definition value_of {A : Type} (r : Run A) : option A :=
  match result r with Done a => Some a | Raised _ => None end.

Definition error_of {A : Type} (r : Run A) : option ErrorData :=
  match result r with Done _ => None | Raised e => Some e end.

(** The colTypmods field of a set-operation node. *)
Definition colTypmods_of (node : SetOpTree) : list Z :=
  match node with
  | SetOperationStmt _ _ _ _ _ colTypmods _ _ => colTypmods
  | SetOpRangeTblRef _ => []
  end.

(** The typmods of the columns a set-operation tree hands up, and the
    colTypmods of its top node. *)
Definition handed_up_typmods {collab : Collaborators}
    (r : Run (SetOpTree * list TleRef)) : option (list Z) :=
  match value_of r with
  | Some (_, targetlist) =>
      Some (map (fun tle : TleRef => exprTypmod (expr (fst tle))) targetlist)
  | None => None
  end.

Definition node_typmods (r : Run (SetOpTree * list TleRef)) : option (list Z) :=
  match value_of r with
  | Some (node, _) => Some (colTypmods_of node)
  | None => None
  end.

(** ** Inputs *)

Module Inputs.

(** A query whose third range-table entry is locked FOR SHARE by a
    clause pushed down from above. *)
Definition share_mark : RowMarkClause.t := RowMarkClause.mk 3%nat LCS_FORSHARE false true.

Definition locked_query : Query := makeNode_Query <| rowMarks := [share_mark] |>.

(** The analyzer over the stand-in collaborators, with room for eight
    nested statements. *)
Definition analyze : RawStmt -> M Query :=
  transformStmt (collab := Demo.collaborators) 8.

Definition pstate0 : ParseState := Demo.Impl.make_parsestate None.

(** The table number n as a FROM item. *)
Definition table (n : nat) : Node := NOpaque (T_Invalid n) [].

Definition select_from (targets : list ResTarget.t) (from : list Node)
    (where_ : option Node) : SelectStmt.t :=
  SelectStmt.mk [] None targets from where_ [] None [] None [] [] None None []
    SETOP_NONE false None None.

Definition set_operation (op : SetOperation) (all : bool) (larg rarg : SelectStmt.t)
    (sortClause_ : list Node) : SelectStmt.t :=
  SelectStmt.mk [] None [] [] None [] None [] None [] sortClause_ None None []
    op all (Some larg) (Some rarg).

Definition target (name : string) (val : Node) : ResTarget.t :=
  ResTarget.mk (Some name) [] (Some val).

(** 'x'::varchar(10) and 'y'::char(10): the types differ (1043 and
    1042), the typmods are both 14. *)
Definition varchar10 : Node := NConst (mkConst 1043 14 100 (-1) 120 false false).
Definition bpchar10 : Node := NConst (mkConst 1042 14 100 (-1) 121 false false).

(** SELECT 'x'::varchar(10) AS c UNION SELECT 'y'::char(10) *)
Definition union_stmt : SelectStmt.t :=
  set_operation SETOP_UNION false
    (select_from [target "c" varchar10] [] None)
    (select_from [target "c" bpchar10] [] None) [].

Definition union_node : SetOpTree :=
  SetOperationStmt SETOP_UNION false (SetOpRangeTblRef 1%nat) (SetOpRangeTblRef 2%nat)
    [1043] [-1] [100] [mkSortGroupClause 0%nat 410 412 false true].

Definition union_targetlist : list TleRef :=
  [(makeTargetEntry (NSetToDefault (mkSetToDefault 1043 (-1) 100)) 0 None false,
    None)].

(** Predicates on ROWNUM over the operators of the stand-in catalog. *)
Definition int8 (v : Z) : Node := make_int8_const (collab := Demo.collaborators) v.
Definition rownum_le (k : Z) : Node := NOpExpr 414 471 [NRownumExpr; int8 k].
Definition rownum_gt (k : Z) : Node := NOpExpr 413 470 [NRownumExpr; int8 k].

(** SELECT ... WHERE quals, analyzed: a query with a join tree and no LIMIT. *)
Definition query_where (quals : Node) : Query :=
  makeNode_Query <| commandType := CMD_SELECT |>
                 <| jointree := Some (FromExpr [] (Some quals)) |>.

Definition relation_t : RangeVar.t := RangeVar.mk None None "t" INH_DEFAULT "p".

(** INSERT INTO t SELECT a FROM t, with [table 1] for the FROM item. *)
Definition source_select : SelectStmt.t :=
  select_from [target "a" (int8 1)] [table 1] None.

Definition insert_select : InsertStmt.t :=
  InsertStmt.mk relation_t [] (Some source_select) [] None.

(** SELECT a FROM t WHERE ROWNUM > 5 *)
Definition select_where : SelectStmt.t :=
  select_from [target "a" (int8 1)] [table 1] (Some (rownum_gt 5)).

(** The stand-in collaborators of a build without ADB. *)
Definition collaborators_without_ADB : Collaborators :=
  Demo.collaborators_with false Demo.Impl.transformTargetList.

Definition values_stmt (rows : list (list Node)) : SelectStmt.t :=
  SelectStmt.mk [] None [] [] None [] None [] None rows [] None None []
    SETOP_NONE false None None.

(** A variable of the current query level: column 1 of range-table entry 1. *)
Definition var_1_1 : Node := NVar (mkVar 1%nat 1 INT4OID (-1) InvalidOid 0%nat).

(** INSERT INTO t VALUES ('x'::varchar(10), t.a), ('y'::char(10), 1) *)
Definition values_rows : list (list Node) :=
  [[varchar10; var_1_1]; [bpchar10; int8 1]].

Definition insert_values : InsertStmt.t :=
  InsertStmt.mk relation_t [] (Some (values_stmt values_rows)) [] None.

Definition default_item : Node :=
  NSetToDefault (mkSetToDefault InvalidOid (-1) InvalidOid).

(** VALUES (1, 2), (1, DEFAULT) and VALUES (1, 2), (DEFAULT) *)
Definition values_default : SelectStmt.t :=
  values_stmt [[int8 1; int8 2]; [int8 1; default_item]].
Definition values_short_default : SelectStmt.t :=
  values_stmt [[int8 1; int8 2]; [default_item]].



(** DELETE FROM t WHERE a(+) = 1, in the alternate grammar: the column
    comes with the outer-join marker. *)
Definition marked_equals_1 : Node :=
  NOpExpr 410 467 [NColumnRefJoin (mkVar 1%nat 1 INT8OID (-1) InvalidOid 0%nat); int8 1].

Definition delete_marked : DeleteStmt.t :=
  DeleteStmt.mk relation_t [] (Some marked_equals_1) [] None.

(** The WHERE clause of the join tree of a query. *)
Definition where_of (query : Query) : option Node :=
  match jointree query with
  | Some jt => jointree_quals jt
  | None => None
  end.

End Inputs.


(** ** Definitions for the further properties *)

(** An outer-join marker occurs in a qualifier of the join tree: in the
    ON clause of a join or in the WHERE clause of a FromExpr. *)
Fixpoint join_tree_has_marker (node : JoinTree) : bool :=
  match node with
  | JoinExpr _ larg rarg quals _ _ =>
      have_ora_column_join_opt quals
      || join_tree_has_marker larg || join_tree_has_marker rarg
  | FromExpr fromlist quals =>
      have_ora_column_join_opt quals || existsb join_tree_has_marker fromlist
  | RangeTblRef _ | OtherJoinNode _ => false
  end.

(** The range-table indexes of the outer-join markers of an expression,
    and those of its plain Vars. *)
Fixpoint column_join_varnos (node : Node) : list Index :=
  match node with
  | NColumnRefJoin var => [varno var]
  | NOpExpr _ _ args | NFuncExpr _ args | NBoolExpr _ args
  | NRowExpr args | NOpaque _ args => flat_map column_join_varnos args
  | NVar _ | NConst _ | NParam _ | NRownumExpr | NSetToDefault _ => []
  end.

Fixpoint var_varnos (node : Node) : list Index :=
  match node with
  | NVar var => [varno var]
  | NOpExpr _ _ args | NFuncExpr _ args | NBoolExpr _ args
  | NRowExpr args | NOpaque _ args => flat_map var_varnos args
  | NColumnRefJoin _ | NConst _ | NParam _ | NRownumExpr | NSetToDefault _ => []
  end.

(** The call is not one that opens a target table, or it opens [relation]
    and asks for the permission [perms]. *)
Definition opens_only (relation : RangeVar.t) (perms : AclMode) (ev : Event) : Prop :=
  match ev with
  | Ev_setTargetTable rel _ _ requiredPerms => rel = relation /\ requiredPerms = perms
  | _ => True
  end.

(** The query [qry'] is [qry] but for its row marks, its hasForUpdate flag
    and the contents of its range-table entries. *)
Definition locks_only (qry qry' : Query) : Prop :=
  qry' = qry <| rowMarks := rowMarks qry' |>
             <| hasForUpdate := hasForUpdate qry' |>
             <| rtable := rtable qry' |>
  /\ length (rtable qry') = length (rtable qry).

(** No two row marks of the query are for one range-table index. *)
Definition one_mark_per_rtindex (qry : Query) : Prop :=
  NoDup (RowMarkClause.rti <$> rowMarks qry).

(** The query has a row mark for the range-table index, at least as strong
    as [strength]. *)
Definition has_row_mark (qry : Query) (rtindex : Index)
    (strength : LockClauseStrength) : Prop :=
  Exists (fun rc => RowMarkClause.rti rc = rtindex
                    /\ (LCS_value strength <= LCS_value (RowMarkClause.strength rc))%Z)
         (rowMarks qry).

(** ** Inputs of the further properties *)

Module MoreInputs.

(** a = 1, on column 1 of range-table entry 1 *)
Definition a_equals_1 : Node := NOpExpr 410 467 [Inputs.var_1_1; Inputs.int8 1].

(** SELECT ... WHERE a = 1 AND ROWNUM <= 5 *)
Definition first_five : Query :=
  Inputs.query_where (NBoolExpr AND_EXPR [a_equals_1; Inputs.rownum_le 5]).

(** SELECT a INTO t FROM t, with [table 1] for the FROM item *)
Definition select_into : SelectStmt.t :=
  SelectStmt.set_intoClause (Some (IntoClause.mk Inputs.relation_t))
    Inputs.source_select.

(** SELECT ... FROM t, u, analyzed: a query over two relations. *)
Definition two_tables : Query :=
  makeNode_Query <| commandType := CMD_SELECT |>
                 <| rtable := [Demo.Impl.relation_rte "t" true true ACL_SELECT;
                               Demo.Impl.relation_rte "u" true true ACL_SELECT] |>.

(** FOR UPDATE and FOR UPDATE OF u *)
Definition for_update : LockingClause.t := LockingClause.mk [] LCS_FORUPDATE false.
Definition for_update_of_u : LockingClause.t :=
  LockingClause.mk [RangeVar.mk None None "u" INH_DEFAULT "p"] LCS_FORUPDATE false.

(** The columns a and b of INSERT INTO t (a, b) *)
Definition columns_a_b : list ResTarget.t :=
  [ResTarget.mk (Some "a") [] None; ResTarget.mk (Some "b") [] None].


End MoreInputs.
(** ** Runs of the analyzer *)

Section Runs.
Context {A B : Type}.

Lemma Run_eta (r : Run A) : r = mkRun (result r) (pstate_of r) (trace r).
Proof. destruct r; reflexivity. Qed.

Lemma ret_Done_inv (a a' : A) (pstate pstate' : ParseState) (tr : list Event) :
  (mret a : M A) pstate = mkRun (Done a') pstate' tr -> a' = a /\ pstate' = pstate /\ tr = [].
Proof. intros [= -> -> <-]. auto. Qed.

Lemma bind_Done_inv (m : M A) (k : A -> M B) (pstate pstate' : ParseState)
    (b : B) (tr : list Event) :
  (m ≫= k) pstate = mkRun (Done b) pstate' tr ->
  exists a pstate1 tr1 tr2,
    m pstate = mkRun (Done a) pstate1 tr1
    /\ k a pstate1 = mkRun (Done b) pstate' tr2
    /\ tr = tr1 ++ tr2.
Proof.
  unfold mbind, M_bind. destruct (m pstate) as [[a|e] pstate1 tr1]; simpl.
  - destruct (k a pstate1) as [res pstate2 tr2] eqn:Hk; simpl.
    intros [= -> -> <-]. by exists a, pstate1, tr1, tr2.
  - discriminate.
Qed.

Lemma bind_trace (m : M A) (k : A -> M B) (pstate : ParseState) :
  trace ((m ≫= k) pstate) =
    trace (m pstate)
    ++ match result (m pstate) with
       | Done a => trace (k a (pstate_of (m pstate)))
       | Raised _ => []
       end.
Proof.
  unfold mbind, M_bind. destruct (m pstate) as [[a|e] pstate1 tr1]; simpl.
  - reflexivity.
  - symmetry. apply app_nil_r.
Qed.

Lemma bind_result_Done (m : M A) (k : A -> M B) (pstate : ParseState) (b : B) :
  result ((m ≫= k) pstate) = Done b ->
  exists a, result (m pstate) = Done a
            /\ result (k a (pstate_of (m pstate))) = Done b.
Proof.
  unfold mbind, M_bind. destruct (m pstate) as [[a|e] pstate1 tr1]; simpl.
  - eauto.
  - discriminate.
Qed.

Lemma bind_result_step (m : M A) (k : A -> M B) (pstate pstate1 : ParseState)
    (a : A) (tr1 : list Event) :
  m pstate = mkRun (Done a) pstate1 tr1 ->
  result ((m ≫= k) pstate) = result (k a pstate1).
Proof. unfold mbind, M_bind. intros ->. reflexivity. Qed.

Lemma bind_result_Raised (m : M A) (k : A -> M B) (pstate : ParseState)
    (e : ErrorData) :
  result (m pstate) = Raised e -> result ((m ≫= k) pstate) = Raised e.
Proof. unfold mbind, M_bind. intros ->. reflexivity. Qed.

Lemma call_Done_inv (ev : Event) (f : Ext A) (pstate pstate' : ParseState)
    (a : A) (tr : list Event) :
  call ev f pstate = mkRun (Done a) pstate' tr ->
  f pstate = Done (a, pstate') /\ tr = [ev].
Proof.
  unfold call. destruct (f pstate) as [[a' p']|e]; intros [= -> -> <-]; auto.
Qed.

Lemma call_trace (ev : Event) (f : Ext A) (pstate : ParseState) :
  trace (call ev f pstate) = [ev].
Proof. unfold call. destruct (f pstate) as [[a' p']|e]; reflexivity. Qed.

Lemma lift_Done_inv (o : Outcome A) (pstate pstate' : ParseState) (a : A)
    (tr : list Event) :
  lift o pstate = mkRun (Done a) pstate' tr ->
  o = Done a /\ pstate' = pstate /\ tr = [].
Proof. intros [= -> -> <-]. auto. Qed.
End Runs.

Lemma call_Done_run {A : Type} (ev : Event) (f : Ext A) (pstate pstate' : ParseState)
    (a : A) :
  f pstate = Done (a, pstate') -> call ev f pstate = mkRun (Done a) pstate' [ev].
Proof. unfold call. intros ->. reflexivity. Qed.

Lemma get_pstate_inv (pstate pstate' p : ParseState) (tr : list Event) :
  get_pstate pstate = mkRun (Done p) pstate' tr ->
  p = pstate /\ pstate' = pstate /\ tr = [].
Proof. intros [= -> <- <-]. auto. Qed.

Lemma modify_pstate_inv (f : ParseState -> ParseState) (pstate pstate' : ParseState)
    (u : unit) (tr : list Event) :
  modify_pstate f pstate = mkRun (Done u) pstate' tr ->
  pstate' = f pstate /\ tr = [].
Proof. intros [= _ <- <-]. auto. Qed.

Lemma log_inv (ev : Event) (pstate pstate' : ParseState) (u : unit) (tr : list Event) :
  log ev pstate = mkRun (Done u) pstate' tr -> pstate' = pstate /\ tr = [ev].
Proof. intros [= _ <- <-]. auto. Qed.

Lemma on_pstate_Done_inv {A : Type} (other : ParseState) (m : M A)
    (pstate pstate' pstate2 : ParseState) (a : A) (tr : list Event) :
  on_pstate other m pstate = mkRun (Done (a, pstate2)) pstate' tr ->
  m other = mkRun (Done a) pstate2 tr /\ pstate' = pstate.
Proof.
  unfold on_pstate. destruct (m other) as [[a'|e] p2 tr2]; simpl.
  - intros [= -> -> <- <-]. auto.
  - discriminate.
Qed.

Lemma on_pstate_trace {A : Type} (other : ParseState) (m : M A) (pstate : ParseState) :
  trace (on_pstate other m pstate) = trace (m other).
Proof. unfold on_pstate. destruct (m other) as [[a'|e] p2 tr2]; reflexivity. Qed.

Lemma on_child_Done_inv {A : Type} (child : ParseState) (m : M A)
    (pstate pstate' pstate2 : ParseState) (a : A) (tr : list Event) :
  on_child child m pstate = mkRun (Done (a, pstate2)) pstate' tr ->
  m child = mkRun (Done a) pstate2 tr
  /\ pstate' = default pstate (parentParseState pstate2).
Proof.
  unfold on_child. destruct (m child) as [[a'|e] p2 tr2]; simpl.
  - intros [= -> -> <- <-]. auto.
  - discriminate.
Qed.

Lemma on_child_trace {A : Type} (child : ParseState) (m : M A) (pstate : ParseState) :
  trace (on_child child m pstate) = trace (m child).
Proof. unfold on_child. destruct (m child) as [[a'|e] p2 tr2]; reflexivity. Qed.

Lemma result_Done_run {A : Type} (r : Run A) (a : A) :
  result r = Done a -> exists pstate' tr, r = mkRun (Done a) pstate' tr.
Proof. destruct r as [res pstate' tr]; simpl; intros ->. by exists pstate', tr. Qed.

(** Taking a successful run apart, down to the calls of collaborators. *)
Ltac run_inv H :=
  cbv beta iota in H;
  lazymatch type of H with
  | @mbind M _ _ _ _ _ _ = mkRun (Done _) _ _ =>
      let Hm := fresh "Hrun" in
      apply bind_Done_inv in H as (? & ? & ? & ? & Hm & H & ->);
      run_inv Hm; run_inv H
  | @mret M _ _ _ _ = mkRun (Done _) _ _ =>
      apply ret_Done_inv in H as (H & ? & ?); simplify_eq
  | @mthrow _ M _ _ _ _ = mkRun (Done _) _ _ => discriminate H
  | get_pstate _ = mkRun (Done _) _ _ =>
      apply get_pstate_inv in H as (? & ? & ?); subst
  | modify_pstate _ _ = mkRun (Done _) _ _ =>
      apply modify_pstate_inv in H as (? & ?); subst
  | log _ _ = mkRun (Done _) _ _ =>
      apply log_inv in H as (? & ?); subst
  | when ?c _ _ = mkRun (Done _) _ _ =>
      unfold when in H; run_inv H
  | lift _ _ = mkRun (Done _) _ _ =>
      apply lift_Done_inv in H as (H & ? & ?); subst
  | call _ _ _ = mkRun (Done _) _ _ =>
      apply call_Done_inv in H as (H & ?); subst
  | on_pstate _ _ _ = mkRun (Done ?x) _ _ =>
      first [is_var x; destruct x | idtac];
      apply on_pstate_Done_inv in H as (H & ?); subst
  | on_child _ _ _ = mkRun (Done ?x) _ _ =>
      first [is_var x; destruct x | idtac];
      apply on_child_Done_inv in H as (H & ?); subst
  | (if ?c then _ else _) _ = mkRun (Done _) _ _ =>
      let Hc := fresh "Hcond" in
      destruct c eqn:Hc; run_inv H
  | (let '(_, _) := ?x in _) _ = mkRun (Done _) _ _ =>
      destruct x; run_inv H
  | (match ?x with _ => _ end) _ = mkRun (Done _) _ _ =>
      let Hx := fresh "Hcase" in
      destruct x eqn:Hx; run_inv H
  | _ => idtac
  end.

(** ** The order of calls *)

Section Order.
Variables earlier later : Event -> Prop.

Lemma precedes_nil : precedes earlier later [].
Proof. intros [|? ?] ev l2 Heq; discriminate. Qed.

Lemma precedes_none (tr : list Event) :
  Forall (fun ev => ~ later ev) tr -> precedes earlier later tr.
Proof.
  intros Hnone l1 ev l2 -> Hlater.
  apply Forall_app in Hnone as [_ Hnone]. inversion Hnone; contradiction.
Qed.

(** Calls that are not [later] ones may come first. *)
Lemma precedes_app (tr1 tr2 : list Event) :
  Forall (fun ev => ~ later ev) tr1 ->
  precedes earlier later tr2 ->
  precedes earlier later (tr1 ++ tr2).
Proof.
  induction tr1 as [|ev1 tr1 IH]; intros Hnone Htr2; [exact Htr2|].
  inversion Hnone as [|? ? Hev1 Hnone']; subst.
  intros [|ev0 l1] ev l2 Heq Hlater; simpl in Heq; injection Heq as <- Heq.
  - contradiction.
  - apply Exists_cons_tl. eapply IH; eauto.
Qed.

(** After an [earlier] call anything may come. *)
Lemma precedes_cons (ev0 : Event) (tr : list Event) :
  earlier ev0 -> ~ later ev0 -> precedes earlier later (ev0 :: tr).
Proof.
  intros Hearlier Hnot [|ev1 l1] ev l2 Heq Hlater; simpl in Heq; injection Heq as <- Heq.
  - contradiction.
  - apply Exists_cons_hd. assumption.
Qed.

(** A trace that has its [earlier] call may go on. *)
Lemma precedes_app_l (tr1 tr2 : list Event) :
  precedes earlier later tr1 ->
  (tr2 <> [] -> Exists earlier tr1) ->
  precedes earlier later (tr1 ++ tr2).
Proof.
  intros Htr1 Hex l1 ev l2 Heq Hlater.
  symmetry in Heq. apply app_eq_app in Heq as [l [[-> Htr2]|[-> Hl]]].
  - apply Exists_app. left. apply Hex. destruct l; subst; discriminate.
  - destruct l as [|ev' l]; simpl in Hl.
    + rewrite app_nil_r in *. apply Hex. subst. discriminate.
    + injection Hl as <- ->. eapply Htr1; eauto.
Qed.

Context {A B : Type}.

Lemma precedes_bind_l (m : M A) (k : A -> M B) (pstate : ParseState) :
  precedes earlier later (trace (m pstate)) ->
  (forall a, result (m pstate) = Done a -> Exists earlier (trace (m pstate))) ->
  precedes earlier later (trace ((m ≫= k) pstate)).
Proof.
  intros Hm Hex. rewrite bind_trace. apply precedes_app_l; [assumption|].
  destruct (result (m pstate)) as [a|e]; [eauto|congruence].
Qed.

Lemma precedes_bind_log (ev : Event) (k : unit -> M B) (pstate : ParseState) :
  earlier ev -> ~ later ev ->
  precedes earlier later (trace ((log ev ≫= k) pstate)).
Proof. intros Hearlier Hnot. rewrite bind_trace. apply precedes_cons; assumption. Qed.

Lemma precedes_bind_skip (m : M A) (k : A -> M B) (pstate : ParseState) :
  Forall (fun ev => ~ later ev) (trace (m pstate)) ->
  (forall a, result (m pstate) = Done a ->
             precedes earlier later (trace (k a (pstate_of (m pstate))))) ->
  precedes earlier later (trace ((m ≫= k) pstate)).
Proof.
  intros Hm Hk. rewrite bind_trace. apply precedes_app; [assumption|].
  destruct (result (m pstate)) as [a|e]; [auto|apply precedes_nil].
Qed.

Lemma precedes_bind_call (ev : Event) (f : Ext A) (k : A -> M B) (pstate : ParseState) :
  earlier ev -> ~ later ev ->
  precedes earlier later (trace ((call ev f ≫= k) pstate)).
Proof.
  intros Hearlier Hnot. rewrite bind_trace, call_trace. simpl.
  apply precedes_cons; assumption.
Qed.

Lemma none_bind (R : Event -> Prop) (m : M A) (k : A -> M B) (pstate : ParseState) :
  Forall R (trace (m pstate)) ->
  (forall a pstate', Forall R (trace (k a pstate'))) ->
  Forall R (trace ((m ≫= k) pstate)).
Proof.
  intros Hm Hk. rewrite bind_trace. apply Forall_app. split; [assumption|].
  destruct (result (m pstate)); [apply Hk|constructor].
Qed.

Lemma none_call (R : Event -> Prop) (ev : Event) (f : Ext A) (pstate : ParseState) :
  R ev -> Forall R (trace (call ev f pstate)).
Proof. intros Hev. rewrite call_trace. repeat constructor. assumption. Qed.
End Order.

Lemma foldM_lift_trace {A B : Type} (f : B -> A -> Outcome B) (l : list A) :
  forall (acc : B) (pstate : ParseState),
    trace (foldM (fun acc x => lift (f acc x)) acc l pstate) = [].
Proof.
  induction l as [|x l IH]; intros acc pstate; simpl; [reflexivity|].
  rewrite bind_trace. simpl. destruct (f acc x); [apply IH|reflexivity].
Qed.

Create HintDb no_call.

(** No call of the run is of a kind: the run is taken apart bind by bind. *)
Ltac no_such_call tac :=
  repeat first
    [ solve [auto with no_call]
    | apply none_bind; [|intros ? ?]
    | apply none_call; tac
    | rewrite foldM_lift_trace
    | match goal with
      | |- Forall _ (trace (when ?c _ _)) => unfold when
      | |- Forall _ (trace ((if ?c then _ else _) _)) => destruct c
      | |- Forall _ (trace ((let '(_, _) := ?x in _) _)) => destruct x
      | |- Forall _ (trace ((match ?x with _ => _ end) _)) => destruct x
      end
    | apply Forall_nil ].

Section WithClause.
Context {collab : Collaborators}.

Lemma process_with_clause_calls (R : Event -> Prop) (withClause : option WithClause.t)
    (qry : Query) (pstate : ParseState) :
  (forall w, R (Ev_transformWithClause w)) ->
  Forall R (trace (process_with_clause withClause qry pstate)).
Proof.
  intros HR. destruct withClause as [w|]; simpl; [|constructor].
  apply none_bind; [apply none_call, HR|].
  intros; apply none_bind; intros; constructor.
Qed.
End WithClause.
(** * Properties *)

(** ** Row locking *)

Lemma LCS_value_inj (x y : LockClauseStrength) : LCS_value x = LCS_value y -> x = y.
Proof. destruct x, y; simpl; congruence. Qed.

Lemma Max_strength_value (x y : LockClauseStrength) :
  LCS_value (Max_strength x y) = Z.max (LCS_value x) (LCS_value y).
Proof. unfold Max_strength. destruct (Z.gtb_spec (LCS_value x) (LCS_value y)); lia. Qed.

Lemma Max_strength_comm (x y : LockClauseStrength) :
  Max_strength x y = Max_strength y x.
Proof. apply LCS_value_inj. rewrite !Max_strength_value. lia. Qed.

Lemma Max_strength_assoc (x y z : LockClauseStrength) :
  Max_strength (Max_strength x y) z = Max_strength x (Max_strength y z).
Proof. apply LCS_value_inj. rewrite !Max_strength_value. lia. Qed.

Lemma get_parse_rowmark_hasForUpdate (qry : Query) (rtindex : Index) (b : bool) :
  get_parse_rowmark (qry <| hasForUpdate := b |>) rtindex = get_parse_rowmark qry rtindex.
Proof. reflexivity. Qed.

Lemma applyLockingClause_found (qry : Query) (rtindex : Index) (i : nat)
    (rc : RowMarkClause.t) (s : LockClauseStrength) (nw pd : bool) :
  get_parse_rowmark qry rtindex = Some (i, rc) ->
  applyLockingClause qry rtindex s nw pd =
    qry <| hasForUpdate := hasForUpdate qry || negb pd |>
        <| rowMarks := <[i := merge_rowmark rc s nw pd]> (rowMarks qry) |>.
Proof.
  intros Hfind. unfold applyLockingClause.
  destruct pd; simpl.
  - rewrite Hfind. destruct qry; simpl. rewrite orb_false_r. reflexivity.
  - rewrite get_parse_rowmark_hasForUpdate, Hfind.
    destruct qry; simpl. rewrite orb_true_r. reflexivity.
Qed.

Lemma applyLockingClause_new (qry : Query) (rtindex : Index)
    (s : LockClauseStrength) (nw pd : bool) :
  get_parse_rowmark qry rtindex = None ->
  applyLockingClause qry rtindex s nw pd =
    qry <| hasForUpdate := hasForUpdate qry || negb pd |>
        <| rowMarks := rowMarks qry ++ [RowMarkClause.mk rtindex s nw pd] |>.
Proof.
  intros Hfind. unfold applyLockingClause.
  destruct pd; simpl.
  - rewrite Hfind. destruct qry; simpl. rewrite orb_false_r. reflexivity.
  - rewrite get_parse_rowmark_hasForUpdate, Hfind.
    destruct qry; simpl. rewrite orb_true_r. reflexivity.
Qed.

Lemma get_parse_rowmark_merged (qry : Query) (rtindex : Index) (i : nat)
    (rc rc' : RowMarkClause.t) (b : bool) :
  get_parse_rowmark qry rtindex = Some (i, rc) ->
  RowMarkClause.rti rc' = RowMarkClause.rti rc ->
  get_parse_rowmark
    (qry <| hasForUpdate := b |> <| rowMarks := <[i := rc']> (rowMarks qry) |>)
    rtindex = Some (i, rc').
Proof.
  unfold get_parse_rowmark. simpl. intros Hfind Hrti.
  apply list_find_Some in Hfind as (Hi & Hrc & Hbefore).
  apply list_find_Some. split_and!.
  - apply list_lookup_insert_eq. eapply lookup_lt_Some, Hi.
  - congruence.
  - intros j y Hj Hlt. rewrite list_lookup_insert_ne in Hj by lia. eauto.
Qed.

Lemma get_parse_rowmark_appended (qry : Query) (rtindex : Index)
    (rc : RowMarkClause.t) (b : bool) :
  get_parse_rowmark qry rtindex = None ->
  RowMarkClause.rti rc = rtindex ->
  get_parse_rowmark
    (qry <| hasForUpdate := b |> <| rowMarks := rowMarks qry ++ [rc] |>) rtindex
  = Some (length (rowMarks qry), rc).
Proof.
  unfold get_parse_rowmark. simpl. intros Hfind Hrti.
  apply list_find_app_Some. right. split_and!; [lia|assumption|].
  rewrite Nat.sub_diag. simpl. rewrite decide_True by assumption. reflexivity.
Qed.

(** Two clauses for one rtindex come to their merge, applied once. *)
Lemma applyLockingClause_twice (qry : Query) (rtindex : Index)
    (s1 s2 : LockClauseStrength) (nw1 pd1 nw2 pd2 : bool) :
  applyLockingClause (applyLockingClause qry rtindex s1 nw1 pd1) rtindex s2 nw2 pd2
  = applyLockingClause qry rtindex (Max_strength s1 s2) (nw1 || nw2) (pd1 && pd2).
Proof.
  destruct (get_parse_rowmark qry rtindex) as [[i rc]|] eqn:Hfind.
  - rewrite (applyLockingClause_found _ _ _ _ s1 nw1 pd1 Hfind).
    rewrite (applyLockingClause_found _ _ _ _ _ _ _ Hfind).
    rewrite (applyLockingClause_found _ rtindex i (merge_rowmark rc s1 nw1 pd1)
               s2 nw2 pd2)
      by (eapply get_parse_rowmark_merged; [exact Hfind|reflexivity]).
    destruct qry; simpl. rewrite list_insert_insert_eq.
    unfold merge_rowmark; simpl.
    rewrite Max_strength_assoc, negb_andb, !orb_assoc, !andb_assoc.
    reflexivity.
  - rewrite (applyLockingClause_new _ _ s1 nw1 pd1 Hfind).
    rewrite (applyLockingClause_new _ _ _ _ _ Hfind).
    rewrite (applyLockingClause_found _ rtindex (length (rowMarks qry))
               (RowMarkClause.mk rtindex s1 nw1 pd1) s2 nw2 pd2)
      by (apply get_parse_rowmark_appended; [exact Hfind|reflexivity]).
    destruct qry; simpl in *.
    rewrite insert_app_r_alt, Nat.sub_diag by lia. simpl.
    unfold merge_rowmark; simpl.
    rewrite negb_andb, !orb_assoc. reflexivity.
Qed.

(** C1 (applyLockingClause).  A clause that is not pushed down sets
    hasForUpdate, whether a row-mark exists for the rtindex or not.  When a
    row-mark exists, the call leaves the marks as they were but for that
    one, which keeps its rtindex, takes the greater of the two strengths,
    the disjunction of the two noWait flags and the conjunction of the two
    pushedDown flags.  When none exists, a mark with the values of the
    clause is appended, and a second clause for the rtindex is merged into
    it.  Two clauses for the rtindex give the same query in either order
    (commutative); a third clause can be merged with the second before it
    is applied (associative), the merge of strengths being associative
    too. *)
Theorem applyLockingClause_merge (qry : Query) (rtindex : Index)
    (s1 s2 s3 : LockClauseStrength) (nw1 pd1 nw2 pd2 nw3 pd3 : bool) :
  let apply1 q := applyLockingClause q rtindex s1 nw1 pd1 in
  let apply2 q := applyLockingClause q rtindex s2 nw2 pd2 in
  let apply3 q := applyLockingClause q rtindex s3 nw3 pd3 in
  hasForUpdate (apply1 qry) = hasForUpdate qry || negb pd1
  /\ (pd1 = false -> hasForUpdate (apply1 qry) = true)
  /\ (forall i rc,
        get_parse_rowmark qry rtindex = Some (i, rc) ->
        rowMarks (apply1 qry) =
          <[i := RowMarkClause.mk (RowMarkClause.rti rc)
                   (Max_strength (RowMarkClause.strength rc) s1)
                   (RowMarkClause.noWait rc || nw1)
                   (RowMarkClause.pushedDown rc && pd1)]> (rowMarks qry)
        /\ LCS_value (Max_strength (RowMarkClause.strength rc) s1) =
             Z.max (LCS_value (RowMarkClause.strength rc)) (LCS_value s1))
  /\ (get_parse_rowmark qry rtindex = None ->
      rowMarks (apply1 qry)
        = rowMarks qry ++ [RowMarkClause.mk rtindex s1 nw1 pd1]
      /\ rowMarks (apply2 (apply1 qry))
         = rowMarks qry ++ [RowMarkClause.mk rtindex (Max_strength s1 s2)
                              (nw1 || nw2) (pd1 && pd2)])
  /\ apply2 (apply1 qry) = apply1 (apply2 qry)
  /\ (apply3 (apply2 (apply1 qry)) =
        applyLockingClause (apply1 qry) rtindex
          (Max_strength s2 s3) (nw2 || nw3) (pd2 && pd3)
      /\ Max_strength (Max_strength s1 s2) s3 = Max_strength s1 (Max_strength s2 s3)).
Proof.
  intros apply1 apply2 apply3. subst apply1 apply2 apply3.
  assert (Hupd : hasForUpdate (applyLockingClause qry rtindex s1 nw1 pd1)
                 = hasForUpdate qry || negb pd1).
  { destruct (get_parse_rowmark qry rtindex) as [[i rc]|] eqn:Hfind.
    - rewrite (applyLockingClause_found _ _ _ _ _ _ _ Hfind). by destruct qry.
    - rewrite (applyLockingClause_new _ _ _ _ _ Hfind). by destruct qry. }
  split_and!.
  - exact Hupd.
  - intros ->. rewrite Hupd. apply orb_true_r.
  - intros i rc Hfind. split.
    + rewrite (applyLockingClause_found _ _ _ _ _ _ _ Hfind). reflexivity.
    + apply Max_strength_value.
  - intros Hfind. split.
    + rewrite (applyLockingClause_new _ _ _ _ _ Hfind). by destruct qry.
    + rewrite applyLockingClause_twice.
      rewrite (applyLockingClause_new _ _ _ _ _ Hfind). by destruct qry.
  - rewrite !applyLockingClause_twice.
    rewrite Max_strength_comm, (orb_comm nw1), (andb_comm pd1). reflexivity.
  - apply applyLockingClause_twice.
  - apply Max_strength_assoc.
Qed.

(** FOR SHARE pushed down from above, then an explicit FOR UPDATE NOWAIT
    on the same rtindex; and the same clause on a query without marks. *)
Lemma applyLockingClause_merge_witness :
  get_parse_rowmark Inputs.locked_query 3%nat = Some (0%nat, Inputs.share_mark)
  /\ rowMarks (applyLockingClause Inputs.locked_query 3%nat LCS_FORUPDATE true false)
      = [RowMarkClause.mk 3%nat LCS_FORUPDATE true false]
  /\ hasForUpdate (applyLockingClause Inputs.locked_query 3%nat LCS_FORUPDATE true false)
      = true
  /\ rowMarks (applyLockingClause makeNode_Query 3%nat LCS_FORUPDATE true false)
      = [RowMarkClause.mk 3%nat LCS_FORUPDATE true false]
  /\ hasForUpdate (applyLockingClause makeNode_Query 3%nat LCS_FORUPDATE true false)
      = true.
Proof.
  pose proof (applyLockingClause_merge Inputs.locked_query 3%nat
                LCS_FORUPDATE LCS_FORKEYSHARE LCS_FORSHARE true false false true
                false true) as (_ & Hupd & Hfound & _).
  pose proof (applyLockingClause_merge makeNode_Query 3%nat
                LCS_FORUPDATE LCS_FORKEYSHARE LCS_FORSHARE true false false true
                false true) as (_ & Hupd0 & _ & Hnew & _).
  split_and!.
  - reflexivity.
  - exact (proj1 (Hfound 0%nat Inputs.share_mark eq_refl)).
  - exact (Hupd eq_refl).
  - exact (proj1 (Hnew eq_refl)).
  - exact (Hupd0 eq_refl).
Defined.
(** ** ROWNUM predicates *)

Section Rownum.
Context {collab : Collaborators}.

Lemma rewrite_rownum_scan_app (pre rest : list Node) :
  forall (i : Z) (limitCount_ : option Node) (hints : Bitmapset),
  rewrite_rownum_scan (pre ++ rest) i limitCount_ hints =
    match rewrite_rownum_scan pre i limitCount_ hints with
    | Scan_done limitCount' hints' =>
        rewrite_rownum_scan rest (i + Z.of_nat (length pre)) limitCount' hints'
    | ended => ended
    end.
Proof.
  induction pre as [|e pre IH]; intros i lc hints; simpl.
  - f_equal. lia.
  - destruct (rewrite_rownum_expr e lc); try reflexivity;
      rewrite IH; destruct (rewrite_rownum_scan pre _ _ _); try reflexivity;
      f_equal; lia.
Qed.

(** The predicate ROWNUM <= k, k <= 0, ends the loop. *)
Lemma rewrite_rownum_expr_le_zero (opno opfuncid : Oid) (c : Const) (k : Z)
    (limitCount_ : option Node) :
  opno <> InvalidOid ->
  get_opname opno = Some "<=" ->
  contain_mutable_functions (NConst c) = false ->
  const_get_int64 (NConst c) = Some k ->
  k <= 0 ->
  rewrite_rownum_expr (NOpExpr opno opfuncid [NRownumExpr; NConst c]) limitCount_
    = Step_break.
Proof.
  intros Hopno Hname Hmut Hconst Hk. unfold rewrite_rownum_expr.
  cbn [contain_rownum existsb orb negb is_RownumExpr andb].
  apply Z.eqb_neq in Hopno. rewrite Hopno. cbn [is_RownumExpr negb].
  rewrite Hopno, Hname, Hmut, Hconst.
  apply Z.leb_le in Hk. rewrite Hk. reflexivity.
Qed.

(** C2 (rewrite_rownum_query), amended.  The query has a join tree, no
    limit offset or count, and ROWNUM in its WHERE clause; ROWNUM <= k
    with an integer constant k <= 0 is one of the predicates of the
    canonicalized clause, and no predicate before it makes the rewrite
    give up.  Then limitCount becomes the int8 constant 0, and the WHERE
    clause is the canonicalized clause with all its predicates: nothing
    else of the query changes. *)
Theorem rewrite_rownum_query_le_zero (query : Query) (fromlist : list JoinTree)
    (quals : Node) (pre post : list Node) (opno opfuncid : Oid) (c : Const) (k : Z) :
  jointree query = Some (FromExpr fromlist (Some quals)) ->
  limitOffset query = None ->
  limitCount query = None ->
  contain_rownum quals = true ->
  pre ++ NOpExpr opno opfuncid [NRownumExpr; NConst c] :: post
    = match canonicalize_qual quals with
      | NBoolExpr AND_EXPR args => args
      | expr => [expr]
      end ->
  opno <> InvalidOid ->
  get_opname opno = Some "<=" ->
  contain_mutable_functions (NConst c) = false ->
  const_get_int64 (NConst c) = Some k ->
  k <= 0 ->
  rewrite_rownum_scan pre 0 None ∅ <> Scan_return ->
  rewrite_rownum_query query =
    query <| jointree := Some (FromExpr fromlist (Some (canonicalize_qual quals))) |>
          <| limitCount := Some (make_int8_const (Int64GetDatum 0)) |>.
Proof.
  intros Hjt Hoff Hcount Hrownum Hlist Hopno Hname Hmut Hconst Hk Hpre.
  unfold rewrite_rownum_query. rewrite Hjt, Hoff, Hcount. simpl.
  rewrite Hrownum. simpl.
  assert (Hscan : rewrite_rownum_scan
                    (pre ++ NOpExpr opno opfuncid [NRownumExpr; NConst c] :: post)
                    0 None ∅ = Scan_break).
  { rewrite rewrite_rownum_scan_app.
    destruct (rewrite_rownum_scan pre 0 None ∅) as [lc hints| |];
      [|reflexivity|contradiction].
    simpl. rewrite (rewrite_rownum_expr_le_zero _ _ _ k); auto. }
  rewrite Hlist in Hscan.
  destruct (canonicalize_qual quals) as [| | | | |? ? ?|? ?|[] ?| | |];
    rewrite Hscan; reflexivity.
Qed.
End Rownum.

(** SELECT ... WHERE ROWNUM <= 0 *)
Lemma rewrite_rownum_query_le_zero_witness :
  limitCount (rewrite_rownum_query (collab := Demo.collaborators)
                (Inputs.query_where (Inputs.rownum_le 0)))
    = Some (Inputs.int8 0)
  /\ jointree (rewrite_rownum_query (collab := Demo.collaborators)
                (Inputs.query_where (Inputs.rownum_le 0)))
    = Some (FromExpr [] (Some (Inputs.rownum_le 0))).
Proof.
  assert (Hopno : 414 <> InvalidOid) by discriminate.
  assert (Hk : 0 <= 0) by lia.
  assert (Hpre : rewrite_rownum_scan (collab := Demo.collaborators) [] 0 None ∅
                 <> Scan_return) by discriminate.
  rewrite (rewrite_rownum_query_le_zero (collab := Demo.collaborators)
             (Inputs.query_where (Inputs.rownum_le 0)) [] (Inputs.rownum_le 0)
             [] [] 414 471 (mkConst INT8OID (-1) InvalidOid 8 0 false true) 0
             eq_refl eq_refl eq_refl eq_refl eq_refl Hopno eq_refl eq_refl eq_refl
             Hk Hpre).
  split; reflexivity.
Defined.

(** C2, as the claim has it, fails twice.  For WHERE ROWNUM <= 0 the
    limit count becomes 0 but the predicate stays in the WHERE clause.
    For WHERE ROWNUM > 5 AND ROWNUM <= 0 the rewrite is given up at the
    first predicate: no limit count is set. *)
Lemma rewrite_rownum_query_counterexample :
  let rewritten quals :=
    rewrite_rownum_query (collab := Demo.collaborators) (Inputs.query_where quals) in
  (limitCount (rewritten (Inputs.rownum_le 0)) = Some (Inputs.int8 0)
   /\ (jointree (rewritten (Inputs.rownum_le 0)) ≫= jointree_quals)
      = Some (Inputs.rownum_le 0)
   /\ (jointree (rewritten (Inputs.rownum_le 0)) ≫= jointree_quals) <> None)
  /\ (limitCount
        (rewritten (NBoolExpr AND_EXPR [Inputs.rownum_gt 5; Inputs.rownum_le 0]))
      = None
      /\ limitCount
           (rewritten (NBoolExpr AND_EXPR [Inputs.rownum_gt 5; Inputs.rownum_le 0]))
         <> Some (Inputs.int8 0)).
Proof. simpl. split_and!; try reflexivity; discriminate. Qed.
(** ** Outer-join markers at the entry points *)

(** C3.  DELETE FROM t WHERE a(+) = 1 in the alternate grammar.  The query
    that parse_analyze_varparams_for_gram returns still has the outer-join
    marker in the WHERE clause of its join tree; parse_analyze_for_gram,
    which calls check_joinon_column_join on the join tree, returns the
    query without it. *)
Theorem parse_analyze_varparams_keeps_marker :
  let stmt := DeleteStmtNode Inputs.delete_marked in
  option_map (fun v => have_ora_column_join_opt (Inputs.where_of (fst v)))
    (value_of (parse_analyze_varparams_for_gram (collab := Demo.collaborators)
                 Inputs.analyze stmt "DELETE FROM t WHERE a(+) = 1" []
                 PARSE_GRAM_ORACLE Inputs.pstate0))
    = Some true
  /\ option_map (fun query => have_ora_column_join_opt (Inputs.where_of query))
       (value_of (parse_analyze_for_gram (collab := Demo.collaborators)
                    Inputs.analyze stmt "DELETE FROM t WHERE a(+) = 1" []
                    PARSE_GRAM_ORACLE Inputs.pstate0))
     = Some false.
Proof. vm_compute. split; reflexivity. Qed.
(** ** UPDATE *)

Section Update.
Context {collab : Collaborators}.

Hypothesis transformAssignedExpr_keeps_target :
  forall e exprKind colname attrno indirection p e' p',
    ext_transformAssignedExpr e exprKind colname attrno indirection p = Done (e', p') ->
    p_target_relation p' = p_target_relation p.

Hypothesis assign_query_collations_keeps_target :
  forall query p u p',
    ext_assign_query_collations query p = Done (u, p') ->
    p_target_relation p' = p_target_relation p.


End Update.


(** ** SELECT *)

Section Select.
Context {collab : Collaborators}.

Lemma transformFromAndWhere_trace_head (quals : option Node) (pstate : ParseState) :
  exists tr, trace (transformFromAndWhere quals pstate)
             = Ev_transformFromAndWhere quals :: tr.
Proof.
  unfold transformFromAndWhere. rewrite bind_trace.
  change (trace (log (Ev_transformFromAndWhere quals) pstate))
    with [Ev_transformFromAndWhere quals].
  cbn [app]. eauto.
Qed.

(** The calls of a run of transformSelectStmt that returns, in their
    order. *)
Lemma transformSelectStmt_returned_calls (stmt : SelectStmt.t) (pstate : ParseState)
    (qry : Query) :
  let run := transformSelectStmt stmt pstate in
  let where_call :=
    Ev_transformWhereClause (SelectStmt.whereClause stmt) EXPR_KIND_WHERE "WHERE" in
  let targets_call :=
    Ev_transformTargetList (SelectStmt.targetList stmt) EXPR_KIND_SELECT_TARGET in
  result run = Done qry ->
  (ADB = true ->
   exists qual,
     [where_call; Ev_transformFromAndWhere qual; targets_call]
       `sublist_of` trace run)
  /\ (ADB = false -> [targets_call; where_call] `sublist_of` trace run).
Proof.
  intros run where_call targets_call Hrun. subst run where_call targets_call.
  apply result_Done_run in Hrun as (pstate' & tr & Hrun). rewrite Hrun.
  cbn [trace]. unfold transformSelectStmt in Hrun.
  split; intros HADB; rewrite HADB in Hrun; run_inv Hrun; try discriminate.
  all: repeat match goal with
              | H : transformWhereClause _ _ _ _ = _ |- _ =>
                  apply call_Done_inv in H as (_ & ->)
              | H : transformTargetList _ _ _ = _ |- _ =>
                  apply call_Done_inv in H as (_ & ->)
              | H : transformFromAndWhere ?q ?p = mkRun _ _ ?t |- _ =>
                  let Hhead := fresh "Hhead" in
                  destruct (transformFromAndWhere_trace_head q p) as [? Hhead];
                  rewrite H in Hhead; cbn [trace] in Hhead; subst t; clear H
              end.
  all: try eexists.
  all: repeat (cbn [app];
               first [ apply sublist_nil_l
                     | apply sublist_skip
                     | apply sublist_cons
                     | apply sublist_inserts_l ]).
Qed.

(** C5 (transformSelectStmt), amended.  The order is fixed by the
    build, not by the grammar of the parse state.  In a build with ADB,
    in every run and for any parse state, the target list is transformed
    only after the WHERE clause has been transformed and the outer-join
    rewrite (transformFromAndWhere) has been called; a run that returns has
    transformed the WHERE clause, called the rewrite and transformed the
    target list, in this order.  In a build without ADB the WHERE clause is
    transformed only after the target list, and the outer-join rewrite is
    never called; a run that returns has transformed the target list and
    then the WHERE clause. *)
Theorem transformSelectStmt_where_order (stmt : SelectStmt.t) (pstate : ParseState) :
  let run := transformSelectStmt stmt pstate in
  let tr := trace run in
  let where_call :=
    Ev_transformWhereClause (SelectStmt.whereClause stmt) EXPR_KIND_WHERE "WHERE" in
  let targets_call :=
    Ev_transformTargetList (SelectStmt.targetList stmt) EXPR_KIND_SELECT_TARGET in
  (ADB = true ->
     precedes (eq where_call) (eq targets_call) tr
     /\ precedes is_transformFromAndWhere (eq targets_call) tr
     /\ forall qry, result run = Done qry ->
          exists qual,
            [where_call; Ev_transformFromAndWhere qual; targets_call]
              `sublist_of` tr)
  /\ (ADB = false ->
      precedes (eq targets_call) (eq where_call) tr
      /\ Forall (fun ev => ~ is_transformFromAndWhere ev) tr
      /\ forall qry, result run = Done qry ->
           [targets_call; where_call] `sublist_of` tr).
Proof.
  intros run tr where_call targets_call. subst run tr where_call targets_call.
  split; intros HADB; split_and!.
  3: { intros qry Hrun.
       exact (proj1 (transformSelectStmt_returned_calls stmt pstate qry Hrun) HADB). }
  5: { intros qry Hrun.
       exact (proj2 (transformSelectStmt_returned_calls stmt pstate qry Hrun) HADB). }
  1-3: unfold transformSelectStmt; rewrite HADB;
    (apply precedes_bind_skip;
      [apply process_with_clause_calls; intros w Heq; discriminate Heq|intros qry _]);
    (apply precedes_bind_skip;
      [unfold when; destruct (bool_decide _); constructor|intros _ _]);
    (apply precedes_bind_skip; [constructor|intros _ _]);
    (apply precedes_bind_skip; [constructor|intros _ _]);
    (apply precedes_bind_skip;
      [apply none_call; intros Heq; discriminate Heq|intros _ _]).
  - apply precedes_bind_l.
    + apply precedes_bind_call; [reflexivity|intros Heq; discriminate Heq].
    + intros a _. rewrite bind_trace. unfold transformWhereClause at 1.
      rewrite call_trace. apply Exists_cons_hd. reflexivity.
  - apply precedes_bind_l.
    + apply precedes_bind_skip;
        [apply none_call; intros Heq; discriminate Heq|intros qual _].
      match goal with
      | |- precedes _ _ (trace (transformFromAndWhere ?q ?p)) =>
          destruct (transformFromAndWhere_trace_head q p) as [tr' ->]
      end.
      apply precedes_cons; [eexists; reflexivity|intros Heq; discriminate Heq].
    + intros qual Hdone. apply bind_result_Done in Hdone as (q & Hwhere & _).
      rewrite bind_trace, Hwhere. apply Exists_app. right.
      match goal with
      | |- Exists _ (trace (transformFromAndWhere ?q ?p)) =>
          destruct (transformFromAndWhere_trace_head q p) as [tr' ->]
      end.
      apply Exists_cons_hd. eexists; reflexivity.
  - apply precedes_bind_skip; [constructor|intros _ _].
    apply precedes_bind_call; [reflexivity|intros Heq; discriminate Heq].
  - unfold transformSelectStmt. rewrite HADB.
    apply none_bind;
      [apply process_with_clause_calls; intros w [q Heq]; discriminate Heq|intros ? ?].
    no_such_call ltac:(intros [? Heq]; discriminate Heq).
    all: exact I.
Qed.
End Select.

(** SELECT a FROM t WHERE ROWNUM > 5, in a build with ADB and in one
    without. *)
Lemma transformSelectStmt_where_order_witness :
  let where_call :=
    Ev_transformWhereClause (SelectStmt.whereClause Inputs.select_where)
      EXPR_KIND_WHERE "WHERE" in
  let targets_call :=
    Ev_transformTargetList (SelectStmt.targetList Inputs.select_where)
      EXPR_KIND_SELECT_TARGET in
  let run := transformSelectStmt (collab := Demo.collaborators)
               Inputs.select_where Inputs.pstate0 in
  let run' := transformSelectStmt (collab := Inputs.collaborators_without_ADB)
                Inputs.select_where Inputs.pstate0 in
  (ADB (Collaborators := Demo.collaborators) = true
   /\ precedes (eq where_call) (eq targets_call) (trace run)
   /\ exists qual,
        [where_call; Ev_transformFromAndWhere qual; targets_call]
          `sublist_of` trace run)
  /\ (ADB (Collaborators := Inputs.collaborators_without_ADB) = false
      /\ precedes (eq targets_call) (eq where_call) (trace run')
      /\ [targets_call; where_call] `sublist_of` trace run').
Proof.
  intros where_call targets_call run run'.
  destruct (result run) as [qry|e] eqn:Hrun;
    [|vm_compute in Hrun; discriminate Hrun].
  destruct (result run') as [qry'|e] eqn:Hrun';
    [|vm_compute in Hrun'; discriminate Hrun'].
  destruct (proj1 (transformSelectStmt_where_order (collab := Demo.collaborators)
                     Inputs.select_where Inputs.pstate0) eq_refl)
    as (Horder & _ & Hcalls).
  destruct (proj2 (transformSelectStmt_where_order
                     (collab := Inputs.collaborators_without_ADB)
                     Inputs.select_where Inputs.pstate0) eq_refl)
    as (Horder' & _ & Hcalls').
  split; (split; [reflexivity|]).
  - split; [exact Horder | exact (Hcalls qry Hrun)].
  - split; [exact Horder' | exact (Hcalls' qry' Hrun')].
Defined.

(** C5, as the claim has it, fails: the parse state has the grammar
    PARSE_GRAM_POSTGRES, not the alternate one, and still, in a build with
    ADB, the WHERE clause is transformed and the outer-join rewrite is
    called before the target list is transformed. *)
Lemma transformSelectStmt_where_order_counterexample :
  let tr := trace (transformSelectStmt (collab := Demo.collaborators)
                     Inputs.select_where Inputs.pstate0) in
  let where_call :=
    Ev_transformWhereClause (Some (Inputs.rownum_gt 5)) EXPR_KIND_WHERE "WHERE" in
  let targets_call :=
    Ev_transformTargetList [Inputs.target "a" (Inputs.int8 1)] EXPR_KIND_SELECT_TARGET in
  p_grammar Inputs.pstate0 = PARSE_GRAM_POSTGRES
  /\ take 4 tr = [Ev_transformFromClause [Inputs.table 1];
                  where_call;
                  Ev_transformFromAndWhere (Some (Inputs.rownum_gt 5));
                  targets_call]
  /\ ~ precedes (eq targets_call) (eq where_call) tr.
Proof.
  intros tr where_call targets_call. split_and!.
  - reflexivity.
  - vm_compute. reflexivity.
  - intros Horder.
    assert (Htr : tr = [Ev_transformFromClause [Inputs.table 1]]
                       ++ where_call :: drop 2 tr) by (vm_compute; reflexivity).
    specialize (Horder _ _ _ Htr eq_refl).
    apply Exists_cons in Horder as [Heq|Hnil]; [discriminate Heq|].
    apply Exists_nil in Hnil. exact Hnil.
Qed.
(** ** Set operations *)

Section SetOperations.
Context {collab : Collaborators}.
Variable transformStmt_ : RawStmt -> M Query.

Lemma setop_column_typmods (op : SetOperation) (all : bool) (context : string)
    (want_targetlist : bool) (acc cols : SetOpColumns) (ltle rtle : TleRef)
    (pstate pstate' : ParseState) (tr : list Event) :
  setop_column op all context want_targetlist acc ltle rtle pstate
    = mkRun (Done cols) pstate' tr ->
  soc_colTypmods cols =
    soc_colTypmods acc
    ++ [setop_rescoltypmod (exprType (expr (fst ltle))) (exprType (expr (fst rtle)))
          (exprTypmod (expr (fst ltle))) (exprTypmod (expr (fst rtle)))].
Proof.
  unfold setop_column. intros Hrun. run_inv Hrun; reflexivity.
Qed.

Lemma setop_columns_typmods (op : SetOperation) (all : bool) (context : string)
    (want_targetlist : bool) (ltargetlist rtargetlist : list TleRef) :
  forall (acc cols : SetOpColumns) (pstate pstate' : ParseState) (tr : list Event),
  setop_columns op all context want_targetlist acc ltargetlist rtargetlist pstate
    = mkRun (Done cols) pstate' tr ->
  soc_colTypmods cols =
    soc_colTypmods acc
    ++ zip_with (fun ltle rtle =>
                   setop_rescoltypmod
                     (exprType (expr (fst ltle))) (exprType (expr (fst rtle)))
                     (exprTypmod (expr (fst ltle))) (exprTypmod (expr (fst rtle))))
         ltargetlist rtargetlist.
Proof.
  revert rtargetlist.
  induction ltargetlist as [|ltle ltl IH]; intros [|rtle rtl] acc cols pstate pstate' tr;
    simpl; intros Hrun.
  1-3: run_inv Hrun; symmetry; apply app_nil_r.
  apply bind_Done_inv in Hrun as (acc' & pstate1 & tr1 & tr2 & Hcol & Hrest & ->).
  apply setop_column_typmods in Hcol. apply IH in Hrest.
  rewrite Hrest, Hcol, <- app_assoc. reflexivity.
Qed.

Lemma setop_rescoltypmod_rule (lcoltype rcoltype : Oid) (lcoltypmod rcoltypmod : Z) :
  setop_rescoltypmod lcoltype rcoltype lcoltypmod rcoltypmod =
    if decide (lcoltype = rcoltype /\ lcoltypmod = rcoltypmod)
    then lcoltypmod else -1.
Proof.
  unfold setop_rescoltypmod.
  destruct (Z.eqb_spec lcoltype rcoltype), (Z.eqb_spec lcoltypmod rcoltypmod);
    simpl; destruct (decide _) as [[? ?]|Hno]; try reflexivity; try contradiction.
  exfalso. apply Hno. split; assumption.
Qed.

(** C6 (transformSetOperationTree, internal node).  The node's
    colTypmods has one entry for each pair of columns that the two
    children hand up.  The entry is the left column's typmod when the two
    columns have the same type and the same typmod, and -1 otherwise:
    equal typmods alone do not carry the typmod over. *)
Theorem transformSetOperationTree_typmod (stmt : SelectStmt.t)
    (isTopLevel want_targetlist : bool) (pstate : ParseState)
    (op : SetOperation) (all : bool) (larg' rarg' : SetOpTree)
    (colTypes : list Oid) (colTypmods : list Z) (colCollations : list Oid)
    (groupClauses : list SortGroupClause) (targetlist : list TleRef) :
  result (transformSetOperationTree transformStmt_ stmt isTopLevel want_targetlist
            pstate)
    = Done (SetOperationStmt op all larg' rarg' colTypes colTypmods colCollations
              groupClauses, targetlist) ->
  exists (larg rarg : SelectStmt.t) (ltargetlist rtargetlist : list TleRef)
         (pstate_r : ParseState),
    SelectStmt.larg stmt = Some larg /\ SelectStmt.rarg stmt = Some rarg
    /\ result (transformSetOperationTree transformStmt_ larg false true pstate)
        = Done (larg', ltargetlist)
    /\ result (transformSetOperationTree transformStmt_ rarg false true pstate_r)
        = Done (rarg', rtargetlist)
    /\ length ltargetlist = length rtargetlist
    /\ length colTypmods = length ltargetlist
    /\ forall (i : nat) (ltle rtle : TleRef),
         ltargetlist !! i = Some ltle ->
         rtargetlist !! i = Some rtle ->
         let lcolnode := expr (fst ltle) in
         let rcolnode := expr (fst rtle) in
         colTypmods !! i =
           Some (if decide (exprType lcolnode = exprType rcolnode
                            /\ exprTypmod lcolnode = exprTypmod rcolnode)
                 then exprTypmod lcolnode else -1).
Proof.
  intros Hrun. apply result_Done_run in Hrun as (pstate' & tr & Hrun).
  destruct stmt as [? ? ? ? ? ? ? ? ? ? ? ? ? ? ? ? larg rarg]; simpl in Hrun.
  run_inv Hrun;
    match goal with
    | Heq : SetOperationStmt _ _ _ _ _ _ _ _ = _ |- _ => inversion Heq; subst; clear Heq
    end.
  all: match goal with
       | Hl : transformSetOperationTree _ ?l false true _ = mkRun (Done (_, ?ltl)) _ _,
         Hr : transformSetOperationTree _ ?r false true ?p = mkRun (Done (_, ?rtl)) _ _,
         Hc : setop_columns _ _ _ _ _ ?ltl ?rtl _ = _,
         Hlen : bool_decide (_ ≠ _) = false |- _ =>
           apply bool_decide_eq_false in Hlen;
           assert (length ltl = length rtl) by (destruct (decide (length ltl = length rtl)); [assumption|contradiction]);
           apply setop_columns_typmods in Hc; simpl in Hc;
           exists l, r, ltl, rtl, p; rewrite Hl, Hr, Hc; simpl
       end.
  all: split_and!; try reflexivity; try lia.
  all: try (apply length_zip_with_l_eq; assumption).
  all: intros i ltle rtle Hi Hj; simpl;
    rewrite lookup_zip_with; setoid_rewrite Hi; simpl; setoid_rewrite Hj; simpl;
    rewrite setop_rescoltypmod_rule; reflexivity.
Qed.
End SetOperations.

(** SELECT 'x'::varchar(10) UNION SELECT 'y'::char(10): one column. *)
Lemma transformSetOperationTree_typmod_witness :
  result (transformSetOperationTree (collab := Demo.collaborators) Inputs.analyze
            Inputs.union_stmt true true Inputs.pstate0)
    = Done (Inputs.union_node, Inputs.union_targetlist)
  /\ exists (ltargetlist rtargetlist : list TleRef),
       length ltargetlist = length rtargetlist
       /\ length [-1] = length ltargetlist.
Proof.
  assert (Hrun : result (transformSetOperationTree (collab := Demo.collaborators)
                           Inputs.analyze Inputs.union_stmt true true Inputs.pstate0)
                 = Done (Inputs.union_node, Inputs.union_targetlist))
    by (vm_compute; reflexivity).
  split; [exact Hrun|].
  destruct (transformSetOperationTree_typmod (collab := Demo.collaborators)
              Inputs.analyze Inputs.union_stmt true true Inputs.pstate0
              SETOP_UNION false (SetOpRangeTblRef 1%nat) (SetOpRangeTblRef 2%nat)
              [1043] [-1] [100] [mkSortGroupClause 0%nat 410 412 false true]
              Inputs.union_targetlist Hrun)
    as (larg & rarg & ltl & rtl & pstate_r & _ & _ & _ & _ & Hlen & Hlen' & _).
  exists ltl, rtl. split; assumption.
Defined.

(** C6, as the claim has it, fails: in SELECT 'x'::varchar(10) UNION
    SELECT 'y'::char(10) the two columns have the typmod 14 both, and the
    typmod of the output column is -1, not 14: the types differ. *)
Lemma setop_typmod_counterexample :
  let run_tree stmt pstate :=
    transformSetOperationTree (collab := Demo.collaborators) Inputs.analyze stmt
      false true pstate in
  let left := run_tree (Inputs.select_from [Inputs.target "c" Inputs.varchar10] [] None)
                Inputs.pstate0 in
  let right := run_tree (Inputs.select_from [Inputs.target "c" Inputs.bpchar10] [] None)
                 (pstate_of left) in
  handed_up_typmods (collab := Demo.collaborators) left = Some [14]
  /\ handed_up_typmods (collab := Demo.collaborators) right = Some [14]
  /\ node_typmods (run_tree Inputs.union_stmt Inputs.pstate0) = Some [-1]
  /\ node_typmods (run_tree Inputs.union_stmt Inputs.pstate0) <> Some [14].
Proof. vm_compute. split_and!; [reflexivity..|discriminate]. Qed.
(** ** INSERT with several VALUES rows *)

Section InsertValues.
Context {collab : Collaborators}.
Variable transformStmt_ : RawStmt -> M Query.

Lemma is_values_list_false (sel : SelectStmt.t) :
  is_values_list sel ->
  bool_decide (SelectStmt.valuesLists sel = [])
  || bool_decide (SelectStmt.sortClause sel <> [])
  || bool_decide (SelectStmt.limitOffset sel <> None)
  || bool_decide (SelectStmt.limitCount sel <> None)
  || bool_decide (SelectStmt.lockingClause sel <> [])
  || bool_decide (SelectStmt.withClause sel <> None) = false.
Proof.
  intros (Hv & Hs & Ho & Hc & Hl & Hw).
  rewrite (bool_decide_eq_false_2 _ Hv), Hs, Ho, Hc, Hl, Hw. reflexivity.
Qed.

Let no_common_type (ev : Event) : Prop := ~ is_common_type_call ev.

Lemma insert_row_columns_calls (exprlist : list Node) :
  forall (icols : list ResTarget.t) (attnos : list Z) (pstate : ParseState),
    Forall no_common_type (trace (insert_row_columns exprlist icols attnos pstate)).
Proof.
  induction exprlist as [|e exprlist IH]; intros icols attnos pstate; simpl.
  - constructor.
  - destruct icols as [|col icols], attnos as [|attno attnos]; try constructor.
    no_such_call ltac:(intros []).
Qed.

Lemma transformInsertRow_calls (exprlist : list Node) (stmtcols icolumns : list ResTarget.t)
    (attrnos : list Z) (pstate : ParseState) :
  Forall no_common_type
    (trace (transformInsertRow exprlist stmtcols icolumns attrnos pstate)).
Proof.
  unfold transformInsertRow.
  pose proof insert_row_columns_calls.
  no_such_call ltac:(intros []).
Qed.

Lemma insert_values_lists_calls (stmtcols icolumns : list ResTarget.t)
    (attrnos : list Z) (valuesLists : list (list Node)) :
  forall (sublist_length : Z) (pstate : ParseState),
    Forall no_common_type
      (trace (insert_values_lists stmtcols icolumns attrnos valuesLists
                sublist_length pstate)).
Proof.
  induction valuesLists as [|sublist rest IH]; intros n pstate; simpl.
  - constructor.
  - pose proof transformInsertRow_calls. no_such_call ltac:(intros []).
Qed.

Lemma insert_target_list_calls (R : Event -> Prop) (rte : Index) (exprList : list Node) :
  forall (icols : list ResTarget.t) (attnos : list Z) (pstate : ParseState),
    Forall R (trace (insert_target_list rte exprList icols attnos pstate)).
Proof.
  induction exprList as [|e exprList IH]; intros icols attnos pstate; simpl.
  - constructor.
  - destruct icols as [|col icols], attnos as [|attno attnos]; try constructor.
    no_such_call idtac.
Qed.

(** What a successful run of the loop over the rows says of each row. *)
Lemma insert_values_lists_rows (stmtcols icolumns : list ResTarget.t)
    (attrnos : list Z) (valuesLists : list (list Node)) :
  forall (sublist_length n : Z) (exprsLists : list (list Node))
         (pstate pstate' : ParseState) (tr : list Event),
    insert_values_lists stmtcols icolumns attrnos valuesLists sublist_length pstate
      = mkRun (Done (exprsLists, n)) pstate' tr ->
    (0 <= sublist_length -> n = sublist_length)
    /\ (valuesLists <> [] -> 0 <= n)
    /\ Forall2
         (fun sublist row =>
            exists (p p' p2 : ParseState) (transformed : list Node),
              ext_transformExpressionList sublist EXPR_KIND_VALUES p
                = Done (transformed, p')
              /\ Z.of_nat (length transformed) = n
              /\ result (transformInsertRow transformed stmtcols icolumns attrnos p2)
                 = Done row)
         valuesLists exprsLists.
Proof.
  induction valuesLists as [|sublist rest IH];
    intros n0 n exprsLists pstate pstate' tr Hrun; simpl in Hrun.
  - run_inv Hrun. split_and!; [reflexivity|congruence|constructor].
  - run_inv Hrun;
      match goal with
      | Hrest : insert_values_lists _ _ _ rest _ _ = _ |- _ =>
          apply IH in Hrest as (Hkeep & _ & Hrows)
      end;
      match goal with
      | Hcall : transformExpressionList _ _ _ = _ |- _ =>
          apply call_Done_inv in Hcall as (Hcall & _)
      end.
    + apply Z.ltb_lt in Hcond. specialize (Hkeep ltac:(lia)). subst.
      split_and!; [lia|lia|].
      constructor; [|assumption].
      do 4 eexists. split_and!; [eassumption|reflexivity|].
      match goal with H : transformInsertRow _ _ _ _ _ = _ |- _ => rewrite H end.
      reflexivity.
    + apply Z.ltb_ge in Hcond. specialize (Hkeep Hcond). subst.
      apply negb_false_iff, Z.eqb_eq in Hcond0.
      split_and!; [reflexivity|lia|].
      constructor; [|assumption].
      do 4 eexists. split_and!; [eassumption|symmetry; exact Hcond0|].
      match goal with H : transformInsertRow _ _ _ _ _ = _ |- _ => rewrite H end.
      reflexivity.
Qed.

Lemma transformReturningList_calls (returningList_ : list ResTarget.t)
    (pstate : ParseState) :
  Forall no_common_type (trace (transformReturningList returningList_ pstate)).
Proof.
  unfold transformReturningList. destruct returningList_; [constructor|].
  no_such_call ltac:(intros []).
Qed.

(** C7 (transformInsertStmt, several VALUES rows), amended.  The source
    of the INSERT is a plain VALUES list of more than one row.  No run
    resolves a common type or a common collation for a column.  In a run
    that returns, each row was transformed by transformExpressionList on
    its own and came out with the same number n of items, then was
    prepared by transformInsertRow; the VALUES range-table entry is added
    with these rows, with n collations that are all InvalidOid, and it
    is LATERAL exactly when the range table has not exactly one entry
    and the rows hold variables of the current level. *)
Theorem transformInsertStmt_multi_values (stmt : InsertStmt.t) (sel : SelectStmt.t)
    (pstate : ParseState) :
  InsertStmt.selectStmt stmt = Some sel ->
  is_values_list sel ->
  (1 < length (SelectStmt.valuesLists sel))%nat ->
  let run := transformInsertStmt transformStmt_ stmt pstate in
  Forall (fun ev => ~ is_common_type_call ev) (trace run)
  /\ forall qry, result run = Done qry ->
     exists (n : nat) (exprsLists : list (list Node)) (lateral_ : bool)
            (pstate_v : ParseState) (icolumns : list ResTarget.t) (attrnos : list Z),
       In (Ev_addRangeTableEntryForValues exprsLists (replicate n InvalidOid) None
             lateral_ true) (trace run)
       /\ is_Done (ext_addRangeTableEntryForValues exprsLists
                     (replicate n InvalidOid) None lateral_ true pstate_v) = true
       /\ lateral_ = bool_decide (length (p_rtable pstate_v) <> 1%nat)
                     && contain_vars_of_level_lists exprsLists 0
       /\ Forall2
            (fun sublist row =>
               exists (p p' p2 : ParseState) (transformed : list Node),
                 ext_transformExpressionList sublist EXPR_KIND_VALUES p
                   = Done (transformed, p')
                 /\ length transformed = n
                 /\ result (transformInsertRow transformed (InsertStmt.cols stmt)
                              icolumns attrnos p2) = Done row)
            (SelectStmt.valuesLists sel) exprsLists.
Proof.
  intros Hsel Hvalues Hrows run. subst run.
  pose proof (bool_decide_eq_true_2 _ Hrows) as Hmany.
  split.
  - unfold transformInsertStmt.
    rewrite Hsel, (is_values_list_false _ Hvalues), Hmany.
    pose proof insert_values_lists_calls.
    pose proof transformReturningList_calls.
    pose proof (insert_target_list_calls no_common_type).
    apply none_bind; [constructor|intros ? ?].
    apply none_bind;
      [apply process_with_clause_calls; intros w []|intros ? ?].
    no_such_call ltac:(intros []).
    all: exact I.
  - intros qry Hrun. apply result_Done_run in Hrun as (pstate' & tr & Hrun).
    rewrite Hrun. simpl.
    unfold transformInsertStmt in Hrun.
    rewrite Hsel, (is_values_list_false _ Hvalues), Hmany in Hrun.
    run_inv Hrun.
    all: match goal with
         | Hloop : insert_values_lists _ ?icolumns ?attrnos _ _ _
                   = mkRun (Done (?exprsLists, ?z)) ?pstate_v _,
           Hcall : addRangeTableEntryForValues _ _ _ ?lateral_ _ _ = _ |- _ =>
             apply insert_values_lists_rows in Hloop as (_ & _ & Hloop);
             apply call_Done_inv in Hcall as (Hcall & ->);
             exists (Z.to_nat z), exprsLists, lateral_, pstate_v, icolumns, attrnos;
             split_and!;
             [ rewrite ?in_app_iff; simpl; tauto
             | rewrite Hcall; reflexivity
             | reflexivity
             | eapply Forall2_impl; [exact Hloop|];
               intros sublist row (p & p' & p2 & transformed & Hlist & Hlen & Hrow);
               exists p, p', p2, transformed; split_and!; [assumption|lia|assumption] ]
         end.
Qed.
End InsertValues.

(** INSERT INTO t VALUES ('x'::varchar(10), t.a), ('y'::char(10), 1) *)
Lemma transformInsertStmt_multi_values_witness :
  let run := transformInsertStmt (collab := Demo.collaborators) Inputs.analyze
               Inputs.insert_values Inputs.pstate0 in
  InsertStmt.selectStmt Inputs.insert_values = Some (Inputs.values_stmt Inputs.values_rows)
  /\ is_values_list (Inputs.values_stmt Inputs.values_rows)
  /\ (1 < length (SelectStmt.valuesLists (Inputs.values_stmt Inputs.values_rows)))%nat
  /\ Forall (fun ev => ~ is_common_type_call ev) (trace run).
Proof.
  intros run.
  assert (Hvalues : is_values_list (Inputs.values_stmt Inputs.values_rows))
    by (split_and!; [discriminate|reflexivity..]).
  assert (Hrows : (1 < length (SelectStmt.valuesLists
                                 (Inputs.values_stmt Inputs.values_rows)))%nat)
    by (simpl; lia).
  split_and!; [reflexivity|exact Hvalues|exact Hrows|].
  exact (proj1 (transformInsertStmt_multi_values (collab := Demo.collaborators)
                  Inputs.analyze Inputs.insert_values
                  (Inputs.values_stmt Inputs.values_rows) Inputs.pstate0
                  eq_refl Hvalues Hrows)).
Defined.

(** C7, as the claim has it, fails.  In INSERT INTO t VALUES
    ('x'::varchar(10), t.a), ('y'::char(10), 1) the first column has the
    types 1043 and 1042 and the collation 100 in both rows, and the first
    row holds a variable of the current level.  The run returns; the VALUES
    entry is added with the rows as they are, with the collations
    InvalidOid, InvalidOid, and not LATERAL (the range table has one
    entry); no common type or collation is resolved. *)
Lemma transformInsertStmt_multi_values_counterexample :
  let run := transformInsertStmt (collab := Demo.collaborators) Inputs.analyze
               Inputs.insert_values Inputs.pstate0 in
  is_Done (result run) = true
  /\ In (Ev_addRangeTableEntryForValues Inputs.values_rows [InvalidOid; InvalidOid]
           None false true) (trace run)
  /\ map (exprCollation (Collaborators := Demo.collaborators))
         [Inputs.varchar10; Inputs.bpchar10] = [100; 100]
  /\ map (exprType (Collaborators := Demo.collaborators))
         [Inputs.varchar10; Inputs.bpchar10] = [1043; 1042]
  /\ contain_vars_of_level_lists (Collaborators := Demo.collaborators)
       Inputs.values_rows 0 = true
  /\ ~ Exists is_common_type_call (trace run).
Proof.
  intros run. split_and!.
  - vm_compute. reflexivity.
  - assert (Hnth : nth_error (trace run) 10
                   = Some (Ev_addRangeTableEntryForValues Inputs.values_rows
                             [InvalidOid; InvalidOid] None false true))
      by (vm_compute; reflexivity).
    exact (nth_error_In _ _ Hnth).
  - reflexivity.
  - reflexivity.
  - reflexivity.
  - assert (Hkinds : forallb (fun ev => match ev with
                                        | Ev_select_common_type _ _
                                        | Ev_coerce_to_common_type _ _ _
                                        | Ev_select_common_collation _ _ => false
                                        | _ => true
                                        end) (trace run) = true)
      by (vm_compute; reflexivity).
    rewrite forallb_forall in Hkinds. intros Hex.
    apply Exists_exists in Hex as (ev & Hin & Hev).
    apply list_elem_of_In in Hin.
    specialize (Hkinds ev Hin). destruct ev; simpl in Hev; try contradiction;
      discriminate Hkinds.
Qed.
(** ** The ORDER BY of a set operation *)

Section SetOperationSort.
Context {collab : Collaborators}.

(** C8 (transformSetOperationStmt, ORDER BY).  The collaborators that
    run while the join entry is in the range table never shorten the
    range table.  Then a run of the ORDER BY step that returns leaves the
    range table as long as it was before the join entry was pushed, and
    leaves the namespace that was saved right after the entry was pushed. *)
Theorem setop_sort_clause_restores (sortClause_ : list Node)
    (targetList_ : list TargetEntry) (targetnames : list string)
    (targetvars : list Node) (pstate : ParseState)
    (sorted : list SortGroupClause * list TargetEntry) :
  (forall colnames jointype aliasvars alias inFromCl_ p rte p',
     ext_addRangeTableEntryForJoin colnames jointype aliasvars alias inFromCl_ p
       = Done (rte, p') ->
     (length (p_rtable p) <= length (p_rtable p'))%nat) ->
  (forall rte addToJoinList addToRelNameSpace addToVarNameSpace p u p',
     ext_addRTEtoQuery rte addToJoinList addToRelNameSpace addToVarNameSpace p
       = Done (u, p') ->
     (length (p_rtable p) <= length (p_rtable p'))%nat) ->
  (forall orderlist targetlist exprKind resolveUnknown useSQL99 p v p',
     ext_transformSortClause orderlist targetlist exprKind resolveUnknown useSQL99 p
       = Done (v, p') ->
     (length (p_rtable p) <= length (p_rtable p'))%nat) ->
  let run := setop_sort_clause sortClause_ targetList_ targetnames targetvars pstate in
  result run = Done sorted ->
  length (p_rtable (pstate_of run)) = length (p_rtable pstate)
  /\ exists jrte pstate_j,
       ext_addRangeTableEntryForJoin targetnames JOIN_INNER targetvars None false pstate
         = Done (jrte, pstate_j)
       /\ p_namespace (pstate_of run) = p_namespace pstate_j.
Proof.
  intros Hjoin Hadd Hsort run Hrun. subst run.
  apply result_Done_run in Hrun as (pstate' & tr & Hrun). rewrite Hrun. simpl.
  unfold setop_sort_clause in Hrun. run_inv Hrun.
  repeat match goal with
         | Hcall : addRangeTableEntryForJoin _ _ _ _ _ _ = _ |- _ =>
             apply call_Done_inv in Hcall as (Hcall & _);
             pose proof (Hjoin _ _ _ _ _ _ _ _ Hcall)
         | Hcall : addRTEtoQuery _ _ _ _ _ = _ |- _ =>
             apply call_Done_inv in Hcall as (Hcall & _);
             pose proof (Hadd _ _ _ _ _ _ _ Hcall)
         | Hcall : transformSortClause _ _ _ _ _ _ = _ |- _ =>
             apply call_Done_inv in Hcall as (Hcall & _);
             pose proof (Hsort _ _ _ _ _ _ _ _ Hcall)
         end.
  simpl in *. split.
  - unfold list_truncate. rewrite length_take. lia.
  - eauto.
Qed.
End SetOperationSort.

(** ORDER BY on a set operation with the one output column c. *)
Lemma setop_sort_clause_restores_witness :
  let run := setop_sort_clause (collab := Demo.collaborators) [Inputs.table 1]
               [makeTargetEntry Inputs.var_1_1 1 (Some "c") false] ["c"]
               [Inputs.var_1_1] Inputs.pstate0 in
  result run = Done ([], [makeTargetEntry Inputs.var_1_1 1 (Some "c") false])
  /\ length (p_rtable (pstate_of run)) = length (p_rtable Inputs.pstate0)
  /\ p_namespace (pstate_of run) = [].
Proof.
  intros run.
  assert (Hrun : result run
                 = Done ([], [makeTargetEntry Inputs.var_1_1 1 (Some "c") false]))
    by (vm_compute; reflexivity).
  assert (Hjoin_grows : forall colnames jointype aliasvars alias inFromCl_ p rte p',
            ext_addRangeTableEntryForJoin (Collaborators := Demo.collaborators)
              colnames jointype aliasvars alias inFromCl_ p = Done (rte, p') ->
            (length (p_rtable p) <= length (p_rtable p'))%nat).
  { intros colnames jointype aliasvars alias inFromCl_ p rte p' Hcall.
    simpl in Hcall. unfold Demo.Impl.append_rte in Hcall.
    injection Hcall as _ <-. simpl. rewrite length_app. lia. }
  assert (Hadd_keeps : forall rte addToJoinList addToRelNameSpace addToVarNameSpace
                              p u p',
            ext_addRTEtoQuery (Collaborators := Demo.collaborators)
              rte addToJoinList addToRelNameSpace addToVarNameSpace p = Done (u, p') ->
            (length (p_rtable p) <= length (p_rtable p'))%nat).
  { intros rte addToJoinList addToRelNameSpace addToVarNameSpace p u p' Hcall.
    simpl in Hcall. injection Hcall as _ <-.
    unfold Demo.Impl.add_to_query.
    destruct addToJoinList, (addToRelNameSpace || addToVarNameSpace); simpl; lia. }
  assert (Hsort_keeps : forall orderlist targetlist exprKind resolveUnknown useSQL99
                               p v p',
            ext_transformSortClause (Collaborators := Demo.collaborators)
              orderlist targetlist exprKind resolveUnknown useSQL99 p = Done (v, p') ->
            (length (p_rtable p) <= length (p_rtable p'))%nat).
  { intros orderlist targetlist exprKind resolveUnknown useSQL99 p v p' Hcall.
    simpl in Hcall. unfold Demo.Impl.ok in Hcall. injection Hcall as _ <-. lia. }
  destruct (setop_sort_clause_restores (collab := Demo.collaborators)
              [Inputs.table 1] [makeTargetEntry Inputs.var_1_1 1 (Some "c") false]
              ["c"] [Inputs.var_1_1] Inputs.pstate0 _
              Hjoin_grows Hadd_keeps Hsort_keeps Hrun)
    as (Hlen & jrte & pstate_j & Hjoin & Hns).
  split_and!; [exact Hrun|exact Hlen|].
  subst run. rewrite Hns. simpl in Hjoin. unfold Demo.Impl.append_rte in Hjoin.
  injection Hjoin as _ <-. reflexivity.
Defined.
(** ** INSERT *)

Section Insert.
Context {collab : Collaborators}.

(** An analysis that returns has recorded its statement first. *)
Lemma transformStmt_trace_head (depth : nat) (parseTree : RawStmt)
    (pstate pstate' : ParseState) (qry : Query) (tr : list Event) :
  transformStmt depth parseTree pstate = mkRun (Done qry) pstate' tr ->
  exists tr', tr = Ev_transformStmt parseTree :: tr'.
Proof.
  destruct depth as [|depth]; simpl; [discriminate|].
  unfold transformStmt_dispatch. intros Hrun.
  apply bind_Done_inv in Hrun as (? & ? & ? & tr2 & Hlog & _ & ->).
  apply log_inv in Hlog as (_ & ->). by exists tr2.
Qed.

Lemma is_general_select_true (sel : SelectStmt.t) :
  is_general_select sel ->
  bool_decide (SelectStmt.valuesLists sel = [])
  || bool_decide (SelectStmt.sortClause sel <> [])
  || bool_decide (SelectStmt.limitOffset sel <> None)
  || bool_decide (SelectStmt.limitCount sel <> None)
  || bool_decide (SelectStmt.lockingClause sel <> [])
  || bool_decide (SelectStmt.withClause sel <> None) = true.
Proof.
  intros [H|[H|[H|[H|[H|H]]]]]; rewrite (bool_decide_eq_true_2 _ H);
    rewrite ?orb_true_r; reflexivity.
Qed.

(** C9 (transformInsertStmt).  The source of the INSERT is a general
    SELECT.  In every run, one that ends in an error too, each analysis of
    the source SELECT comes after the call setTargetTable(relation, false,
    false, ACL_INSERT) that locks the target table; and a run that returns
    has analyzed the source SELECT. *)
Theorem transformInsertStmt_locks_target_first (depth : nat) (stmt : InsertStmt.t)
    (sel : SelectStmt.t) (pstate : ParseState) :
  InsertStmt.selectStmt stmt = Some sel ->
  is_general_select sel ->
  let run := transformInsertStmt (transformStmt depth) stmt pstate in
  precedes
    (eq (Ev_setTargetTable (InsertStmt.relation stmt) false false ACL_INSERT))
    (eq (Ev_transformStmt (SelectStmtNode sel)))
    (trace run)
  /\ (forall qry, result run = Done qry ->
      In (Ev_transformStmt (SelectStmtNode sel)) (trace run)).
Proof.
  intros Hsel Hgeneral run. subst run. split.
  - unfold transformInsertStmt. rewrite Hsel, (is_general_select_true _ Hgeneral).
    apply precedes_bind_skip; [constructor|intros _ _].
    apply precedes_bind_skip;
      [apply process_with_clause_calls; discriminate|intros qry _].
    apply precedes_bind_skip; [constructor|intros pstate1 _].
    apply precedes_bind_skip; [constructor|intros _ _].
    apply precedes_bind_call; [reflexivity|intros Heq; discriminate Heq].
  - intros qry Hrun.
    apply result_Done_run in Hrun as (pstate' & tr & Hrun). rewrite Hrun. simpl.
    unfold transformInsertStmt in Hrun.
    rewrite Hsel, (is_general_select_true _ Hgeneral) in Hrun.
    run_inv Hrun.
    all: match goal with
         | Hsub : transformStmt _ (SelectStmtNode _) _ = _ |- _ =>
             apply transformStmt_trace_head in Hsub as (tr' & ->)
         end.
    all: rewrite ?in_app_iff; simpl; tauto.
Qed.
End Insert.

(** INSERT INTO t SELECT a FROM t *)
Lemma transformInsertStmt_locks_target_first_witness :
  let run := transformInsertStmt (collab := Demo.collaborators)
               (transformStmt (collab := Demo.collaborators) 8)
               Inputs.insert_select Inputs.pstate0 in
  InsertStmt.selectStmt Inputs.insert_select = Some Inputs.source_select
  /\ is_general_select Inputs.source_select
  /\ precedes
       (eq (Ev_setTargetTable (InsertStmt.relation Inputs.insert_select) false false
              ACL_INSERT))
       (eq (Ev_transformStmt (SelectStmtNode Inputs.source_select)))
       (trace run)
  /\ In (Ev_transformStmt (SelectStmtNode Inputs.source_select)) (trace run).
Proof.
  intros run.
  assert (Hgeneral : is_general_select Inputs.source_select) by (left; reflexivity).
  destruct (transformInsertStmt_locks_target_first (collab := Demo.collaborators) 8
              Inputs.insert_select Inputs.source_select Inputs.pstate0 eq_refl
              Hgeneral) as [Horder Hcalled].
  split_and!; [reflexivity | exact Hgeneral | exact Horder |].
  destruct (result run) as [qry|e] eqn:Hrun; [|vm_compute in Hrun; discriminate Hrun].
  exact (Hcalled qry Hrun).
Defined.
(** ** VALUES as a SELECT *)

Section Values.
Context {collab : Collaborators}.

Lemma values_check_default_raises (sublist : list Node) :
  forall (colexprs : list (list Node)) (i : nat) (pstate : ParseState),
    existsb is_SetToDefault sublist = true ->
    result (values_check_default sublist colexprs i pstate)
      = Raised DEFAULT_outside_INSERT.
Proof.
  induction sublist as [|col sublist IH]; intros colexprs i pstate Hdef;
    simpl in *; [discriminate|].
  destruct (is_SetToDefault col); [reflexivity|]. apply IH. exact Hdef.
Qed.

Lemma values_rows_refuses_DEFAULT (valuesLists : list (list Node)) :
  (forall sublist p transformed p',
     ext_transformExpressionList sublist EXPR_KIND_VALUES p = Done (transformed, p') ->
     existsb is_SetToDefault sublist = true ->
     existsb is_SetToDefault transformed = true) ->
  forall (sublist_length : Z) (colexprs : list (list Node)) (pstate : ParseState)
         (v : Z * list (list Node)),
    existsb (existsb is_SetToDefault) valuesLists = true ->
    result (values_rows valuesLists sublist_length colexprs pstate) <> Done v.
Proof.
  intros Hthrough.
  induction valuesLists as [|sublist rest IH]; intros n colexprs pstate v Hdef Hrun;
    simpl in Hdef; [discriminate|].
  apply result_Done_run in Hrun as (pstate' & tr & Hrun). simpl in Hrun.
  apply bind_Done_inv in Hrun as (t & p1 & tr1 & tr2 & Hlist & Hrun & ->).
  apply call_Done_inv in Hlist as (Hlist & _).
  apply bind_Done_inv in Hrun as ([n1 ce1] & p2 & tr3 & tr4 & _ & Hrun & ->).
  apply bind_Done_inv in Hrun as (ce2 & p3 & tr5 & tr6 & Hcheck & Hrun & ->).
  destruct (existsb is_SetToDefault sublist) eqn:Hrow; simpl in Hdef.
  - pose proof (values_check_default_raises t ce1 0%nat p2
                  (Hthrough _ _ _ _ Hlist Hrow)) as Hraise.
    rewrite Hcheck in Hraise. discriminate Hraise.
  - eapply IH; [exact Hdef|]. rewrite Hrun. reflexivity.
Qed.

Lemma values_rows_app (pre rest : list (list Node)) :
  forall (sublist_length n1 : Z) (colexprs colexprs1 : list (list Node))
         (pstate pstate1 : ParseState) (tr1 : list Event),
    values_rows pre sublist_length colexprs pstate
      = mkRun (Done (n1, colexprs1)) pstate1 tr1 ->
    result (values_rows (pre ++ rest) sublist_length colexprs pstate)
      = result (values_rows rest n1 colexprs1 pstate1).
Proof.
  induction pre as [|sublist pre IH]; intros n n1 ce ce1 pstate pstate1 tr1 Hrun;
    simpl in *.
  - injection Hrun as -> -> -> _. reflexivity.
  - apply bind_Done_inv in Hrun as (t & p1 & tr2 & tr3 & Hlist & Hrun & ->).
    rewrite (bind_result_step _ _ _ _ _ _ Hlist).
    apply bind_Done_inv in Hrun as ([n2 ce2] & p2 & tr4 & tr5 & Hlen & Hrun & ->).
    rewrite (bind_result_step _ _ _ _ _ _ Hlen).
    apply bind_Done_inv in Hrun as (ce3 & p3 & tr6 & tr7 & Hcheck & Hrun & ->).
    rewrite (bind_result_step _ _ _ _ _ _ Hcheck).
    eapply IH. exact Hrun.
Qed.

(** C10 (transformValuesClause), amended.  A row of a standalone VALUES
    holds a DEFAULT item, and transformExpressionList hands DEFAULT items
    through.  Then the analysis never returns a query.  It ends with the
    syntax error DEFAULT can only appear in a VALUES list within INSERT
    when nothing fails earlier: the WITH clause is processed, the rows
    before the row are transformed and taken, and the row is transformed
    to the common length. *)
Theorem transformValuesClause_refuses_DEFAULT (stmt : SelectStmt.t)
    (pre : list (list Node)) (row : list Node) (post : list (list Node))
    (pstate : ParseState) :
  SelectStmt.valuesLists stmt = pre ++ row :: post ->
  existsb is_SetToDefault row = true ->
  (forall sublist p transformed p',
     ext_transformExpressionList sublist EXPR_KIND_VALUES p = Done (transformed, p') ->
     existsb is_SetToDefault sublist = true ->
     existsb is_SetToDefault transformed = true) ->
  let run := transformValuesClause stmt pstate in
  (forall qry, result run <> Done qry)
  /\ (forall qry0 pstate0 tr0 n1 colexprs1 pstate1 tr1 transformed pstate2,
        process_with_clause (SelectStmt.withClause stmt)
          (makeNode_Query <| commandType := CMD_SELECT |>) pstate
          = mkRun (Done qry0) pstate0 tr0 ->
        values_rows pre (-1) [] pstate0 = mkRun (Done (n1, colexprs1)) pstate1 tr1 ->
        ext_transformExpressionList row EXPR_KIND_VALUES pstate1
          = Done (transformed, pstate2) ->
        n1 < 0 \/ n1 = Z.of_nat (length transformed) ->
        result run = Raised DEFAULT_outside_INSERT).
Proof.
  intros Hrows Hdef Hthrough run. subst run. split.
  - intros qry Hrun. apply result_Done_run in Hrun as (pstate' & tr & Hrun).
    unfold transformValuesClause in Hrun.
    apply bind_Done_inv in Hrun as (qry0 & p0 & tr0 & tr1 & _ & Hrun & ->).
    apply bind_Done_inv in Hrun as (v & p1 & tr2 & tr3 & Hloop & _ & ->).
    eapply (values_rows_refuses_DEFAULT _ Hthrough);
      [|rewrite Hloop; reflexivity].
    rewrite Hrows, existsb_app. simpl. rewrite Hdef. apply orb_true_r.
  - intros qry0 pstate0 tr0 n1 colexprs1 pstate1 tr1 transformed pstate2
           Hwith Hpre Hlist Hlen.
    unfold transformValuesClause.
    rewrite (bind_result_step _ _ _ _ _ _ Hwith), Hrows.
    apply bind_result_Raised.
    rewrite (values_rows_app _ _ _ _ _ _ _ _ _ Hpre). simpl.
    rewrite (bind_result_step _ _ _ _ _ _
               (call_Done_run (Ev_transformExpressionList row EXPR_KIND_VALUES)
                  _ _ _ _ Hlist)).
    assert (Hlength :
      exists v, (if n1 <? 0
                 then mret (Z.of_nat (length transformed),
                            replicate (length transformed) [])
                 else if negb (n1 =? Z.of_nat (length transformed))
                      then mthrow (ereport ERRCODE_SYNTAX_ERROR
                                     "VALUES lists must all be the same length")
                      else mret (n1, colexprs1) : M (Z * list (list Node))) pstate2
                = mkRun (Done v) pstate2 []).
    { destruct Hlen as [Hneg | ->].
      - apply Z.ltb_lt in Hneg. rewrite Hneg. eauto.
      - destruct (_ <? 0); [eauto|]. rewrite Z.eqb_refl. simpl. eauto. }
    destruct Hlength as [[n2 ce2] Hlength].
    rewrite (bind_result_step _ _ _ _ _ _ Hlength).
    apply bind_result_Raised. apply values_check_default_raises.
    exact (Hthrough _ _ _ _ Hlist Hdef).
Qed.
End Values.

(** VALUES (1, 2), (1, DEFAULT) *)
Lemma transformValuesClause_refuses_DEFAULT_witness :
  SelectStmt.valuesLists Inputs.values_default
    = [[Inputs.int8 1; Inputs.int8 2]] ++ [Inputs.int8 1; Inputs.default_item] :: []
  /\ existsb is_SetToDefault [Inputs.int8 1; Inputs.default_item] = true
  /\ result (transformValuesClause (collab := Demo.collaborators)
               Inputs.values_default Inputs.pstate0)
     = Raised DEFAULT_outside_INSERT.
Proof.
  split_and!; [reflexivity..|].
  assert (Hthrough : forall sublist p transformed p',
            ext_transformExpressionList (Collaborators := Demo.collaborators)
              sublist EXPR_KIND_VALUES p = Done (transformed, p') ->
            existsb is_SetToDefault sublist = true ->
            existsb is_SetToDefault transformed = true).
  { intros sublist p transformed p' Hcall Hdef. simpl in Hcall.
    unfold Demo.Impl.ok in Hcall. injection Hcall as <- _. exact Hdef. }
  pose (rows := values_rows (collab := Demo.collaborators)
                  [[Inputs.int8 1; Inputs.int8 2]] (-1) [] Inputs.pstate0).
  assert (Hpre : rows = mkRun (Done (2, [[Inputs.int8 1]; [Inputs.int8 2]]))
                          (pstate_of rows) (trace rows))
    by (vm_compute; reflexivity).
  refine (proj2 (transformValuesClause_refuses_DEFAULT (collab := Demo.collaborators)
                   Inputs.values_default [[Inputs.int8 1; Inputs.int8 2]]
                   [Inputs.int8 1; Inputs.default_item] [] Inputs.pstate0
                   eq_refl eq_refl Hthrough)
                _ Inputs.pstate0 [] 2 _ (pstate_of rows) (trace rows)
                [Inputs.int8 1; Inputs.default_item] (pstate_of rows)
                eq_refl Hpre _ _).
  - vm_compute. reflexivity.
  - right. reflexivity.
Defined.

(** C10, as the claim has it, fails: in VALUES (1, 2), (DEFAULT) the row
    that holds DEFAULT is refused for its length, before its items are
    looked at; the error is not the one for DEFAULT. *)
Lemma transformValuesClause_DEFAULT_counterexample :
  existsb (existsb is_SetToDefault) (SelectStmt.valuesLists Inputs.values_short_default)
    = true
  /\ result (transformValuesClause (collab := Demo.collaborators)
               Inputs.values_short_default Inputs.pstate0)
     = Raised (ereport ERRCODE_SYNTAX_ERROR "VALUES lists must all be the same length")
  /\ result (transformValuesClause (collab := Demo.collaborators)
               Inputs.values_short_default Inputs.pstate0)
     <> Raised DEFAULT_outside_INSERT.
Proof.
  split_and!.
  - reflexivity.
  - vm_compute. reflexivity.
  - vm_compute. discriminate.
Qed.
(** * Further properties *)

(** ** Outer-join markers *)

(** Induction on expressions, through the lists of sub-expressions. *)
Lemma Node_list_ind (P : Node -> Prop) :
  (forall v, P (NVar v)) ->
  (forall c, P (NConst c)) ->
  (forall p, P (NParam p)) ->
  P NRownumExpr ->
  (forall var, P (NColumnRefJoin var)) ->
  (forall opno opfuncid args, Forall P args -> P (NOpExpr opno opfuncid args)) ->
  (forall funcid args, Forall P args -> P (NFuncExpr funcid args)) ->
  (forall boolop args, Forall P args -> P (NBoolExpr boolop args)) ->
  (forall d, P (NSetToDefault d)) ->
  (forall args, Forall P args -> P (NRowExpr args)) ->
  (forall tag args, Forall P args -> P (NOpaque tag args)) ->
  forall n, P n.
Proof.
  intros HVar HConst HParam HRownum HMarker HOp HFunc HBool HDefault HRow HOpaque.
  fix IH 1. intros [v|c|p| |var|opno opfuncid args|funcid args|boolop args|d|args|tag args].
  - apply HVar.
  - apply HConst.
  - apply HParam.
  - apply HRownum.
  - apply HMarker.
  - apply HOp. induction args; constructor; [apply IH|assumption].
  - apply HFunc. induction args; constructor; [apply IH|assumption].
  - apply HBool. induction args; constructor; [apply IH|assumption].
  - apply HDefault.
  - apply HRow. induction args; constructor; [apply IH|assumption].
  - apply HOpaque. induction args; constructor; [apply IH|assumption].
Qed.

Lemma existsb_map_false {A : Type} (f : A -> bool) (g : A -> A) (l : list A) :
  Forall (fun x => f (g x) = false) l -> existsb f (map g l) = false.
Proof.
  induction 1 as [|x l Hx _ IH]; simpl; [reflexivity|]. rewrite Hx, IH. reflexivity.
Qed.

Lemma map_id_on {A : Type} (P : A -> Prop) (g : A -> A) (l : list A) :
  Forall (fun x => P x -> g x = x) l -> Forall P l -> map g l = l.
Proof.
  induction 1 as [|x l Hx _ IH]; intros Hall; simpl; [reflexivity|].
  inversion Hall; subst. rewrite Hx, IH by assumption. reflexivity.
Qed.

Lemma existsb_false_Forall {A : Type} (f : A -> bool) (l : list A) :
  existsb f l = false -> Forall (fun x => f x = false) l.
Proof.
  induction l as [|x l IH]; simpl; intros Hnone; constructor.
  - apply orb_false_iff in Hnone. tauto.
  - apply IH. apply orb_false_iff in Hnone. tauto.
Qed.

(** No marker is left in the expression that comes back. *)
Lemma remove_column_join_expr_no_marker (node : Node) :
  have_ora_column_join (remove_column_join_expr node) = false.
Proof.
  induction node as [| | | | |? ? args IH|? args IH|? args IH| |args IH|? args IH]
    using Node_list_ind; simpl; try reflexivity.
  all: apply existsb_map_false; exact IH.
Qed.

(** X1 (remove_column_join_expr).  The expression that comes back holds
    no outer-join marker, and an expression without markers comes back as
    it is. *)
Theorem remove_column_join_expr_removes (node : Node) :
  have_ora_column_join (remove_column_join_expr node) = false
  /\ (have_ora_column_join node = false -> remove_column_join_expr node = node).
Proof.
  split; [apply remove_column_join_expr_no_marker|].
  induction node as [| | | | |? ? args IH|? args IH|? args IH| |args IH|? args IH]
    using Node_list_ind; simpl; try reflexivity.
  1: discriminate.
  all: intros Hnone; f_equal; apply existsb_false_Forall in Hnone;
    eapply (map_id_on (fun x => have_ora_column_join x = false)); [|exact Hnone];
    exact IH.
Qed.

(** a(+) = 1 loses its marker; 1 stays as it is. *)
Lemma remove_column_join_expr_removes_witness :
  have_ora_column_join (remove_column_join_expr Inputs.marked_equals_1) = false
  /\ remove_column_join_expr (Inputs.int8 1) = Inputs.int8 1.
Proof.
  split.
  - exact (proj1 (remove_column_join_expr_removes Inputs.marked_equals_1)).
  - exact (proj2 (remove_column_join_expr_removes (Inputs.int8 1)) eq_refl).
Defined.

(** Induction on join trees, through the lists of FROM items. *)
Lemma JoinTree_list_ind (P : JoinTree -> Prop) :
  (forall rtindex, P (RangeTblRef rtindex)) ->
  (forall jointype larg rarg quals alias rtindex,
     P larg -> P rarg -> P (JoinExpr jointype larg rarg quals alias rtindex)) ->
  (forall fromlist quals, Forall P fromlist -> P (FromExpr fromlist quals)) ->
  (forall tag, P (OtherJoinNode tag)) ->
  forall node, P node.
Proof.
  intros HRef HJoin HFrom HOther. fix IH 1.
  intros [rtindex|jointype larg rarg quals alias rtindex|fromlist quals|tag].
  - apply HRef.
  - apply HJoin; apply IH.
  - apply HFrom. induction fromlist; constructor; [apply IH|assumption].
  - apply HOther.
Qed.

Lemma mapO_Done_inv {A B : Type} (f : A -> Outcome B) (l : list A) :
  forall l', mapO f l = Done l' -> Forall2 (fun x y => f x = Done y) l l'.
Proof.
  induction l as [|x l IH]; simpl; intros l' Hmap.
  - injection Hmap as <-. constructor.
  - destruct (f x) as [y|e] eqn:Hx; [|discriminate].
    destruct (mapO f l) as [ys|e]; [|discriminate].
    injection Hmap as <-. constructor; [assumption|]. apply IH. reflexivity.
Qed.

Lemma mapO_fixed {A : Type} (f : A -> Outcome A) (l : list A) :
  Forall (fun x => f x = Done x) l -> mapO f l = Done l.
Proof.
  induction 1 as [|x l Hx _ IH]; simpl; [reflexivity|]. rewrite Hx, IH. reflexivity.
Qed.

(** X2 (check_joinon_column_join).  When the check of a join tree returns,
    no qualifier of the tree it returns holds an outer-join marker, and
    the check of that tree returns it as it is. *)
Theorem check_joinon_column_join_clears (node node' : JoinTree) :
  check_joinon_column_join node = Done node' ->
  join_tree_has_marker node' = false
  /\ check_joinon_column_join node' = Done node'.
Proof.
  revert node'.
  induction node as [rtindex|jointype larg rarg quals alias rtindex IHl IHr
                    |fromlist quals IH|tag] using JoinTree_list_ind;
    intros node' Hcheck; simpl in Hcheck.
  - injection Hcheck as <-. split; reflexivity.
  - destruct (check_joinon_column_join larg) as [larg'|] eqn:Hl; [|discriminate].
    destruct (check_joinon_column_join rarg) as [rarg'|] eqn:Hr; [|discriminate].
    destruct (IHl _ eq_refl) as [Hml Hfl]. destruct (IHr _ eq_refl) as [Hmr Hfr].
    destruct quals as [q|].
    + destruct (have_ora_column_join q) eqn:Hq; simpl in Hcheck.
      * destruct (get_ora_column_join q) as [jinfo|]; [|discriminate].
        match type of Hcheck with
        | (if ?c then _ else _) = _ => destruct c; [discriminate|]
        end.
        injection Hcheck as <-. simpl.
        rewrite ?(remove_column_join_expr_no_marker q), ?Hml, ?Hmr, ?Hfl, ?Hfr.
        split; reflexivity.
      * injection Hcheck as <-. simpl. rewrite ?Hq, ?Hml, ?Hmr, ?Hfl, ?Hfr.
        split; reflexivity.
    + injection Hcheck as <-. simpl. rewrite ?Hml, ?Hmr, ?Hfl, ?Hfr.
      split; reflexivity.
  - destruct (mapO check_joinon_column_join fromlist) as [fromlist'|] eqn:Hmap;
      [|discriminate].
    apply mapO_Done_inv in Hmap.
    assert (Hitems : Forall (fun item => join_tree_has_marker item = false
                                         /\ check_joinon_column_join item = Done item)
                       fromlist').
    { clear Hcheck. induction Hmap as [|x y l l' Hxy _ IHmap]; [constructor|].
      inversion IH; subst. constructor; [eauto|]. apply IHmap. assumption. }
    assert (Hnone : existsb join_tree_has_marker fromlist' = false).
    { clear -Hitems. induction Hitems as [|x l [Hx _] _ IHl]; simpl;
        [reflexivity|]. rewrite Hx, IHl. reflexivity. }
    assert (Hfixed : mapO check_joinon_column_join fromlist' = Done fromlist').
    { apply mapO_fixed. eapply Forall_impl; [exact Hitems|]. simpl. tauto. }
    destruct quals as [q|]; simpl in Hcheck.
    + destruct (have_ora_column_join q) eqn:Hq; injection Hcheck as <-; simpl.
      * rewrite ?(remove_column_join_expr_no_marker q), ?Hnone, ?Hfixed. simpl.
        rewrite ?(remove_column_join_expr_no_marker q). split; reflexivity.
      * rewrite ?Hq, ?Hnone, ?Hfixed. simpl. rewrite ?Hq. split; reflexivity.
    + injection Hcheck as <-. simpl. rewrite ?Hnone, ?Hfixed. split; reflexivity.
  - discriminate.
Qed.

(** FROM t WHERE a(+) = 1 *)
Lemma check_joinon_column_join_clears_witness :
  check_joinon_column_join
    (FromExpr [RangeTblRef 1%nat] (Some Inputs.marked_equals_1))
    = Done (FromExpr [RangeTblRef 1%nat]
              (Some (remove_column_join_expr Inputs.marked_equals_1)))
  /\ join_tree_has_marker
       (FromExpr [RangeTblRef 1%nat]
          (Some (remove_column_join_expr Inputs.marked_equals_1))) = false.
Proof.
  split; [reflexivity|].
  exact (proj1 (check_joinon_column_join_clears
                  (FromExpr [RangeTblRef 1%nat] (Some Inputs.marked_equals_1))
                  _ eq_refl)).
Defined.

Section FromAndWhere.
Context {collab : Collaborators}.

(** X3 (transformFromAndWhere).  With an empty join list, or a WHERE
    clause without outer-join markers, the clause comes back as it is; with
    one item in the join list and markers in the clause, the clause comes
    back with the markers removed.  In both cases the parse state is left
    as it was. *)
Theorem transformFromAndWhere_simple_cases (quals : option Node) (pstate : ParseState) :
  let run := transformFromAndWhere quals pstate in
  (p_joinlist pstate = [] \/ have_ora_column_join_opt quals = false ->
   result run = Done quals /\ pstate_of run = pstate)
  /\ (length (p_joinlist pstate) = 1%nat ->
      have_ora_column_join_opt quals = true ->
      result run = Done (remove_column_join_expr_opt quals)
      /\ have_ora_column_join_opt (remove_column_join_expr_opt quals) = false
      /\ pstate_of run = pstate).
Proof.
  intros run. subst run. unfold transformFromAndWhere. split.
  - intros Hcase.
    assert (Hcond : bool_decide (p_joinlist pstate = [])
                    || negb (have_ora_column_join_opt quals) = true).
    { destruct Hcase as [Hnil | Hnone].
      - rewrite (bool_decide_eq_true_2 _ Hnil). reflexivity.
      - rewrite Hnone. apply orb_true_r. }
    unfold mbind, M_bind. simpl. rewrite Hcond. split; reflexivity.
  - intros Hone Hmarked.
    assert (Hcond : bool_decide (p_joinlist pstate = [])
                    || negb (have_ora_column_join_opt quals) = false).
    { rewrite Hmarked. destruct (p_joinlist pstate); [discriminate Hone|reflexivity]. }
    unfold mbind, M_bind. simpl. rewrite Hcond, (bool_decide_eq_true_2 _ Hone).
    split_and!; try reflexivity.
    destruct quals as [q|]; [|reflexivity]. simpl.
    exact (remove_column_join_expr_no_marker q).
Qed.
End FromAndWhere.

(** FROM t WHERE a(+) = 1: one item in the join list. *)
Lemma transformFromAndWhere_simple_cases_witness :
  let pstate := Inputs.pstate0 <| p_joinlist := [RangeTblRef 1%nat] |> in
  result (transformFromAndWhere (collab := Demo.collaborators)
            (Some Inputs.marked_equals_1) pstate)
    = Done (Some (remove_column_join_expr Inputs.marked_equals_1))
  /\ result (transformFromAndWhere (collab := Demo.collaborators)
              (Some Inputs.marked_equals_1) Inputs.pstate0)
     = Done (Some Inputs.marked_equals_1).
Proof.
  intros pstate. split.
  - exact (proj1 (proj2 (transformFromAndWhere_simple_cases (collab := Demo.collaborators)
                           (Some Inputs.marked_equals_1) pstate) eq_refl eq_refl)).
  - exact (proj1 (proj1 (transformFromAndWhere_simple_cases (collab := Demo.collaborators)
                           (Some Inputs.marked_equals_1) Inputs.pstate0)
                    (or_introl eq_refl))).
Defined.

(** ** ROWNUM predicates, further *)

Section RownumMore.
Context {collab : Collaborators}.

(** A query without a join tree, or with a limit offset or a limit count
    already, or without ROWNUM in its WHERE clause, is left as it is. *)
Lemma rewrite_rownum_query_untouched (query : Query) :
  jointree query = None
  \/ limitOffset query <> None
  \/ limitCount query <> None
  \/ (forall jt, jointree query = Some jt ->
                 contain_rownum_opt (jointree_quals jt) = false) ->
  rewrite_rownum_query query = query.
Proof.
  unfold rewrite_rownum_query. intros [Hjt|[Hoff|[Hcount|Hnone]]].
  - rewrite Hjt. reflexivity.
  - destruct (jointree query); [|reflexivity].
    rewrite (bool_decide_eq_true_2 _ Hoff). reflexivity.
  - destruct (jointree query); [|reflexivity].
    rewrite (bool_decide_eq_true_2 _ Hcount), orb_true_r. reflexivity.
  - destruct (jointree query) as [jt|]; [|reflexivity].
    rewrite (Hnone jt eq_refl), orb_true_r. reflexivity.
Qed.

(** A predicate that the loop steps over holds no ROWNUM. *)
Lemma rewrite_rownum_expr_skip (e : Node) (limitCount_ : option Node) :
  rewrite_rownum_expr e limitCount_ = Step_skip -> contain_rownum e = false.
Proof.
  unfold rewrite_rownum_expr. destruct (contain_rownum e); [|reflexivity].
  simpl. intros Hstep. exfalso.
  repeat match type of Hstep with
         | context [match ?x with _ => _ end] => destruct x; try discriminate Hstep
         | context [if ?c then _ else _] => destruct c; try discriminate Hstep
         end.
Qed.

(** The loop only adds to the hints, and what it leaves unhinted holds no
    ROWNUM. *)
Lemma rewrite_rownum_scan_kept (qual_list : list Node) :
  forall (i : Z) (limitCount_ limitCount' : option Node) (hints hints' : Bitmapset),
    rewrite_rownum_scan qual_list i limitCount_ hints = Scan_done limitCount' hints' ->
    hints ⊆ hints'
    /\ Forall (fun e => contain_rownum e = false) (quals_not_hinted qual_list i hints').
Proof.
  induction qual_list as [|e rest IH]; intros i lc lc' hints hints' Hscan;
    simpl in Hscan.
  - injection Hscan as _ <-. split; [reflexivity|constructor].
  - destruct (rewrite_rownum_expr e lc) as [|lc1| |] eqn:Hstep; try discriminate Hscan.
    + apply IH in Hscan as [Hsub Hkept]. split; [exact Hsub|]. simpl.
      destruct (bms_is_member i hints'); [exact Hkept|].
      constructor; [|exact Hkept]. eapply rewrite_rownum_expr_skip, Hstep.
    + apply IH in Hscan as [Hsub Hkept]. unfold bms_add_member in Hsub.
      split; [intros x Hx; apply Hsub, elem_of_union_r; exact Hx|]. simpl.
      assert (Hmember : bms_is_member i hints' = true).
      { unfold bms_is_member. apply bool_decide_eq_true_2.
        apply Hsub, elem_of_union_l, elem_of_singleton. reflexivity. }
      rewrite Hmember. exact Hkept.
Qed.

(** The WHERE clause that the rewrite leaves when the loop over the
    predicates runs to its end. *)
Lemma rewrite_rownum_query_consumed (query : Query) (fromlist : list JoinTree)
    (quals : Node) (limitCount' : option Node) (hints : Bitmapset) :
  jointree query = Some (FromExpr fromlist (Some quals)) ->
  limitOffset query = None ->
  limitCount query = None ->
  contain_rownum quals = true ->
  rewrite_rownum_scan
    match canonicalize_qual quals with
    | NBoolExpr AND_EXPR args => args
    | expr => [expr]
    end 0 None ∅ = Scan_done limitCount' hints ->
  limitCount (rewrite_rownum_query query) = limitCount'
  /\ exists quals',
       jointree (rewrite_rownum_query query) = Some (FromExpr fromlist quals')
       /\ contain_rownum_opt quals' = false.
Proof.
  intros Hjt Hoff Hcount Hrownum Hscan.
  unfold rewrite_rownum_query. rewrite Hjt, Hoff, Hcount. simpl.
  rewrite Hrownum. simpl.
  pose proof (rewrite_rownum_scan_kept _ _ _ _ _ _ Hscan) as [_ Hkept].
  assert (Hnone : forall l, Forall (fun e => contain_rownum e = false) l ->
                            existsb contain_rownum l = false).
  { induction 1 as [|x l Hx _ IHk]; simpl; [reflexivity|]. rewrite Hx. exact IHk. }
  destruct (canonicalize_qual quals) as [| | | | |? ? ?|? ?|[] args| | |] eqn:Hcanon;
    rewrite Hscan; (split; [try reflexivity|]);
    try (destruct args as [|a0 args]; reflexivity);
    match goal with
    | |- context [quals_not_hinted ?l 0 hints] =>
        destruct l as [|e0 rest] eqn:Hlist;
        [ eexists; split; [reflexivity|]; simpl; try reflexivity
        | destruct (quals_not_hinted (e0 :: rest) 0 hints)
            as [|arg [|arg' args']] eqn:Hargs;
          (eexists; split; [reflexivity|]); simpl;
          [ reflexivity
          | inversion Hkept; assumption
          | exact (Hnone _ Hkept) ] ]
    | _ => idtac
    end.

Qed.

(** X4 (rewrite_rownum_query).  The query meets the preconditions of the
    rewrite and the loop over the predicates runs to its end.  Then the
    WHERE clause of the rewritten query holds no ROWNUM (the Assert of the
    loop that rebuilds the clause holds), and rewriting the rewritten query
    changes nothing more. *)
Theorem rewrite_rownum_query_consumes (query : Query) (fromlist : list JoinTree)
    (quals : Node) (limitCount' : option Node) (hints : Bitmapset) :
  jointree query = Some (FromExpr fromlist (Some quals)) ->
  limitOffset query = None ->
  limitCount query = None ->
  contain_rownum quals = true ->
  rewrite_rownum_scan
    match canonicalize_qual quals with
    | NBoolExpr AND_EXPR args => args
    | expr => [expr]
    end 0 None ∅ = Scan_done limitCount' hints ->
  limitCount (rewrite_rownum_query query) = limitCount'
  /\ (exists quals',
        jointree (rewrite_rownum_query query) = Some (FromExpr fromlist quals')
        /\ contain_rownum_opt quals' = false)
  /\ rewrite_rownum_query (rewrite_rownum_query query) = rewrite_rownum_query query.
Proof.
  intros Hjt Hoff Hcount Hrownum Hscan.
  destruct (rewrite_rownum_query_consumed query fromlist quals limitCount' hints
              Hjt Hoff Hcount Hrownum Hscan) as (Hlimit & quals' & Hjt' & Hnone).
  split_and!; [exact Hlimit | by exists quals' |].
  apply rewrite_rownum_query_untouched. right. right. right.
  intros jt Hjt2. rewrite Hjt' in Hjt2. injection Hjt2 as <-. exact Hnone.
Qed.

Lemma rewrite_rownum_scan_skips (qual_list : list Node) :
  Forall (fun e => contain_rownum e = false) qual_list ->
  forall (i : Z) (limitCount_ : option Node) (hints : Bitmapset),
    rewrite_rownum_scan qual_list i limitCount_ hints = Scan_done limitCount_ hints.
Proof.
  induction 1 as [|e rest He _ IH]; intros i lc hints; simpl; [reflexivity|].
  unfold rewrite_rownum_expr. rewrite He. simpl. apply IH.
Qed.

Lemma quals_not_hinted_app (l1 l2 : list Node) (hints : Bitmapset) :
  forall i : Z,
    quals_not_hinted (l1 ++ l2) i hints
    = quals_not_hinted l1 i hints
      ++ quals_not_hinted l2 (i + Z.of_nat (length l1)) hints.
Proof.
  induction l1 as [|e l1 IH]; intros i; simpl.
  - f_equal. lia.
  - rewrite IH. replace (i + 1 + Z.of_nat (length l1))
      with (i + Z.pos (Pos.of_succ_nat (length l1))) by lia.
    destruct (bms_is_member i hints); reflexivity.
Qed.

Lemma quals_not_hinted_all (l : list Node) (hints : Bitmapset) :
  forall i : Z,
    (forall j, i <= j < i + Z.of_nat (length l) -> j ∉ hints) ->
    quals_not_hinted l i hints = l.
Proof.
  induction l as [|e l IH]; intros i Hout; simpl; [reflexivity|].
  unfold bms_is_member. rewrite bool_decide_eq_false_2.
  - f_equal. apply IH. intros j Hj. apply Hout. simpl. lia.
  - apply Hout. simpl. lia.
Qed.

(** The rewrite of a query that meets its preconditions, by the way the
    loop over the predicates ends. *)
Lemma rewrite_rownum_query_unfold (query : Query) (fromlist : list JoinTree)
    (quals : Node) (qual_list : list Node) :
  jointree query = Some (FromExpr fromlist (Some quals)) ->
  limitOffset query = None ->
  limitCount query = None ->
  contain_rownum quals = true ->
  qual_list = match canonicalize_qual quals with
              | NBoolExpr AND_EXPR args => args
              | expr => [expr]
              end ->
  let canonical := query <| jointree :=
                     Some (FromExpr fromlist (Some (canonicalize_qual quals))) |> in
  rewrite_rownum_query query =
    match rewrite_rownum_scan qual_list 0 None ∅ with
    | Scan_return => canonical
    | Scan_break =>
        canonical <| limitCount := Some (make_int8_const (Int64GetDatum 0)) |>
    | Scan_done limitCount_ hints =>
        match qual_list with
        | [] => canonical <| limitCount := limitCount_ |>
        | _ =>
            canonical <| limitCount := limitCount_ |>
                      <| jointree :=
                           Some (FromExpr fromlist
                                   (let args := quals_not_hinted qual_list 0 hints in
                                    match args with
                                    | [] => None
                                    | [arg] => Some arg
                                    | _ => Some (makeBoolExpr AND_EXPR args)
                                    end)) |>
        end
    end.
Proof.
  intros Hjt Hoff Hcount Hrownum -> canonical. subst canonical.
  unfold rewrite_rownum_query. rewrite Hjt, Hoff, Hcount. simpl.
  rewrite Hrownum. simpl.
  destruct (canonicalize_qual quals) as [| | | | |? ? ?|? ?|[] args| | |];
    reflexivity.
Qed.

(** X5 (rewrite_rownum_query).  The query meets the preconditions of the
    rewrite; the predicates of its canonicalized WHERE clause are ROWNUM <=
    k, with an integer constant k > 0, and others that hold no ROWNUM.
    Then the constant becomes the limit count, and the WHERE clause
    becomes the other predicates, in their order: no clause when there is
    none, the predicate when there is one, their AND otherwise. *)
Theorem rewrite_rownum_query_le_positive (query : Query) (fromlist : list JoinTree)
    (quals : Node) (pre post : list Node) (opno opfuncid : Oid) (c : Const) (k : Z) :
  jointree query = Some (FromExpr fromlist (Some quals)) ->
  limitOffset query = None ->
  limitCount query = None ->
  contain_rownum quals = true ->
  pre ++ NOpExpr opno opfuncid [NRownumExpr; NConst c] :: post
    = match canonicalize_qual quals with
      | NBoolExpr AND_EXPR args => args
      | expr => [expr]
      end ->
  Forall (fun e => contain_rownum e = false) (pre ++ post) ->
  opno <> InvalidOid ->
  get_opname opno = Some "<=" ->
  contain_mutable_functions (NConst c) = false ->
  const_get_int64 (NConst c) = Some k ->
  0 < k ->
  limitCount (rewrite_rownum_query query) = Some (NConst c)
  /\ jointree (rewrite_rownum_query query)
     = Some (FromExpr fromlist
               match pre ++ post with
               | [] => None
               | [arg] => Some arg
               | args => Some (NBoolExpr AND_EXPR args)
               end).
Proof.
  intros Hjt Hoff Hcount Hrownum Hlist Hfree Hopno Hname Hmut Hconst Hk.
  apply Forall_app in Hfree as [Hpre Hpost].
  assert (Hstep : rewrite_rownum_expr (NOpExpr opno opfuncid [NRownumExpr; NConst c])
                    None = Step_hint (Some (NConst c))).
  { unfold rewrite_rownum_expr.
    cbn [contain_rownum existsb orb negb is_RownumExpr andb].
    apply Z.eqb_neq in Hopno. rewrite Hopno. cbn [is_RownumExpr negb].
    rewrite Hopno, Hname, Hmut, Hconst.
    assert (Hpos : (k <=? 0) = false) by (apply Z.leb_gt; exact Hk).
    rewrite Hpos. reflexivity. }
  assert (Hscan : rewrite_rownum_scan
                    (pre ++ NOpExpr opno opfuncid [NRownumExpr; NConst c] :: post)
                    0 None ∅
                  = Scan_done (Some (NConst c))
                      (bms_add_member ∅ (Z.of_nat (length pre)))).
  { rewrite rewrite_rownum_scan_app, (rewrite_rownum_scan_skips _ Hpre). simpl.
    rewrite Hstep. apply (rewrite_rownum_scan_skips _ Hpost). }
  assert (Hargs : quals_not_hinted
                    (pre ++ NOpExpr opno opfuncid [NRownumExpr; NConst c] :: post)
                    0 (bms_add_member ∅ (Z.of_nat (length pre)))
                  = pre ++ post).
  { rewrite quals_not_hinted_app, Z.add_0_l. cbn [quals_not_hinted].
    assert (Hmember : bms_is_member (Z.of_nat (length pre))
                        (bms_add_member ∅ (Z.of_nat (length pre))) = true).
    { unfold bms_is_member, bms_add_member.
      apply bool_decide_eq_true_2, elem_of_union_l, elem_of_singleton. reflexivity. }
    rewrite Hmember. unfold bms_add_member.
    rewrite !quals_not_hinted_all; [reflexivity| |].
    - intros j Hj Hin. apply elem_of_union in Hin as [Hin|Hin].
      + apply elem_of_singleton in Hin. lia.
      + apply elem_of_empty in Hin. exact Hin.
    - intros j Hj Hin. apply elem_of_union in Hin as [Hin|Hin].
      + apply elem_of_singleton in Hin. lia.
      + apply elem_of_empty in Hin. exact Hin. }
  rewrite (rewrite_rownum_query_unfold query fromlist quals _ Hjt Hoff Hcount
             Hrownum Hlist).
  rewrite Hscan, Hargs.
  destruct (pre ++ post) as [|arg [|arg' args]] eqn:Hrest;
    destruct pre; simpl; split; reflexivity.
Qed.
End RownumMore.

(** SELECT ... WHERE a = 1 AND ROWNUM <= 5 *)
Lemma rewrite_rownum_query_consumes_witness :
  limitCount (rewrite_rownum_query (collab := Demo.collaborators) MoreInputs.first_five)
    = Some (Inputs.int8 5)
  /\ (exists quals',
        jointree (rewrite_rownum_query (collab := Demo.collaborators)
                    MoreInputs.first_five) = Some (FromExpr [] quals')
        /\ contain_rownum_opt quals' = false)
  /\ rewrite_rownum_query (collab := Demo.collaborators)
       (rewrite_rownum_query (collab := Demo.collaborators) MoreInputs.first_five)
     = rewrite_rownum_query (collab := Demo.collaborators) MoreInputs.first_five.
Proof.
  assert (Hscan : rewrite_rownum_scan (collab := Demo.collaborators)
                    [MoreInputs.a_equals_1; Inputs.rownum_le 5] 0 None ∅
                  = Scan_done (Some (Inputs.int8 5)) (bms_add_member ∅ 1))
    by (vm_compute; reflexivity).
  exact (rewrite_rownum_query_consumes (collab := Demo.collaborators)
           MoreInputs.first_five []
           (NBoolExpr AND_EXPR [MoreInputs.a_equals_1; Inputs.rownum_le 5])
           (Some (Inputs.int8 5)) (bms_add_member ∅ 1)
           eq_refl eq_refl eq_refl eq_refl Hscan).
Defined.

Lemma rewrite_rownum_query_le_positive_witness :
  limitCount (rewrite_rownum_query (collab := Demo.collaborators) MoreInputs.first_five)
    = Some (Inputs.int8 5)
  /\ jointree (rewrite_rownum_query (collab := Demo.collaborators) MoreInputs.first_five)
     = Some (FromExpr [] (Some MoreInputs.a_equals_1)).
Proof.
  assert (Hfree : Forall (fun e => contain_rownum e = false)
                    ([MoreInputs.a_equals_1] ++ []))
    by (repeat constructor).
  assert (Hopno : 414 <> InvalidOid) by discriminate.
  assert (Hk : 0 < 5) by lia.
  exact (rewrite_rownum_query_le_positive (collab := Demo.collaborators)
           MoreInputs.first_five []
           (NBoolExpr AND_EXPR [MoreInputs.a_equals_1; Inputs.rownum_le 5])
           [MoreInputs.a_equals_1] [] 414 471
           (mkConst INT8OID (-1) InvalidOid 8 5 false true) 5
           eq_refl eq_refl eq_refl eq_refl eq_refl Hfree Hopno eq_refl eq_refl
           eq_refl Hk).
Defined.

(** ** Statements at the top level and below it *)

Section TopLevel.
Context {collab : Collaborators}.

(** X6 (transformTopLevelStmt).  A SELECT whose leftmost leaf carries an
    INTO clause is analyzed at the top level as CREATE TABLE AS: a query
    that is returned is a utility query, marked as the original query that
    sets the command tag; its statement is a CREATE TABLE AS for a table,
    flagged as coming from SELECT INTO, with the INTO clause of the leaf,
    and it holds the analysis of the SELECT with the INTO clause removed. *)
Theorem transformTopLevelStmt_select_into (depth : nat) (stmt : SelectStmt.t)
    (into : IntoClause.t) (pstate : ParseState) (q : Query) :
  SelectStmt.intoClause (leftmost_select stmt) = Some into ->
  result (transformTopLevelStmt (transformStmt (S depth)) (SelectStmtNode stmt) pstate)
    = Done q ->
  commandType q = CMD_UTILITY /\ querySource q = QSRC_ORIGINAL /\ canSetTag q = true
  /\ exists query',
       result (transformStmt depth (SelectStmtNode (clear_leftmost_intoClause stmt))
                 pstate) = Done query'
       /\ utilityStmt q
          = Some (mkUtilityStmt (CreateTableAsStmtNode None into OBJECT_TABLE true)
                    (Some query') None).
Proof.
  intros Hinto Hrun. unfold transformTopLevelStmt in Hrun. rewrite Hinto in Hrun.
  apply result_Done_run in Hrun as (pstate' & tr & Hrun).
  cbn [transformStmt] in Hrun.
  unfold transformStmt_dispatch, transformCreateTableAsStmt in Hrun.
  run_inv Hrun;
    try match goal with
        | H : bool_decide _ = true |- _ =>
            apply bool_decide_eq_true_1 in H; discriminate H
        end.
  split_and!; try reflexivity. eexists. split; [|reflexivity].
  match goal with H : transformStmt _ _ _ = _ |- _ => by rewrite H end.
Qed.

(** X7 (transformSelectStmt).  Below the top level an INTO clause is not
    accepted: the analysis of a plain SELECT that carries one never returns
    a query, and the FROM clause is not looked at. *)
Theorem transformStmt_refuses_INTO (depth : nat) (stmt : SelectStmt.t)
    (pstate : ParseState) :
  SelectStmt.intoClause stmt <> None ->
  SelectStmt.valuesLists stmt = [] ->
  SelectStmt.op stmt = SETOP_NONE ->
  let run := transformStmt depth (SelectStmtNode stmt) pstate in
  (forall q, result run <> Done q)
  /\ Forall (fun ev => forall from, ev <> Ev_transformFromClause from) (trace run).
Proof.
  intros Hinto Hvalues Hop. cbv zeta.
  destruct depth as [|depth]; cbn [transformStmt].
  { cbn. split; [discriminate | constructor]. }
  unfold transformStmt_dispatch. rewrite Hvalues, Hop.
  rewrite bool_decide_eq_false_2 by (intros Hne; by apply Hne).
  rewrite bool_decide_eq_true_2 by reflexivity.
  unfold transformSelectStmt.
  rewrite (bool_decide_eq_true_2 _ Hinto). cbn [when].
  split.
  - intros q Hq. apply result_Done_run in Hq as (pstate' & tr & Hq). run_inv Hq.
  - apply none_bind; [repeat constructor; discriminate|]. intros _ pstate1.
    apply none_bind; [|intros; constructor].
    apply none_bind; [apply process_with_clause_calls; discriminate|].
    intros qry pstate2. rewrite bind_trace. cbn. constructor.
Qed.

(** X8 (analyze_requires_snapshot).  The classification matches
    transformStmt: a statement for which no snapshot is required is not
    transformed.  transformStmt returns a utility query that holds the parse
    tree as it is, calls no collaborator and leaves the parse state as it
    found it. *)
Theorem analyze_requires_snapshot_matches (depth : nat) (parseTree : RawStmt)
    (pstate : ParseState) :
  analyze_requires_snapshot parseTree = false ->
  transformStmt (S depth) parseTree pstate
  = mkRun (Done (makeNode_Query <| commandType := CMD_UTILITY |>
                   <| utilityStmt := Some (mkUtilityStmt parseTree None None) |>
                   <| querySource := QSRC_ORIGINAL |> <| canSetTag := true |>))
      pstate [Ev_transformStmt parseTree].
Proof.
  destruct parseTree; cbn [analyze_requires_snapshot]; try discriminate;
    cbn [transformStmt]; unfold transformStmt_dispatch;
    try (intros ->); try (intros _); reflexivity.
Qed.

End TopLevel.

Lemma transformTopLevelStmt_select_into_witness :
  exists q : Query,
    commandType q = CMD_UTILITY /\ querySource q = QSRC_ORIGINAL /\ canSetTag q = true
    /\ exists query',
         result (transformStmt (collab := Demo.collaborators) 7
                   (SelectStmtNode (clear_leftmost_intoClause MoreInputs.select_into))
                   Inputs.pstate0) = Done query'
         /\ utilityStmt q
            = Some (mkUtilityStmt
                      (CreateTableAsStmtNode None (IntoClause.mk Inputs.relation_t)
                         OBJECT_TABLE true)
                      (Some query') None).
Proof.
  destruct (result (transformTopLevelStmt
                      (transformStmt (collab := Demo.collaborators) 8)
                      (SelectStmtNode MoreInputs.select_into) Inputs.pstate0))
    as [q|e] eqn:Hrun; [|vm_compute in Hrun; discriminate Hrun].
  exists q.
  apply (transformTopLevelStmt_select_into (collab := Demo.collaborators) 7
           MoreInputs.select_into (IntoClause.mk Inputs.relation_t) Inputs.pstate0 q);
    [vm_compute; reflexivity | exact Hrun].
Defined.

Lemma transformStmt_refuses_INTO_witness :
  let run := transformStmt (collab := Demo.collaborators) 8
               (SelectStmtNode MoreInputs.select_into) Inputs.pstate0 in
  (forall q, result run <> Done q)
  /\ Forall (fun ev => forall from, ev <> Ev_transformFromClause from) (trace run).
Proof.
  apply (transformStmt_refuses_INTO (collab := Demo.collaborators) 8
           MoreInputs.select_into Inputs.pstate0).
  - vm_compute. discriminate.
  - vm_compute; reflexivity.
  - vm_compute; reflexivity.
Defined.

Lemma analyze_requires_snapshot_matches_witness :
  transformStmt (collab := Demo.collaborators) 1 (UtilityStmtNode T_CreateTableSpaceStmt)
    Inputs.pstate0
  = mkRun (Done (makeNode_Query <| commandType := CMD_UTILITY |>
                   <| utilityStmt :=
                        Some (mkUtilityStmt (UtilityStmtNode T_CreateTableSpaceStmt) None None) |>
                   <| querySource := QSRC_ORIGINAL |> <| canSetTag := true |>))
      Inputs.pstate0 [Ev_transformStmt (UtilityStmtNode T_CreateTableSpaceStmt)].
Proof.
  apply (analyze_requires_snapshot_matches (collab := Demo.collaborators) 0
           (UtilityStmtNode T_CreateTableSpaceStmt) Inputs.pstate0).
  vm_compute; reflexivity.
Defined.

(** ** The entry points under a grammar *)

Section EntryPoint.
Context {collab : Collaborators}.

Lemma on_pstate_pstate {A : Type} (other : ParseState) (m : M A) (pstate : ParseState) :
  pstate_of (on_pstate other m pstate) = pstate.
Proof. unfold on_pstate. destruct (result (m other)); reflexivity. Qed.

Lemma try_rethrow_log {A : Type} (m : M A) (ev : Event) (pstate : ParseState) :
  try_rethrow m (log ev) pstate
  = match result (m pstate) with
    | Done _ => m pstate
    | Raised e => mkRun (Raised e) (pstate_of (m pstate)) (trace (m pstate) ++ [ev])
    end.
Proof. unfold try_rethrow, log. destruct (result (m pstate)); reflexivity. Qed.

(** PushOverrideSearchPathForGrammar; PG_TRY body; PG_CATCH
    PopOverrideSearchPath, rethrow; PopOverrideSearchPath. *)
Lemma push_try_pop {A : Type} (grammar : ParseGrammar) (body : M A)
    (pstate : ParseState) :
  pstate_of (body pstate) = pstate ->
  let run := (PushOverrideSearchPathForGrammar grammar;;
              res ← try_rethrow body PopOverrideSearchPath;
              PopOverrideSearchPath;;
              mret res) pstate in
  pstate_of run = pstate
  /\ result run = result (body pstate)
  /\ exists calls,
       trace run = Ev_PushOverrideSearchPathForGrammar grammar
                   :: calls ++ [Ev_PopOverrideSearchPath].
Proof.
  intros Hstate. cbv zeta.
  unfold PushOverrideSearchPathForGrammar, PopOverrideSearchPath.
  unfold mbind, M_bind. cbv zeta. rewrite try_rethrow_log. unfold log, mret, M_ret.
  cbn [result pstate_of trace].
  destruct (body pstate) as [[res|e] pstate' tr]; cbn in Hstate |- *; subst pstate'.
  - split_and!; [reflexivity | reflexivity | by exists tr].
  - split_and!; [reflexivity | reflexivity | by exists tr].
Qed.

(** X10 (parse_analyze_for_gram, parse_analyze_varparams_for_gram).
    Whether the analysis returns or raises, the search path of the grammar
    is pushed before anything else is done and popped after everything
    else: an error raised by the analysis leaves with the search path
    popped.  The parse state of the caller is not the one the statement is
    analyzed in: it is the same after the call. *)
Theorem parse_analyze_for_gram_search_path (knot : RawStmt -> M Query)
    (parseTree : RawStmt) (sourceText : string) (paramTypes : list Oid)
    (grammar : ParseGrammar) (pstate : ParseState) :
  (let run := parse_analyze_for_gram knot parseTree sourceText paramTypes grammar
                pstate in
   pstate_of run = pstate
   /\ exists calls,
        trace run = Ev_PushOverrideSearchPathForGrammar grammar
                    :: calls ++ [Ev_PopOverrideSearchPath])
  /\ (let run := parse_analyze_varparams_for_gram knot parseTree sourceText paramTypes
                   grammar pstate in
      pstate_of run = pstate
      /\ exists calls,
           trace run = Ev_PushOverrideSearchPathForGrammar grammar
                       :: calls ++ [Ev_PopOverrideSearchPath]).
Proof.
  cbv zeta. split.
  - unfold parse_analyze_for_gram.
    match goal with
    | |- context [try_rethrow ?m _] =>
        destruct (push_try_pop grammar m pstate) as (Hstate & _ & Hcalls)
    end; [|by split].
    unfold mbind at 1, M_bind at 1. cbv zeta. rewrite on_pstate_pstate.
    destruct (result (on_pstate _ _ pstate)) as [[query child]|e]; reflexivity.
  - unfold parse_analyze_varparams_for_gram.
    match goal with
    | |- context [try_rethrow ?m _] =>
        destruct (push_try_pop grammar m pstate) as (Hstate & _ & Hcalls)
    end; [|by split].
    unfold mbind at 1, M_bind at 1. cbv zeta. rewrite on_pstate_pstate.
    destruct (result (on_pstate _ _ pstate)) as [[res child]|e]; reflexivity.
Qed.

End EntryPoint.

(** ** Row locking, continued *)

Lemma locks_only_refl (qry : Query) : locks_only qry qry.
Proof. split; [by destruct qry|reflexivity]. Qed.

Lemma locks_only_trans (q1 q2 q3 : Query) :
  locks_only q1 q2 -> locks_only q2 q3 -> locks_only q1 q3.
Proof.
  intros [H12 Hl12] [H23 Hl23]. split; [|congruence].
  rewrite H23. rewrite H12 at 1. by destruct q1.
Qed.

Lemma locks_only_rtable (qry : Query) (i : Index)
    (f : RangeTblEntry -> RangeTblEntry) :
  locks_only qry (qry <| rtable := rt_update i f (rtable qry) |>).
Proof.
  split; [by destruct qry|]. destruct qry; simpl.
  destruct i; simpl; [reflexivity|]. apply length_alter.
Qed.

Lemma applyLockingClause_locks_only (qry : Query) (rtindex : Index)
    (s : LockClauseStrength) (nw pd : bool) :
  locks_only qry (applyLockingClause qry rtindex s nw pd).
Proof.
  destruct (get_parse_rowmark qry rtindex) as [[i rc]|] eqn:Hfind.
  - rewrite (applyLockingClause_found _ _ _ _ _ _ _ Hfind).
    split; by destruct qry.
  - rewrite (applyLockingClause_new _ _ _ _ _ Hfind). split; by destruct qry.
Qed.

Lemma get_parse_rowmark_None (qry : Query) (rtindex : Index) :
  get_parse_rowmark qry rtindex = None ->
  rtindex ∉ RowMarkClause.rti <$> rowMarks qry.
Proof.
  unfold get_parse_rowmark. intros Hnone Hin.
  apply list_elem_of_fmap in Hin as (rc & -> & Hin).
  eapply list_find_None in Hnone. eapply Forall_forall in Hnone; [|exact Hin].
  by apply Hnone.
Qed.

Lemma applyLockingClause_rowMarks (qry : Query) (rtindex : Index)
    (s : LockClauseStrength) (nw pd : bool) :
  rowMarks (applyLockingClause qry rtindex s nw pd)
  = match get_parse_rowmark qry rtindex with
    | Some (i, rc) => <[i := merge_rowmark rc s nw pd]> (rowMarks qry)
    | None => rowMarks qry ++ [RowMarkClause.mk rtindex s nw pd]
    end.
Proof.
  destruct (get_parse_rowmark qry rtindex) as [[i rc]|] eqn:Hfind.
  - rewrite (applyLockingClause_found _ _ _ _ _ _ _ Hfind). by destruct qry.
  - rewrite (applyLockingClause_new _ _ _ _ _ Hfind). by destruct qry.
Qed.

Lemma applyLockingClause_rtable (qry : Query) (rtindex : Index)
    (s : LockClauseStrength) (nw pd : bool) :
  rtable (applyLockingClause qry rtindex s nw pd) = rtable qry.
Proof.
  unfold applyLockingClause.
  destruct (get_parse_rowmark _ rtindex) as [[i rc]|]; by destruct qry, pd.
Qed.

Lemma applyLockingClause_keeps_one_mark (qry : Query) (rtindex : Index)
    (s : LockClauseStrength) (nw pd : bool) :
  one_mark_per_rtindex qry ->
  one_mark_per_rtindex (applyLockingClause qry rtindex s nw pd).
Proof.
  unfold one_mark_per_rtindex. intros Hnodup. rewrite applyLockingClause_rowMarks.
  destruct (get_parse_rowmark qry rtindex) as [[i rc]|] eqn:Hfind.
  - apply list_find_Some in Hfind as (Hi & _ & _).
    rewrite list_fmap_insert. simpl. rewrite list_insert_id; [assumption|].
    by rewrite list_lookup_fmap, Hi.
  - rewrite fmap_app. apply NoDup_app. split_and!; [assumption| |].
    + intros r Hr Hin. apply list_elem_of_singleton in Hin as ->.
      by apply (get_parse_rowmark_None _ _ Hfind).
    + apply NoDup_singleton.
Qed.

(** The mark that the call leaves for [rtindex]. *)
Lemma applyLockingClause_marks (qry : Query) (rtindex : Index)
    (s : LockClauseStrength) (nw pd : bool) :
  exists i rc,
    get_parse_rowmark (applyLockingClause qry rtindex s nw pd) rtindex = Some (i, rc)
    /\ (LCS_value s <= LCS_value (RowMarkClause.strength rc))%Z
    /\ (nw = true -> RowMarkClause.noWait rc = true).
Proof.
  destruct (get_parse_rowmark qry rtindex) as [[i rc]|] eqn:Hfind.
  - rewrite (applyLockingClause_found _ _ _ _ _ _ _ Hfind).
    exists i, (merge_rowmark rc s nw pd). split_and!.
    + eapply get_parse_rowmark_merged; [exact Hfind | reflexivity].
    + simpl. rewrite Max_strength_value. lia.
    + simpl. intros ->. apply orb_true_r.
  - rewrite (applyLockingClause_new _ _ _ _ _ Hfind).
    exists (length (rowMarks qry)), (RowMarkClause.mk rtindex s nw pd). split_and!.
    + apply get_parse_rowmark_appended; [exact Hfind | reflexivity].
    + simpl. lia.
    + done.
Qed.

Lemma applyLockingClause_other_marks (qry : Query) (rtindex : Index)
    (s : LockClauseStrength) (nw pd : bool) (rc0 : RowMarkClause.t) :
  RowMarkClause.rti rc0 <> rtindex ->
  rc0 ∈ rowMarks (applyLockingClause qry rtindex s nw pd) <-> rc0 ∈ rowMarks qry.
Proof.
  intros Hrti. rewrite applyLockingClause_rowMarks.
  destruct (get_parse_rowmark qry rtindex) as [[i rc]|] eqn:Hfind.
  - apply list_find_Some in Hfind as (Hi & Hrc & _).
    rewrite !list_elem_of_lookup. split; intros [j Hj]; exists j.
    + destruct (decide (i = j)) as [->|Hne].
      * rewrite list_lookup_insert_eq in Hj by (by eapply lookup_lt_Some).
        injection Hj as <-. simpl in Hrti. congruence.
      * by rewrite list_lookup_insert_ne in Hj.
    + destruct (decide (i = j)) as [->|Hne]; [congruence|].
      by rewrite list_lookup_insert_ne.
  - rewrite elem_of_app, list_elem_of_singleton. split; [|auto].
    intros [?| ->]; [assumption|]. by simpl in Hrti.
Qed.

(** X11 (applyLockingClause).  A query keeps at most one row mark for a
    range-table index.  After the call there is a mark for [rtindex], at
    least as strong as the clause and with its NOWAIT; the marks of the
    other range-table entries are the ones there were; nothing but the row
    marks and hasForUpdate has changed. *)
Theorem applyLockingClause_one_mark (qry : Query) (rtindex : Index)
    (strength : LockClauseStrength) (noWait pushedDown : bool) :
  one_mark_per_rtindex qry ->
  let qry' := applyLockingClause qry rtindex strength noWait pushedDown in
  one_mark_per_rtindex qry'
  /\ (exists i rc, get_parse_rowmark qry' rtindex = Some (i, rc)
        /\ (LCS_value strength <= LCS_value (RowMarkClause.strength rc))%Z
        /\ (noWait = true -> RowMarkClause.noWait rc = true))
  /\ (forall rc, RowMarkClause.rti rc <> rtindex ->
        rc ∈ rowMarks qry' <-> rc ∈ rowMarks qry)
  /\ rtable qry' = rtable qry /\ locks_only qry qry'.
Proof.
  intros Hone. cbv zeta. split_and!.
  - by apply applyLockingClause_keeps_one_mark.
  - apply applyLockingClause_marks.
  - intros rc. apply applyLockingClause_other_marks.
  - apply applyLockingClause_rtable.
  - apply applyLockingClause_locks_only.
Qed.

Lemma applyLockingClause_one_mark_witness :
  one_mark_per_rtindex
    (applyLockingClause Inputs.locked_query 3%nat LCS_FORUPDATE true false)
  /\ rtable (applyLockingClause Inputs.locked_query 3%nat LCS_FORUPDATE true false)
     = rtable Inputs.locked_query.
Proof.
  assert (Hone : one_mark_per_rtindex Inputs.locked_query).
  { unfold one_mark_per_rtindex. vm_compute. apply NoDup_singleton. }
  destruct (applyLockingClause_one_mark Inputs.locked_query 3%nat LCS_FORUPDATE
              true false Hone) as (Hmarks & _ & _ & Hrtable & _).
  split; [exact Hmarks | exact Hrtable].
Defined.

Section LockingClause.
Context {collab : Collaborators}.

Lemma CheckSelectLocking_Done (qry : Query) (strength : LockClauseStrength) (u : unit) :
  CheckSelectLocking qry strength = Done u ->
  setOperations qry = None /\ distinctClause qry = [] /\ groupClause qry = []
  /\ havingQual qry = None /\ hasAggs qry = false /\ hasWindowFuncs qry = false
  /\ expression_returns_set (targetList qry) = false.
Proof.
  unfold CheckSelectLocking.
  repeat (case_bool_decide; [discriminate|]).
  destruct (hasAggs qry); [discriminate|].
  destruct (hasWindowFuncs qry); [discriminate|].
  destruct (expression_returns_set (targetList qry)); [discriminate|].
  intros _.
  repeat match goal with
         | H : ~ (_ <> _) |- _ => apply dec_stable in H
         end.
  by split_and!.
Qed.

(** What a step of the locking keeps: nothing but the row marks,
    hasForUpdate and the range-table entries changes, and the marks stay
    one per range-table index. *)
Lemma lock_step (q1 q2 : Query) (rtindex : Index) (s : LockClauseStrength)
    (nw pd : bool) (i : nat) (f : RangeTblEntry -> RangeTblEntry) (q' : Query) :
  q2 = applyLockingClause q1 rtindex s nw pd <| rtable :=
         alter f i (rtable (applyLockingClause q1 rtindex s nw pd)) |> ->
  (locks_only q2 q' /\ (one_mark_per_rtindex q2 -> one_mark_per_rtindex q')) ->
  locks_only q1 q' /\ (one_mark_per_rtindex q1 -> one_mark_per_rtindex q').
Proof.
  intros -> [Hlocks Hone]. split.
  - eapply locks_only_trans; [|exact Hlocks].
    eapply locks_only_trans; [apply applyLockingClause_locks_only|].
    apply (locks_only_rtable _ (S i)).
  - intros H1. apply Hone.
    pose proof (applyLockingClause_keeps_one_mark q1 rtindex s nw pd H1) as Hmarks.
    unfold one_mark_per_rtindex in *.
    by destruct (applyLockingClause q1 rtindex s nw pd).
Qed.

Lemma transformLockingClause_allrels_keeps (qry : Query) (s : LockClauseStrength)
    (nw pd : bool) (qry' : Query) :
  transformLockingClause_allrels qry s nw pd = Done qry' ->
  locks_only qry qry' /\ (one_mark_per_rtindex qry -> one_mark_per_rtindex qry').
Proof.
  destruct qry; simpl.
  destruct (CheckSelectLocking _ s); [|discriminate].
  match goal with
  | |- context [mkQuery ?a1 ?a2 ?a3 ?a4 ?a5 ?a6 ?a7 ?a8 ?a9 ?a10 ?a11 ?a12 ?a13 ?a14
                  ?a15 ?a16 ?a17 ?a18 ?a19 ?a20 ?a21 ?a22 ?a23 ?a24 ?a25 ?a26 ?a27
                  ?a28 ?a29] =>
      generalize (mkQuery a1 a2 a3 a4 a5 a6 a7 a8 a9 a10 a11 a12 a13 a14 a15 a16 a17
                    a18 a19 a20 a21 a22 a23 a24 a25 a26 a27 a28 a29)
  end.
  generalize 0%nat. revert qry'.
  induction rtable0 as [|rte rt IH]; intros qry' i q0.
  - intros [= <-]. split; [apply locks_only_refl|auto].
  - intros Hloop. simpl in Hloop. destruct (rtekind rte).
    + eapply lock_step; [reflexivity|]. eapply IH, Hloop.
    + destruct (subquery rte) as [sub|]; [|discriminate].
      destruct (transformLockingClause_allrels sub s nw true) as [sub'|e];
        [|discriminate].
      eapply lock_step; [reflexivity|]. eapply IH, Hloop.
    + eapply IH, Hloop.
    + eapply IH, Hloop.
    + eapply IH, Hloop.
    + eapply IH, Hloop.
    + eapply IH, Hloop.
Qed.

Lemma transformLockingClause_named_keeps (lc : LockingClause.t) (pd : bool)
    (qry : Query) (thisrel : RangeVar.t) (qry' : Query) :
  transformLockingClause_named lc pd qry thisrel = Done qry' ->
  locks_only qry qry' /\ (one_mark_per_rtindex qry -> one_mark_per_rtindex qry').
Proof.
  unfold transformLockingClause_named.
  destruct (_ || _); [discriminate|].
  destruct (list_find _ (rtable qry)) as [[i0 rte]|]; [|discriminate].
  destruct (rtekind rte); try discriminate.
  - intros [= <-]. eapply (lock_step _ _ (S i0) _ _ _ i0); [reflexivity|].
    split; [apply locks_only_refl|auto].
  - destruct (subquery rte) as [sub|]; [|discriminate].
    unfold mbind, Outcome_bind.
    destruct (transformLockingClause_allrels sub _ _ true) as [sub'|e];
      [|discriminate].
    intros [= <-]. eapply (lock_step _ _ (S i0) _ _ _ i0); [reflexivity|].
    split; [apply locks_only_refl|auto].
Qed.

(** X12 (transformLockingClause).  A FOR [KEY] UPDATE/SHARE clause is
    accepted only for a query without set operations, DISTINCT, GROUP BY,
    HAVING, aggregates, window functions and set-returning functions in the
    target list.  The query that is returned differs from the one given
    in its row marks, its hasForUpdate flag and the contents of its
    range-table entries only; the range table keeps its length and the row
    marks stay one per range-table index. *)
Theorem transformLockingClause_keeps (qry : Query) (lc : LockingClause.t)
    (pushedDown : bool) (qry' : Query) :
  transformLockingClause qry lc pushedDown = Done qry' ->
  (setOperations qry = None /\ distinctClause qry = [] /\ groupClause qry = []
   /\ havingQual qry = None /\ hasAggs qry = false /\ hasWindowFuncs qry = false
   /\ expression_returns_set (targetList qry) = false)
  /\ locks_only qry qry'
  /\ (one_mark_per_rtindex qry -> one_mark_per_rtindex qry').
Proof.
  unfold transformLockingClause.
  destruct (LockingClause.lockedRels lc) as [|thisrel rels] eqn:Hrels.
  - intros Hrun. split; [|by eapply transformLockingClause_allrels_keeps].
    destruct qry; simpl in Hrun.
    destruct (CheckSelectLocking _ _) as [u|] eqn:Hcheck; [|discriminate].
    exact (CheckSelectLocking_Done _ _ _ Hcheck).
  - generalize (thisrel :: rels). intros l.
    unfold mbind, Outcome_bind.
    destruct (CheckSelectLocking qry _) as [u|e] eqn:Hcheck; [|discriminate].
    intros Hrun. split; [exact (CheckSelectLocking_Done _ _ _ Hcheck)|].
    assert (Hfold : foldO (transformLockingClause_named lc pushedDown) qry l
                    = Done qry') by exact Hrun.
    clear Hrun Hcheck. revert qry Hfold.
    induction l as [|rel l IH]; intros qry; simpl.
    + intros [= <-]. split; [apply locks_only_refl|auto].
    + destruct (transformLockingClause_named lc pushedDown qry rel) as [q1|e]
        eqn:Hnamed; [|discriminate].
      intros Hfold. apply transformLockingClause_named_keeps in Hnamed as [H1 H2].
      destruct (IH _ Hfold) as [H3 H4]. split; [by eapply locks_only_trans|auto].
Qed.

End LockingClause.

Lemma transformLockingClause_keeps_witness :
  exists qry',
    transformLockingClause (collab := Demo.collaborators) MoreInputs.two_tables
      MoreInputs.for_update_of_u false = Done qry'
    /\ locks_only MoreInputs.two_tables qry'
    /\ (one_mark_per_rtindex MoreInputs.two_tables -> one_mark_per_rtindex qry').
Proof.
  destruct (transformLockingClause (collab := Demo.collaborators) MoreInputs.two_tables
              MoreInputs.for_update_of_u false) as [qry'|e] eqn:Hrun;
    [|vm_compute in Hrun; discriminate Hrun].
  exists qry'. split; [reflexivity|].
  exact (proj2 (transformLockingClause_keeps (collab := Demo.collaborators)
                  MoreInputs.two_tables MoreInputs.for_update_of_u false qry' Hrun)).
Defined.

Lemma has_row_mark_applied (qry : Query) (rtindex : Index) (s : LockClauseStrength)
    (nw pd : bool) :
  has_row_mark (applyLockingClause qry rtindex s nw pd) rtindex s.
Proof.
  destruct (applyLockingClause_marks qry rtindex s nw pd) as (i & rc & Hfind & Hs & _).
  apply list_find_Some in Hfind as (Hi & Hrti & _).
  apply Exists_exists. exists rc. split; [by eapply list_elem_of_lookup_2|auto].
Qed.

Lemma has_row_mark_kept (qry : Query) (r : Index) (s : LockClauseStrength)
    (rtindex : Index) (s' : LockClauseStrength) (nw pd : bool) :
  has_row_mark qry r s ->
  has_row_mark (applyLockingClause qry rtindex s' nw pd) r s.
Proof.
  unfold has_row_mark. rewrite !Exists_exists, applyLockingClause_rowMarks.
  intros (rc & Hin & Hrti & Hs).
  destruct (get_parse_rowmark qry rtindex) as [[i rc1]|] eqn:Hfind.
  - apply list_find_Some in Hfind as (Hi & Hrc1 & _).
    apply list_elem_of_lookup in Hin as [j Hj].
    destruct (decide (i = j)) as [->|Hne].
    + exists (merge_rowmark rc1 s' nw pd). split.
      * apply (list_elem_of_lookup_2 _ j). apply list_lookup_insert_eq.
        by eapply lookup_lt_Some.
      * assert (rc1 = rc) as -> by congruence. simpl. split; [assumption|].
        rewrite Max_strength_value. lia.
    + exists rc. split; [|auto]. apply (list_elem_of_lookup_2 _ j).
      rewrite list_lookup_insert_ne by assumption. exact Hj.
  - exists rc. split; [|auto]. apply elem_of_app. by left.
Qed.

Lemma has_row_mark_rtable (qry : Query) (rt : list RangeTblEntry) (r : Index)
    (s : LockClauseStrength) :
  has_row_mark (qry <| rtable := rt |>) r s <-> has_row_mark qry r s.
Proof. by destruct qry. Qed.

Lemma lor_land_same (x a : Z) : Z.land (Z.lor x a) a = a.
Proof.
  apply Z.bits_inj'. intros n _. rewrite Z.land_spec, Z.lor_spec.
  destruct (Z.testbit x n), (Z.testbit a n); reflexivity.
Qed.

Section LockAll.
Context {collab : Collaborators}.

(** The loop over the range table of transformLockingClause, from the
    entry after the [i]th on. *)
Lemma transformLockingClause_allrels_marks (qry : Query) (s : LockClauseStrength)
    (nw pd : bool) (qry' : Query) :
  transformLockingClause_allrels qry s nw pd = Done qry' ->
  (forall r s0, has_row_mark qry r s0 -> has_row_mark qry' r s0)
  /\ forall k rte, rtable qry !! k = Some rte ->
       (rtekind rte = RTE_RELATION \/ rtekind rte = RTE_SUBQUERY ->
        has_row_mark qry' (S k) s)
       /\ (rtekind rte = RTE_RELATION ->
           exists rte', rtable qry' !! k = Some rte'
             /\ Z.land (requiredPerms rte') ACL_SELECT_FOR_UPDATE
                = ACL_SELECT_FOR_UPDATE).
Proof.
  intros Hrun.
  cut ((forall r s0, has_row_mark qry r s0 -> has_row_mark qry' r s0)
       /\ (forall j, (j < 0)%nat -> rtable qry' !! j = rtable qry !! j)
       /\ forall k rte, rtable qry !! k = Some rte ->
            (rtekind rte = RTE_RELATION \/ rtekind rte = RTE_SUBQUERY ->
             has_row_mark qry' (S (0 + k)) s)
            /\ (rtekind rte = RTE_RELATION ->
                (0 + k < length (rtable qry))%nat ->
                exists rte', rtable qry' !! (0 + k)%nat = Some rte'
                  /\ Z.land (requiredPerms rte') ACL_SELECT_FOR_UPDATE
                     = ACL_SELECT_FOR_UPDATE)).
  { intros (Hkeep & _ & Hall). split; [exact Hkeep|].
    intros k rte Hk. destruct (Hall k rte Hk) as [Hmark Hperm].
    split; [exact Hmark|]. intros Hkind. apply Hperm; [exact Hkind|].
    by eapply lookup_lt_Some. }
  destruct qry. simpl in Hrun.
  destruct (CheckSelectLocking _ s); [|discriminate].
  match type of Hrun with
  | ?loop _ _ ?q = _ =>
      set (q0 := q) in *;
      assert (G : forall rt i q1 qry', loop rt i q1 = Done qry' ->
        (forall r s0, has_row_mark q1 r s0 -> has_row_mark qry' r s0)
        /\ (forall j, (j < i)%nat -> rtable qry' !! j = rtable q1 !! j)
        /\ forall k rte, rt !! k = Some rte ->
             (rtekind rte = RTE_RELATION \/ rtekind rte = RTE_SUBQUERY ->
              has_row_mark qry' (S (i + k)) s)
             /\ (rtekind rte = RTE_RELATION ->
                 (i + k < length (rtable q1))%nat ->
                 exists rte', rtable qry' !! (i + k)%nat = Some rte'
                   /\ Z.land (requiredPerms rte') ACL_SELECT_FOR_UPDATE
                      = ACL_SELECT_FOR_UPDATE));
      [|exact (G _ _ _ _ Hrun)]
  end.
  clear Hrun q0 qry'. intros rt.
  induction rt as [|rte rt IH]; intros i q0 qry' Hloop.
  - injection Hloop as <-. split_and!; [auto|auto|]. intros k rte [=].
  - simpl in Hloop.
    assert (Hstep : forall q1 (f : RangeTblEntry -> RangeTblEntry),
      (rtekind rte = RTE_RELATION ->
       f = fun rte0 => rte0 <| requiredPerms :=
             Z.lor (requiredPerms rte0) ACL_SELECT_FOR_UPDATE |>) ->
      q1 = applyLockingClause q0 (S i) s nw pd <| rtable :=
             alter f i (rtable (applyLockingClause q0 (S i) s nw pd)) |> ->
      (forall r s0, has_row_mark q1 r s0 -> has_row_mark qry' r s0)
      /\ (forall j, (j < S i)%nat -> rtable qry' !! j = rtable q1 !! j)
      /\ (forall k rte, rt !! k = Some rte ->
            (rtekind rte = RTE_RELATION \/ rtekind rte = RTE_SUBQUERY ->
             has_row_mark qry' (S (S i + k)) s)
            /\ (rtekind rte = RTE_RELATION ->
                (S i + k < length (rtable q1))%nat ->
                exists rte', rtable qry' !! (S i + k)%nat = Some rte'
                  /\ Z.land (requiredPerms rte') ACL_SELECT_FOR_UPDATE
                     = ACL_SELECT_FOR_UPDATE)) ->
      (forall r s0, has_row_mark q0 r s0 -> has_row_mark qry' r s0)
      /\ (forall j, (j < i)%nat -> rtable qry' !! j = rtable q0 !! j)
      /\ (forall k rte0, (rte :: rt) !! k = Some rte0 ->
            (rtekind rte0 = RTE_RELATION \/ rtekind rte0 = RTE_SUBQUERY ->
             has_row_mark qry' (S (i + k)) s)
            /\ (rtekind rte0 = RTE_RELATION ->
                (i + k < length (rtable q0))%nat ->
                exists rte', rtable qry' !! (i + k)%nat = Some rte'
                  /\ Z.land (requiredPerms rte') ACL_SELECT_FOR_UPDATE
                     = ACL_SELECT_FOR_UPDATE))).
    { intros q1 f Hf -> (Hkeep & Hbefore & Hall).
      assert (Hrt : forall j, j <> i ->
                rtable (applyLockingClause q0 (S i) s nw pd <| rtable :=
                  alter f i (rtable (applyLockingClause q0 (S i) s nw pd)) |>) !! j
                = rtable q0 !! j).
      { intros j Hj.
        replace (rtable (_ <| rtable := _ |>))
          with (alter f i (rtable (applyLockingClause q0 (S i) s nw pd)))
          by (by destruct (applyLockingClause q0 (S i) s nw pd)).
        rewrite list_lookup_alter_ne by auto.
        by rewrite applyLockingClause_rtable. }
      split_and!.
      - intros r s0 Hmark. apply Hkeep, has_row_mark_rtable.
        by apply has_row_mark_kept.
      - intros j Hj. rewrite Hbefore by lia. apply Hrt. lia.
      - intros [|k] rte0 Hk.
        + injection Hk as <-. rewrite Nat.add_0_r. split.
          * intros _. apply Hkeep, has_row_mark_rtable, has_row_mark_applied.
          * intros Hkind Hlen. rewrite Hbefore by lia.
            replace (rtable (_ <| rtable := _ |>))
              with (alter f i (rtable (applyLockingClause q0 (S i) s nw pd)))
              by (by destruct (applyLockingClause q0 (S i) s nw pd)).
            rewrite list_lookup_alter_eq, applyLockingClause_rtable.
            destruct (lookup_lt_is_Some_2 _ _ Hlen) as [rte0 Hrte0].
            rewrite Hrte0. simpl. eexists. split; [reflexivity|].
            rewrite (Hf Hkind). destruct rte0; simpl. apply lor_land_same.
        + simpl in Hk. replace (i + S k)%nat with (S i + k)%nat by lia.
          destruct (Hall k rte0 Hk) as [Hmark Hperm]. split; [exact Hmark|].
          intros Hkind Hlen. apply Hperm; [exact Hkind|].
          replace (rtable (_ <| rtable := _ |>))
            with (alter f i (rtable (applyLockingClause q0 (S i) s nw pd)))
            by (by destruct (applyLockingClause q0 (S i) s nw pd)).
          by rewrite length_alter, applyLockingClause_rtable. }
    destruct (rtekind rte) eqn:Hkind.
    + eapply Hstep; [intros _; reflexivity | reflexivity | eapply IH, Hloop].
    + destruct (subquery rte) as [sub|]; [|discriminate].
      destruct (transformLockingClause_allrels sub s nw true) as [sub'|e];
        [|discriminate].
      eapply Hstep; [discriminate | reflexivity | eapply IH, Hloop].
    + destruct (IH _ _ _ Hloop) as (Hkeep & Hbefore & Hall). split_and!.
      * exact Hkeep.
      * intros j Hj. apply Hbefore. lia.
      * intros [|k] rte0 Hk.
        -- injection Hk as <-. rewrite Hkind.
           split; [intros [|]; discriminate | discriminate].
        -- simpl in Hk. replace (i + S k)%nat with (S i + k)%nat by lia.
           by apply Hall.
    + destruct (IH _ _ _ Hloop) as (Hkeep & Hbefore & Hall). split_and!.
      * exact Hkeep.
      * intros j Hj. apply Hbefore. lia.
      * intros [|k] rte0 Hk.
        -- injection Hk as <-. rewrite Hkind.
           split; [intros [|]; discriminate | discriminate].
        -- simpl in Hk. replace (i + S k)%nat with (S i + k)%nat by lia.
           by apply Hall.
    + destruct (IH _ _ _ Hloop) as (Hkeep & Hbefore & Hall). split_and!.
      * exact Hkeep.
      * intros j Hj. apply Hbefore. lia.
      * intros [|k] rte0 Hk.
        -- injection Hk as <-. rewrite Hkind.
           split; [intros [|]; discriminate | discriminate].
        -- simpl in Hk. replace (i + S k)%nat with (S i + k)%nat by lia.
           by apply Hall.
    + destruct (IH _ _ _ Hloop) as (Hkeep & Hbefore & Hall). split_and!.
      * exact Hkeep.
      * intros j Hj. apply Hbefore. lia.
      * intros [|k] rte0 Hk.
        -- injection Hk as <-. rewrite Hkind.
           split; [intros [|]; discriminate | discriminate].
        -- simpl in Hk. replace (i + S k)%nat with (S i + k)%nat by lia.
           by apply Hall.
    + destruct (IH _ _ _ Hloop) as (Hkeep & Hbefore & Hall). split_and!.
      * exact Hkeep.
      * intros j Hj. apply Hbefore. lia.
      * intros [|k] rte0 Hk.
        -- injection Hk as <-. rewrite Hkind.
           split; [intros [|]; discriminate | discriminate].
        -- simpl in Hk. replace (i + S k)%nat with (S i + k)%nat by lia.
           by apply Hall.
Qed.

(** X13 (transformLockingClause).  A clause that names no relation locks
    all of them: in the query that is returned every relation and every
    sub-query of the range table has a row mark at least as strong as the
    clause, every relation has the SELECT FOR UPDATE permission among its
    required permissions, and the row marks the query had are kept, as
    strong or stronger. *)
Theorem transformLockingClause_all_relations (qry : Query) (lc : LockingClause.t)
    (pushedDown : bool) (qry' : Query) :
  LockingClause.lockedRels lc = [] ->
  transformLockingClause qry lc pushedDown = Done qry' ->
  (forall r s, has_row_mark qry r s -> has_row_mark qry' r s)
  /\ forall i rte, rtable qry !! i = Some rte ->
       (rtekind rte = RTE_RELATION \/ rtekind rte = RTE_SUBQUERY ->
        has_row_mark qry' (S i) (LockingClause.strength lc))
       /\ (rtekind rte = RTE_RELATION ->
           exists rte', rtable qry' !! i = Some rte'
             /\ Z.land (requiredPerms rte') ACL_SELECT_FOR_UPDATE
                = ACL_SELECT_FOR_UPDATE).
Proof.
  unfold transformLockingClause. intros ->.
  apply transformLockingClause_allrels_marks.
Qed.

End LockAll.

Lemma transformLockingClause_all_relations_witness :
  exists qry',
    transformLockingClause (collab := Demo.collaborators) MoreInputs.two_tables
      MoreInputs.for_update false = Done qry'
    /\ has_row_mark qry' 1%nat LCS_FORUPDATE /\ has_row_mark qry' 2%nat LCS_FORUPDATE.
Proof.
  destruct (transformLockingClause (collab := Demo.collaborators) MoreInputs.two_tables
              MoreInputs.for_update false) as [qry'|e] eqn:Hrun;
    [|vm_compute in Hrun; discriminate Hrun].
  exists qry'. split; [reflexivity|].
  destruct (transformLockingClause_all_relations (collab := Demo.collaborators)
              MoreInputs.two_tables MoreInputs.for_update false qry' eq_refl Hrun)
    as [_ Hall].
  split.
  - apply (Hall 0%nat (Demo.Impl.relation_rte "t" true true ACL_SELECT) eq_refl).
    by left.
  - apply (Hall 1%nat (Demo.Impl.relation_rte "u" true true ACL_SELECT) eq_refl).
    by left.
Defined.

(** ** Rows of INSERT and cursors *)

Section InsertRow.
Context {collab : Collaborators}.

Lemma insert_row_columns_length (exprlist : list Node) :
  forall (icols : list ResTarget.t) (attnos : list Z) (pstate pstate' : ParseState)
         (row : list Node) (tr : list Event),
    insert_row_columns exprlist icols attnos pstate = mkRun (Done row) pstate' tr ->
    length row = length exprlist /\ length tr = length exprlist.
Proof.
  induction exprlist as [|expr exprlist IH]; intros icols attnos pstate pstate' row tr;
    simpl.
  - intros Hrun. run_inv Hrun. done.
  - destruct icols as [|col icols]; [discriminate|].
    destruct attnos as [|attno attnos]; [discriminate|].
    intros Hrun. run_inv Hrun.
    match goal with
    | H : insert_row_columns _ _ _ _ = _ |- _ => apply IH in H as [Hrow Htr]
    end.
    match goal with
    | H : transformAssignedExpr _ _ _ _ _ _ = _ |- _ =>
        apply call_Done_inv in H as (_ & ->)
    end.
    rewrite app_nil_r. simpl. split; congruence.
Qed.

(** X14 (transformInsertRow).  A row with more expressions than target
    columns is refused with a syntax error before any expression is
    prepared.  A row that is returned has one prepared expression for each
    expression given, each prepared by one call of transformAssignedExpr;
    it has no more expressions than there are target columns, and as many
    when the statement lists its columns. *)
Theorem transformInsertRow_lengths (exprlist : list Node)
    (stmtcols icolumns : list ResTarget.t) (attrnos : list Z) (pstate : ParseState) :
  let run := transformInsertRow exprlist stmtcols icolumns attrnos pstate in
  ((length icolumns < length exprlist)%nat ->
   run = mkRun (Raised (ereport ERRCODE_SYNTAX_ERROR
                          "INSERT has more expressions than target columns"))
           pstate [])
  /\ forall row, result run = Done row ->
       length row = length exprlist
       /\ length (trace run) = length exprlist
       /\ (length exprlist <= length icolumns)%nat
       /\ (stmtcols <> [] -> length exprlist = length icolumns).
Proof.
  cbv zeta. unfold transformInsertRow. split.
  - intros Hlen. by rewrite bool_decide_eq_true_2.
  - intros row. case_bool_decide as Hmore; [discriminate|].
    destruct (bool_decide (stmtcols <> []) && _) eqn:Hfewer; [discriminate|].
    intros Hrun.
    destruct (result_Done_run _ _ Hrun) as (pstate' & tr & Heq).
    rewrite Heq. cbn [trace].
    apply insert_row_columns_length in Heq as [Hrow Htr].
    split_and!; [assumption | assumption | lia |].
    intros Hcols. apply andb_false_iff in Hfewer as [Hf|Hf].
    + by apply bool_decide_eq_false_1 in Hf.
    + apply bool_decide_eq_false_1 in Hf. lia.
Qed.

(** X15 (transformDeclareCursorStmt).  A cursor declaration that is
    accepted does not ask for both SCROLL and NO SCROLL; its query is
    analyzed to a SELECT without a data-modifying WITH; when the SELECT
    locks rows the cursor is neither WITH HOLD, SCROLL nor INSENSITIVE.
    The query that is returned is the analyzed SELECT, with the declaration
    as its utility statement, detached from the raw query. *)
Theorem transformDeclareCursorStmt_accepts (knot : RawStmt -> M Query)
    (portalname : string) (options : Z) (query : option RawStmt)
    (pstate : ParseState) (q : Query) :
  result (transformDeclareCursorStmt knot portalname options query pstate) = Done q ->
  (Z.land options CURSOR_OPT_SCROLL = 0 \/ Z.land options CURSOR_OPT_NO_SCROLL = 0)
  /\ commandType q = CMD_SELECT /\ hasModifyingCTE q = false
  /\ (rowMarks q <> [] ->
      Z.land options CURSOR_OPT_HOLD = 0 /\ Z.land options CURSOR_OPT_SCROLL = 0
      /\ Z.land options CURSOR_OPT_INSENSITIVE = 0)
  /\ exists query0 q0,
       query = Some query0 /\ result (knot query0 pstate) = Done q0
       /\ utilityStmt q0 = None
       /\ q = q0 <| utilityStmt :=
                Some (mkUtilityStmt (DeclareCursorStmtNode portalname options None)
                        None None) |>.
Proof.
  intros Hrun. apply result_Done_run in Hrun as (pstate' & tr & Hrun).
  unfold transformDeclareCursorStmt in Hrun. run_inv Hrun.
  repeat match goal with
         | H : _ || _ = false |- _ => apply orb_false_iff in H as [? ?]
         | H : bool_decide _ = false |- _ => apply bool_decide_eq_false_1 in H
         | H : ~ (_ <> _) |- _ => apply dec_stable in H
         end.
  match goal with
  | H : knot _ _ = mkRun (Done ?q0) _ _ |- _ => rename H into Hknot; rename q0 into q1
  end.
  split_and!.
  - match goal with
    | H : negb (Z.land options CURSOR_OPT_SCROLL =? 0) && _ = false |- _ =>
        apply andb_false_iff in H as [H|H]; apply negb_false_iff, Z.eqb_eq in H;
          auto
    end.
  - by destruct q1.
  - match goal with
    | H : hasModifyingCTE _ = false |- _ => by destruct q1
    end.
  - intros Hmarks.
    assert (Hm : bool_decide (rowMarks q1 <> []) = true).
    { apply bool_decide_eq_true_2. by destruct q1. }
    repeat match goal with
           | H : bool_decide (rowMarks q1 <> []) && _ = false |- _ =>
               rewrite Hm in H; simpl in H; apply negb_false_iff, Z.eqb_eq in H
           end.
    by split_and!.
  - eexists _, q1. split_and!; [reflexivity| by rewrite Hknot |assumption|reflexivity].
Qed.

End InsertRow.

Lemma transformInsertRow_lengths_witness :
  exists row : list Node,
    result (transformInsertRow (collab := Demo.collaborators)
              [Inputs.int8 1; Inputs.int8 2] MoreInputs.columns_a_b
              MoreInputs.columns_a_b [1; 2] Inputs.pstate0) = Done row
    /\ length row = 2%nat.
Proof.
  destruct (result (transformInsertRow (collab := Demo.collaborators)
                      [Inputs.int8 1; Inputs.int8 2] MoreInputs.columns_a_b
                      MoreInputs.columns_a_b [1; 2] Inputs.pstate0))
    as [row|e] eqn:Hrun; [|vm_compute in Hrun; discriminate Hrun].
  exists row. split; [reflexivity|].
  exact (proj1 (proj2 (transformInsertRow_lengths (collab := Demo.collaborators)
                         [Inputs.int8 1; Inputs.int8 2] MoreInputs.columns_a_b
                         MoreInputs.columns_a_b [1; 2] Inputs.pstate0) row Hrun)).
Defined.

Lemma transformDeclareCursorStmt_accepts_witness :
  exists q : Query,
    result (transformDeclareCursorStmt
              (transformStmt (collab := Demo.collaborators) 7) "c" 0
              (Some (SelectStmtNode Inputs.source_select)) Inputs.pstate0) = Done q
    /\ commandType q = CMD_SELECT /\ hasModifyingCTE q = false.
Proof.
  destruct (result (transformDeclareCursorStmt
                      (transformStmt (collab := Demo.collaborators) 7) "c" 0
                      (Some (SelectStmtNode Inputs.source_select)) Inputs.pstate0))
    as [q|e] eqn:Hrun; [|vm_compute in Hrun; discriminate Hrun].
  exists q. split; [reflexivity|].
  destruct (transformDeclareCursorStmt_accepts _ _ _ _ _ _ Hrun)
    as (_ & Hcmd & Hcte & _ & _).
  split; assumption.
Defined.

(** ** Set operations and row locking *)

Section SetOperationLocking.
Context {collab : Collaborators}.

Lemma process_with_clause_keeps (withClause : option WithClause.t) (qry qry' : Query)
    (pstate pstate' : ParseState) (tr : list Event) :
  process_with_clause withClause qry pstate = mkRun (Done qry') pstate' tr ->
  rowMarks qry' = rowMarks qry /\ hasForUpdate qry' = hasForUpdate qry
  /\ commandType qry' = commandType qry.
Proof.
  unfold process_with_clause. intros Hrun. run_inv Hrun; by destruct qry.
Qed.

(** X16 (transformSetOperationStmt).  Rows of a UNION, INTERSECT or EXCEPT
    are never locked.  With a FOR [KEY] UPDATE/SHARE clause the statement
    is refused before anything is analyzed; the query that is returned for
    a statement without one is a SELECT over a set-operation tree that has
    no row marks and does not have hasForUpdate set. *)
Theorem transformSetOperationStmt_locks_nothing (knot : RawStmt -> M Query)
    (stmt : SelectStmt.t) (pstate : ParseState) :
  let run := transformSetOperationStmt knot stmt pstate in
  (SelectStmt.lockingClause stmt <> [] ->
   (exists e, result run = Raised e) /\ pstate_of run = pstate /\ trace run = [])
  /\ forall qry, result run = Done qry ->
       SelectStmt.lockingClause stmt = []
       /\ rowMarks qry = [] /\ hasForUpdate qry = false
       /\ commandType qry = CMD_SELECT
       /\ exists op all larg rarg colTypes colTypmods colCollations groupClauses,
            setOperations qry
            = Some (SetOperationStmt op all larg rarg colTypes colTypmods
                      colCollations groupClauses).
Proof.
  cbv zeta. unfold transformSetOperationStmt. split.
  - intros Hlock. case_bool_decide; cbn [when].
    + cbn. eauto.
    + destruct (SelectStmt.lockingClause stmt) as [|lc rest]; [done|].
      cbn. eauto.
  - intros qry Hrun. apply result_Done_run in Hrun as (pstate' & tr & Hrun).
    apply bind_Done_inv in Hrun as (u & pstate1 & tr1 & tr2 & _ & Hrun & ->).
    destruct (SelectStmt.lockingClause stmt) as [|lc rest]; [|discriminate].
    run_inv Hrun;
      match goal with
      | H : foldM _ _ [] _ = _ |- _ => cbn [foldM] in H; run_inv H
      end;
      match goal with
      | H : process_with_clause _ _ _ = _ |- _ =>
          apply process_with_clause_keeps in H as (Hmarks & Hupd & Hcmd)
      end;
      match goal with
      | H : rowMarks ?q = _ |- _ => destruct q; simpl in *; subst
      end;
      (split_and!; [reflexivity.. | eauto 10]).
Qed.

End SetOperationLocking.

Lemma transformSetOperationStmt_locks_nothing_witness :
  exists qry : Query,
    result (transformSetOperationStmt (collab := Demo.collaborators)
              (transformStmt (collab := Demo.collaborators) 7) Inputs.union_stmt
              Inputs.pstate0) = Done qry
    /\ rowMarks qry = [] /\ hasForUpdate qry = false.
Proof.
  destruct (result (transformSetOperationStmt (collab := Demo.collaborators)
                      (transformStmt (collab := Demo.collaborators) 7)
                      Inputs.union_stmt Inputs.pstate0))
    as [qry|e] eqn:Hrun; [|vm_compute in Hrun; discriminate Hrun].
  exists qry. split; [reflexivity|].
  destruct (proj2 (transformSetOperationStmt_locks_nothing
                     (collab := Demo.collaborators)
                     (transformStmt (collab := Demo.collaborators) 7)
                     Inputs.union_stmt Inputs.pstate0) qry Hrun)
    as (_ & Hmarks & Hupd & _).
  split; assumption.
Defined.

(** ** The tables of a predicate with outer-join markers *)

Lemma get_ora_column_join_walker_tables (node : Node) :
  forall info info' : JoinExprInfo.t,
    get_ora_column_join_walker node info = Done info' ->
    JoinExprInfo.expr info' = JoinExprInfo.expr info
    /\ (JoinExprInfo.lrtindex info <> 0%nat ->
        JoinExprInfo.lrtindex info' = JoinExprInfo.lrtindex info)
    /\ (JoinExprInfo.rrtindex info <> 0%nat ->
        JoinExprInfo.rrtindex info' = JoinExprInfo.rrtindex info)
    /\ Forall (fun v => v <> 0%nat -> v = JoinExprInfo.rrtindex info')
         (column_join_varnos node)
    /\ Forall (fun v => v <> 0%nat ->
                 v = JoinExprInfo.lrtindex info' \/ v = JoinExprInfo.rrtindex info')
         (var_varnos node).
Proof.
  assert (Hfold : forall args : list Node,
    Forall (fun node => forall info info',
      get_ora_column_join_walker node info = Done info' ->
      JoinExprInfo.expr info' = JoinExprInfo.expr info
      /\ (JoinExprInfo.lrtindex info <> 0%nat ->
          JoinExprInfo.lrtindex info' = JoinExprInfo.lrtindex info)
      /\ (JoinExprInfo.rrtindex info <> 0%nat ->
          JoinExprInfo.rrtindex info' = JoinExprInfo.rrtindex info)
      /\ Forall (fun v => v <> 0%nat -> v = JoinExprInfo.rrtindex info')
           (column_join_varnos node)
      /\ Forall (fun v => v <> 0%nat ->
                   v = JoinExprInfo.lrtindex info' \/ v = JoinExprInfo.rrtindex info')
           (var_varnos node)) args ->
    forall info info',
      foldO (fun info child => get_ora_column_join_walker child info) info args
      = Done info' ->
      JoinExprInfo.expr info' = JoinExprInfo.expr info
      /\ (JoinExprInfo.lrtindex info <> 0%nat ->
          JoinExprInfo.lrtindex info' = JoinExprInfo.lrtindex info)
      /\ (JoinExprInfo.rrtindex info <> 0%nat ->
          JoinExprInfo.rrtindex info' = JoinExprInfo.rrtindex info)
      /\ Forall (fun v => v <> 0%nat -> v = JoinExprInfo.rrtindex info')
           (flat_map column_join_varnos args)
      /\ Forall (fun v => v <> 0%nat ->
                   v = JoinExprInfo.lrtindex info' \/ v = JoinExprInfo.rrtindex info')
           (flat_map var_varnos args)).
  { induction 1 as [|child args Hchild _ IH]; intros info info'; simpl.
    - intros [= <-]. split_and!; auto.
    - destruct (get_ora_column_join_walker child info) as [info1|e] eqn:Hwalk;
        [|discriminate].
      intros Hrest.
      destruct (Hchild _ _ Hwalk) as (He1 & Hl1 & Hr1 & Hm1 & Hv1).
      destruct (IH _ _ Hrest) as (He2 & Hl2 & Hr2 & Hm2 & Hv2).
      split_and!.
      + congruence.
      + intros Hl. rewrite Hl2; rewrite Hl1; auto.
      + intros Hr. rewrite Hr2; rewrite Hr1; auto.
      + apply Forall_app. split; [|exact Hm2].
        eapply Forall_impl; [exact Hm1|]. simpl. intros v Hv Hnz.
        rewrite Hr2; rewrite <- (Hv Hnz); auto.
      + apply Forall_app. split; [|exact Hv2].
        eapply Forall_impl; [exact Hv1|]. simpl. intros v Hv Hnz.
        destruct (Hv Hnz) as [Hvl|Hvr].
        * left. rewrite Hl2; rewrite <- Hvl; auto.
        * right. rewrite Hr2; rewrite <- Hvr; auto. }
  induction node as [v|c|p| |var|opno opfuncid args IH|funcid args IH|boolop args IH
                     |d|args IH|tag args IH] using Node_list_ind;
    intros info info'; simpl;
    try (intros [= <-]; split_and!; auto; fail);
    try (apply Hfold, IH; fail).
  - repeat case_bool_decide; simpl; try discriminate;
      intros [= <-]; destruct info as [e t l r]; simpl in *;
      split_and!; try reflexivity; try (intros; congruence);
      try (apply Forall_nil_2; fail);
      (apply Forall_cons_2; [|apply Forall_nil_2]); simpl; intros;
      first [left; congruence | right; congruence | tauto].
  - repeat case_bool_decide; simpl; try discriminate;
      intros [= <-]; destruct info as [e t l r]; simpl in *;
      split_and!; try reflexivity; try (intros; congruence);
      try (apply Forall_nil_2; fail);
      (apply Forall_cons_2; [|apply Forall_nil_2]); simpl; intros;
      first [congruence | tauto].
Qed.

(** X17 (get_ora_column_join).  A predicate that is accepted references
    one outer-joined table, and two tables at most: each of its outer-join
    markers is on the table recorded as rrtindex and each of its other
    variables is on the table recorded as lrtindex or on that one.  (The
    range-table index 0 is no table.)  The predicate itself is recorded. *)
Theorem get_ora_column_join_tables (expr : Node) (info : JoinExprInfo.t) :
  get_ora_column_join expr = Done info ->
  JoinExprInfo.expr info = expr
  /\ Forall (fun v => v <> 0%nat -> v = JoinExprInfo.rrtindex info)
       (column_join_varnos expr)
  /\ Forall (fun v => v <> 0%nat ->
               v = JoinExprInfo.lrtindex info \/ v = JoinExprInfo.rrtindex info)
       (var_varnos expr).
Proof.
  unfold get_ora_column_join. intros Hwalk.
  apply get_ora_column_join_walker_tables in Hwalk as (Hexpr & _ & _ & Hm & Hv).
  by split_and!.
Qed.

Lemma get_ora_column_join_tables_witness :
  exists info,
    get_ora_column_join Inputs.marked_equals_1 = Done info
    /\ Forall (fun v => v <> 0%nat -> v = JoinExprInfo.rrtindex info)
         (column_join_varnos Inputs.marked_equals_1).
Proof.
  destruct (get_ora_column_join Inputs.marked_equals_1) as [info|e] eqn:Hrun;
    [|vm_compute in Hrun; discriminate Hrun].
  exists info. split; [reflexivity|].
  exact (proj1 (proj2 (get_ora_column_join_tables _ _ Hrun))).
Defined.

(** ** Constants of ROWNUM limits *)

Section Int8Const.
Context {collab : Collaborators}.

(** X18 (make_int8_const, const_get_int64).  The value of a 64-bit integer
    made into an int8 constant is read back from the constant. *)
Theorem const_get_int64_make_int8_const (v : Z) :
  (- 2 ^ 63 <= v < 2 ^ 63)%Z ->
  const_get_int64 (make_int8_const (Int64GetDatum v)) = Some v.
Proof.
  intros Hv. unfold const_get_int64, make_int8_const. simpl. f_equal.
  unfold DatumGetInt64, signed_of, Int64GetDatum.
  rewrite Z.mod_mod by lia.
  destruct (Z.ltb_spec (v mod 2 ^ 64) (2 ^ (64 - 1))) as [Hlt|Hge].
  - destruct (Z.le_gt_cases 0 v) as [Hpos|Hneg].
    + apply Z.mod_small. lia.
    + assert (v mod 2 ^ 64 = v + 2 ^ 64)%Z as Hmod
        by (symmetry; apply (Z.mod_unique_pos _ _ (-1)); lia).
      rewrite Hmod in Hlt. simpl in Hlt. lia.
  - destruct (Z.le_gt_cases 0 v) as [Hpos|Hneg].
    + rewrite Z.mod_small in Hge by lia. simpl in Hge. lia.
    + assert (v mod 2 ^ 64 = v + 2 ^ 64)%Z as Hmod
        by (symmetry; apply (Z.mod_unique_pos _ _ (-1)); lia).
      lia.
Qed.

End Int8Const.

Lemma const_get_int64_make_int8_const_witness :
  const_get_int64 (make_int8_const (collab := Demo.collaborators) (Int64GetDatum (-5)))
  = Some (-5)%Z.
Proof. apply (const_get_int64_make_int8_const (collab := Demo.collaborators)). lia. Defined.

(** ** RETURNING, CREATE TABLE AS and the target of DELETE *)

Section Dml.
Context {collab : Collaborators}.

(** X19 (transformReturningList).  The RETURNING list is numbered from 1
    on its own: the next result number of the main target list is the same
    after the call as before it.  Without a RETURNING clause nothing is
    called and the parse state is left as it is. *)
Theorem transformReturningList_restores (returningList : list ResTarget.t)
    (pstate pstate' : ParseState) (rlist : list TargetEntry) (tr : list Event) :
  transformReturningList returningList pstate = mkRun (Done rlist) pstate' tr ->
  p_next_resno pstate' = p_next_resno pstate
  /\ (returningList = [] -> rlist = [] /\ pstate' = pstate /\ tr = []).
Proof.
  unfold transformReturningList. destruct returningList as [|item items].
  - intros Hrun. run_inv Hrun. auto.
  - intros Hrun. run_inv Hrun. split; [|discriminate].
    match goal with
    | |- p_next_resno (?p <| p_next_resno := _ |>) = _ => by destruct p
    end.
Qed.

(** X20 (transformCreateTableAsStmt).  The query that is returned is a
    utility query that holds the analyzed source query.  For a materialized
    view the source query has no data-modifying WITH, uses no temporary
    relation and no bound parameter, the view is not UNLOGGED, and the
    query is kept a second time for the ON SELECT rule; for a table
    nothing is kept for a rule. *)
Theorem transformCreateTableAsStmt_accepts (knot : RawStmt -> M Query)
    (query : option RawStmt) (into : IntoClause.t) (relkind : ObjectType)
    (is_select_into : bool) (pstate : ParseState) (q : Query) :
  result (transformCreateTableAsStmt knot query into relkind is_select_into pstate)
    = Done q ->
  commandType q = CMD_UTILITY
  /\ exists query0 q0,
       query = Some query0 /\ result (knot query0 pstate) = Done q0
       /\ utilityStmt q
          = Some (mkUtilityStmt
                    (CreateTableAsStmtNode None into relkind is_select_into) (Some q0)
                    (if bool_decide (relkind = OBJECT_MATVIEW) then Some q0 else None))
       /\ (relkind = OBJECT_MATVIEW ->
           hasModifyingCTE q0 = false /\ isQueryUsingTempRelation q0 = false
           /\ query_contains_extern_params q0 = false
           /\ RangeVar.relpersistence (IntoClause.rel into) <> "u"%char).
Proof.
  intros Hrun. apply result_Done_run in Hrun as (pstate' & tr & Hrun).
  unfold transformCreateTableAsStmt in Hrun.
  destruct query as [query0|]; [|run_inv Hrun].
  apply bind_Done_inv in Hrun as (q0 & pstate1 & tr1 & tr2 & Hknot & Hrun & ->).
  case_bool_decide as Hkind.
  - run_inv Hrun. split; [reflexivity|]. exists query0, q0.
    split_and!; [reflexivity | by rewrite Hknot | reflexivity |].
    intros _. split_and!; try assumption.
    match goal with
    | H : Ascii.eqb _ _ = false |- _ => by apply Ascii.eqb_neq in H
    end.
  - run_inv Hrun. split; [reflexivity|]. exists query0, q0.
    split_and!; [reflexivity | by rewrite Hknot | reflexivity | done].
Qed.

Lemma transformDeleteStmt_calls (stmt : DeleteStmt.t) (pstate : ParseState) :
  Forall (opens_only (DeleteStmt.relation stmt) ACL_DELETE)
    (trace (transformDeleteStmt stmt pstate)).
Proof.
  unfold transformDeleteStmt.
  apply none_bind.
  { destruct (DeleteStmt.withClause stmt) as [w|]; [|constructor].
    apply none_bind; [|intros; by apply process_with_clause_calls].
    unfold with_clause_save_cmd_id. no_such_call ltac:(exact I).
    by repeat constructor. }
  intros ? ?.
  apply none_bind; [apply none_call; by split|intros ? ?].
  unfold transformReturningList.
  no_such_call ltac:(exact I).
Qed.

(** X21 (transformDeleteStmt).  The only table that a DELETE opens as a
    target is the relation of the statement, for the DELETE permission and
    as a source of the query too; a run that returns a query has opened
    it, and the query is a DELETE without DISTINCT. *)
Theorem transformDeleteStmt_opens_target (stmt : DeleteStmt.t) (pstate : ParseState) :
  let run := transformDeleteStmt stmt pstate in
  Forall (opens_only (DeleteStmt.relation stmt) ACL_DELETE) (trace run)
  /\ forall qry, result run = Done qry ->
       Exists (fun ev => exists inh,
                 ev = Ev_setTargetTable (DeleteStmt.relation stmt) inh true ACL_DELETE)
         (trace run)
       /\ commandType qry = CMD_DELETE /\ distinctClause qry = [].
Proof.
  cbv zeta. split; [apply transformDeleteStmt_calls|].
  intros qry Hrun. apply result_Done_run in Hrun as (pstate' & tr & Hrun).
  rewrite Hrun. cbn [trace]. unfold transformDeleteStmt in Hrun.
  apply bind_Done_inv in Hrun as (q1 & p1 & tr1 & tr2 & Hwith & Hrun & ->).
  apply bind_Done_inv in Hrun as (rel & p2 & tr3 & tr4 & Htarget & Hrun & ->).
  apply call_Done_inv in Htarget as (_ & ->).
  assert (Hq1 : commandType q1 = CMD_DELETE).
  { destruct (DeleteStmt.withClause stmt) as [w|].
    - apply bind_Done_inv in Hwith as (q0 & p0 & tr5 & tr6 & Hsave & Hwith & ->).
      apply process_with_clause_keeps in Hwith as (_ & _ & ->).
      unfold with_clause_save_cmd_id in Hsave. run_inv Hsave; reflexivity.
    - run_inv Hwith. reflexivity. }
  split.
  - apply Exists_app. right. apply Exists_cons_hd. eexists. reflexivity.
  - run_inv Hrun; by destruct q1.
Qed.

End Dml.

Lemma transformReturningList_restores_witness :
  exists rlist pstate' tr,
    transformReturningList (collab := Demo.collaborators)
      [Inputs.target "a" (Inputs.int8 1)] Inputs.pstate0
    = mkRun (Done rlist) pstate' tr
    /\ p_next_resno pstate' = p_next_resno Inputs.pstate0.
Proof.
  destruct (transformReturningList (collab := Demo.collaborators)
              [Inputs.target "a" (Inputs.int8 1)] Inputs.pstate0)
    as [[rlist|e] pstate' tr] eqn:Hrun; [|vm_compute in Hrun; discriminate Hrun].
  exists rlist, pstate', tr. split; [reflexivity|].
  exact (proj1 (transformReturningList_restores _ _ _ _ _ Hrun)).
Defined.

Lemma transformCreateTableAsStmt_accepts_witness :
  exists q : Query,
    result (transformCreateTableAsStmt (collab := Demo.collaborators)
              (transformStmt (collab := Demo.collaborators) 7)
              (Some (SelectStmtNode Inputs.source_select))
              (IntoClause.mk Inputs.relation_t) OBJECT_TABLE false Inputs.pstate0)
    = Done q
    /\ commandType q = CMD_UTILITY.
Proof.
  destruct (result (transformCreateTableAsStmt (collab := Demo.collaborators)
                      (transformStmt (collab := Demo.collaborators) 7)
                      (Some (SelectStmtNode Inputs.source_select))
                      (IntoClause.mk Inputs.relation_t) OBJECT_TABLE false
                      Inputs.pstate0))
    as [q|e] eqn:Hrun; [|vm_compute in Hrun; discriminate Hrun].
  exists q. split; [reflexivity|].
  exact (proj1 (transformCreateTableAsStmt_accepts _ _ _ _ _ _ _ Hrun)).
Defined.

(** ** EXECUTE DIRECT *)

Section ExecDirect.
Context {collab : Collaborators}.


End ExecDirect.

